(** * The SMT-LIB v2 front end of Bitwuzla (src/parser/bzlasmt2.c)

    A shallow embedding of the symbol table, the lexer, the reduction of
    terms on the work stack and the command driver, followed by the
    properties that the natural-language specification states about them.

    Conventions of the embedding.
    - C integers are [Z]; every wrap-around is written out ([u32], [s32],
      [size_t]).  [int32_t] characters are [Z] with [EOF = -1].
    - C strings are [string]; a character stack ([BzlaCharStack]) is the
      list of the pushed characters, bottom first.
    - A [BzlaSMT2Node *] is the node itself together with its heap address
      [node_addr]; pointer comparison is comparison of addresses and the
      [next] links of a collision chain are the list of its nodes.
    - Functions that take the parser and mutate it are computations in the
      monad [M]: they return a value and the new parser, or [None] when an
      [assert] of the source is violated or the source reads an object it
      never wrote.
    - The solver behind the parser (boolector.h, bzlabv.h, bzlautil.h) is
      not part of this file of the repository: it is the class [Backend]. *)

From Stdlib Require Import ZArith Lia List String Ascii Bool DecimalString.
From stdpp Require Import base numbers list strings option.
Import ListNotations.
Local Open Scope Z_scope.

(** ** C integers and strings *)

Definition UINT32_MAX : Z := 4294967295.
Definition INT32_MAX : Z := 2147483647.
Definition EOF : Z := -1.

Definition u32 (z : Z) : Z := z mod 2 ^ 32.
Definition s32 (z : Z) : Z := (z + 2 ^ 31) mod 2 ^ 32 - 2 ^ 31.
Definition size_t (z : Z) : Z := z mod 2 ^ 64.

(** [(unsigned char) a] *)
Definition chr (a : ascii) : Z := Z.of_N (N_of_ascii a).

(** The value of a [char] object: [char] is signed on the platforms the
    solver is built for. *)
Definition c_char (a : ascii) : Z :=
  let n := chr a in if n <? 128 then n else n - 256.

Definition strlen (s : string) : Z := Z.of_nat (String.length s).

(** [s[i]], where [s[strlen s]] is the terminating NUL. *)
Definition str_at (s : string) (i : Z) : Z :=
  if i <? 0 then 0
  else match String.get (Z.to_nat i) s with
       | Some a => c_char a
       | None => 0
       end.

(** [s + k] for [k <= strlen s] *)
Fixpoint str_offset (s : string) (k : nat) {struct k} : string :=
  match k with
  | O => s
  | S k' =>
      match s with
      | String _ s' => str_offset s' k'
      | EmptyString => EmptyString
      end
  end.

(** The sign of [strcmp]; the source only tests it against zero. *)
Fixpoint strcmp (a b : string) : Z :=
  match a, b with
  | EmptyString, EmptyString => 0
  | EmptyString, String _ _ => -1
  | String _ _, EmptyString => 1
  | String c a', String d b' =>
      if chr c =? chr d then strcmp a' b'
      else if chr c <? chr d then -1 else 1
  end.

Fixpoint strncmp (a b : string) (n : Z) : Z :=
  if n <=? 0 then 0
  else match a, b with
       | EmptyString, EmptyString => 0
       | EmptyString, String _ _ => -1
       | String _ _, EmptyString => 1
       | String c a', String d b' =>
           if chr c =? chr d then strncmp a' b' (n - 1)
           else if chr c <? chr d then -1 else 1
       end.

(** [isdigit] and [isprint] of <ctype.h> in the C locale *)
Definition isdigit (ch : Z) : bool := (48 <=? ch) && (ch <=? 57).
Definition isprint (ch : Z) : bool := (32 <=? ch) && (ch <=? 126).

(** The characters of a stack up to the first NUL: the C string that
    starts at [stack.start]. *)
Fixpoint c_string (l : list Z) : string :=
  match l with
  | [] => EmptyString
  | c :: l' =>
      if c =? 0 then EmptyString
      else String (ascii_of_N (Z.to_N (c mod 256))) (c_string l')
  end.

(** [printf ("%u")] and [printf ("%d")] *)
Definition fmt_u (z : Z) : string :=
  NilZero.string_of_uint (N.to_uint (Z.to_N (u32 z))).
Definition fmt_d (z : Z) : string :=
  let v := s32 z in
  if v <? 0 then String "-" (NilZero.string_of_uint (N.to_uint (Z.to_N (- v))))
  else NilZero.string_of_uint (N.to_uint (Z.to_N v)).

(** ** Tags (enum BzlaSMT2TagClass, enum BzlaSMT2Tag) *)

Definition BZLA_CLASS_BITS_SMT2 : Z := 6.
Definition BZLA_CLASS_SIZE_SMT2 : Z := Z.shiftl 1 BZLA_CLASS_BITS_SMT2.
Definition BZLA_CLASS_MASK_SMT2 : Z := BZLA_CLASS_SIZE_SMT2 - 1.
Definition BZLA_OTHER_TAG_CLASS_SMT2 : Z := 0.
Definition BZLA_CONSTANT_TAG_CLASS_SMT2 : Z := Z.shiftl BZLA_CLASS_SIZE_SMT2 0.
Definition BZLA_RESERVED_TAG_CLASS_SMT2 : Z := Z.shiftl BZLA_CLASS_SIZE_SMT2 1.
Definition BZLA_COMMAND_TAG_CLASS_SMT2 : Z := Z.shiftl BZLA_CLASS_SIZE_SMT2 2.
Definition BZLA_KEYWORD_TAG_CLASS_SMT2 : Z := Z.shiftl BZLA_CLASS_SIZE_SMT2 3.
Definition BZLA_CORE_TAG_CLASS_SMT2 : Z := Z.shiftl BZLA_CLASS_SIZE_SMT2 4.
Definition BZLA_ARRAY_TAG_CLASS_SMT2 : Z := Z.shiftl BZLA_CLASS_SIZE_SMT2 5.
Definition BZLA_BV_TAG_CLASS_SMT2 : Z := Z.shiftl BZLA_CLASS_SIZE_SMT2 6.
Definition BZLA_FP_TAG_CLASS_SMT2 : Z := Z.shiftl BZLA_CLASS_SIZE_SMT2 7.
Definition BZLA_LOGIC_TAG_CLASS_SMT2 : Z := Z.shiftl BZLA_CLASS_SIZE_SMT2 8.

Definition BZLA_TAG_CLASS_MASK_SMT2 : Z :=
  Z.lor BZLA_RESERVED_TAG_CLASS_SMT2
    (Z.lor BZLA_COMMAND_TAG_CLASS_SMT2
       (Z.lor BZLA_KEYWORD_TAG_CLASS_SMT2
          (Z.lor BZLA_CORE_TAG_CLASS_SMT2
             (Z.lor BZLA_ARRAY_TAG_CLASS_SMT2
                (Z.lor BZLA_BV_TAG_CLASS_SMT2
                   (Z.lor BZLA_FP_TAG_CLASS_SMT2 BZLA_LOGIC_TAG_CLASS_SMT2)))))).

Definition BZLA_INVALID_TAG_SMT2 : Z := 0 + BZLA_OTHER_TAG_CLASS_SMT2.
Definition BZLA_PARENT_TAG_SMT2 : Z := 1 + BZLA_OTHER_TAG_CLASS_SMT2.
Definition BZLA_LPAR_TAG_SMT2 : Z := 2 + BZLA_OTHER_TAG_CLASS_SMT2.
Definition BZLA_RPAR_TAG_SMT2 : Z := 3 + BZLA_OTHER_TAG_CLASS_SMT2.
Definition BZLA_SYMBOL_TAG_SMT2 : Z := 4 + BZLA_OTHER_TAG_CLASS_SMT2.
Definition BZLA_ATTRIBUTE_TAG_SMT2 : Z := 5 + BZLA_OTHER_TAG_CLASS_SMT2.
Definition BZLA_EXP_TAG_SMT2 : Z := 6 + BZLA_OTHER_TAG_CLASS_SMT2.
Definition BZLA_LETBIND_TAG_SMT2 : Z := 7 + BZLA_OTHER_TAG_CLASS_SMT2.
Definition BZLA_PARLETBINDING_TAG_SMT2 : Z := 8 + BZLA_OTHER_TAG_CLASS_SMT2.
Definition BZLA_SORTED_VAR_TAG_SMT2 : Z := 9 + BZLA_OTHER_TAG_CLASS_SMT2.
Definition BZLA_SORTED_VARS_TAG_SMT2 : Z := 10 + BZLA_OTHER_TAG_CLASS_SMT2.

Definition BZLA_DECIMAL_CONSTANT_TAG_SMT2 : Z := 0 + BZLA_CONSTANT_TAG_CLASS_SMT2.
Definition BZLA_HEXADECIMAL_CONSTANT_TAG_SMT2 : Z := 1 + BZLA_CONSTANT_TAG_CLASS_SMT2.
Definition BZLA_BINARY_CONSTANT_TAG_SMT2 : Z := 2 + BZLA_CONSTANT_TAG_CLASS_SMT2.
Definition BZLA_STRING_CONSTANT_TAG_SMT2 : Z := 3 + BZLA_CONSTANT_TAG_CLASS_SMT2.
Definition BZLA_REAL_CONSTANT_TAG_SMT2 : Z := 4 + BZLA_CONSTANT_TAG_CLASS_SMT2.

Definition BZLA_UNDERSCORE_TAG_SMT2 : Z := 4 + BZLA_RESERVED_TAG_CLASS_SMT2.
Definition BZLA_BANG_TAG_SMT2 : Z := 5 + BZLA_RESERVED_TAG_CLASS_SMT2.
Definition BZLA_AS_TAG_SMT2 : Z := 6 + BZLA_RESERVED_TAG_CLASS_SMT2.
Definition BZLA_LET_TAG_SMT2 : Z := 7 + BZLA_RESERVED_TAG_CLASS_SMT2.
Definition BZLA_FORALL_TAG_SMT2 : Z := 8 + BZLA_RESERVED_TAG_CLASS_SMT2.
Definition BZLA_EXISTS_TAG_SMT2 : Z := 9 + BZLA_RESERVED_TAG_CLASS_SMT2.

Definition BZLA_SET_LOGIC_TAG_SMT2 : Z := 0 + BZLA_COMMAND_TAG_CLASS_SMT2.
Definition BZLA_DEFINE_FUN_TAG_SMT2 : Z := 6 + BZLA_COMMAND_TAG_CLASS_SMT2.
Definition BZLA_PUSH_TAG_SMT2 : Z := 8 + BZLA_COMMAND_TAG_CLASS_SMT2.
Definition BZLA_POP_TAG_SMT2 : Z := 9 + BZLA_COMMAND_TAG_CLASS_SMT2.

Definition BZLA_EQUAL_TAG_SMT2 : Z := 8 + BZLA_CORE_TAG_CLASS_SMT2.
Definition BZLA_DISTINCT_TAG_SMT2 : Z := 9 + BZLA_CORE_TAG_CLASS_SMT2.

Definition BZLA_BV_REPEAT_TAG_SMT2 : Z := 24 + BZLA_BV_TAG_CLASS_SMT2.
Definition BZLA_BV_ZERO_EXTEND_TAG_SMT2 : Z := 25 + BZLA_BV_TAG_CLASS_SMT2.
Definition BZLA_BV_SIGN_EXTEND_TAG_SMT2 : Z := 26 + BZLA_BV_TAG_CLASS_SMT2.
Definition BZLA_BV_EXTRACT_TAG_SMT2 : Z := 2 + BZLA_BV_TAG_CLASS_SMT2.
Definition BZLA_BV_ROTATE_LEFT_TAG_SMT2 : Z := 27 + BZLA_BV_TAG_CLASS_SMT2.
Definition BZLA_BV_ROTATE_RIGHT_TAG_SMT2 : Z := 28 + BZLA_BV_TAG_CLASS_SMT2.
Definition BZLA_BV_EXT_ROTATE_LEFT_TAG_SMT2 : Z := 38 + BZLA_BV_TAG_CLASS_SMT2.
Definition BZLA_BV_EXT_ROTATE_RIGHT_TAG_SMT2 : Z := 39 + BZLA_BV_TAG_CLASS_SMT2.

Definition BZLA_FP_POS_ZERO_TAG_SMT2 : Z := 17 + BZLA_FP_TAG_CLASS_SMT2.
Definition BZLA_FP_NEG_ZERO_TAG_SMT2 : Z := 18 + BZLA_FP_TAG_CLASS_SMT2.
Definition BZLA_FP_POS_INF_TAG_SMT2 : Z := 19 + BZLA_FP_TAG_CLASS_SMT2.
Definition BZLA_FP_NEG_INF_TAG_SMT2 : Z := 20 + BZLA_FP_TAG_CLASS_SMT2.
Definition BZLA_FP_NAN_TAG_SMT2 : Z := 21 + BZLA_FP_TAG_CLASS_SMT2.
Definition BZLA_FP_ADD_TAG_SMT2 : Z := 24 + BZLA_FP_TAG_CLASS_SMT2.
Definition BZLA_FP_SUB_TAG_SMT2 : Z := 25 + BZLA_FP_TAG_CLASS_SMT2.
Definition BZLA_FP_MUL_TAG_SMT2 : Z := 26 + BZLA_FP_TAG_CLASS_SMT2.
Definition BZLA_FP_DIV_TAG_SMT2 : Z := 27 + BZLA_FP_TAG_CLASS_SMT2.
Definition BZLA_FP_FMA_TAG_SMT2 : Z := 28 + BZLA_FP_TAG_CLASS_SMT2.
Definition BZLA_FP_SQRT_TAG_SMT2 : Z := 29 + BZLA_FP_TAG_CLASS_SMT2.
Definition BZLA_FP_ROUND_TO_INT_TAG_SMT2 : Z := 31 + BZLA_FP_TAG_CLASS_SMT2.
Definition BZLA_FP_TO_FP_TAG_SMT2 : Z := 46 + BZLA_FP_TAG_CLASS_SMT2.
Definition BZLA_FP_TO_FP_UNSIGNED_TAG_SMT2 : Z := 47 + BZLA_FP_TAG_CLASS_SMT2.

Definition BZLA_LOGIC_QF_ABV_TAG_SMT2 : Z := 4 + BZLA_LOGIC_TAG_CLASS_SMT2.
Definition BZLA_LOGIC_QF_AUFBV_TAG_SMT2 : Z := 5 + BZLA_LOGIC_TAG_CLASS_SMT2.
Definition BZLA_LOGIC_QF_BV_TAG_SMT2 : Z := 8 + BZLA_LOGIC_TAG_CLASS_SMT2.
Definition BZLA_LOGIC_QF_BVFP_TAG_SMT2 : Z := 9 + BZLA_LOGIC_TAG_CLASS_SMT2.
Definition BZLA_LOGIC_QF_FP_TAG_SMT2 : Z := 10 + BZLA_LOGIC_TAG_CLASS_SMT2.
Definition BZLA_LOGIC_QF_UFBV_TAG_SMT2 : Z := 18 + BZLA_LOGIC_TAG_CLASS_SMT2.
Definition BZLA_LOGIC_BV_TAG_SMT2 : Z := 25 + BZLA_LOGIC_TAG_CLASS_SMT2.
Definition BZLA_LOGIC_UFBV_TAG_SMT2 : Z := 26 + BZLA_LOGIC_TAG_CLASS_SMT2.
Definition BZLA_LOGIC_ABV_TAG_SMT2 : Z := 27 + BZLA_LOGIC_TAG_CLASS_SMT2.
Definition BZLA_LOGIC_ALL_TAG_SMT2 : Z := 28 + BZLA_LOGIC_TAG_CLASS_SMT2.

(** ** Character classes (enum BzlaSMT2CharClass, init_char_classes_smt2) *)

Definition BZLA_DECIMAL_DIGIT_CHAR_CLASS_SMT2 : Z := Z.shiftl 1 0.
Definition BZLA_HEXADECIMAL_DIGIT_CHAR_CLASS_SMT2 : Z := Z.shiftl 1 1.
Definition BZLA_STRING_CHAR_CLASS_SMT2 : Z := Z.shiftl 1 2.
Definition BZLA_SYMBOL_CHAR_CLASS_SMT2 : Z := Z.shiftl 1 3.
Definition BZLA_QUOTED_SYMBOL_CHAR_CLASS_SMT2 : Z := Z.shiftl 1 4.
Definition BZLA_KEYWORD_CHAR_CLASS_SMT2 : Z := Z.shiftl 1 5.

Definition bzla_printable_ascii_chars_smt2 : string :=
  String "!" (String "034" "#$%&'()*+,-./")
  +:+ "0123456789" +:+ ":;<=>?@" +:+ "ABCDEFGHIJKLMNOPQRSTUVWXYZ"
  +:+ "[\]^_`" +:+ "abcdefghijklmnopqrstuvwxyz" +:+ "{|}~"
  +:+ String " " (String "009" (String "013" (String "010" EmptyString))).
Definition bzla_letters_smt2 : string :=
  "ABCDEFGHIJKLMNOPQRSTUVWXYZabcdefghijklmnopqrstuvwxyz".
Definition bzla_decimal_digits_smt2 : string := "0123456789".
Definition bzla_hexadecimal_digits_smt2 : string := "0123456789abcdefABCDEF".
Definition bzla_extra_symbol_chars_smt2 : string := "+-/*=%?!.$_~&^<>@".
Definition bzla_extra_keyword_chars_smt2 : string := "+-/*=%?!.$_~&^<>@".

Definition cc_mark (chars : list ascii) (class : Z) (cc : list Z) : list Z :=
  fold_left
    (fun cc a =>
       let i := Z.to_nat (chr a) in <[i := Z.lor (cc !!! i) class]> cc)
    chars cc.

Definition init_char_classes_smt2 : list Z :=
  let cc := replicate 256 0 in
  let cc := cc_mark (list_ascii_of_string bzla_decimal_digits_smt2)
              BZLA_DECIMAL_DIGIT_CHAR_CLASS_SMT2 cc in
  let cc := cc_mark (list_ascii_of_string bzla_hexadecimal_digits_smt2)
              BZLA_HEXADECIMAL_DIGIT_CHAR_CLASS_SMT2 cc in
  let cc := cc_mark (list_ascii_of_string bzla_printable_ascii_chars_smt2)
              BZLA_STRING_CHAR_CLASS_SMT2 cc in
  let cc := cc_mark (list_ascii_of_string bzla_letters_smt2)
              BZLA_SYMBOL_CHAR_CLASS_SMT2 cc in
  let cc := cc_mark (list_ascii_of_string bzla_decimal_digits_smt2)
              BZLA_SYMBOL_CHAR_CLASS_SMT2 cc in
  let cc := cc_mark (list_ascii_of_string bzla_extra_symbol_chars_smt2)
              BZLA_SYMBOL_CHAR_CLASS_SMT2 cc in
  let cc := cc_mark
              (List.filter
                 (fun a => negb (chr a =? chr "\") && negb (chr a =? chr "|"))
                 (list_ascii_of_string bzla_printable_ascii_chars_smt2))
              BZLA_QUOTED_SYMBOL_CHAR_CLASS_SMT2 cc in
  let cc := cc_mark (list_ascii_of_string bzla_letters_smt2)
              BZLA_KEYWORD_CHAR_CLASS_SMT2 cc in
  let cc := cc_mark (list_ascii_of_string bzla_decimal_digits_smt2)
              BZLA_KEYWORD_CHAR_CLASS_SMT2 cc in
  cc_mark (list_ascii_of_string bzla_extra_keyword_chars_smt2)
    BZLA_KEYWORD_CHAR_CLASS_SMT2 cc.

(** [parser->cc]: written once by [new_smt2_parser], read-only afterwards. *)
Definition parser_cc : list Z := Eval vm_compute in init_char_classes_smt2.

Definition cc_smt2 (ch : Z) : Z :=
  if (ch <? 0) || (ch >=? 256) then 0 else parser_cc !!! Z.to_nat ch.

Definition isspace_smt2 (ch : Z) : bool :=
  (ch =? chr " ") || (ch =? chr "009") || (ch =? chr "013") || (ch =? chr "010").

(** ** The solver behind the parser

    The parser drives the solver through the functions declared in
    boolector.h; none of them is defined in the parser.  Term and sort
    constructors are functions on handles (reference counting, that is
    [boolector_copy] and [boolector_release], is left out: a handle is the
    term it denotes); the assertion stack is the state [Bzla]. *)

Class Backend := {
  Bzla : Type;
  BoolectorNode : Type;
  BoolectorSort : Type;
  boolector_is_array : BoolectorNode -> bool;
  boolector_is_fun : BoolectorNode -> bool;
  boolector_is_const : BoolectorNode -> bool;
  boolector_bv_get_width : BoolectorNode -> Z;
  boolector_array_get_index_width : BoolectorNode -> Z;
  boolector_is_equal_sort : BoolectorNode -> BoolectorNode -> bool;
  boolector_get_bits : BoolectorNode -> string;
  boolector_eq : BoolectorNode -> BoolectorNode -> BoolectorNode;
  boolector_ne : BoolectorNode -> BoolectorNode -> BoolectorNode;
  boolector_and : BoolectorNode -> BoolectorNode -> BoolectorNode;
  boolector_bv_slice : BoolectorNode -> Z -> Z -> BoolectorNode;
  boolector_roli : BoolectorNode -> Z -> BoolectorNode;
  boolector_rori : BoolectorNode -> Z -> BoolectorNode;
  boolector_bv_sort : Z -> BoolectorSort;
  boolector_const : string -> BoolectorNode;
  boolector_zero : BoolectorSort -> BoolectorNode;
  bzla_util_dec_to_bin_str : string -> string;
  boolector_push : Bzla -> Z -> Bzla;
  boolector_pop : Bzla -> Z -> Bzla;
  elapsed_seconds : nat -> string;
}.

(** ** Parser data (struct BzlaSMT2Coo, BzlaSMT2Node, BzlaSMT2Item,
       BzlaSMT2Parser) *)

Record BzlaSMT2Coo := { coo_x : Z; coo_y : Z }.

(** The three values that [perr_smt2] hands to [bzla_mem_parse_error_msg]
    next to the file name: line, column and the formatted message. *)
Record BzlaSMT2Error := { err_x : Z; err_y : Z; err_msg : string }.

(** [BzlaParseResult] as the parser uses it. *)
Record BzlaParseResult := { logic : Z; status : Z; result : Z; nsatcalls : Z }.

Record BzlaSMT2Commands := {
  all : Z; set_logic : Z; asserts : Z; check_sat : Z; exits : Z; model : Z
}.

Section Parser.
Context `{Backend}.

Record BzlaSMT2Node := {
  node_addr : positive;
  node_tag : Z;
  node_bound : bool;
  node_sort : bool;
  node_scope_level : Z;
  node_coo : BzlaSMT2Coo;
  node_name : string;
  node_exp : option BoolectorNode;
  node_sort_alias : option BoolectorSort;
}.

(** The second union of an item: the member that was written last. *)
Inductive BzlaSMT2ItemUnion :=
| ItemZero
| ItemNode (node : BzlaSMT2Node)
| ItemExp (exp : BoolectorNode)
| ItemSort (sort : BoolectorSort)
| ItemStr (str : string).

(** [num] and [idx0] share their storage. *)
Record BzlaSMT2Item := {
  item_tag : Z;
  item_coo : BzlaSMT2Coo;
  item_idx0 : Z;
  item_idx1 : Z;
  item_u : BzlaSMT2ItemUnion;
}.

Definition item_num (i : BzlaSMT2Item) : Z := item_idx0 i.

Record BzlaSMT2Symbols := {
  size : Z;
  count : Z;
  table : list (list BzlaSMT2Node);
}.

Record BzlaSMT2Parser := {
  bzla : Bzla;
  done : bool;
  need_arrays : bool;
  need_functions : bool;
  need_quantifiers : bool;
  saved : bool;
  savedch : Z;
  last_end_of_line_ycoo : Z;
  open : Z;
  nprefix : Z;
  sorted_var : Z;
  isvarbinding : bool;
  expecting_body : option string;
  error : option BzlaSMT2Error;
  infile : list Z;
  outfile : list string;
  store_tokens : bool;
  prefix : option (list Z);
  token : list Z;
  tokens : list Z;
  work : list BzlaSMT2Item;
  coo : BzlaSMT2Coo;
  lastcoo : BzlaSMT2Coo;
  nextcoo : BzlaSMT2Coo;
  perrcoo : BzlaSMT2Coo;
  last_node : option BzlaSMT2Node;
  res : BzlaParseResult;
  scope_level : Z;
  symbol : BzlaSMT2Symbols;
  commands : BzlaSMT2Commands;
  print_success : bool;
  global_declarations : bool;
  mem : positive;
  msgs : list (Z * string);
}.

Definition set_bzla (v : Bzla) (p : BzlaSMT2Parser) : BzlaSMT2Parser :=
  {| bzla := v; done := done p; need_arrays := need_arrays p; need_functions
  := need_functions p; need_quantifiers := need_quantifiers p; saved := saved
  p; savedch := savedch p; last_end_of_line_ycoo := last_end_of_line_ycoo p;
  open := open p; nprefix := nprefix p; sorted_var := sorted_var p;
  isvarbinding := isvarbinding p; expecting_body := expecting_body p; error :=
  error p; infile := infile p; outfile := outfile p; store_tokens :=
  store_tokens p; prefix := prefix p; token := token p; tokens := tokens p;
  work := work p; coo := coo p; lastcoo := lastcoo p; nextcoo := nextcoo p;
  perrcoo := perrcoo p; last_node := last_node p; res := res p; scope_level :=
  scope_level p; symbol := symbol p; commands := commands p; print_success :=
  print_success p; global_declarations := global_declarations p; mem := mem p;
  msgs := msgs p |}.
Definition set_done (v : bool) (p : BzlaSMT2Parser) : BzlaSMT2Parser :=
  {| bzla := bzla p; done := v; need_arrays := need_arrays p; need_functions
  := need_functions p; need_quantifiers := need_quantifiers p; saved := saved
  p; savedch := savedch p; last_end_of_line_ycoo := last_end_of_line_ycoo p;
  open := open p; nprefix := nprefix p; sorted_var := sorted_var p;
  isvarbinding := isvarbinding p; expecting_body := expecting_body p; error :=
  error p; infile := infile p; outfile := outfile p; store_tokens :=
  store_tokens p; prefix := prefix p; token := token p; tokens := tokens p;
  work := work p; coo := coo p; lastcoo := lastcoo p; nextcoo := nextcoo p;
  perrcoo := perrcoo p; last_node := last_node p; res := res p; scope_level :=
  scope_level p; symbol := symbol p; commands := commands p; print_success :=
  print_success p; global_declarations := global_declarations p; mem := mem p;
  msgs := msgs p |}.
Definition set_need_arrays (v : bool) (p : BzlaSMT2Parser) : BzlaSMT2Parser :=
  {| bzla := bzla p; done := done p; need_arrays := v; need_functions :=
  need_functions p; need_quantifiers := need_quantifiers p; saved := saved p;
  savedch := savedch p; last_end_of_line_ycoo := last_end_of_line_ycoo p; open
  := open p; nprefix := nprefix p; sorted_var := sorted_var p; isvarbinding :=
  isvarbinding p; expecting_body := expecting_body p; error := error p; infile
  := infile p; outfile := outfile p; store_tokens := store_tokens p; prefix :=
  prefix p; token := token p; tokens := tokens p; work := work p; coo := coo
  p; lastcoo := lastcoo p; nextcoo := nextcoo p; perrcoo := perrcoo p;
  last_node := last_node p; res := res p; scope_level := scope_level p; symbol
  := symbol p; commands := commands p; print_success := print_success p;
  global_declarations := global_declarations p; mem := mem p; msgs := msgs p
  |}.
Definition set_need_functions (v : bool) (p : BzlaSMT2Parser) : BzlaSMT2Parser :=
  {| bzla := bzla p; done := done p; need_arrays := need_arrays p;
  need_functions := v; need_quantifiers := need_quantifiers p; saved := saved
  p; savedch := savedch p; last_end_of_line_ycoo := last_end_of_line_ycoo p;
  open := open p; nprefix := nprefix p; sorted_var := sorted_var p;
  isvarbinding := isvarbinding p; expecting_body := expecting_body p; error :=
  error p; infile := infile p; outfile := outfile p; store_tokens :=
  store_tokens p; prefix := prefix p; token := token p; tokens := tokens p;
  work := work p; coo := coo p; lastcoo := lastcoo p; nextcoo := nextcoo p;
  perrcoo := perrcoo p; last_node := last_node p; res := res p; scope_level :=
  scope_level p; symbol := symbol p; commands := commands p; print_success :=
  print_success p; global_declarations := global_declarations p; mem := mem p;
  msgs := msgs p |}.
Definition set_need_quantifiers (v : bool) (p : BzlaSMT2Parser) : BzlaSMT2Parser :=
  {| bzla := bzla p; done := done p; need_arrays := need_arrays p;
  need_functions := need_functions p; need_quantifiers := v; saved := saved p;
  savedch := savedch p; last_end_of_line_ycoo := last_end_of_line_ycoo p; open
  := open p; nprefix := nprefix p; sorted_var := sorted_var p; isvarbinding :=
  isvarbinding p; expecting_body := expecting_body p; error := error p; infile
  := infile p; outfile := outfile p; store_tokens := store_tokens p; prefix :=
  prefix p; token := token p; tokens := tokens p; work := work p; coo := coo
  p; lastcoo := lastcoo p; nextcoo := nextcoo p; perrcoo := perrcoo p;
  last_node := last_node p; res := res p; scope_level := scope_level p; symbol
  := symbol p; commands := commands p; print_success := print_success p;
  global_declarations := global_declarations p; mem := mem p; msgs := msgs p
  |}.
Definition set_saved (v : bool) (p : BzlaSMT2Parser) : BzlaSMT2Parser :=
  {| bzla := bzla p; done := done p; need_arrays := need_arrays p;
  need_functions := need_functions p; need_quantifiers := need_quantifiers p;
  saved := v; savedch := savedch p; last_end_of_line_ycoo :=
  last_end_of_line_ycoo p; open := open p; nprefix := nprefix p; sorted_var :=
  sorted_var p; isvarbinding := isvarbinding p; expecting_body :=
  expecting_body p; error := error p; infile := infile p; outfile := outfile
  p; store_tokens := store_tokens p; prefix := prefix p; token := token p;
  tokens := tokens p; work := work p; coo := coo p; lastcoo := lastcoo p;
  nextcoo := nextcoo p; perrcoo := perrcoo p; last_node := last_node p; res :=
  res p; scope_level := scope_level p; symbol := symbol p; commands :=
  commands p; print_success := print_success p; global_declarations :=
  global_declarations p; mem := mem p; msgs := msgs p |}.
Definition set_savedch (v : Z) (p : BzlaSMT2Parser) : BzlaSMT2Parser :=
  {| bzla := bzla p; done := done p; need_arrays := need_arrays p;
  need_functions := need_functions p; need_quantifiers := need_quantifiers p;
  saved := saved p; savedch := v; last_end_of_line_ycoo :=
  last_end_of_line_ycoo p; open := open p; nprefix := nprefix p; sorted_var :=
  sorted_var p; isvarbinding := isvarbinding p; expecting_body :=
  expecting_body p; error := error p; infile := infile p; outfile := outfile
  p; store_tokens := store_tokens p; prefix := prefix p; token := token p;
  tokens := tokens p; work := work p; coo := coo p; lastcoo := lastcoo p;
  nextcoo := nextcoo p; perrcoo := perrcoo p; last_node := last_node p; res :=
  res p; scope_level := scope_level p; symbol := symbol p; commands :=
  commands p; print_success := print_success p; global_declarations :=
  global_declarations p; mem := mem p; msgs := msgs p |}.
Definition set_last_end_of_line_ycoo (v : Z) (p : BzlaSMT2Parser) : BzlaSMT2Parser :=
  {| bzla := bzla p; done := done p; need_arrays := need_arrays p;
  need_functions := need_functions p; need_quantifiers := need_quantifiers p;
  saved := saved p; savedch := savedch p; last_end_of_line_ycoo := v; open :=
  open p; nprefix := nprefix p; sorted_var := sorted_var p; isvarbinding :=
  isvarbinding p; expecting_body := expecting_body p; error := error p; infile
  := infile p; outfile := outfile p; store_tokens := store_tokens p; prefix :=
  prefix p; token := token p; tokens := tokens p; work := work p; coo := coo
  p; lastcoo := lastcoo p; nextcoo := nextcoo p; perrcoo := perrcoo p;
  last_node := last_node p; res := res p; scope_level := scope_level p; symbol
  := symbol p; commands := commands p; print_success := print_success p;
  global_declarations := global_declarations p; mem := mem p; msgs := msgs p
  |}.
Definition set_open (v : Z) (p : BzlaSMT2Parser) : BzlaSMT2Parser :=
  {| bzla := bzla p; done := done p; need_arrays := need_arrays p;
  need_functions := need_functions p; need_quantifiers := need_quantifiers p;
  saved := saved p; savedch := savedch p; last_end_of_line_ycoo :=
  last_end_of_line_ycoo p; open := v; nprefix := nprefix p; sorted_var :=
  sorted_var p; isvarbinding := isvarbinding p; expecting_body :=
  expecting_body p; error := error p; infile := infile p; outfile := outfile
  p; store_tokens := store_tokens p; prefix := prefix p; token := token p;
  tokens := tokens p; work := work p; coo := coo p; lastcoo := lastcoo p;
  nextcoo := nextcoo p; perrcoo := perrcoo p; last_node := last_node p; res :=
  res p; scope_level := scope_level p; symbol := symbol p; commands :=
  commands p; print_success := print_success p; global_declarations :=
  global_declarations p; mem := mem p; msgs := msgs p |}.
Definition set_nprefix (v : Z) (p : BzlaSMT2Parser) : BzlaSMT2Parser :=
  {| bzla := bzla p; done := done p; need_arrays := need_arrays p;
  need_functions := need_functions p; need_quantifiers := need_quantifiers p;
  saved := saved p; savedch := savedch p; last_end_of_line_ycoo :=
  last_end_of_line_ycoo p; open := open p; nprefix := v; sorted_var :=
  sorted_var p; isvarbinding := isvarbinding p; expecting_body :=
  expecting_body p; error := error p; infile := infile p; outfile := outfile
  p; store_tokens := store_tokens p; prefix := prefix p; token := token p;
  tokens := tokens p; work := work p; coo := coo p; lastcoo := lastcoo p;
  nextcoo := nextcoo p; perrcoo := perrcoo p; last_node := last_node p; res :=
  res p; scope_level := scope_level p; symbol := symbol p; commands :=
  commands p; print_success := print_success p; global_declarations :=
  global_declarations p; mem := mem p; msgs := msgs p |}.
Definition set_sorted_var (v : Z) (p : BzlaSMT2Parser) : BzlaSMT2Parser :=
  {| bzla := bzla p; done := done p; need_arrays := need_arrays p;
  need_functions := need_functions p; need_quantifiers := need_quantifiers p;
  saved := saved p; savedch := savedch p; last_end_of_line_ycoo :=
  last_end_of_line_ycoo p; open := open p; nprefix := nprefix p; sorted_var :=
  v; isvarbinding := isvarbinding p; expecting_body := expecting_body p; error
  := error p; infile := infile p; outfile := outfile p; store_tokens :=
  store_tokens p; prefix := prefix p; token := token p; tokens := tokens p;
  work := work p; coo := coo p; lastcoo := lastcoo p; nextcoo := nextcoo p;
  perrcoo := perrcoo p; last_node := last_node p; res := res p; scope_level :=
  scope_level p; symbol := symbol p; commands := commands p; print_success :=
  print_success p; global_declarations := global_declarations p; mem := mem p;
  msgs := msgs p |}.
Definition set_isvarbinding (v : bool) (p : BzlaSMT2Parser) : BzlaSMT2Parser :=
  {| bzla := bzla p; done := done p; need_arrays := need_arrays p;
  need_functions := need_functions p; need_quantifiers := need_quantifiers p;
  saved := saved p; savedch := savedch p; last_end_of_line_ycoo :=
  last_end_of_line_ycoo p; open := open p; nprefix := nprefix p; sorted_var :=
  sorted_var p; isvarbinding := v; expecting_body := expecting_body p; error
  := error p; infile := infile p; outfile := outfile p; store_tokens :=
  store_tokens p; prefix := prefix p; token := token p; tokens := tokens p;
  work := work p; coo := coo p; lastcoo := lastcoo p; nextcoo := nextcoo p;
  perrcoo := perrcoo p; last_node := last_node p; res := res p; scope_level :=
  scope_level p; symbol := symbol p; commands := commands p; print_success :=
  print_success p; global_declarations := global_declarations p; mem := mem p;
  msgs := msgs p |}.
Definition set_expecting_body (v : option string) (p : BzlaSMT2Parser) : BzlaSMT2Parser :=
  {| bzla := bzla p; done := done p; need_arrays := need_arrays p;
  need_functions := need_functions p; need_quantifiers := need_quantifiers p;
  saved := saved p; savedch := savedch p; last_end_of_line_ycoo :=
  last_end_of_line_ycoo p; open := open p; nprefix := nprefix p; sorted_var :=
  sorted_var p; isvarbinding := isvarbinding p; expecting_body := v; error :=
  error p; infile := infile p; outfile := outfile p; store_tokens :=
  store_tokens p; prefix := prefix p; token := token p; tokens := tokens p;
  work := work p; coo := coo p; lastcoo := lastcoo p; nextcoo := nextcoo p;
  perrcoo := perrcoo p; last_node := last_node p; res := res p; scope_level :=
  scope_level p; symbol := symbol p; commands := commands p; print_success :=
  print_success p; global_declarations := global_declarations p; mem := mem p;
  msgs := msgs p |}.
Definition set_error (v : option BzlaSMT2Error) (p : BzlaSMT2Parser) : BzlaSMT2Parser :=
  {| bzla := bzla p; done := done p; need_arrays := need_arrays p;
  need_functions := need_functions p; need_quantifiers := need_quantifiers p;
  saved := saved p; savedch := savedch p; last_end_of_line_ycoo :=
  last_end_of_line_ycoo p; open := open p; nprefix := nprefix p; sorted_var :=
  sorted_var p; isvarbinding := isvarbinding p; expecting_body :=
  expecting_body p; error := v; infile := infile p; outfile := outfile p;
  store_tokens := store_tokens p; prefix := prefix p; token := token p; tokens
  := tokens p; work := work p; coo := coo p; lastcoo := lastcoo p; nextcoo :=
  nextcoo p; perrcoo := perrcoo p; last_node := last_node p; res := res p;
  scope_level := scope_level p; symbol := symbol p; commands := commands p;
  print_success := print_success p; global_declarations := global_declarations
  p; mem := mem p; msgs := msgs p |}.
Definition set_infile (v : list Z) (p : BzlaSMT2Parser) : BzlaSMT2Parser :=
  {| bzla := bzla p; done := done p; need_arrays := need_arrays p;
  need_functions := need_functions p; need_quantifiers := need_quantifiers p;
  saved := saved p; savedch := savedch p; last_end_of_line_ycoo :=
  last_end_of_line_ycoo p; open := open p; nprefix := nprefix p; sorted_var :=
  sorted_var p; isvarbinding := isvarbinding p; expecting_body :=
  expecting_body p; error := error p; infile := v; outfile := outfile p;
  store_tokens := store_tokens p; prefix := prefix p; token := token p; tokens
  := tokens p; work := work p; coo := coo p; lastcoo := lastcoo p; nextcoo :=
  nextcoo p; perrcoo := perrcoo p; last_node := last_node p; res := res p;
  scope_level := scope_level p; symbol := symbol p; commands := commands p;
  print_success := print_success p; global_declarations := global_declarations
  p; mem := mem p; msgs := msgs p |}.
Definition set_outfile (v : list string) (p : BzlaSMT2Parser) : BzlaSMT2Parser :=
  {| bzla := bzla p; done := done p; need_arrays := need_arrays p;
  need_functions := need_functions p; need_quantifiers := need_quantifiers p;
  saved := saved p; savedch := savedch p; last_end_of_line_ycoo :=
  last_end_of_line_ycoo p; open := open p; nprefix := nprefix p; sorted_var :=
  sorted_var p; isvarbinding := isvarbinding p; expecting_body :=
  expecting_body p; error := error p; infile := infile p; outfile := v;
  store_tokens := store_tokens p; prefix := prefix p; token := token p; tokens
  := tokens p; work := work p; coo := coo p; lastcoo := lastcoo p; nextcoo :=
  nextcoo p; perrcoo := perrcoo p; last_node := last_node p; res := res p;
  scope_level := scope_level p; symbol := symbol p; commands := commands p;
  print_success := print_success p; global_declarations := global_declarations
  p; mem := mem p; msgs := msgs p |}.
Definition set_store_tokens (v : bool) (p : BzlaSMT2Parser) : BzlaSMT2Parser :=
  {| bzla := bzla p; done := done p; need_arrays := need_arrays p;
  need_functions := need_functions p; need_quantifiers := need_quantifiers p;
  saved := saved p; savedch := savedch p; last_end_of_line_ycoo :=
  last_end_of_line_ycoo p; open := open p; nprefix := nprefix p; sorted_var :=
  sorted_var p; isvarbinding := isvarbinding p; expecting_body :=
  expecting_body p; error := error p; infile := infile p; outfile := outfile
  p; store_tokens := v; prefix := prefix p; token := token p; tokens := tokens
  p; work := work p; coo := coo p; lastcoo := lastcoo p; nextcoo := nextcoo p;
  perrcoo := perrcoo p; last_node := last_node p; res := res p; scope_level :=
  scope_level p; symbol := symbol p; commands := commands p; print_success :=
  print_success p; global_declarations := global_declarations p; mem := mem p;
  msgs := msgs p |}.
Definition set_prefix (v : option (list Z)) (p : BzlaSMT2Parser) : BzlaSMT2Parser :=
  {| bzla := bzla p; done := done p; need_arrays := need_arrays p;
  need_functions := need_functions p; need_quantifiers := need_quantifiers p;
  saved := saved p; savedch := savedch p; last_end_of_line_ycoo :=
  last_end_of_line_ycoo p; open := open p; nprefix := nprefix p; sorted_var :=
  sorted_var p; isvarbinding := isvarbinding p; expecting_body :=
  expecting_body p; error := error p; infile := infile p; outfile := outfile
  p; store_tokens := store_tokens p; prefix := v; token := token p; tokens :=
  tokens p; work := work p; coo := coo p; lastcoo := lastcoo p; nextcoo :=
  nextcoo p; perrcoo := perrcoo p; last_node := last_node p; res := res p;
  scope_level := scope_level p; symbol := symbol p; commands := commands p;
  print_success := print_success p; global_declarations := global_declarations
  p; mem := mem p; msgs := msgs p |}.
Definition set_token (v : list Z) (p : BzlaSMT2Parser) : BzlaSMT2Parser :=
  {| bzla := bzla p; done := done p; need_arrays := need_arrays p;
  need_functions := need_functions p; need_quantifiers := need_quantifiers p;
  saved := saved p; savedch := savedch p; last_end_of_line_ycoo :=
  last_end_of_line_ycoo p; open := open p; nprefix := nprefix p; sorted_var :=
  sorted_var p; isvarbinding := isvarbinding p; expecting_body :=
  expecting_body p; error := error p; infile := infile p; outfile := outfile
  p; store_tokens := store_tokens p; prefix := prefix p; token := v; tokens :=
  tokens p; work := work p; coo := coo p; lastcoo := lastcoo p; nextcoo :=
  nextcoo p; perrcoo := perrcoo p; last_node := last_node p; res := res p;
  scope_level := scope_level p; symbol := symbol p; commands := commands p;
  print_success := print_success p; global_declarations := global_declarations
  p; mem := mem p; msgs := msgs p |}.
Definition set_tokens (v : list Z) (p : BzlaSMT2Parser) : BzlaSMT2Parser :=
  {| bzla := bzla p; done := done p; need_arrays := need_arrays p;
  need_functions := need_functions p; need_quantifiers := need_quantifiers p;
  saved := saved p; savedch := savedch p; last_end_of_line_ycoo :=
  last_end_of_line_ycoo p; open := open p; nprefix := nprefix p; sorted_var :=
  sorted_var p; isvarbinding := isvarbinding p; expecting_body :=
  expecting_body p; error := error p; infile := infile p; outfile := outfile
  p; store_tokens := store_tokens p; prefix := prefix p; token := token p;
  tokens := v; work := work p; coo := coo p; lastcoo := lastcoo p; nextcoo :=
  nextcoo p; perrcoo := perrcoo p; last_node := last_node p; res := res p;
  scope_level := scope_level p; symbol := symbol p; commands := commands p;
  print_success := print_success p; global_declarations := global_declarations
  p; mem := mem p; msgs := msgs p |}.
Definition set_work (v : list BzlaSMT2Item) (p : BzlaSMT2Parser) : BzlaSMT2Parser :=
  {| bzla := bzla p; done := done p; need_arrays := need_arrays p;
  need_functions := need_functions p; need_quantifiers := need_quantifiers p;
  saved := saved p; savedch := savedch p; last_end_of_line_ycoo :=
  last_end_of_line_ycoo p; open := open p; nprefix := nprefix p; sorted_var :=
  sorted_var p; isvarbinding := isvarbinding p; expecting_body :=
  expecting_body p; error := error p; infile := infile p; outfile := outfile
  p; store_tokens := store_tokens p; prefix := prefix p; token := token p;
  tokens := tokens p; work := v; coo := coo p; lastcoo := lastcoo p; nextcoo
  := nextcoo p; perrcoo := perrcoo p; last_node := last_node p; res := res p;
  scope_level := scope_level p; symbol := symbol p; commands := commands p;
  print_success := print_success p; global_declarations := global_declarations
  p; mem := mem p; msgs := msgs p |}.
Definition set_coo (v : BzlaSMT2Coo) (p : BzlaSMT2Parser) : BzlaSMT2Parser :=
  {| bzla := bzla p; done := done p; need_arrays := need_arrays p;
  need_functions := need_functions p; need_quantifiers := need_quantifiers p;
  saved := saved p; savedch := savedch p; last_end_of_line_ycoo :=
  last_end_of_line_ycoo p; open := open p; nprefix := nprefix p; sorted_var :=
  sorted_var p; isvarbinding := isvarbinding p; expecting_body :=
  expecting_body p; error := error p; infile := infile p; outfile := outfile
  p; store_tokens := store_tokens p; prefix := prefix p; token := token p;
  tokens := tokens p; work := work p; coo := v; lastcoo := lastcoo p; nextcoo
  := nextcoo p; perrcoo := perrcoo p; last_node := last_node p; res := res p;
  scope_level := scope_level p; symbol := symbol p; commands := commands p;
  print_success := print_success p; global_declarations := global_declarations
  p; mem := mem p; msgs := msgs p |}.
Definition set_lastcoo (v : BzlaSMT2Coo) (p : BzlaSMT2Parser) : BzlaSMT2Parser :=
  {| bzla := bzla p; done := done p; need_arrays := need_arrays p;
  need_functions := need_functions p; need_quantifiers := need_quantifiers p;
  saved := saved p; savedch := savedch p; last_end_of_line_ycoo :=
  last_end_of_line_ycoo p; open := open p; nprefix := nprefix p; sorted_var :=
  sorted_var p; isvarbinding := isvarbinding p; expecting_body :=
  expecting_body p; error := error p; infile := infile p; outfile := outfile
  p; store_tokens := store_tokens p; prefix := prefix p; token := token p;
  tokens := tokens p; work := work p; coo := coo p; lastcoo := v; nextcoo :=
  nextcoo p; perrcoo := perrcoo p; last_node := last_node p; res := res p;
  scope_level := scope_level p; symbol := symbol p; commands := commands p;
  print_success := print_success p; global_declarations := global_declarations
  p; mem := mem p; msgs := msgs p |}.
Definition set_nextcoo (v : BzlaSMT2Coo) (p : BzlaSMT2Parser) : BzlaSMT2Parser :=
  {| bzla := bzla p; done := done p; need_arrays := need_arrays p;
  need_functions := need_functions p; need_quantifiers := need_quantifiers p;
  saved := saved p; savedch := savedch p; last_end_of_line_ycoo :=
  last_end_of_line_ycoo p; open := open p; nprefix := nprefix p; sorted_var :=
  sorted_var p; isvarbinding := isvarbinding p; expecting_body :=
  expecting_body p; error := error p; infile := infile p; outfile := outfile
  p; store_tokens := store_tokens p; prefix := prefix p; token := token p;
  tokens := tokens p; work := work p; coo := coo p; lastcoo := lastcoo p;
  nextcoo := v; perrcoo := perrcoo p; last_node := last_node p; res := res p;
  scope_level := scope_level p; symbol := symbol p; commands := commands p;
  print_success := print_success p; global_declarations := global_declarations
  p; mem := mem p; msgs := msgs p |}.
Definition set_perrcoo (v : BzlaSMT2Coo) (p : BzlaSMT2Parser) : BzlaSMT2Parser :=
  {| bzla := bzla p; done := done p; need_arrays := need_arrays p;
  need_functions := need_functions p; need_quantifiers := need_quantifiers p;
  saved := saved p; savedch := savedch p; last_end_of_line_ycoo :=
  last_end_of_line_ycoo p; open := open p; nprefix := nprefix p; sorted_var :=
  sorted_var p; isvarbinding := isvarbinding p; expecting_body :=
  expecting_body p; error := error p; infile := infile p; outfile := outfile
  p; store_tokens := store_tokens p; prefix := prefix p; token := token p;
  tokens := tokens p; work := work p; coo := coo p; lastcoo := lastcoo p;
  nextcoo := nextcoo p; perrcoo := v; last_node := last_node p; res := res p;
  scope_level := scope_level p; symbol := symbol p; commands := commands p;
  print_success := print_success p; global_declarations := global_declarations
  p; mem := mem p; msgs := msgs p |}.
Definition set_last_node (v : option BzlaSMT2Node) (p : BzlaSMT2Parser) : BzlaSMT2Parser :=
  {| bzla := bzla p; done := done p; need_arrays := need_arrays p;
  need_functions := need_functions p; need_quantifiers := need_quantifiers p;
  saved := saved p; savedch := savedch p; last_end_of_line_ycoo :=
  last_end_of_line_ycoo p; open := open p; nprefix := nprefix p; sorted_var :=
  sorted_var p; isvarbinding := isvarbinding p; expecting_body :=
  expecting_body p; error := error p; infile := infile p; outfile := outfile
  p; store_tokens := store_tokens p; prefix := prefix p; token := token p;
  tokens := tokens p; work := work p; coo := coo p; lastcoo := lastcoo p;
  nextcoo := nextcoo p; perrcoo := perrcoo p; last_node := v; res := res p;
  scope_level := scope_level p; symbol := symbol p; commands := commands p;
  print_success := print_success p; global_declarations := global_declarations
  p; mem := mem p; msgs := msgs p |}.
Definition set_res (v : BzlaParseResult) (p : BzlaSMT2Parser) : BzlaSMT2Parser :=
  {| bzla := bzla p; done := done p; need_arrays := need_arrays p;
  need_functions := need_functions p; need_quantifiers := need_quantifiers p;
  saved := saved p; savedch := savedch p; last_end_of_line_ycoo :=
  last_end_of_line_ycoo p; open := open p; nprefix := nprefix p; sorted_var :=
  sorted_var p; isvarbinding := isvarbinding p; expecting_body :=
  expecting_body p; error := error p; infile := infile p; outfile := outfile
  p; store_tokens := store_tokens p; prefix := prefix p; token := token p;
  tokens := tokens p; work := work p; coo := coo p; lastcoo := lastcoo p;
  nextcoo := nextcoo p; perrcoo := perrcoo p; last_node := last_node p; res :=
  v; scope_level := scope_level p; symbol := symbol p; commands := commands p;
  print_success := print_success p; global_declarations := global_declarations
  p; mem := mem p; msgs := msgs p |}.
Definition set_scope_level (v : Z) (p : BzlaSMT2Parser) : BzlaSMT2Parser :=
  {| bzla := bzla p; done := done p; need_arrays := need_arrays p;
  need_functions := need_functions p; need_quantifiers := need_quantifiers p;
  saved := saved p; savedch := savedch p; last_end_of_line_ycoo :=
  last_end_of_line_ycoo p; open := open p; nprefix := nprefix p; sorted_var :=
  sorted_var p; isvarbinding := isvarbinding p; expecting_body :=
  expecting_body p; error := error p; infile := infile p; outfile := outfile
  p; store_tokens := store_tokens p; prefix := prefix p; token := token p;
  tokens := tokens p; work := work p; coo := coo p; lastcoo := lastcoo p;
  nextcoo := nextcoo p; perrcoo := perrcoo p; last_node := last_node p; res :=
  res p; scope_level := v; symbol := symbol p; commands := commands p;
  print_success := print_success p; global_declarations := global_declarations
  p; mem := mem p; msgs := msgs p |}.
Definition set_symbol (v : BzlaSMT2Symbols) (p : BzlaSMT2Parser) : BzlaSMT2Parser :=
  {| bzla := bzla p; done := done p; need_arrays := need_arrays p;
  need_functions := need_functions p; need_quantifiers := need_quantifiers p;
  saved := saved p; savedch := savedch p; last_end_of_line_ycoo :=
  last_end_of_line_ycoo p; open := open p; nprefix := nprefix p; sorted_var :=
  sorted_var p; isvarbinding := isvarbinding p; expecting_body :=
  expecting_body p; error := error p; infile := infile p; outfile := outfile
  p; store_tokens := store_tokens p; prefix := prefix p; token := token p;
  tokens := tokens p; work := work p; coo := coo p; lastcoo := lastcoo p;
  nextcoo := nextcoo p; perrcoo := perrcoo p; last_node := last_node p; res :=
  res p; scope_level := scope_level p; symbol := v; commands := commands p;
  print_success := print_success p; global_declarations := global_declarations
  p; mem := mem p; msgs := msgs p |}.
Definition set_commands (v : BzlaSMT2Commands) (p : BzlaSMT2Parser) : BzlaSMT2Parser :=
  {| bzla := bzla p; done := done p; need_arrays := need_arrays p;
  need_functions := need_functions p; need_quantifiers := need_quantifiers p;
  saved := saved p; savedch := savedch p; last_end_of_line_ycoo :=
  last_end_of_line_ycoo p; open := open p; nprefix := nprefix p; sorted_var :=
  sorted_var p; isvarbinding := isvarbinding p; expecting_body :=
  expecting_body p; error := error p; infile := infile p; outfile := outfile
  p; store_tokens := store_tokens p; prefix := prefix p; token := token p;
  tokens := tokens p; work := work p; coo := coo p; lastcoo := lastcoo p;
  nextcoo := nextcoo p; perrcoo := perrcoo p; last_node := last_node p; res :=
  res p; scope_level := scope_level p; symbol := symbol p; commands := v;
  print_success := print_success p; global_declarations := global_declarations
  p; mem := mem p; msgs := msgs p |}.
Definition set_print_success (v : bool) (p : BzlaSMT2Parser) : BzlaSMT2Parser :=
  {| bzla := bzla p; done := done p; need_arrays := need_arrays p;
  need_functions := need_functions p; need_quantifiers := need_quantifiers p;
  saved := saved p; savedch := savedch p; last_end_of_line_ycoo :=
  last_end_of_line_ycoo p; open := open p; nprefix := nprefix p; sorted_var :=
  sorted_var p; isvarbinding := isvarbinding p; expecting_body :=
  expecting_body p; error := error p; infile := infile p; outfile := outfile
  p; store_tokens := store_tokens p; prefix := prefix p; token := token p;
  tokens := tokens p; work := work p; coo := coo p; lastcoo := lastcoo p;
  nextcoo := nextcoo p; perrcoo := perrcoo p; last_node := last_node p; res :=
  res p; scope_level := scope_level p; symbol := symbol p; commands :=
  commands p; print_success := v; global_declarations := global_declarations
  p; mem := mem p; msgs := msgs p |}.
Definition set_global_declarations (v : bool) (p : BzlaSMT2Parser) : BzlaSMT2Parser :=
  {| bzla := bzla p; done := done p; need_arrays := need_arrays p;
  need_functions := need_functions p; need_quantifiers := need_quantifiers p;
  saved := saved p; savedch := savedch p; last_end_of_line_ycoo :=
  last_end_of_line_ycoo p; open := open p; nprefix := nprefix p; sorted_var :=
  sorted_var p; isvarbinding := isvarbinding p; expecting_body :=
  expecting_body p; error := error p; infile := infile p; outfile := outfile
  p; store_tokens := store_tokens p; prefix := prefix p; token := token p;
  tokens := tokens p; work := work p; coo := coo p; lastcoo := lastcoo p;
  nextcoo := nextcoo p; perrcoo := perrcoo p; last_node := last_node p; res :=
  res p; scope_level := scope_level p; symbol := symbol p; commands :=
  commands p; print_success := print_success p; global_declarations := v; mem
  := mem p; msgs := msgs p |}.
Definition set_mem (v : positive) (p : BzlaSMT2Parser) : BzlaSMT2Parser :=
  {| bzla := bzla p; done := done p; need_arrays := need_arrays p;
  need_functions := need_functions p; need_quantifiers := need_quantifiers p;
  saved := saved p; savedch := savedch p; last_end_of_line_ycoo :=
  last_end_of_line_ycoo p; open := open p; nprefix := nprefix p; sorted_var :=
  sorted_var p; isvarbinding := isvarbinding p; expecting_body :=
  expecting_body p; error := error p; infile := infile p; outfile := outfile
  p; store_tokens := store_tokens p; prefix := prefix p; token := token p;
  tokens := tokens p; work := work p; coo := coo p; lastcoo := lastcoo p;
  nextcoo := nextcoo p; perrcoo := perrcoo p; last_node := last_node p; res :=
  res p; scope_level := scope_level p; symbol := symbol p; commands :=
  commands p; print_success := print_success p; global_declarations :=
  global_declarations p; mem := v; msgs := msgs p |}.
Definition set_msgs (v : list (Z * string)) (p : BzlaSMT2Parser) : BzlaSMT2Parser :=
  {| bzla := bzla p; done := done p; need_arrays := need_arrays p;
  need_functions := need_functions p; need_quantifiers := need_quantifiers p;
  saved := saved p; savedch := savedch p; last_end_of_line_ycoo :=
  last_end_of_line_ycoo p; open := open p; nprefix := nprefix p; sorted_var :=
  sorted_var p; isvarbinding := isvarbinding p; expecting_body :=
  expecting_body p; error := error p; infile := infile p; outfile := outfile
  p; store_tokens := store_tokens p; prefix := prefix p; token := token p;
  tokens := tokens p; work := work p; coo := coo p; lastcoo := lastcoo p;
  nextcoo := nextcoo p; perrcoo := perrcoo p; last_node := last_node p; res :=
  res p; scope_level := scope_level p; symbol := symbol p; commands :=
  commands p; print_success := print_success p; global_declarations :=
  global_declarations p; mem := mem p; msgs := v |}.

Definition set_node_addr (a : positive) (n : BzlaSMT2Node) : BzlaSMT2Node :=
  {| node_addr := a; node_tag := node_tag n; node_bound := node_bound n;
     node_sort := node_sort n; node_scope_level := node_scope_level n;
     node_coo := node_coo n; node_name := node_name n;
     node_exp := node_exp n; node_sort_alias := node_sort_alias n |}.
Definition set_node_name (v : string) (n : BzlaSMT2Node) : BzlaSMT2Node :=
  {| node_addr := node_addr n; node_tag := node_tag n;
     node_bound := node_bound n; node_sort := node_sort n;
     node_scope_level := node_scope_level n; node_coo := node_coo n;
     node_name := v; node_exp := node_exp n;
     node_sort_alias := node_sort_alias n |}.

Definition set_item_tag (v : Z) (i : BzlaSMT2Item) : BzlaSMT2Item :=
  {| item_tag := v; item_coo := item_coo i; item_idx0 := item_idx0 i;
     item_idx1 := item_idx1 i; item_u := item_u i |}.
Definition set_item_idx0 (v : Z) (i : BzlaSMT2Item) : BzlaSMT2Item :=
  {| item_tag := item_tag i; item_coo := item_coo i; item_idx0 := v;
     item_idx1 := item_idx1 i; item_u := item_u i |}.
Definition set_item_idx1 (v : Z) (i : BzlaSMT2Item) : BzlaSMT2Item :=
  {| item_tag := item_tag i; item_coo := item_coo i; item_idx0 := item_idx0 i;
     item_idx1 := v; item_u := item_u i |}.
Definition set_item_u (v : BzlaSMT2ItemUnion) (i : BzlaSMT2Item) : BzlaSMT2Item :=
  {| item_tag := item_tag i; item_coo := item_coo i; item_idx0 := item_idx0 i;
     item_idx1 := item_idx1 i; item_u := v |}.

Definition set_coo_x (v : Z) (c : BzlaSMT2Coo) : BzlaSMT2Coo :=
  {| coo_x := v; coo_y := coo_y c |}.
Definition set_coo_y (v : Z) (c : BzlaSMT2Coo) : BzlaSMT2Coo :=
  {| coo_x := coo_x c; coo_y := v |}.

(** ** The parser monad *)

Definition M (A : Type) : Type := BzlaSMT2Parser -> option (A * BzlaSMT2Parser).

Definition ret {A} (a : A) : M A := fun p => Some (a, p).
Definition bind {A B} (m : M A) (f : A -> M B) : M B :=
  fun p => match m p with Some (a, p') => f a p' | None => None end.
Definition get : M BzlaSMT2Parser := fun p => Some (p, p).
Definition gets {A} (f : BzlaSMT2Parser -> A) : M A := fun p => Some (f p, p).
Definition modify (f : BzlaSMT2Parser -> BzlaSMT2Parser) : M unit :=
  fun p => Some (tt, f p).
(** [assert (b)]; also used where the source would read an indeterminate
    value. *)
Definition assert_ (b : bool) : M unit := fun p => if b then Some (tt, p) else None.
Definition undefined {A} : M A := fun _ => None.

End Parser.

Declare Scope monad_scope.
Delimit Scope monad_scope with monad.
Notation "'do' x <- m ; k" := (bind m (fun x => k))
  (at level 10, x name, m at level 100, k at level 200,
   format "'[v' 'do'  x  <-  m ; '/' k ']'") : monad_scope.
Notation "'do' ' pat <- m ; k" := (bind m (fun x => match x with pat => k end))
  (at level 10, pat pattern, m at level 100, k at level 200) : monad_scope.
Notation "'run' m ; k" := (bind m (fun _ => k))
  (at level 10, m at level 100, k at level 200,
   format "'[v' 'run'  m ; '/' k ']'") : monad_scope.
Local Open Scope monad_scope.

Section Model.
Context `{Backend}.

(** [BZLA_MSG (msg, level, ...)]: the message with its verbosity level;
    whether it is printed is decided by the macro, which is not part of
    this file. *)
Definition BZLA_MSG (level : Z) (text : string) : M unit :=
  modify (fun parser => set_msgs (msgs parser ++ [(level, text)]) parser).

(** The text that [printf] writes for a number of seconds, the difference
    of two readings of [bzla_util_time_stamp], in the message that is
    recorded next. *)
Definition seconds_text : M string :=
  do parser <- get;
  ret (elapsed_seconds (length (msgs parser))).

Definition mforeach {A} (l : list A) (f : A -> M unit) : M unit :=
  fold_left (fun m a => run m; f a) l (ret tt).

(** ** Error reporting (xcoo_smt2, ycoo_smt2, perr_smt2) *)

Definition xcoo_smt2 (parser : BzlaSMT2Parser) : Z :=
  if negb (coo_x (perrcoo parser) =? 0) then coo_x (perrcoo parser)
  else coo_x (coo parser).

Definition ycoo_smt2 (parser : BzlaSMT2Parser) : Z :=
  if negb (coo_x (perrcoo parser) =? 0) then coo_y (perrcoo parser)
  else coo_y (coo parser).

(** [perr_smt2 (parser, fmt, ...)] with the message already formatted.
    Callers write [return !perr_smt2 (...)], which is [0]. *)
Definition perr_smt2 (msg : string) : M unit :=
  modify (fun parser =>
    match error parser with
    | None =>
        set_error
          (Some {| err_x := xcoo_smt2 parser; err_y := ycoo_smt2 parser;
                   err_msg := msg |}) parser
    | Some _ => parser
    end).

(** ** The symbol table *)

Definition bzla_primes_smt2 : list Z :=
  [1000000007; 2000000011; 3000000019; 4000000007].
Definition BZLA_NPRIMES_SMT2 : Z := Z.of_nat (length bzla_primes_smt2).

(** [name[0] == '|' && name[len - 1] == '|'] *)
Definition is_quoted (name : string) (len : Z) : bool :=
  if str_at name 0 =? chr "|" then str_at name (len - 1) =? chr "|" else false.

Fixpoint hash_name_loop (n : nat) (name : string) (pos len res i : Z) : Z :=
  match n with
  | O => res
  | S n' =>
      if pos <? len then
        let res := u32 (res + str_at name pos) in
        let res := u32 (res * (bzla_primes_smt2 !!! Z.to_nat i)) in
        let i := i + 1 in
        let i := if i =? BZLA_NPRIMES_SMT2 then 0 else i in
        hash_name_loop n' name (pos + 1) len res i
      else res
  end.

Definition hash_name_smt2 (parser : BzlaSMT2Parser) (name : string) : Z :=
  let len := strlen name in
  let '(pos, len) :=
    if is_quoted name len then (1, size_t (len - 1)) else (0, len) in
  Z.land (hash_name_loop (Z.to_nat len) name pos len 0 0)
    (u32 (size (symbol parser) - 1)).

Definition set_table (t : list (list BzlaSMT2Node)) (parser : BzlaSMT2Parser)
  : BzlaSMT2Parser :=
  set_symbol {| size := size (symbol parser); count := count (symbol parser);
                table := t |} parser.

Definition set_count (c : Z) (parser : BzlaSMT2Parser) : BzlaSMT2Parser :=
  set_symbol {| size := size (symbol parser); count := c;
                table := table (symbol parser) |} parser.

(** [for (p = old_table[i]; p; p = p->next) BZLA_PUSH_STACK (chain, p);]
    the head of the list is the top of the stack. *)
Definition push_chain (old_chain : list BzlaSMT2Node) : list BzlaSMT2Node :=
  fold_left (fun chain p => p :: chain) old_chain [].

(** [while (!BZLA_EMPTY_STACK (chain)) { p = BZLA_POP_STACK (chain); ... }] *)
Fixpoint pop_chain (chain : list BzlaSMT2Node) (parser : BzlaSMT2Parser)
  : BzlaSMT2Parser :=
  match chain with
  | [] => parser
  | p :: chain' =>
      let h := Z.to_nat (hash_name_smt2 parser (node_name p)) in
      let q := table (symbol parser) !!! h in
      pop_chain chain' (set_table (<[h := p :: q]> (table (symbol parser))) parser)
  end.

Definition enlarge_symbol_table_smt2 (parser : BzlaSMT2Parser)
  : BzlaSMT2Parser :=
  let old_size := size (symbol parser) in
  let new_size := if negb (old_size =? 0) then u32 (2 * old_size) else 1 in
  let old_table := table (symbol parser) in
  let parser :=
    set_symbol {| size := new_size; count := count (symbol parser);
                  table := replicate (Z.to_nat new_size) [] |} parser in
  fold_left
    (fun parser i => pop_chain (push_chain (old_table !!! Z.to_nat i)) parser)
    (seqZ 0 old_size) parser.

(** The condition under which the loop of [find_symbol_smt2] stops at the
    node named [s_name]. *)
Definition symbol_matches (s_name name : string) : bool :=
  let len_name := strlen name in
  let name_quoted := is_quoted name len_name in
  let len_s := strlen s_name in
  let s_quoted := is_quoted s_name len_s in
  if Bool.eqb s_quoted name_quoted then strcmp s_name name =? 0
  else if s_quoted then
    if size_t (len_s - 2) =? len_name
    then strncmp (str_offset s_name 1) name len_name =? 0 else false
  else if name_quoted then
    if size_t (len_name - 2) =? len_s
    then strncmp s_name (str_offset name 1) len_s =? 0 else false
  else false.

Fixpoint find_in_chain (name : string) (chain : list BzlaSMT2Node)
  : option BzlaSMT2Node :=
  match chain with
  | [] => None
  | s :: chain' =>
      if symbol_matches (node_name s) name then Some s
      else find_in_chain name chain'
  end.

Definition find_symbol_smt2 (parser : BzlaSMT2Parser) (name : string)
  : option BzlaSMT2Node :=
  if size (symbol parser) =? 0 then None
  else
    let h := hash_name_smt2 parser name in
    find_in_chain name (table (symbol parser) !!! Z.to_nat h).

Definition insert_symbol_smt2 (symbol_ : BzlaSMT2Node) : M unit :=
  do parser <- get;
  run (if size (symbol parser) <=? count (symbol parser)
       then modify enlarge_symbol_table_smt2 else ret tt);
  do parser <- get;
  let h := Z.to_nat (hash_name_smt2 parser (node_name symbol_)) in
  let p := table (symbol parser) !!! h in
  run modify (set_table (<[h := symbol_ :: p]> (table (symbol parser))));
  run modify (fun parser => set_count (u32 (count (symbol parser) + 1)) parser);
  do parser <- get;
  run assert_ (0 <? count (symbol parser));
  BZLA_MSG 2 ("insert symbol '" +:+ node_name symbol_ +:+ "' at scope level "
              +:+ fmt_u (scope_level parser)).

(** [BZLA_CNEW]: a zeroed node at a fresh address. *)
Definition new_node_smt2 (tag : Z) : M BzlaSMT2Node :=
  do parser <- get;
  run modify (set_mem (Pos.succ (mem parser)));
  ret {| node_addr := mem parser; node_tag := tag; node_bound := false;
         node_sort := false; node_scope_level := scope_level parser;
         node_coo := {| coo_x := 0; coo_y := 0 |}; node_name := EmptyString;
         node_exp := None; node_sort_alias := None |}.

Definition release_symbol_smt2 (symbol_ : BzlaSMT2Node) : M unit :=
  assert_ (negb (node_tag symbol_ =? BZLA_PARENT_TAG_SMT2)).

(** The walk of [remove_symbol_smt2] along one chain: [None] when it ends
    at the null link, where the assertion that [*p] is [symbol] fails. *)
Fixpoint unlink_symbol (symbol_ : BzlaSMT2Node) (chain : list BzlaSMT2Node)
  : option (list BzlaSMT2Node) :=
  match chain with
  | [] => None
  | s :: chain' =>
      if negb (strcmp (node_name s) (node_name symbol_) =? 0)
         || negb (Pos.eqb (node_addr s) (node_addr symbol_))
      then match unlink_symbol symbol_ chain' with
           | Some c => Some (s :: c)
           | None => None
           end
      else Some chain'
  end.

Definition remove_symbol_smt2 (symbol_ : BzlaSMT2Node) : M unit :=
  do parser <- get;
  run BZLA_MSG 2 ("remove symbol '" +:+ node_name symbol_ +:+ "' at scope level "
                  +:+ fmt_u (scope_level parser));
  do parser <- get;
  let h := Z.to_nat (hash_name_smt2 parser (node_name symbol_)) in
  match unlink_symbol symbol_ (table (symbol parser) !!! h) with
  | None => undefined
  | Some chain =>
      run modify (set_table (<[h := chain]> (table (symbol parser))));
      run release_symbol_smt2 symbol_;
      do parser <- get;
      run assert_ (0 <? count (symbol parser));
      modify (set_count (u32 (count (symbol parser) - 1)))
  end.

Definition open_new_scope : M unit :=
  run modify (fun parser => set_scope_level (u32 (scope_level parser + 1)) parser);
  do parser <- get;
  BZLA_MSG 2 ("opened new scope at level " +:+ fmt_d (scope_level parser)).

Definition close_current_scope : M unit :=
  do parser <- get;
  run (if negb (global_declarations parser) then
         mforeach (seqZ 0 (size (symbol parser)))
           (fun i =>
              do parser <- get;
              mforeach (table (symbol parser) !!! Z.to_nat i)
                (fun node =>
                   do parser <- get;
                   if node_scope_level node =? scope_level parser
                   then remove_symbol_smt2 node else ret tt))
       else ret tt);
  do parser <- get;
  do seconds <- seconds_text;
  run BZLA_MSG 2 ("closed scope at level " +:+ fmt_d (scope_level parser)
                  +:+ " in " +:+ seconds +:+ " seconds");
  modify (fun parser => set_scope_level (u32 (scope_level parser - 1)) parser).


(** ** Reading characters (nextch_smt2, savech_smt2, cerr_smt2) *)

(** Conversion of an [int32_t] to [char]. *)
Definition to_char (ch : Z) : Z := (ch + 128) mod 256 - 128.

(** [getc (parser->infile)] *)
Definition getc : M Z :=
  do parser <- get;
  match infile parser with
  | [] => ret EOF
  | c :: rest => run modify (set_infile rest); ret c
  end.

Definition nextch_smt2 : M Z :=
  do parser <- get;
  do res <-
    (if saved parser then
       run modify (set_saved false); ret (savedch parser)
     else
       match prefix parser with
       | Some pre =>
           if nprefix parser <? Z.of_nat (length pre) then
             run modify (set_nprefix (u32 (nprefix parser + 1)));
             ret (pre !!! Z.to_nat (nprefix parser))
           else getc
       | None => getc
       end);
  do parser <- get;
  run (if res =? chr "010" then
         let x := s32 (coo_x (nextcoo parser) + 1) in
         run modify (set_nextcoo (set_coo_x x (nextcoo parser)));
         run assert_ (0 <? x);
         run modify (set_last_end_of_line_ycoo (coo_y (nextcoo parser)));
         modify (fun parser => set_nextcoo (set_coo_y 1 (nextcoo parser)) parser)
       else
         let y := s32 (coo_y (nextcoo parser) + 1) in
         run modify (set_nextcoo (set_coo_y y (nextcoo parser)));
         assert_ (0 <? y));
  ret res.

Definition savech_smt2 (ch : Z) : M unit :=
  let ch := to_char ch in
  do parser <- get;
  run assert_ (negb (saved parser));
  run modify (set_saved true);
  run modify (set_savedch ch);
  do parser <- get;
  if ch =? chr "010" then
    run assert_ (1 <? coo_x (nextcoo parser));
    modify
      (set_nextcoo
         {| coo_x := s32 (coo_x (nextcoo parser) - 1);
            coo_y := last_end_of_line_ycoo parser |})
  else
    run assert_ (1 <? coo_y (nextcoo parser));
    modify (set_nextcoo (set_coo_y (s32 (coo_y (nextcoo parser) - 1)) (nextcoo parser))).

(** The suffix [" " ++ s] of a message when [s] is given, nothing otherwise. *)
Definition opt_suffix (s : option string) : string :=
  match s with Some s => " " +:+ s | None => EmptyString end.

Definition cerr_smt2 (p : string) (ch : Z) (s : option string) : M unit :=
  do parser <- get;
  run (if negb (saved parser) then savech_smt2 ch else ret tt);
  run modify (fun parser => set_perrcoo (nextcoo parser) parser);
  if ch =? EOF then perr_smt2 (p +:+ " end-of-file" +:+ opt_suffix s)
  else if isprint ch && negb (ch =? chr "\") then
    perr_smt2 (p +:+ " character '" +:+ String (ascii_of_N (Z.to_N ch)) "'"
               +:+ opt_suffix s)
  else
    let '(n, d) :=
      if ch =? chr "\" then ("backslash", Some "\\")
      else if ch =? chr "010" then ("new line", Some "\n")
      else if ch =? chr "009" then ("horizontal tabulator", Some "\t")
      else if ch =? chr "013" then ("carriage return", Some "\r")
      else ("character", None) in
    match d with
    | Some d =>
        perr_smt2 (p +:+ " " +:+ n +:+ " '" +:+ d +:+ "'" +:+ opt_suffix s)
    | None =>
        perr_smt2 (p +:+ " (non-printable) character (code " +:+ fmt_d ch
                   +:+ ")" +:+ opt_suffix s)
    end.

(** ** Assembling a token (storech_smt2, pushch_smt2) *)

Definition storech_smt2 (ch : Z) : M unit :=
  do parser <- get;
  if negb (store_tokens parser) then ret tt
  else
    let t := List.last (tokens parser) 0 in
    if (ch =? 0) && (t =? chr "(") then ret tt
    else
      run (if (ch =? chr ")") && (t =? chr " ")
           then modify (fun parser =>
                  set_tokens (removelast (tokens parser)) parser)
           else ret tt);
      modify (fun parser =>
        set_tokens
          (tokens parser ++ [to_char (if negb (ch =? 0) then ch else chr " ")])
          parser).

Definition pushch_smt2 (ch : Z) : M unit :=
  run assert_ (negb (ch =? EOF));
  run modify (fun parser => set_token (token parser ++ [to_char ch]) parser);
  storech_smt2 ch.

(** ** The lexer (read_token_aux_smt2, read_token_smt2) *)

(** Characters that [nextch_smt2] can still deliver before end-of-file. *)
Definition input_left (parser : BzlaSMT2Parser) : nat :=
  ((if saved parser then 1 else 0)
   + match prefix parser with
     | Some pre => length pre - Z.to_nat (nprefix parser)
     | None => 0
     end
   + length (infile parser))%nat.

(** [for (;;) { ch = nextch_smt2 (parser); if (!test (ch)) break;
    pushch_smt2 (parser, ch); }], returning the character that ended it. *)
Fixpoint read_while (test : Z -> bool) (fuel : nat) : M Z :=
  match fuel with
  | O => undefined
  | S fuel' =>
      do ch <- nextch_smt2;
      if negb (test ch) then ret ch
      else run pushch_smt2 ch; read_while test fuel'
  end.

Definition is_class (class : Z) (ch : Z) : bool :=
  negb (Z.land (cc_smt2 ch) class =? 0).

(** [while ((ch = nextch_smt2 (parser)) != '\n') if (ch == EOF) ...]:
    [false] at end-of-file. *)
Fixpoint skip_comment (fuel : nat) : M bool :=
  match fuel with
  | O => undefined
  | S fuel' =>
      do ch <- nextch_smt2;
      if ch =? chr "010" then ret true
      else if ch =? EOF then ret false
      else skip_comment fuel'
  end.

(** From the label [RESTART] up to the first character of the token:
    [inl tag] when the function returns at once, [inr ch] otherwise. *)
Fixpoint read_token_restart (fuel : nat) : M (Z + Z) :=
  match fuel with
  | O => undefined
  | S fuel' =>
      run modify (fun parser => set_coo (nextcoo parser) parser);
      do ch <- nextch_smt2;
      if ch =? EOF then ret (inl EOF)
      else if isspace_smt2 ch then read_token_restart fuel'
      else if ch =? chr ";" then
        do newline <- skip_comment fuel';
        if newline then read_token_restart fuel'
        else
          run perr_smt2 "unexpected end-of-file in comment";
          ret (inl BZLA_INVALID_TAG_SMT2)
      else ret (inr ch)
  end.

(** The lookup that ends a symbol, a quoted symbol or a keyword. *)
Definition lookup_or_insert_token (tag : Z) : M BzlaSMT2Node :=
  do parser <- get;
  do node <-
    match find_symbol_smt2 parser (c_string (token parser)) with
    | Some node => ret node
    | None =>
        do node <- new_node_smt2 tag;
        let node := set_node_name (c_string (token parser)) node in
        do parser <- get;
        run assert_
          (negb (bool_decide (is_Some (find_symbol_smt2 parser (node_name node)))));
        run insert_symbol_smt2 node;
        ret node
    end;
  run modify (set_last_node (Some node));
  ret node.

Fixpoint read_string (fuel : nat) : M Z :=
  match fuel with
  | O => undefined
  | S fuel' =>
      do ch <- nextch_smt2;
      if ch =? EOF then
        run cerr_smt2 "unexpected" ch (Some "in string");
        ret BZLA_INVALID_TAG_SMT2
      else if ch =? chr "034" then
        run pushch_smt2 (chr "034");
        run pushch_smt2 0;
        ret BZLA_STRING_CONSTANT_TAG_SMT2
      else if ch =? chr "\" then
        do ch <- nextch_smt2;
        if negb (ch =? chr "034") && negb (ch =? chr "\") then
          run cerr_smt2 "unexpected" ch (Some "after backslash '\\' in string");
          ret BZLA_INVALID_TAG_SMT2
        else run pushch_smt2 ch; read_string fuel'
      else if negb (is_class BZLA_STRING_CHAR_CLASS_SMT2 ch) then
        run cerr_smt2 "invalid" ch (Some "in string");
        ret BZLA_INVALID_TAG_SMT2
      else run pushch_smt2 ch; read_string fuel'
  end.

Fixpoint read_quoted_symbol (fuel : nat) : M Z :=
  match fuel with
  | O => undefined
  | S fuel' =>
      do ch <- nextch_smt2;
      if ch =? EOF then
        run cerr_smt2 "unexpected" ch (Some "in quoted symbol");
        ret BZLA_INVALID_TAG_SMT2
      else
        run pushch_smt2 ch;
        if ch =? chr "|" then
          run pushch_smt2 0;
          do node <- lookup_or_insert_token BZLA_SYMBOL_TAG_SMT2;
          ret BZLA_SYMBOL_TAG_SMT2
        else read_quoted_symbol fuel'
  end.

Definition read_token_aux_smt2 : M Z :=
  run modify (set_token []);
  run modify (set_last_node None);
  do parser <- get;
  let fuel := S (S (input_left parser)) in
  do start <- read_token_restart fuel;
  match start with
  | inl tag => ret tag
  | inr ch =>
      let cc := cc_smt2 ch in
      if ch =? chr "(" then
        run pushch_smt2 (chr "(");
        run pushch_smt2 0;
        ret BZLA_LPAR_TAG_SMT2
      else if ch =? chr ")" then
        run pushch_smt2 (chr ")");
        run pushch_smt2 0;
        ret BZLA_RPAR_TAG_SMT2
      else if ch =? chr "#" then
        run pushch_smt2 (chr "#");
        do ch <- nextch_smt2;
        if ch =? EOF then
          run perr_smt2 "unexpected end-of-file after '#'";
          ret BZLA_INVALID_TAG_SMT2
        else if ch =? chr "b" then
          run pushch_smt2 (chr "b");
          do ch <- nextch_smt2;
          if ch =? EOF then
            run perr_smt2 "unexpected end-of-file after '#b'";
            ret BZLA_INVALID_TAG_SMT2
          else if negb (ch =? chr "0") && negb (ch =? chr "1") then
            run perr_smt2 "expected '0' or '1' after '#b'";
            ret BZLA_INVALID_TAG_SMT2
          else
            run pushch_smt2 ch;
            do ch <- read_while (fun ch => (ch =? chr "0") || (ch =? chr "1")) fuel;
            run savech_smt2 ch;
            run pushch_smt2 0;
            ret BZLA_BINARY_CONSTANT_TAG_SMT2
        else if ch =? chr "x" then
          run pushch_smt2 (chr "x");
          do ch <- nextch_smt2;
          if ch =? EOF then
            run perr_smt2 "unexpected end-of-file after '#x'";
            ret BZLA_INVALID_TAG_SMT2
          else if negb (is_class BZLA_HEXADECIMAL_DIGIT_CHAR_CLASS_SMT2 ch) then
            run perr_smt2 "expected hexa-decimal digit after '#x'";
            ret BZLA_INVALID_TAG_SMT2
          else
            run pushch_smt2 ch;
            do ch <- read_while (is_class BZLA_HEXADECIMAL_DIGIT_CHAR_CLASS_SMT2) fuel;
            run savech_smt2 ch;
            run pushch_smt2 0;
            ret BZLA_HEXADECIMAL_CONSTANT_TAG_SMT2
        else
          run perr_smt2 "expected 'x' or 'b' after '#'";
          ret BZLA_INVALID_TAG_SMT2
      else if ch =? chr "034" then
        run pushch_smt2 (chr "034");
        read_string fuel
      else if ch =? chr "|" then
        run pushch_smt2 ch;
        read_quoted_symbol fuel
      else if ch =? chr ":" then
        run pushch_smt2 (chr ":");
        do ch <- nextch_smt2;
        if ch =? EOF then
          run perr_smt2 "unexpected end-of-file after ':'";
          ret BZLA_INVALID_TAG_SMT2
        else if negb (is_class BZLA_KEYWORD_CHAR_CLASS_SMT2 ch) then
          run cerr_smt2 "unexpected" ch (Some "after ':'");
          ret BZLA_INVALID_TAG_SMT2
        else
          run pushch_smt2 ch;
          do ch <- read_while (is_class BZLA_KEYWORD_CHAR_CLASS_SMT2) fuel;
          run savech_smt2 ch;
          run pushch_smt2 0;
          do node <- lookup_or_insert_token BZLA_ATTRIBUTE_TAG_SMT2;
          ret (node_tag node)
      else if ch =? chr "0" then
        let res_tag := BZLA_DECIMAL_CONSTANT_TAG_SMT2 in
        run pushch_smt2 (chr "0");
        do ch <- nextch_smt2;
        if ch =? chr "." then
          let res_tag := BZLA_REAL_CONSTANT_TAG_SMT2 in
          run pushch_smt2 (chr ".");
          do ch <- nextch_smt2;
          if ch =? EOF then
            run perr_smt2 "unexpected end-of-file after '0.'";
            ret BZLA_INVALID_TAG_SMT2
          else if negb (is_class BZLA_DECIMAL_DIGIT_CHAR_CLASS_SMT2 ch) then
            run perr_smt2 "expected decimal digit after '0.'";
            ret BZLA_INVALID_TAG_SMT2
          else
            run pushch_smt2 ch;
            do ch <- read_while (is_class BZLA_DECIMAL_DIGIT_CHAR_CLASS_SMT2) fuel;
            run savech_smt2 ch;
            run pushch_smt2 0;
            ret res_tag
        else
          run savech_smt2 ch;
          run pushch_smt2 0;
          ret res_tag
      else if negb (Z.land cc BZLA_DECIMAL_DIGIT_CHAR_CLASS_SMT2 =? 0) then
        let res_tag := BZLA_DECIMAL_CONSTANT_TAG_SMT2 in
        run pushch_smt2 ch;
        do ch <- read_while (is_class BZLA_DECIMAL_DIGIT_CHAR_CLASS_SMT2) fuel;
        if ch =? chr "." then
          let res_tag := BZLA_REAL_CONSTANT_TAG_SMT2 in
          run pushch_smt2 (chr ".");
          do ch <- nextch_smt2;
          if ch =? EOF then
            run pushch_smt2 0;
            do parser <- get;
            run perr_smt2
              ("unexpected end-of-file after '" +:+ c_string (token parser) +:+ "'");
            ret BZLA_INVALID_TAG_SMT2
          else if negb (is_class BZLA_DECIMAL_DIGIT_CHAR_CLASS_SMT2 ch) then
            run pushch_smt2 0;
            do parser <- get;
            run perr_smt2
              ("expected decimal digit after '" +:+ c_string (token parser) +:+ "'");
            ret BZLA_INVALID_TAG_SMT2
          else
            run pushch_smt2 ch;
            do ch <- read_while (is_class BZLA_DECIMAL_DIGIT_CHAR_CLASS_SMT2) fuel;
            run savech_smt2 ch;
            run pushch_smt2 0;
            ret res_tag
        else
          run savech_smt2 ch;
          run pushch_smt2 0;
          ret res_tag
      else if negb (Z.land cc BZLA_SYMBOL_CHAR_CLASS_SMT2 =? 0) then
        run pushch_smt2 ch;
        do ch <- read_while (is_class BZLA_SYMBOL_CHAR_CLASS_SMT2) fuel;
        run savech_smt2 ch;
        run pushch_smt2 0;
        do parser <- get;
        if strcmp (c_string (token parser)) "_" =? 0 then
          ret BZLA_UNDERSCORE_TAG_SMT2
        else
          do node <- lookup_or_insert_token BZLA_SYMBOL_TAG_SMT2;
          ret (node_tag node)
      else
        run cerr_smt2 "illegal" ch None;
        ret BZLA_INVALID_TAG_SMT2
  end.

(** The trace output under verbosity 4 is not modelled. *)
Definition read_token_smt2 : M Z :=
  run modify (fun parser => set_lastcoo (coo parser) parser);
  read_token_aux_smt2.


(** ** Reading fixed tokens and numbers *)

Definition read_rpar_smt2 (msg : option string) : M Z :=
  do tag <- read_token_smt2;
  let msg := match msg with Some m => m | None => EmptyString end in
  if tag =? EOF then
    run perr_smt2 ("expected ')'" +:+ msg +:+ " at end-of-file"); ret 0
  else if tag =? BZLA_INVALID_TAG_SMT2 then
    do parser <- get;
    run assert_ (bool_decide (is_Some (error parser)));
    ret 0
  else if negb (tag =? BZLA_RPAR_TAG_SMT2) then
    do parser <- get;
    run perr_smt2
      ("expected ')'" +:+ msg +:+ " at '" +:+ c_string (token parser) +:+ "'");
    ret 0
  else ret 1.

Definition read_lpar_smt2 (msg : option string) : M Z :=
  do tag <- read_token_smt2;
  let msg := match msg with Some m => m | None => EmptyString end in
  if tag =? EOF then
    run perr_smt2 ("expected '('" +:+ msg +:+ " at end-of-file"); ret 0
  else if tag =? BZLA_INVALID_TAG_SMT2 then
    do parser <- get;
    run assert_ (bool_decide (is_Some (error parser)));
    ret 0
  else if negb (tag =? BZLA_LPAR_TAG_SMT2) then
    do parser <- get;
    run perr_smt2
      ("expected '('" +:+ msg +:+ " at '" +:+ c_string (token parser) +:+ "'");
    ret 0
  else ret 1.

Definition u64 (z : Z) : Z := z mod 2 ^ 64.

(** The loop of [str2uint32_smt2]: [None] at the label [INVALID]. *)
Fixpoint str2uint32_loop (p : string) (res : Z) : option Z :=
  match p with
  | EmptyString => Some res
  | String a p' =>
      let ch := c_char a in
      if (UINT32_MAX / 10 <? res) || (ch <? chr "0") || (chr "9" <? ch)
      then None
      else
        let res := if negb (res =? 0) then u64 (res * 10) else res in
        let digit := ch - chr "0" in
        if u32 (UINT32_MAX - digit) <? res then None
        else str2uint32_loop p' (u64 (res + digit))
  end.

(** [str2uint32_smt2 (parser, allow_zero, str, resptr)]: [Some v] when it
    returns 1 after storing [v] in [*resptr], [None] when it returns 0. *)
Definition str2uint32_smt2 (allow_zero : bool) (str : string) : M (option Z) :=
  match str2uint32_loop str 0 with
  | None =>
      run perr_smt2 ("invalid 32-bit integer '" +:+ str +:+ "'"); ret None
  | Some res =>
      if negb allow_zero && (res =? 0) then
        run perr_smt2
          ("expected positive non-zero 32-bit integer at '" +:+ str +:+ "'");
        ret None
      else
        run assert_ (res <=? UINT32_MAX);
        ret (Some (u32 res))
  end.

Definition parse_uint32_smt2 (allow_zero : bool) : M (option Z) :=
  do tag <- read_token_smt2;
  if tag =? BZLA_INVALID_TAG_SMT2 then ret None
  else if tag =? EOF then
    run perr_smt2 "expected decimal constant but reached end-of-file";
    ret None
  else if negb (tag =? BZLA_DECIMAL_CONSTANT_TAG_SMT2) then
    do parser <- get;
    run perr_smt2
      ("expected decimal constant at '" +:+ c_string (token parser) +:+ "'");
    ret None
  else
    do parser <- get;
    str2uint32_smt2 allow_zero (c_string (token parser)).

(** ** The work stack

    A [BzlaSMT2Item *] into the stack is the index of the item;
    [parser->work.top] is the length of [work]. *)

Definition item_at (i : nat) : M BzlaSMT2Item :=
  do parser <- get;
  match work parser !! i with
  | Some item => ret item
  | None => undefined
  end.

(** [item->exp] and [item->node]: defined when that member of the union
    was the one written. *)
Definition item_exp (item : BzlaSMT2Item) : M BoolectorNode :=
  match item_u item with ItemExp exp => ret exp | _ => undefined end.
Definition item_node (item : BzlaSMT2Item) : M BzlaSMT2Node :=
  match item_u item with ItemNode node => ret node | _ => undefined end.

Definition exp_at (i : nat) : M BoolectorNode :=
  do item <- item_at i; item_exp item.
Definition node_name_at (i : nat) : M string :=
  do item <- item_at i; do node <- item_node item; ret (node_name node).

(** [p + i] *)
Definition idx (p : nat) (i : Z) : nat := (p + Z.to_nat i)%nat.

Definition update_item (i : nat) (f : BzlaSMT2Item -> BzlaSMT2Item) : M unit :=
  modify (fun parser => set_work (alter f i (work parser)) parser).

Definition push_item_smt2 (tag : Z) : M nat :=
  do parser <- get;
  let item := {| item_tag := tag; item_coo := coo parser; item_idx0 := 0;
                 item_idx1 := 0; item_u := ItemZero |} in
  run modify (set_work (work parser ++ [item]));
  ret (length (work parser)).

Fixpoint last_lpar_from (work_ : list BzlaSMT2Item) (p : nat) : option nat :=
  match p with
  | O => None
  | S p' =>
      match work_ !! p' with
      | Some item =>
          if item_tag item =? BZLA_LPAR_TAG_SMT2 then Some p'
          else last_lpar_from work_ p'
      | None => None
      end
  end.

Definition last_lpar_smt2 (parser : BzlaSMT2Parser) : option nat :=
  last_lpar_from (work parser) (length (work parser)).

Definition is_item_with_node_smt2 (item : BzlaSMT2Item) : bool :=
  if item_tag item =? BZLA_SYMBOL_TAG_SMT2 then true
  else if item_tag item =? BZLA_ATTRIBUTE_TAG_SMT2 then true
  else negb (Z.land (item_tag item) BZLA_TAG_CLASS_MASK_SMT2 =? 0).

Definition item2str_smt2 (item : BzlaSMT2Item) : M string :=
  if is_item_with_node_smt2 item then
    match item_u item with
    | ItemZero => ret "<zero-node-item>"
    | ItemNode node => ret (node_name node)
    | _ => undefined
    end
  else if negb (Z.land (item_tag item) BZLA_CONSTANT_TAG_CLASS_SMT2 =? 0) then
    match item_u item with
    | ItemStr str => ret str
    | _ => undefined
    end
  else ret "<non-printable-item>".

Definition is_bvconst_str_smt2 (str : string) : bool :=
  if negb (str_at str 0 =? chr "b") || negb (str_at str 1 =? chr "v") then false
  else if negb (isdigit (str_at str 2)) then false
  else forallb (fun a => isdigit (c_char a)) (list_ascii_of_string (str_offset str 3)).

Definition prev_item_was_lpar_smt2 : M bool :=
  do parser <- get;
  let n := length (work parser) in
  if (2 <=? n)%nat
     && match work parser !! (n - 2)%nat with
        | Some item => item_tag item =? BZLA_LPAR_TAG_SMT2
        | None => false
        end
  then ret true
  else
    run perr_smt2 ("expected '(' before '" +:+ c_string (token parser) +:+ "'");
    ret false.

(** Runs [body] on the elements of [range] until one of them returns
    [false]: a [for] loop whose body may [return 0]. *)
Fixpoint mall (range : list Z) (body : Z -> M bool) : M bool :=
  match range with
  | [] => ret true
  | i :: range' => do ok <- body i; if ok then mall range' body else ret false
  end.

Fixpoint mfold {A} (range : list Z) (body : A -> Z -> M A) (a : A) : M A :=
  match range with
  | [] => ret a
  | i :: range' => do a' <- body a i; mfold range' body a'
  end.

(** ** Checks on the arguments of an operator *)

Definition check_arg_sorts_match_smt2 (p : nat) (offset nargs : Z) : M bool :=
  run assert_ (1 <=? nargs);
  do item_p <- item_at p;
  run modify (set_perrcoo (item_coo item_p));
  let j := u32 (offset + 1) in
  do pj <- exp_at (idx p j);
  let width := boolector_bv_get_width pj in
  do ok <-
    (if boolector_is_array pj then
       let domain := boolector_array_get_index_width pj in
       mall (seqZ (j + 1) (nargs - j))
         (fun i =>
            do pi <- exp_at (idx p i);
            if negb (boolector_is_array pi) then
              do name <- node_name_at p;
              run perr_smt2
                ("first argument of '" +:+ name
                 +:+ "' is an array but argument " +:+ fmt_d i +:+ " is not");
              ret false
            else if negb (boolector_bv_get_width pi =? width) then
              do name <- node_name_at p;
              run perr_smt2
                ("first argument of '" +:+ name
                 +:+ "' is an array of bit-vectors of width " +:+ fmt_d width
                 +:+ " but argument " +:+ fmt_d i
                 +:+ " is an array of bit-vectors of width "
                 +:+ fmt_d (boolector_bv_get_width pi));
              ret false
            else if negb (boolector_array_get_index_width pi =? domain) then
              do name <- node_name_at p;
              run perr_smt2
                ("first argument of '" +:+ name
                 +:+ "' is an array with index bit-vectors of width "
                 +:+ fmt_d domain +:+ " but argument " +:+ fmt_d i
                 +:+ " is an array with index bit-vectors of width "
                 +:+ fmt_d (boolector_array_get_index_width pi));
              ret false
            else ret true)
     else if boolector_is_fun pj then
       mall (seqZ (j + 1) (nargs - j))
         (fun i =>
            do pi <- exp_at (idx p i);
            if negb (boolector_is_fun pi) then
              do name <- node_name_at p;
              run perr_smt2
                ("first argument of '" +:+ name
                 +:+ "' is a function but argument " +:+ fmt_d i +:+ " not");
              ret false
            else
              do p1 <- exp_at (idx p 1);
              if negb (boolector_is_equal_sort p1 pi) then
                do name <- node_name_at p;
                run perr_smt2
                  ("sort of argument " +:+ fmt_d i
                   +:+ " does not match with sort of first argument of '"
                   +:+ name +:+ "'");
                ret false
              else ret true)
     else
       mall (seqZ j (nargs - j + 1))
         (fun i =>
            do pi <- exp_at (idx p i);
            if boolector_is_array pi then
              do name <- node_name_at p;
              run perr_smt2
                ("argument " +:+ fmt_d i +:+ " of '" +:+ name
                 +:+ "' is an array but first argument not");
              ret false
            else if boolector_is_fun pi then
              do name <- node_name_at p;
              run perr_smt2
                ("argument " +:+ fmt_d i +:+ " of '" +:+ name
                 +:+ "' is a function but first argument not");
              ret false
            else if negb (boolector_bv_get_width pi =? width) then
              do name <- node_name_at p;
              run perr_smt2
                ("first argument of '" +:+ name +:+ "' is bit-vector of width "
                 +:+ fmt_d width +:+ " but argument " +:+ fmt_d i
                 +:+ " is a bit-vector of width "
                 +:+ fmt_d (boolector_bv_get_width pi));
              ret false
            else ret true));
  if ok then
    run modify (fun parser => set_perrcoo (set_coo_x 0 (perrcoo parser)) parser);
    ret true
  else ret false.

Definition check_nargs_smt2 (p : nat) (actual required : Z) : M bool :=
  let diff := s32 (actual - required) in
  do op <- node_name_at p;
  do item_p <- item_at p;
  run (if negb (diff =? 0) then modify (set_perrcoo (item_coo item_p)) else ret tt);
  if diff =? -1 then
    run perr_smt2 ("one argument to '" +:+ op +:+ "' missing"); ret false
  else if diff <? 0 then
    run perr_smt2 (fmt_d (- diff) +:+ " arguments to '" +:+ op +:+ "' missing");
    ret false
  else if diff =? 1 then
    run perr_smt2 ("'" +:+ op +:+ "' has one argument too much"); ret false
  else if 0 <? diff then
    run perr_smt2 ("'" +:+ op +:+ "' has " +:+ fmt_d diff +:+ " arguments too much");
    ret false
  else ret true.

Definition check_not_array_or_uf_args_smt2 (p : nat) (nargs : Z) : M bool :=
  mall (seqZ 1 (s32 nargs))
    (fun i =>
       do item_i <- item_at (idx p i);
       do pi <- item_exp item_i;
       if boolector_is_array pi then
         run modify (set_perrcoo (item_coo item_i));
         do name <- node_name_at p;
         run perr_smt2
           ("argument " +:+ fmt_d i +:+ " of '" +:+ name +:+ "' is an array");
         ret false
       else if boolector_is_fun pi then
         run modify (set_perrcoo (item_coo item_i));
         do name <- node_name_at p;
         run perr_smt2
           ("argument " +:+ fmt_d i +:+ " of '" +:+ name +:+ "' is a function");
         ret false
       else ret true).

(** ** Bit-vector helpers of bzlabv.h *)

(** Modelled from the spec: [BzlaBitVector] and its functions are defined
    in bzlabv.c, which is not part of this file.  A bit-vector is its
    string of binary digits, most significant first; [bzla_bv_uext] puts
    zeros in front ("zero-extended to n") and [bzla_bv_to_uint64] is the
    value of the digits ("value" of a constant). *)
Definition BzlaBitVector : Type := string.
Definition bzla_bv_char_to_bv (assignment : string) : BzlaBitVector := assignment.
Definition bzla_bv_to_char (bv : BzlaBitVector) : string := bv.
Definition bzla_bv_new (bw : Z) : BzlaBitVector :=
  string_of_list_ascii (replicate (Z.to_nat bw) "0"%char).
Definition bzla_bv_uext (bv : BzlaBitVector) (len : Z) : BzlaBitVector :=
  bzla_bv_new len +:+ bv.
Definition bin_value (bits : string) : Z :=
  fold_left (fun v a => 2 * v + (chr a - chr "0")) (list_ascii_of_string bits) 0.
Definition bzla_bv_to_uint64 (bv : BzlaBitVector) : Z := u64 (bin_value bv).

Definition translate_ext_rotate_smt2 (exp shift : BoolectorNode) (is_left : bool)
  : M BoolectorNode :=
  run assert_ (boolector_is_const shift);
  let shift_width_bv := bzla_bv_char_to_bv (boolector_get_bits shift) in
  let shift_width := u32 (bzla_bv_to_uint64 shift_width_bv) in
  run assert_ (shift_width <? boolector_bv_get_width exp);
  ret (if is_left then boolector_roli exp shift_width
       else boolector_rori exp shift_width).

(** ** Closing a term (release_exp_and_overwrite, close_term_rotate_bv_fun,
       close_term) *)

Definition release_exp_and_overwrite (item_open item_cur : nat) (nargs : Z)
    (exp : BoolectorNode) : M unit :=
  run mforeach (seqZ 1 nargs)
        (fun i => do released <- exp_at (idx item_cur i); ret tt);
  run modify (fun parser => set_work (take item_cur (work parser)) parser);
  update_item item_open
    (fun item => set_item_u (ItemExp exp) (set_item_tag BZLA_EXP_TAG_SMT2 item)).

Definition close_term_rotate_bv_fun (item_open item_cur : nat) (nargs : Z)
    (fun_ : BoolectorNode -> Z -> BoolectorNode) : M Z :=
  do item <- item_at item_cur;
  run assert_
    ((item_tag item =? BZLA_BV_ROTATE_LEFT_TAG_SMT2)
     || (item_tag item =? BZLA_BV_ROTATE_RIGHT_TAG_SMT2));
  do ok <- check_nargs_smt2 item_cur nargs 1;
  if negb ok then ret 0 else
  do ok <- check_not_array_or_uf_args_smt2 item_cur nargs;
  if negb ok then ret 0 else
  do e1 <- exp_at (idx item_cur 1);
  let width := boolector_bv_get_width e1 in
  if width =? 0 then undefined else
  let exp := fun_ e1 (item_num item mod width) in
  run release_exp_and_overwrite item_open item_cur nargs exp;
  ret 1.

(** The reductions of [close_term] for the operators that no property
    below is about: given the tag, [item_open], [item_cur] and [nargs],
    [false] when the branch returns 0 and [true] when it reaches the end of
    the function. *)
Variable close_term_other : Z -> nat -> nat -> Z -> M bool.

Definition close_term : M Z :=
  do parser <- get;
  let open_ := open parser in
  match expecting_body parser with
  | Some body =>
      do item_open <-
        (if negb (open_ =? 0) then
           match last_lpar_smt2 parser with
           | None => undefined
           | Some l =>
               if (length (work parser) <=? S l)%nat then ret None
               else ret (Some (S l))
           end
         else ret None);
      match item_open with
      | Some item_open =>
          do item <- item_at item_open;
          run assert_ (item_tag item =? BZLA_LET_TAG_SMT2);
          run perr_smt2
            ("body to '" +:+ body +:+ "' at line " +:+ fmt_d (coo_x (item_coo item))
             +:+ " column " +:+ fmt_d (coo_y (item_coo item)) +:+ " missing");
          ret 0
      | None => run perr_smt2 "body to 'let' missing"; ret 0
      end
  | None =>
      run assert_ (0 <=? open_);
      if open_ =? 0 then run perr_smt2 "expected expression"; ret 0 else
      match last_lpar_smt2 parser with
      | None => undefined
      | Some item_open =>
          let item_cur := S item_open in
          if (item_cur =? length (work parser))%nat then
            run perr_smt2 "unexpected '()'"; ret 0
          else
          let nargs := u32 (Z.of_nat (length (work parser) - item_cur - 1)) in
          do item <- item_at item_cur;
          let tag := item_tag item in
          (* check if operands are expressions *)
          do ok <-
            (if negb (tag =? BZLA_LET_TAG_SMT2)
                && negb (tag =? BZLA_LETBIND_TAG_SMT2)
                && negb (tag =? BZLA_PARLETBINDING_TAG_SMT2)
                && negb (tag =? BZLA_SORTED_VAR_TAG_SMT2)
                && negb (tag =? BZLA_SORTED_VARS_TAG_SMT2)
                && negb (tag =? BZLA_FORALL_TAG_SMT2)
                && negb (tag =? BZLA_EXISTS_TAG_SMT2)
                && negb (tag =? BZLA_BANG_TAG_SMT2)
                && negb (tag =? BZLA_FP_TO_FP_TAG_SMT2)
                && negb (tag =? BZLA_FP_TO_FP_UNSIGNED_TAG_SMT2)
             then
               let i :=
                 if (tag =? BZLA_FP_ADD_TAG_SMT2) || (tag =? BZLA_FP_SUB_TAG_SMT2)
                    || (tag =? BZLA_FP_MUL_TAG_SMT2) || (tag =? BZLA_FP_DIV_TAG_SMT2)
                    || (tag =? BZLA_FP_ROUND_TO_INT_TAG_SMT2)
                    || (tag =? BZLA_FP_SQRT_TAG_SMT2) || (tag =? BZLA_FP_FMA_TAG_SMT2)
                 then 2 else 1 in
               mall (seqZ i (nargs - i + 1))
                 (fun i =>
                    do item_i <- item_at (idx item_cur i);
                    if negb (item_tag item_i =? BZLA_EXP_TAG_SMT2) then
                      run modify (set_perrcoo (item_coo item_i));
                      run perr_smt2 "expected expression";
                      ret false
                    else ret true)
             else ret true);
          if negb ok then ret 0 else
          do continue <-
            (* CORE: EQUAL *)
            (if tag =? BZLA_EQUAL_TAG_SMT2 then
               if nargs =? 0 then
                 run modify (set_perrcoo (item_coo item));
                 run perr_smt2 "arguments to '=' missing"; ret false
               else if nargs =? 1 then
                 run modify (set_perrcoo (item_coo item));
                 run perr_smt2 "only one argument to '='"; ret false
               else
                 do ok <- check_arg_sorts_match_smt2 item_cur 0 nargs;
                 if negb ok then ret false else
                 do e1 <- exp_at (idx item_cur 1);
                 do e2 <- exp_at (idx item_cur 2);
                 do exp <-
                   mfold (seqZ 3 (nargs - 2))
                     (fun exp i =>
                        do a <- exp_at (idx item_cur (i - 1));
                        do b <- exp_at (idx item_cur i);
                        let tmp := boolector_eq a b in
                        ret (boolector_and exp tmp))
                     (boolector_eq e1 e2);
                 run release_exp_and_overwrite item_open item_cur nargs exp;
                 ret true
             (* CORE: DISTINCT *)
             else if tag =? BZLA_DISTINCT_TAG_SMT2 then
               if nargs =? 0 then
                 run modify (set_perrcoo (item_coo item));
                 run perr_smt2 "arguments to 'distinct' missing"; ret false
               else if nargs =? 1 then
                 run modify (set_perrcoo (item_coo item));
                 run perr_smt2 "only one argument to 'distinct'"; ret false
               else
                 do ok <- check_arg_sorts_match_smt2 item_cur 0 nargs;
                 if negb ok then ret false else
                 do exp <-
                   mfold (seqZ 1 (nargs - 1))
                     (fun exp i =>
                        mfold (seqZ (i + 1) (nargs - i))
                          (fun exp j =>
                             do a <- exp_at (idx item_cur i);
                             do b <- exp_at (idx item_cur j);
                             let tmp := boolector_ne a b in
                             match exp with
                             | Some old => ret (Some (boolector_and old tmp))
                             | None => ret (Some tmp)
                             end)
                          exp)
                     None;
                 match exp with
                 | None => undefined
                 | Some exp =>
                     run release_exp_and_overwrite item_open item_cur nargs exp;
                     ret true
                 end
             (* BV: EXTRACT *)
             else if tag =? BZLA_BV_EXTRACT_TAG_SMT2 then
               do ok <- check_nargs_smt2 item_cur nargs 1;
               if negb ok then ret false else
               do ok <- check_not_array_or_uf_args_smt2 item_cur nargs;
               if negb ok then ret false else
               do e1 <- exp_at (idx item_cur 1);
               let width := boolector_bv_get_width e1 in
               if width <=? u32 (item_idx0 item) then
                 run modify (set_perrcoo (item_coo item));
                 run perr_smt2
                   ("first (high) 'extract' parameter " +:+ fmt_u (item_idx0 item)
                    +:+ " too large for bit-vector argument of bit-width "
                    +:+ fmt_u width);
                 ret false
               else
                 let exp := boolector_bv_slice e1 (item_idx0 item) (item_idx1 item) in
                 run release_exp_and_overwrite item_open item_cur nargs exp;
                 ret true
             (* BV: ROTATE LEFT *)
             else if tag =? BZLA_BV_ROTATE_LEFT_TAG_SMT2 then
               do r <- close_term_rotate_bv_fun item_open item_cur nargs boolector_roli;
               ret (negb (r =? 0))
             (* BV: ROTATE RIGHT *)
             else if tag =? BZLA_BV_ROTATE_RIGHT_TAG_SMT2 then
               do r <- close_term_rotate_bv_fun item_open item_cur nargs boolector_rori;
               ret (negb (r =? 0))
             (* BV: Z3 extensions *)
             else if (tag =? BZLA_BV_EXT_ROTATE_LEFT_TAG_SMT2)
                     || (tag =? BZLA_BV_EXT_ROTATE_RIGHT_TAG_SMT2) then
               do ok <- check_nargs_smt2 item_cur nargs 2;
               if negb ok then ret false else
               do ok <- check_not_array_or_uf_args_smt2 item_cur nargs;
               if negb ok then ret false else
               do item2 <- item_at (idx item_cur 2);
               do e2 <- item_exp item2;
               if negb (boolector_is_const e2) then
                 run modify (set_perrcoo (item_coo item2));
                 do node2 <- item_node item2;
                 run perr_smt2
                   ("second argument '" +:+ node_name node2 +:+ "' of ext_rotate_"
                    +:+ (if tag =? BZLA_BV_EXT_ROTATE_LEFT_TAG_SMT2
                         then "left" else "right")
                    +:+ "is not a bit vector constant");
                 ret false
               else
                 do e1 <- exp_at (idx item_cur 1);
                 do exp <-
                   translate_ext_rotate_smt2 e1 e2
                     (tag =? BZLA_BV_EXT_ROTATE_LEFT_TAG_SMT2);
                 run release_exp_and_overwrite item_open item_cur nargs exp;
                 ret true
             else close_term_other tag item_open item_cur nargs);
          if negb continue then ret 0 else
          run assert_ (0 <? open_);
          run modify (set_open (s32 (open_ - 1)));
          ret 1
      end
  end.


(** ** Indexed operators (check_open_term_indexed,
       parse_open_term_indexed_parametric, parse_open_term_indexed) *)

Definition check_open_term_indexed (node : BzlaSMT2Node) : M Z :=
  do parser <- get;
  let n := length (work parser) in
  if (n <? 3)%nat then
    run assert_ (n =? 2)%nat;
    do item0 <- item_at 0;
    do item1 <- item_at 1;
    run assert_ (item_tag item0 =? BZLA_LPAR_TAG_SMT2);
    run assert_ (item_tag item1 =? BZLA_UNDERSCORE_TAG_SMT2);
    run modify (set_perrcoo (item_coo item0));
    run perr_smt2 ("expected '(' before '(_ " +:+ node_name node +:+ "'");
    ret 0
  else
    do item3 <- item_at (n - 3);
    if negb (item_tag item3 =? BZLA_LPAR_TAG_SMT2) then
      run modify (set_perrcoo (item_coo item3));
      do str <- item2str_smt2 item3;
      run perr_smt2
        ("expected '(' at '" +:+ str +:+ "' before '(_ " +:+ node_name node +:+ "'");
      ret 0
    else ret 1.

Definition parse_open_term_indexed_parametric (item_cur : nat) (tag nargs : Z)
    (node : BzlaSMT2Node) (msg : string) : M Z :=
  do parser <- get;
  run assert_ ((1 <? nargs) || (2 <=? length (work parser))%nat);
  do ok <- check_open_term_indexed node;
  if ok =? 0 then ret 0 else
  run assert_ (1 <=? item_cur)%nat;
  let item_open := (item_cur - 1)%nat in
  run assert_ (tag =? s32 (node_tag node));
  do ok <-
    (if nargs =? 1 then
       do num <- parse_uint32_smt2 true;
       match num with
       | None => ret false
       | Some num => run update_item item_open (set_item_idx0 num); ret true
       end
     else
       run assert_ (nargs =? 2);
       do idx0 <- parse_uint32_smt2 true;
       match idx0 with
       | None => ret false
       | Some idx0 =>
           run update_item item_open (set_item_idx0 idx0);
           do parser <- get;
           let firstcoo := coo parser in
           do idx1 <- parse_uint32_smt2 true;
           match idx1 with
           | None => ret false
           | Some idx1 =>
               run update_item item_open (set_item_idx1 idx1);
               if (tag =? BZLA_BV_EXTRACT_TAG_SMT2) && (idx0 <? idx1) then
                 run modify (set_perrcoo firstcoo);
                 run perr_smt2
                   ("first parameter '" +:+ fmt_u idx0
                    +:+ "' of '(_ extract' smaller than second '" +:+ fmt_u idx1
                    +:+ "'");
                 ret false
               else ret true
           end
       end);
  if negb ok then ret 0 else
  run update_item item_open
        (fun item => set_item_u (ItemNode node) (set_item_tag tag item));
  run modify (fun parser => set_work (take item_cur (work parser)) parser);
  do ok <- read_rpar_smt2 (Some msg);
  if ok =? 0 then ret 0 else
  do parser <- get;
  run assert_ (0 <? open parser);
  run modify (set_open (s32 (open parser - 1)));
  ret 1.

(** The indexed forms of the floating-point theory,
    [parse_open_close_term_indexed_fp_special_const]: given the tag and
    [item_cur], the value the function returns. *)
Variable parse_open_close_term_indexed_fp_special_const
  : nat -> Z -> BzlaSMT2Node -> string -> M Z.

Definition parse_open_term_indexed (item_cur : nat) : M Z :=
  do ok <- prev_item_was_lpar_smt2;
  if negb ok then ret 0 else
  do tag <- read_token_smt2;
  do parser <- get;
  let node := last_node parser in
  if tag =? BZLA_INVALID_TAG_SMT2 then ret 0
  else if tag =? EOF then
    run perr_smt2 "unexpected end-of-file after '_'"; ret 0
  else
    let parametric nargs msg :=
      match node with
      | Some node =>
          do r <- parse_open_term_indexed_parametric item_cur tag nargs node msg;
          if r =? 0 then ret 0 else ret 1
      | None => undefined
      end in
    let fp_special msg :=
      match node with
      | Some node =>
          do r <- parse_open_close_term_indexed_fp_special_const item_cur tag node msg;
          if r =? 0 then ret 0 else ret 1
      | None => undefined
      end in
    if tag =? BZLA_BV_REPEAT_TAG_SMT2 then
      parametric 1 " to close '(_ repeat'"
    else if tag =? BZLA_BV_ZERO_EXTEND_TAG_SMT2 then
      parametric 1 " to close '(_ zero_extend'"
    else if tag =? BZLA_BV_SIGN_EXTEND_TAG_SMT2 then
      parametric 1 " to close '(_ sign_extend'"
    else if tag =? BZLA_BV_ROTATE_LEFT_TAG_SMT2 then
      parametric 1 " to close '(_ rotate_left'"
    else if tag =? BZLA_BV_ROTATE_RIGHT_TAG_SMT2 then
      parametric 1 " to close '(_ rotate_right'"
    else if tag =? BZLA_BV_EXTRACT_TAG_SMT2 then
      parametric 2 " to close '(_ extract'"
    else if tag =? BZLA_FP_POS_ZERO_TAG_SMT2 then
      fp_special " to close '(_ +zero'"
    else if tag =? BZLA_FP_NEG_ZERO_TAG_SMT2 then
      fp_special " to close '(_ -zero'"
    else if tag =? BZLA_FP_POS_INF_TAG_SMT2 then
      fp_special " to close '(_ +oo'"
    else if tag =? BZLA_FP_NEG_INF_TAG_SMT2 then
      fp_special " to close '(_ -oo'"
    else if tag =? BZLA_FP_NAN_TAG_SMT2 then
      fp_special " to close '(_ Nan'"
    else if tag =? BZLA_FP_TO_FP_TAG_SMT2 then
      parametric 2 " to close '(_ to_fp'"
    else if tag =? BZLA_FP_TO_FP_UNSIGNED_TAG_SMT2 then
      parametric 2 " to close '(_ extract'"
    else if (tag =? BZLA_SYMBOL_TAG_SMT2)
            && is_bvconst_str_smt2 (c_string (token parser)) then
      let decstr := str_offset (c_string (token parser)) 2 in
      let constr := bzla_util_dec_to_bin_str (str_offset (c_string (token parser)) 2) in
      let coo_ := set_coo_y (s32 (coo_y (coo parser) + 2)) (coo parser) in
      do width <- parse_uint32_smt2 false;
      do exp <-
        match width with
        | Some width =>
            let width2 := u32 (strlen constr) in
            if width <? width2 then
              run modify (set_perrcoo coo_);
              run perr_smt2
                ("decimal constant '" +:+ decstr +:+ "' needs "
                 +:+ fmt_d (s32 width2)
                 +:+ " bits which exceeds bit-width '" +:+ fmt_d (s32 width)
                 +:+ "'");
              ret None
            else if width2 =? width then ret (Some (boolector_const constr))
            else if width2 =? 0 then
              let s := boolector_bv_sort width in
              ret (Some (boolector_zero s))
            else
              let uconstrbv :=
                if strcmp constr EmptyString =? 0
                then bzla_bv_new (u32 (width - width2))
                else
                  let constrbv := bzla_bv_char_to_bv constr in
                  bzla_bv_uext constrbv (u32 (width - width2)) in
              let uconstr := bzla_bv_to_char uconstrbv in
              ret (Some (boolector_const uconstr))
        | None => ret None
        end;
      match exp, width with
      | Some exp, Some width =>
          run assert_ (boolector_bv_get_width exp =? width);
          run assert_ (0 <? item_cur)%nat;
          let item_cur := (item_cur - 1)%nat in
          run modify (fun parser => set_work (removelast (work parser)) parser);
          do item <- item_at item_cur;
          run assert_ (item_tag item =? BZLA_LPAR_TAG_SMT2);
          do parser <- get;
          run assert_ (0 <? open parser);
          run modify (set_open (s32 (open parser - 1)));
          run update_item item_cur
                (fun item => set_item_u (ItemExp exp) (set_item_tag BZLA_EXP_TAG_SMT2 item));
          do ok <- read_rpar_smt2 (Some " to close '(_ bv..'");
          if ok =? 0 then ret 0 else ret 1
      | _, _ => ret 0
      end
    else
      run perr_smt2
        ("invalid parametric term '_ " +:+ c_string (token parser) +:+ "'");
      ret 0.

(** ** Commands ([push], [pop] and [set-logic] in read_command_smt2) and
       the end of parse_smt2_parser *)

Definition print_success_ : M unit :=
  do parser <- get;
  if negb (print_success parser) then ret tt
  else modify (set_outfile (outfile parser ++ ["success" +:+ String "010" EmptyString])).

(** [enum BzlaLogic] is declared in a header that is not part of this
    file; the parser names seven of its enumerators.  Their values are
    parameters: any assignment of pairwise different numbers. *)
Record BzlaLogic := {
  BZLA_LOGIC_BV : Z;
  BZLA_LOGIC_QF_BV : Z;
  BZLA_LOGIC_QF_ABV : Z;
  BZLA_LOGIC_QF_AUFBV : Z;
  BZLA_LOGIC_QF_UFBV : Z;
  BZLA_LOGIC_QF_FP : Z;
  BZLA_LOGIC_ALL : Z;
}.
Variable L : BzlaLogic.

Definition set_logic_ (v : Z) (parser : BzlaSMT2Parser) : BzlaSMT2Parser :=
  set_res {| logic := v; status := status (res parser);
             result := result (res parser);
             nsatcalls := nsatcalls (res parser) |} parser.

Definition set_commands_all (v : Z) (parser : BzlaSMT2Parser) : BzlaSMT2Parser :=
  set_commands {| all := v; set_logic := set_logic (commands parser);
                  asserts := asserts (commands parser);
                  check_sat := check_sat (commands parser);
                  exits := exits (commands parser);
                  model := model (commands parser) |} parser.

Definition set_commands_set_logic (v : Z) (parser : BzlaSMT2Parser)
  : BzlaSMT2Parser :=
  set_commands {| all := all (commands parser); set_logic := v;
                  asserts := asserts (commands parser);
                  check_sat := check_sat (commands parser);
                  exits := exits (commands parser);
                  model := model (commands parser) |} parser.

(** [case BZLA_SET_LOGIC_TAG_SMT2:] up to its [break]; [false] when the
    case returns 0. *)
Definition read_command_set_logic : M bool :=
  do tag <- read_token_smt2;
  if tag =? EOF then
    run modify (fun parser => set_perrcoo (lastcoo parser) parser);
    run perr_smt2 "unexpected end-of-file after 'set-logic'"; ret false
  else if tag =? BZLA_INVALID_TAG_SMT2 then
    do parser <- get;
    run assert_ (bool_decide (is_Some (error parser)));
    ret false
  else if Z.land tag BZLA_LOGIC_TAG_CLASS_SMT2 =? 0 then
    do parser <- get;
    run perr_smt2 ("expected logic at '" +:+ c_string (token parser) +:+ "'");
    ret false
  else
    do parser <- get;
    do ok <-
      (if tag =? BZLA_LOGIC_QF_BV_TAG_SMT2 then
         run modify (set_logic_ (BZLA_LOGIC_QF_BV L)); ret true
       else if (tag =? BZLA_LOGIC_QF_AUFBV_TAG_SMT2)
               || (tag =? BZLA_LOGIC_QF_UFBV_TAG_SMT2)
               || (tag =? BZLA_LOGIC_QF_ABV_TAG_SMT2) then
         run modify (set_logic_ (BZLA_LOGIC_QF_AUFBV L)); ret true
       else if tag =? BZLA_LOGIC_ABV_TAG_SMT2 then
         run modify (set_logic_ (BZLA_LOGIC_QF_ABV L)); ret true
       else if tag =? BZLA_LOGIC_BV_TAG_SMT2 then
         run modify (set_logic_ (BZLA_LOGIC_BV L)); ret true
       else if tag =? BZLA_LOGIC_UFBV_TAG_SMT2 then
         run modify (set_logic_ (BZLA_LOGIC_QF_UFBV L)); ret true
       else if tag =? BZLA_LOGIC_QF_FP_TAG_SMT2 then
         run modify (set_logic_ (BZLA_LOGIC_QF_FP L)); ret true
       else if tag =? BZLA_LOGIC_QF_BVFP_TAG_SMT2 then
         run modify (set_logic_ (BZLA_LOGIC_QF_FP L)); ret true
       else if tag =? BZLA_LOGIC_ALL_TAG_SMT2 then
         run modify (set_logic_ (BZLA_LOGIC_ALL L)); ret true
       else
         run perr_smt2 ("unsupported logic '" +:+ c_string (token parser) +:+ "'");
         ret false);
    if negb ok then ret false else
    run BZLA_MSG 2 ("logic " +:+ c_string (token parser));
    do ok <- read_rpar_smt2 (Some " after logic");
    if ok =? 0 then ret false else
    do parser <- get;
    run modify (set_commands_set_logic (s32 (set_logic (commands parser) + 1)));
    run (if negb (set_logic (commands parser) =? 0)
         then BZLA_MSG 1 "WARNING additional 'set-logic' command" else ret tt);
    run print_success_;
    ret true.

(** [case BZLA_PUSH_TAG_SMT2:].  When [parse_uint32_smt2] fails, [level]
    is read without having been written. *)
Definition read_command_push : M bool :=
  do level <- parse_uint32_smt2 true;
  do ok <- read_rpar_smt2 (Some " after 'push'");
  if ok =? 0 then ret false else
  match level with
  | None => undefined
  | Some level =>
      run mforeach (seqZ 0 level) (fun i => open_new_scope);
      run modify (fun parser => set_bzla (boolector_push (bzla parser) level) parser);
      run print_success_;
      ret true
  end.

(** [case BZLA_POP_TAG_SMT2:] *)
Definition read_command_pop : M bool :=
  do level <- parse_uint32_smt2 true;
  do ok <- read_rpar_smt2 (Some " after 'pop'");
  if ok =? 0 then ret false else
  match level with
  | None => undefined
  | Some level =>
      do parser <- get;
      if scope_level parser <? level then
        run perr_smt2
          ("popping more scopes (" +:+ fmt_u level
           +:+ ") than created via push (" +:+ fmt_u (scope_level parser) +:+ ")");
        ret false
      else
        run mforeach (seqZ 0 level) (fun i => close_current_scope);
        run modify (fun parser => set_bzla (boolector_pop (bzla parser) level) parser);
        run print_success_;
        ret true
  end.

(** The commands of [read_command_smt2] other than [set-logic], [push]
    and [pop]: given the tag, [false] when the case returns 0. *)
Variable read_command_other : Z -> M bool.

Definition read_command_smt2 : M Z :=
  do tag <- read_token_smt2;
  do parser <- get;
  if negb (model (commands parser) =? 0) && (tag =? BZLA_RPAR_TAG_SMT2) then
    run modify (set_commands
                  {| all := all (commands parser);
                     set_logic := set_logic (commands parser);
                     asserts := asserts (commands parser);
                     check_sat := check_sat (commands parser);
                     exits := exits (commands parser); model := 0 |});
    ret 0
  else if negb (model (commands parser) =? 0) && (tag =? EOF) then
    run perr_smt2 "expected ')' after 'model' at end-of-file"; ret 0
  else if (tag =? EOF) || (tag =? BZLA_INVALID_TAG_SMT2) then ret 0
  else if negb (tag =? BZLA_LPAR_TAG_SMT2) then
    run perr_smt2 ("expected '(' at '" +:+ c_string (token parser) +:+ "'"); ret 0
  else
    do tag <- read_token_smt2;
    do parser <- get;
    if tag =? EOF then
      run modify (set_perrcoo (lastcoo parser));
      run perr_smt2 "unexpected end-of-file after '('"; ret 0
    else if tag =? BZLA_INVALID_TAG_SMT2 then
      run assert_ (bool_decide (is_Some (error parser))); ret 0
    else if negb (model (commands parser) =? 0)
            && negb (tag =? BZLA_DEFINE_FUN_TAG_SMT2) then
      run perr_smt2 "expected 'define-fun' after 'model'"; ret 0
    else if Z.land tag BZLA_COMMAND_TAG_CLASS_SMT2 =? 0 then
      run perr_smt2 ("expected command at '" +:+ c_string (token parser) +:+ "'");
      ret 0
    else if negb (model (commands parser) =? 0)
            && negb (tag =? BZLA_DEFINE_FUN_TAG_SMT2) then
      run perr_smt2 "'define-fun' command expected"; ret 0
    else
      do ok <-
        (if tag =? BZLA_SET_LOGIC_TAG_SMT2 then read_command_set_logic
         else if tag =? BZLA_PUSH_TAG_SMT2 then read_command_push
         else if tag =? BZLA_POP_TAG_SMT2 then read_command_pop
         else read_command_other tag);
      if negb ok then ret 0 else
      do parser <- get;
      run modify (set_commands_all (s32 (all (commands parser) + 1)));
      ret 1.

(** The part of [parse_smt2_parser] that follows the loop over the
    commands and its diagnostics: the logic of the result. *)
Definition parse_smt2_parser_logic : M unit :=
  do parser <- get;
  let logic_ := logic (res parser) in
  if need_functions parser && need_arrays parser
     && (logic_ =? BZLA_LOGIC_QF_BV L) then
    run BZLA_MSG 1 "found functions thus using 'QF_AUFBV' logic";
    modify (set_logic_ (BZLA_LOGIC_QF_AUFBV L))
  else if need_functions parser && (logic_ =? BZLA_LOGIC_QF_BV L) then
    run BZLA_MSG 1 "found functions thus using 'QF_UFBV' logic";
    modify (set_logic_ (BZLA_LOGIC_QF_UFBV L))
  else if logic_ =? BZLA_LOGIC_ALL L then
    if negb (need_quantifiers parser) then
      if need_functions parser || need_arrays parser
      then modify (set_logic_ (BZLA_LOGIC_QF_AUFBV L))
      else modify (set_logic_ (BZLA_LOGIC_QF_BV L))
    else modify (set_logic_ (BZLA_LOGIC_BV L))
  else if negb (set_logic (commands parser) =? 0) then
    if negb (need_functions parser) && negb (need_arrays parser)
       && negb (need_quantifiers parser)
       && (logic_ =? BZLA_LOGIC_QF_AUFBV L) then
      run BZLA_MSG 1 "no functions found thus restricting logic to 'QF_BV'";
      modify (set_logic_ (BZLA_LOGIC_QF_BV L))
    else ret tt
  else ret tt.

(** The assignments at the head of [parse_smt2_parser]; [BZLA_CLR (res)]
    zeroes the result. *)
Definition parse_smt2_parser_init (prefix_ : option (list Z)) (infile_ : list Z)
    (outfile_ : list string) : M unit :=
  run modify (set_nprefix 0);
  run modify (set_prefix prefix_);
  run modify (set_nextcoo {| coo_x := 1; coo_y := 1 |});
  run modify (set_infile infile_);
  run modify (set_outfile outfile_);
  run modify (set_saved false);
  modify (set_res {| logic := 0; status := 0; result := 0; nsatcalls := 0 |}).

(** [while (read_command_smt2 (parser) && !parser->done
           && !boolector_terminate (parser->bzla));]
    The termination callback of the solver is taken never to fire. *)
Fixpoint read_commands (fuel : nat) : M unit :=
  match fuel with
  | O => undefined
  | S fuel' =>
      do r <- read_command_smt2;
      do parser <- get;
      if negb (r =? 0) && negb (done parser) then read_commands fuel'
      else ret tt
  end.

(** [parse_smt2_parser]: the error message, or [None] for the null
    pointer it returns on success.  [parser->infile_name] is the copy of
    [infile_name] made at the head of the function. *)
Definition parse_smt2_parser (fuel : nat) (prefix_ : option (list Z))
    (infile_ : list Z) (infile_name_ : string) (outfile_ : list string)
  : M (option BzlaSMT2Error) :=
  run parse_smt2_parser_init prefix_ infile_ outfile_;
  run read_commands fuel;
  do parser <- get;
  match error parser with
  | Some e => ret (Some e)
  | None =>
      run (if all (commands parser) =? 0 then
             BZLA_MSG 1 ("WARNING no commands in '" +:+ infile_name_ +:+ "'")
           else
             run (if set_logic (commands parser) =? 0 then
                    BZLA_MSG 1 ("WARNING 'set-logic' command missing in '"
                                +:+ infile_name_ +:+ "'")
                  else ret tt);
             run (if asserts (commands parser) =? 0 then
                    BZLA_MSG 1 ("WARNING no 'assert' command in '"
                                +:+ infile_name_ +:+ "'")
                  else ret tt);
             run (if check_sat (commands parser) =? 0 then
                    BZLA_MSG 1 ("WARNING 'check-sat' command missing in '"
                                +:+ infile_name_ +:+ "'")
                  else ret tt);
             (if exits (commands parser) =? 0 then
                BZLA_MSG 1 ("WARNING no 'exit' command at end of '"
                            +:+ infile_name_ +:+ "'")
              else ret tt));
      do seconds <- seconds_text;
      run BZLA_MSG 1 ("parsed " +:+ fmt_d (all (commands parser))
                      +:+ " commands in " +:+ seconds +:+ " seconds");
      run parse_smt2_parser_logic;
      ret None
  end.

End Model.

(** ** A backend of first-order terms

    Handles are the terms themselves and the solver state is the depth of
    its assertion stack.  It serves to run the parser on concrete inputs. *)

Inductive term_sort :=
| TBitVec (w : Z)
| TArray (index element : Z)
| TFun (arity w : Z).

Inductive term :=
| TVar (s : term_sort) (name : string)
| TConst (bits : string)
| TZero (s : term_sort)
| TEq (a b : term)
| TNe (a b : term)
| TAnd (a b : term)
| TSlice (a : term) (upper lower : Z)
| TRoli (a : term) (nbits : Z)
| TRori (a : term) (nbits : Z).

Fixpoint term_sort_of (t : term) : term_sort :=
  match t with
  | TVar s _ => s
  | TConst bits => TBitVec (strlen bits)
  | TZero s => s
  | TEq _ _ | TNe _ _ => TBitVec 1
  | TAnd a _ => term_sort_of a
  | TSlice _ upper lower => TBitVec (upper - lower + 1)
  | TRoli a _ | TRori a _ => term_sort_of a
  end.

Definition term_sort_eqb (s t : term_sort) : bool :=
  match s, t with
  | TBitVec w, TBitVec w' => w =? w'
  | TArray i e, TArray i' e' => (i =? i') && (e =? e')
  | TFun a w, TFun a' w' => (a =? a') && (w =? w')
  | _, _ => false
  end.

(** Binary digits of a positive number, most significant first. *)
Fixpoint bin_str_of_pos (p : positive) (acc : string) : string :=
  match p with
  | xH => String "1" acc
  | xO p' => bin_str_of_pos p' (String "0" acc)
  | xI p' => bin_str_of_pos p' (String "1" acc)
  end.

(** The value of a string of decimal digits. *)
Definition dec_value (s : string) : Z :=
  fold_left (fun v a => 10 * v + (chr a - chr "0")) (list_ascii_of_string s) 0.

(** Decimal to binary without leading zeros; zero is the empty string. *)
Definition dec_to_bin_str (s : string) : string :=
  match dec_value s with
  | Zpos p => bin_str_of_pos p EmptyString
  | _ => EmptyString
  end.

#[export] Instance term_backend : Backend := {|
  Bzla := Z;
  BoolectorNode := term;
  BoolectorSort := term_sort;
  boolector_is_array t :=
    match term_sort_of t with TArray _ _ => true | _ => false end;
  boolector_is_fun t :=
    match term_sort_of t with TFun _ _ => true | _ => false end;
  boolector_is_const t :=
    match t with TConst _ | TZero _ => true | _ => false end;
  boolector_bv_get_width t :=
    match term_sort_of t with TBitVec w => w | TArray _ e => e | TFun _ w => w end;
  boolector_array_get_index_width t :=
    match term_sort_of t with TArray i _ => i | _ => 0 end;
  boolector_is_equal_sort a b := term_sort_eqb (term_sort_of a) (term_sort_of b);
  boolector_get_bits t :=
    match t with
    | TConst bits => bits
    | TZero (TBitVec w) => string_of_list_ascii (replicate (Z.to_nat w) "0"%char)
    | _ => EmptyString
    end;
  boolector_eq := TEq;
  boolector_ne := TNe;
  boolector_and := TAnd;
  boolector_bv_slice := TSlice;
  boolector_roli := TRoli;
  boolector_rori := TRori;
  boolector_bv_sort := TBitVec;
  boolector_const := TConst;
  boolector_zero := TZero;
  bzla_util_dec_to_bin_str := dec_to_bin_str;
  boolector_push b n := b + n;
  boolector_pop b n := b - n;
  elapsed_seconds n := "0.00";
|}.

(** The parser as [new_smt2_parser] allocates it, before the keywords are
    entered: every member is zero. *)
Definition zero_coo : BzlaSMT2Coo := {| coo_x := 0; coo_y := 0 |}.

Definition zero_parser `{Backend} (b : Bzla) : BzlaSMT2Parser :=
  {| bzla := b; done := false; need_arrays := false; need_functions := false;
     need_quantifiers := false; saved := false; savedch := 0;
     last_end_of_line_ycoo := 0; open := 0; nprefix := 0; sorted_var := 0;
     isvarbinding := false; expecting_body := None; error := None;
     infile := []; outfile := []; store_tokens := false; prefix := None;
     token := []; tokens := []; work := []; coo := zero_coo;
     lastcoo := zero_coo; nextcoo := zero_coo; perrcoo := zero_coo;
     last_node := None;
     res := {| logic := 0; status := 0; result := 0; nsatcalls := 0 |};
     scope_level := 0;
     symbol := {| size := 0; count := 0; table := [] |};
     commands := {| all := 0; set_logic := 0; asserts := 0; check_sat := 0;
                    exits := 0; model := 0 |};
     print_success := false; global_declarations := false; mem := 1%positive;
     msgs := [] |}.

(** The macro [INSERT (STR, TAG)] of the source. *)
Definition INSERT `{Backend} (str : string) (tag : Z) : M unit :=
  do NODE <- new_node_smt2 tag;
  let NODE := set_node_name str NODE in
  do parser <- get;
  run assert_ (negb (bool_decide (is_Some (find_symbol_smt2 parser (node_name NODE)))));
  insert_symbol_smt2 NODE.



(** The characters of a file. *)
Definition file_of (s : string) : list Z := chr <$> list_ascii_of_string s.

(** The parser of the term backend at the start of the file [input], as
    the head of [parse_smt2_parser] sets it up. *)
Definition parser_on (input : string) : BzlaSMT2Parser :=
  match parse_smt2_parser_init None (file_of input) [] (zero_parser 0) with
  | Some (_, parser) => parser
  | None => zero_parser 0
  end.

(** The parser after the commands of a file without [set-logic] in which
    the given features were observed. *)
Definition after_commands (functions arrays quantifiers : bool)
  : BzlaSMT2Parser :=
  set_need_functions functions
    (set_need_arrays arrays
       (set_need_quantifiers quantifiers (parser_on EmptyString))).

(** ** Vocabulary of the properties *)

Section Vocabulary.
Context `{Backend}.

(** The name [x] between bars. *)
Definition bars (x : string) : string := "|" +:+ x +:+ "|".

(** A C string with its terminating NUL is an object in memory: its
    length is below [SIZE_MAX]. *)
Definition fits (s : string) : Prop := strlen s < 2 ^ 64 - 1.

Definition names_fit (parser : BzlaSMT2Parser) : Prop :=
  Forall (Forall (fun s => fits (node_name s))) (table (symbol parser)).

(** The value of [res] at the end of the loop of [hash_name_smt2]. *)
Definition hash_name_raw (name : string) : Z :=
  let len := strlen name in
  let '(pos, len) :=
    if is_quoted name len then (1, size_t (len - 1)) else (0, len) in
  hash_name_loop (Z.to_nat len) name pos len 0 0.

(** The bucket of a node in a table of [sz] buckets. *)
Definition bucket_of (sz : Z) (s : BzlaSMT2Node) : nat :=
  Z.to_nat (Z.land (hash_name_raw (node_name s)) (u32 (sz - 1))).

(** The table of [sz] buckets that holds the nodes of [live], every chain
    in the order of [live]. *)
Definition chains_of (sz : Z) (live : list BzlaSMT2Node)
  : list (list BzlaSMT2Node) :=
  (fun h => filter (fun s => bucket_of sz s = h) live) <$> seq 0 (Z.to_nat sz).

(** [table_ok parser live]: the symbol table of [parser] holds exactly the
    nodes of [live], most recently inserted first. *)
Record table_ok (parser : BzlaSMT2Parser) (live : list BzlaSMT2Node) : Prop := {
  ok_size : size (symbol parser) = 0
            \/ exists k, 0 <= k <= 31 /\ size (symbol parser) = 2 ^ k;
  ok_table : table (symbol parser) = chains_of (size (symbol parser)) live;
  ok_count : count (symbol parser) = Z.of_nat (length live);
  ok_count_size : count (symbol parser) <= size (symbol parser);
  ok_addr : NoDup (node_addr <$> live);
  ok_tag : Forall (fun s => node_tag s <> BZLA_PARENT_TAG_SMT2) live;
  ok_names : Forall (fun s => fits (node_name s)) live;
}.

(** Operations on the symbol table and their effect on the list of live
    entries. *)
Inductive symop :=
| OpInsert (s : BzlaSMT2Node)
| OpRemove (s : BzlaSMT2Node).

Definition do_symop (op : symop) : M unit :=
  match op with
  | OpInsert s => insert_symbol_smt2 s
  | OpRemove s => remove_symbol_smt2 s
  end.

Definition do_symops (ops : list symop) : M unit := mforeach ops do_symop.

Definition live_after_op (live : list BzlaSMT2Node) (op : symop)
  : list BzlaSMT2Node :=
  match op with
  | OpInsert s => s :: live
  | OpRemove s => filter (fun e => node_addr e <> node_addr s) live
  end.

Definition live_after (ops : list symop) (live : list BzlaSMT2Node)
  : list BzlaSMT2Node :=
  fold_left live_after_op ops live.

(** An inserted node is newly allocated and named; a removed node is in
    the table. *)
Definition symop_valid (live : list BzlaSMT2Node) (op : symop) : Prop :=
  match op with
  | OpInsert s =>
      (node_addr s ∉ node_addr <$> live)
      /\ node_tag s <> BZLA_PARENT_TAG_SMT2
      /\ fits (node_name s)
  | OpRemove s => s ∈ live
  end.

Fixpoint symops_valid (live : list BzlaSMT2Node) (ops : list symop) : Prop :=
  match ops with
  | [] => True
  | op :: ops' =>
      symop_valid live op /\ symops_valid (live_after_op live op) ops'
  end.

(** Every insertion happens at a scope level that is not below the level
    of any live entry. *)
Fixpoint symops_monotone (live : list BzlaSMT2Node) (ops : list symop) : Prop :=
  match ops with
  | [] => True
  | op :: ops' =>
      match op with
      | OpInsert s =>
          Forall (fun e => node_scope_level e <= node_scope_level s) live
      | OpRemove _ => True
      end
      /\ symops_monotone (live_after_op live op) ops'
  end.

(** The scope levels do not increase from the most recent entry to the
    oldest. *)
Fixpoint levels_descend (live : list BzlaSMT2Node) : Prop :=
  match live with
  | [] => True
  | s :: live' =>
      Forall (fun e => node_scope_level e <= node_scope_level s) live'
      /\ levels_descend live'
  end.

(** The innermost entry for [name]: the most recently inserted live entry
    whose name is [name], in either spelling. *)
Definition innermost (name : string) (live : list BzlaSMT2Node)
  : option BzlaSMT2Node :=
  List.find (fun s => symbol_matches (node_name s) name) live.

(** *** The logic of the parse result *)

(** The enumerators that the inference of the logic names have pairwise
    different values. *)
Definition logics_distinct (L : BzlaLogic) : Prop :=
  NoDup [BZLA_LOGIC_BV L; BZLA_LOGIC_QF_BV L; BZLA_LOGIC_QF_AUFBV L;
         BZLA_LOGIC_QF_UFBV L; BZLA_LOGIC_ALL L].

(** The logic that the specification gives to a run without [set-logic]:
    [BV] if quantifiers were observed, [QF_AUFBV] if both functions and
    arrays were, [QF_UFBV] if functions only, and [QF_BV] otherwise. *)
Definition inferred_logic_spec (L : BzlaLogic)
    (functions arrays quantifiers : bool) : Z :=
  if quantifiers then BZLA_LOGIC_BV L
  else if functions && arrays then BZLA_LOGIC_QF_AUFBV L
  else if functions then BZLA_LOGIC_QF_UFBV L
  else BZLA_LOGIC_QF_BV L.

(** The logic that [parse_smt2_parser] leaves in a result that no
    [set-logic] command has written, so that it still holds the zero of
    [BZLA_CLR]. *)
Definition inferred_logic (L : BzlaLogic)
    (functions arrays quantifiers : bool) : Z :=
  if BZLA_LOGIC_QF_BV L =? 0 then
    if functions && arrays then BZLA_LOGIC_QF_AUFBV L
    else if functions then BZLA_LOGIC_QF_UFBV L
    else BZLA_LOGIC_QF_BV L
  else if BZLA_LOGIC_ALL L =? 0 then
    if quantifiers then BZLA_LOGIC_BV L
    else if functions || arrays then BZLA_LOGIC_QF_AUFBV L
    else BZLA_LOGIC_QF_BV L
  else 0.

(** *** The work stack when a term is closed *)

(** [args] are expression items holding [es]. *)
Definition exp_items (args : list BzlaSMT2Item) (es : list BoolectorNode) : Prop :=
  Forall2 (fun item e => item_tag item = BZLA_EXP_TAG_SMT2
                         /\ item_u item = ItemExp e) args es.

(** The parser is about to close the term whose open parenthesis is
    [lpar], whose operator is [op] and whose arguments are [args], above
    the items [stack]. *)
Record term_open (parser : BzlaSMT2Parser) (stack : list BzlaSMT2Item)
    (lpar op : BzlaSMT2Item) (args : list BzlaSMT2Item)
    (es : list BoolectorNode) : Prop := {
  to_work : work parser = stack ++ lpar :: op :: args;
  to_lpar : item_tag lpar = BZLA_LPAR_TAG_SMT2;
  to_args : exp_items args es;
  to_body : expecting_body parser = None;
  to_open : 0 < open parser;
  to_nargs : Z.of_nat (length args) < 2 ^ 32;
}.

(** The term is closed: its items are replaced by one expression item for
    [exp] at the place of the open parenthesis. *)
Definition term_closed (parser parser' : BzlaSMT2Parser)
    (stack : list BzlaSMT2Item) (lpar : BzlaSMT2Item) (exp : BoolectorNode)
  : Prop :=
  work parser' = stack ++ [set_item_u (ItemExp exp)
                             (set_item_tag BZLA_EXP_TAG_SMT2 lpar)]
  /\ open parser' = s32 (open parser - 1)
  /\ error parser' = error parser.

(** The message of the error that [parser'] reports and [parser] did not
    have. *)
Definition reports (parser parser' : BzlaSMT2Parser) (msg : string) : Prop :=
  error parser = None -> err_msg <$> error parser' = Some msg.

(** The end of [parse_open_term_indexed_parametric], from the closing
    parenthesis on. *)
Definition close_indexed (msg : string) : M Z :=
  do ok <- read_rpar_smt2 (Some msg);
  if ok =? 0 then ret 0 else
  do parser <- get;
  run assert_ (0 <? open parser);
  run modify (set_open (s32 (open parser - 1)));
  ret 1.

(** The work stack once the indices of an indexed operator are read: the
    item below [item_cur] is changed by [f] and the items from [item_cur]
    on are dropped. *)
Definition shifted (item_cur : nat) (f : BzlaSMT2Item -> BzlaSMT2Item)
    (parser : BzlaSMT2Parser) : BzlaSMT2Parser :=
  set_work (take item_cur (alter f (item_cur - 1)%nat (work parser))) parser.

(** A string of decimal digits. *)
Definition decimal (s : string) : Prop :=
  Forall (fun a => isdigit (c_char a) = true) (list_ascii_of_string s).

(** Arguments of uniform sort, as [check_arg_sorts_match_smt2] accepts
    them: arrays of one element width and one index width, functions of
    the sort of the first, or bit-vectors of one width. *)
Definition uniform_sort (es : list BoolectorNode) : Prop :=
  match es with
  | [] => False
  | e1 :: es' =>
      if boolector_is_array e1 then
        Forall (fun e => boolector_is_array e = true
                         /\ boolector_bv_get_width e = boolector_bv_get_width e1
                         /\ boolector_array_get_index_width e
                            = boolector_array_get_index_width e1) es'
      else if boolector_is_fun e1 then
        Forall (fun e => boolector_is_fun e = true
                         /\ boolector_is_equal_sort e1 e = true) es'
      else
        Forall (fun e => boolector_is_array e = false
                         /\ boolector_is_fun e = false
                         /\ boolector_bv_get_width e = boolector_bv_get_width e1)
               es'
  end.

(** The conjunction of the terms of a list, from the left. *)
Definition and_all (xs : list BoolectorNode) : option BoolectorNode :=
  match xs with
  | [] => None
  | x :: xs' => Some (fold_left boolector_and xs' x)
  end.

(** The equalities of the consecutive pairs of [es]. *)
Definition consecutive_eqs (es : list BoolectorNode) : list BoolectorNode :=
  zip_with boolector_eq es (tail es).

(** The inequalities of the pairs [i < j] of [es]. *)
Fixpoint pairwise_nes (es : list BoolectorNode) : list BoolectorNode :=
  match es with
  | [] => []
  | e :: es' => (boolector_ne e <$> es') ++ pairwise_nes es'
  end.

End Vocabulary.

(** ** Sample states of the parser of the term backend *)

Definition sample_node (addr : positive) (tag level : Z) (name : string)
  : BzlaSMT2Node :=
  {| node_addr := addr; node_tag := tag; node_bound := false;
     node_sort := false; node_scope_level := level; node_coo := zero_coo;
     node_name := name; node_exp := None; node_sort_alias := None |}.

(** The state that [m] leaves when run from [parser]. *)
Definition exec {A} (m : M A) (parser : BzlaSMT2Parser) : BzlaSMT2Parser :=
  match m parser with
  | Some (_, parser') => parser'
  | None => parser
  end.

(** A state of the lexer between two tokens, for the term backend: the
    parser was started on the prefix [1] and a blank followed by [pre], and
    on the file [input]; the numeral [1] is read, so that the blank after
    it is the saved character, and the tokens are stored. *)
Definition lexer_after_one (pre input : string) : BzlaSMT2Parser :=
  set_store_tokens true
    (exec read_token_smt2
       (exec (parse_smt2_parser_init (Some (file_of ("1 " +:+ pre)))
                (file_of input) [])
          (zero_parser 0))).

(** The table of the symbols [nodes], inserted from the last to the
    first. *)
Definition table_with (nodes : list BzlaSMT2Node) : BzlaSMT2Parser :=
  exec (do_symops (OpInsert <$> rev nodes)) (zero_parser 0).

(** A symbol entered at the current scope level, as a declaration or a
    [let] binding does: [new_node_smt2] gives the node the current level. *)
Definition declare_symbol (name : string) : M unit :=
  do node <- new_node_smt2 BZLA_SYMBOL_TAG_SMT2;
  insert_symbol_smt2 (set_node_name name node).

(** A symbol that an earlier [pop] kept because global declarations were
    on: [x] is declared in a scope which is then closed, and global
    declarations are switched off again. *)
Definition retained_symbol : M unit :=
  run modify (set_global_declarations true);
  run open_new_scope;
  run declare_symbol "x";
  run close_current_scope;
  modify (set_global_declarations false).

(** The names and scope levels of the entries of the symbol table, chain
    by chain. *)
Definition entries (parser : BzlaSMT2Parser) : list (string * Z) :=
  (fun s => (node_name s, node_scope_level s))
    <$> concat (table (symbol parser)).

(** The file [input] read by a parser that starts in the state left by
    [m]. *)
Definition reading (input : string) (m : M unit) : BzlaSMT2Parser :=
  exec m (parser_on input).

(** The parser in which [new_smt2_parser] has entered the command [push]. *)
Definition parser_with_push : BzlaSMT2Parser :=
  exec (INSERT "push" BZLA_PUSH_TAG_SMT2) (zero_parser 0).

(** An item of the work stack. *)
Definition item_of (tag : Z) (idx0 idx1 : Z) (u : BzlaSMT2ItemUnion)
  : BzlaSMT2Item :=
  {| item_tag := tag; item_coo := zero_coo; item_idx0 := idx0;
     item_idx1 := idx1; item_u := u |}.

Definition lpar_item : BzlaSMT2Item :=
  item_of BZLA_LPAR_TAG_SMT2 0 0 ItemZero.
Definition exp_item (e : term) : BzlaSMT2Item :=
  item_of BZLA_EXP_TAG_SMT2 0 0 (ItemExp e).
Definition op_item (tag : Z) (name : string) (idx0 idx1 : Z) : BzlaSMT2Item :=
  item_of tag idx0 idx1 (ItemNode (sample_node 1 tag 0 name)).

(** The parser in front of the closing parenthesis of the term whose
    operator is [op] and whose arguments are [es]. *)
Definition closing (op : BzlaSMT2Item) (es : list term) : BzlaSMT2Parser :=
  set_open 1 (set_work (lpar_item :: op :: (exp_item <$> es)) (parser_on ")")).

(** The parser after [(_] in front of [input], inside a term. *)
Definition indexing (input : string) : BzlaSMT2Parser :=
  set_open 2
    (set_work [lpar_item; lpar_item; item_of BZLA_UNDERSCORE_TAG_SMT2 0 0 ItemZero]
       (parser_on input)).

(** No reduction for the operators outside the properties. *)
Definition no_other_term : Z -> nat -> nat -> Z -> M bool :=
  fun _ _ _ _ => undefined.
Definition no_fp_special_const : nat -> Z -> BzlaSMT2Node -> string -> M Z :=
  fun _ _ _ _ => undefined.

(** An encoding of [enum BzlaLogic]. *)
Definition sample_logic : BzlaLogic :=
  {| BZLA_LOGIC_BV := 0; BZLA_LOGIC_QF_BV := 1; BZLA_LOGIC_QF_ABV := 2;
     BZLA_LOGIC_QF_AUFBV := 3; BZLA_LOGIC_QF_UFBV := 4; BZLA_LOGIC_QF_FP := 5;
     BZLA_LOGIC_ALL := 6 |}.


(** ** Further reductions of [close_term]

    The checks and reductions that [close_term] calls for the Boolean
    connectives and for the unary, binary, left-associative and extending
    bit-vector operators (check_boolean_args_smt2,
    check_ite_args_sorts_match_smt2, close_term_bin_bool,
    close_term_unary_bv_fun, close_term_bin_bv_left_associative,
    close_term_bin_bv_fun, close_term_extend_bv_fun), and
    parse_bit_width_smt2. *)

Definition BZLA_IMPLIES_TAG_SMT2 : Z := 4 + BZLA_CORE_TAG_CLASS_SMT2.
Definition BZLA_AND_TAG_SMT2 : Z := 5 + BZLA_CORE_TAG_CLASS_SMT2.
Definition BZLA_OR_TAG_SMT2 : Z := 6 + BZLA_CORE_TAG_CLASS_SMT2.
Definition BZLA_XOR_TAG_SMT2 : Z := 7 + BZLA_CORE_TAG_CLASS_SMT2.
Definition BZLA_ITE_TAG_SMT2 : Z := 10 + BZLA_CORE_TAG_CLASS_SMT2.

Definition BZLA_BV_CONCAT_TAG_SMT2 : Z := 1 + BZLA_BV_TAG_CLASS_SMT2.
Definition BZLA_BV_NOT_TAG_SMT2 : Z := 3 + BZLA_BV_TAG_CLASS_SMT2.
Definition BZLA_BV_NEG_TAG_SMT2 : Z := 4 + BZLA_BV_TAG_CLASS_SMT2.
Definition BZLA_BV_AND_TAG_SMT2 : Z := 5 + BZLA_BV_TAG_CLASS_SMT2.
Definition BZLA_BV_OR_TAG_SMT2 : Z := 6 + BZLA_BV_TAG_CLASS_SMT2.
Definition BZLA_BV_ADD_TAG_SMT2 : Z := 7 + BZLA_BV_TAG_CLASS_SMT2.
Definition BZLA_BV_MUL_TAG_SMT2 : Z := 8 + BZLA_BV_TAG_CLASS_SMT2.
Definition BZLA_BV_UDIV_TAG_SMT2 : Z := 9 + BZLA_BV_TAG_CLASS_SMT2.
Definition BZLA_BV_UREM_TAG_SMT2 : Z := 10 + BZLA_BV_TAG_CLASS_SMT2.
Definition BZLA_BV_SHL_TAG_SMT2 : Z := 11 + BZLA_BV_TAG_CLASS_SMT2.
Definition BZLA_BV_LSHR_TAG_SMT2 : Z := 12 + BZLA_BV_TAG_CLASS_SMT2.
Definition BZLA_BV_ULT_TAG_SMT2 : Z := 13 + BZLA_BV_TAG_CLASS_SMT2.
Definition BZLA_BV_NAND_TAG_SMT2 : Z := 14 + BZLA_BV_TAG_CLASS_SMT2.
Definition BZLA_BV_NOR_TAG_SMT2 : Z := 15 + BZLA_BV_TAG_CLASS_SMT2.
Definition BZLA_BV_XOR_TAG_SMT2 : Z := 16 + BZLA_BV_TAG_CLASS_SMT2.
Definition BZLA_BV_XNOR_TAG_SMT2 : Z := 17 + BZLA_BV_TAG_CLASS_SMT2.
Definition BZLA_BV_COMP_TAG_SMT2 : Z := 18 + BZLA_BV_TAG_CLASS_SMT2.
Definition BZLA_BV_SUB_TAG_SMT2 : Z := 19 + BZLA_BV_TAG_CLASS_SMT2.
Definition BZLA_BV_SDIV_TAG_SMT2 : Z := 20 + BZLA_BV_TAG_CLASS_SMT2.
Definition BZLA_BV_SREM_TAG_SMT2 : Z := 21 + BZLA_BV_TAG_CLASS_SMT2.
Definition BZLA_BV_SMOD_TAG_SMT2 : Z := 22 + BZLA_BV_TAG_CLASS_SMT2.
Definition BZLA_BV_ASHR_TAG_SMT2 : Z := 23 + BZLA_BV_TAG_CLASS_SMT2.
Definition BZLA_BV_ULE_TAG_SMT2 : Z := 29 + BZLA_BV_TAG_CLASS_SMT2.
Definition BZLA_BV_UGT_TAG_SMT2 : Z := 30 + BZLA_BV_TAG_CLASS_SMT2.
Definition BZLA_BV_UGE_TAG_SMT2 : Z := 31 + BZLA_BV_TAG_CLASS_SMT2.
Definition BZLA_BV_SLT_TAG_SMT2 : Z := 32 + BZLA_BV_TAG_CLASS_SMT2.
Definition BZLA_BV_SLE_TAG_SMT2 : Z := 33 + BZLA_BV_TAG_CLASS_SMT2.
Definition BZLA_BV_SGT_TAG_SMT2 : Z := 34 + BZLA_BV_TAG_CLASS_SMT2.
Definition BZLA_BV_SGE_TAG_SMT2 : Z := 35 + BZLA_BV_TAG_CLASS_SMT2.
Definition BZLA_BV_REDOR_TAG_SMT2 : Z := 36 + BZLA_BV_TAG_CLASS_SMT2.
Definition BZLA_BV_REDAND_TAG_SMT2 : Z := 37 + BZLA_BV_TAG_CLASS_SMT2.

Section Reductions.
Context `{Backend}.

(** Functions of boolector.h that the reductions below name and [Backend]
    does not list. *)
Variable boolector_bv_xor : BoolectorNode -> BoolectorNode -> BoolectorNode.
Variable boolector_bv_not : BoolectorNode -> BoolectorNode.

Definition check_boolean_args_smt2 (p : nat) (nargs : Z) : M bool :=
  mall (seqZ 1 (s32 nargs))
    (fun i =>
       do item_i <- item_at (idx p i);
       do pi <- item_exp item_i;
       if boolector_is_array pi then
         run modify (set_perrcoo (item_coo item_i));
         do name <- node_name_at p;
         run perr_smt2
           ("argument " +:+ fmt_d i +:+ " of '" +:+ name +:+ "' is an array term");
         ret false
       else
         let width := boolector_bv_get_width pi in
         if negb (width =? 1) then
           run modify (set_perrcoo (item_coo item_i));
           do name <- node_name_at p;
           run perr_smt2
             ("argument " +:+ fmt_d i +:+ " of '" +:+ name
              +:+ "' is a bit-vector of width " +:+ fmt_d (s32 width));
           ret false
         else ret true).

Definition check_ite_args_sorts_match_smt2 (p : nat) : M bool :=
  do item_p <- item_at p;
  run assert_ (item_tag item_p =? BZLA_ITE_TAG_SMT2);
  do item1 <- item_at (idx p 1);
  do p1 <- item_exp item1;
  if boolector_is_array p1 then
    run modify (set_perrcoo (item_coo item1));
    run perr_smt2 "first argument of 'ite' is an array"; ret false
  else if boolector_is_fun p1 then
    run modify (set_perrcoo (item_coo item1));
    run perr_smt2 "first argument of 'ite' is a function"; ret false
  else if negb (boolector_bv_get_width p1 =? 1) then
    run modify (set_perrcoo (item_coo item1));
    run perr_smt2
      ("first argument of 'ite' is bit-vector of bit-width "
       +:+ fmt_u (boolector_bv_get_width p1));
    ret false
  else
    do p2 <- exp_at (idx p 2);
    do p3 <- exp_at (idx p 3);
    if boolector_is_array p2 then
      if negb (boolector_is_array p3) then
        run modify (set_perrcoo (item_coo item_p));
        run perr_smt2 "second argument of 'ite' is an array but third not";
        ret false
      else
        let width := boolector_bv_get_width p2 in
        let width2 := boolector_bv_get_width p3 in
        if negb (width =? width2) then
          run modify (set_perrcoo (item_coo item_p));
          run perr_smt2
            ("second argument of 'ite' is array of bit-vectors of width "
             +:+ fmt_u width
             +:+ " and third argument is array of bit-vectors of width "
             +:+ fmt_u width2);
          ret false
        else
          let domain := boolector_array_get_index_width p2 in
          let width2 := boolector_array_get_index_width p3 in
          if negb (domain =? width2) then
            run modify (set_perrcoo (item_coo item_p));
            run perr_smt2
              ("second argument of 'ite' is array with index bit-vectors of width "
               +:+ fmt_u domain
               +:+ " and third argument is array with index bit-vectors of width "
               +:+ fmt_u width2);
            ret false
          else ret true
    else if boolector_is_array p3 then
      run modify (set_perrcoo (item_coo item_p));
      run perr_smt2 "third argument of 'ite' is an array but second not";
      ret false
    else
      let width := boolector_bv_get_width p2 in
      let width2 := boolector_bv_get_width p3 in
      if negb (width =? width2) then
        run modify (set_perrcoo (item_coo item_p));
        run perr_smt2
          ("second argument of 'ite' is bit-vector of width " +:+ fmt_d (s32 width)
           +:+ " and third argument is bit-vector of width "
           +:+ fmt_d (s32 width2));
        ret false
      else ret true.

(** [for (i = 1, exp = 0; i <= nargs; i++)]: the arguments combined from
    the left. *)
Definition fold_args_left (item_cur : nat) (nargs : Z)
    (fun_ : BoolectorNode -> BoolectorNode -> BoolectorNode)
  : M (option BoolectorNode) :=
  mfold (seqZ 1 nargs)
    (fun exp i =>
       do a <- exp_at (idx item_cur i);
       match exp with
       | Some old => ret (Some (fun_ old a))
       | None => ret (Some a)
       end)
    None.

(** [for (i = nargs, exp = 0; i >= 1; i--)]: the arguments combined from
    the right. *)
Definition fold_args_right (item_cur : nat) (nargs : Z)
    (fun_ : BoolectorNode -> BoolectorNode -> BoolectorNode)
  : M (option BoolectorNode) :=
  mfold (rev (seqZ 1 nargs))
    (fun exp i =>
       do a <- exp_at (idx item_cur i);
       match exp with
       | Some old => ret (Some (fun_ a old))
       | None => ret (Some a)
       end)
    None.

Definition close_term_bin_bool (item_open item_cur : nat) (nargs : Z)
    (fun_ : BoolectorNode -> BoolectorNode -> BoolectorNode) : M Z :=
  do item <- item_at item_cur;
  run assert_
    ((item_tag item =? BZLA_IMPLIES_TAG_SMT2)
     || (item_tag item =? BZLA_AND_TAG_SMT2)
     || (item_tag item =? BZLA_OR_TAG_SMT2)
     || (item_tag item =? BZLA_XOR_TAG_SMT2));
  if nargs <? 2 then
    run modify (set_perrcoo (item_coo item));
    do name <- node_name_at item_cur;
    run perr_smt2 ("argument to '" +:+ name +:+ "' missing");
    ret 0
  else
  do ok <- check_boolean_args_smt2 item_cur nargs;
  if negb ok then ret 0 else
  do exp <-
    (if item_tag item =? BZLA_IMPLIES_TAG_SMT2
     then fold_args_right item_cur nargs fun_
     else fold_args_left item_cur nargs fun_);
  match exp with
  | None => undefined
  | Some exp =>
      run release_exp_and_overwrite item_open item_cur nargs exp;
      ret 1
  end.

Definition close_term_unary_bv_fun (item_open item_cur : nat) (nargs : Z)
    (fun_ : BoolectorNode -> BoolectorNode) : M Z :=
  do item <- item_at item_cur;
  run assert_
    ((item_tag item =? BZLA_BV_NOT_TAG_SMT2)
     || (item_tag item =? BZLA_BV_NEG_TAG_SMT2)
     || (item_tag item =? BZLA_BV_REDOR_TAG_SMT2)
     || (item_tag item =? BZLA_BV_REDAND_TAG_SMT2));
  do ok <- check_nargs_smt2 item_cur nargs 1;
  if negb ok then ret 0 else
  do ok <- check_not_array_or_uf_args_smt2 item_cur nargs;
  if negb ok then ret 0 else
  do e1 <- exp_at (idx item_cur 1);
  run release_exp_and_overwrite item_open item_cur nargs (fun_ e1);
  ret 1.

(** [fun_is_xnor] is the outcome of the comparison
    [fun == boolector_xnor] of the function pointer. *)
Definition close_term_bin_bv_left_associative (item_open item_cur : nat)
    (nargs : Z) (fun_ : BoolectorNode -> BoolectorNode -> BoolectorNode)
    (fun_is_xnor : bool) : M Z :=
  do item <- item_at item_cur;
  run assert_
    ((item_tag item =? BZLA_BV_CONCAT_TAG_SMT2)
     || (item_tag item =? BZLA_BV_AND_TAG_SMT2)
     || (item_tag item =? BZLA_BV_OR_TAG_SMT2)
     || (item_tag item =? BZLA_BV_XOR_TAG_SMT2)
     || (item_tag item =? BZLA_BV_XNOR_TAG_SMT2)
     || (item_tag item =? BZLA_BV_ADD_TAG_SMT2)
     || (item_tag item =? BZLA_BV_SUB_TAG_SMT2)
     || (item_tag item =? BZLA_BV_MUL_TAG_SMT2));
  if nargs <? 2 then
    run modify (set_perrcoo (item_coo item));
    do name <- node_name_at item_cur;
    run perr_smt2 ("argument to '" +:+ name +:+ "' missing");
    ret 0
  else
  do ok <-
    (if negb (item_tag item =? BZLA_BV_CONCAT_TAG_SMT2)
     then check_arg_sorts_match_smt2 item_cur 0 nargs
     else ret true);
  if negb ok then ret 0 else
  do ok <- check_not_array_or_uf_args_smt2 item_cur nargs;
  if negb ok then ret 0 else
  let is_xnor := fun_is_xnor in
  let fun_ := if fun_is_xnor then boolector_bv_xor else fun_ in
  do exp <- fold_args_left item_cur nargs fun_;
  match exp with
  | None => undefined
  | Some exp =>
      let exp := if is_xnor then boolector_bv_not exp else exp in
      run release_exp_and_overwrite item_open item_cur nargs exp;
      ret 1
  end.

Definition close_term_bin_bv_fun (item_open item_cur : nat) (nargs : Z)
    (fun_ : BoolectorNode -> BoolectorNode -> BoolectorNode) : M Z :=
  do item <- item_at item_cur;
  run assert_
    ((item_tag item =? BZLA_BV_UDIV_TAG_SMT2)
     || (item_tag item =? BZLA_BV_UREM_TAG_SMT2)
     || (item_tag item =? BZLA_BV_SHL_TAG_SMT2)
     || (item_tag item =? BZLA_BV_LSHR_TAG_SMT2)
     || (item_tag item =? BZLA_BV_ASHR_TAG_SMT2)
     || (item_tag item =? BZLA_BV_NAND_TAG_SMT2)
     || (item_tag item =? BZLA_BV_NOR_TAG_SMT2)
     || (item_tag item =? BZLA_BV_XNOR_TAG_SMT2)
     || (item_tag item =? BZLA_BV_COMP_TAG_SMT2)
     || (item_tag item =? BZLA_BV_SDIV_TAG_SMT2)
     || (item_tag item =? BZLA_BV_SREM_TAG_SMT2)
     || (item_tag item =? BZLA_BV_SMOD_TAG_SMT2)
     || (item_tag item =? BZLA_BV_ULT_TAG_SMT2)
     || (item_tag item =? BZLA_BV_ULE_TAG_SMT2)
     || (item_tag item =? BZLA_BV_UGT_TAG_SMT2)
     || (item_tag item =? BZLA_BV_UGE_TAG_SMT2)
     || (item_tag item =? BZLA_BV_SLT_TAG_SMT2)
     || (item_tag item =? BZLA_BV_SLE_TAG_SMT2)
     || (item_tag item =? BZLA_BV_SGT_TAG_SMT2)
     || (item_tag item =? BZLA_BV_SGE_TAG_SMT2));
  do ok <- check_nargs_smt2 item_cur nargs 2;
  if negb ok then ret 0 else
  do ok <- check_arg_sorts_match_smt2 item_cur 0 2;
  if negb ok then ret 0 else
  do ok <- check_not_array_or_uf_args_smt2 item_cur nargs;
  if negb ok then ret 0 else
  do e1 <- exp_at (idx item_cur 1);
  do e2 <- exp_at (idx item_cur 2);
  run release_exp_and_overwrite item_open item_cur nargs (fun_ e1 e2);
  ret 1.

Definition close_term_extend_bv_fun (item_open item_cur : nat) (nargs : Z)
    (fun_ : BoolectorNode -> Z -> BoolectorNode) : M Z :=
  do item <- item_at item_cur;
  run assert_
    ((item_tag item =? BZLA_BV_ZERO_EXTEND_TAG_SMT2)
     || (item_tag item =? BZLA_BV_SIGN_EXTEND_TAG_SMT2));
  do ok <- check_nargs_smt2 item_cur nargs 1;
  if negb ok then ret 0 else
  do ok <- check_not_array_or_uf_args_smt2 item_cur nargs;
  if negb ok then ret 0 else
  do e1 <- exp_at (idx item_cur 1);
  let width := boolector_bv_get_width e1 in
  if u32 (INT32_MAX - item_num item) <? width then
    run modify (set_perrcoo (item_coo item));
    do name <- node_name_at item_cur;
    run perr_smt2 ("resulting bit-width of '" +:+ name +:+ "' too large");
    ret 0
  else
    run release_exp_and_overwrite item_open item_cur nargs
          (fun_ e1 (item_num item));
    ret 1.

(** [parse_bit_width_smt2 (parser, width)]: [Some v] when it returns 1
    after storing [v] in [*width], [None] when it returns 0. *)
Definition parse_bit_width_smt2 : M (option Z) :=
  do tag <- read_token_smt2;
  if tag =? BZLA_INVALID_TAG_SMT2 then ret None
  else if tag =? EOF then
    run perr_smt2 "expected bit-width but reached end-of-file"; ret None
  else if negb (tag =? BZLA_DECIMAL_CONSTANT_TAG_SMT2)
          && negb (tag =? BZLA_REAL_CONSTANT_TAG_SMT2) then
    do parser <- get;
    run perr_smt2 ("expected bit-width at '" +:+ c_string (token parser) +:+ "'");
    ret None
  else
    do parser <- get;
    let start := c_string (token parser) in
    run assert_ (negb (str_at start 0 =? chr "-"));
    if existsb (fun a => c_char a =? chr ".") (list_ascii_of_string start) then
      run perr_smt2 ("invalid bit-width '" +:+ start +:+ "', expected integer");
      ret None
    else if str_at start 0 =? chr "0" then
      run assert_ (str_at start 1 =? 0);
      run perr_smt2 "invalid zero bit-width";
      ret None
    else str2uint32_smt2 true start.

End Reductions.

Section Positions.
Context `{Backend}.

(** A stretch of the file that the lexer skips: a white-space character,
    or a comment with the new line that ends it. *)
Inductive blank :=
| Space (c : Z)
| Comment (text : list Z).

Definition blank_chars (b : blank) : list Z :=
  match b with
  | Space c => [c]
  | Comment text => chr ";" :: text ++ [chr "010"]
  end.

Definition blank_ok (b : blank) : Prop :=
  match b with
  | Space c => isspace_smt2 c = true
  | Comment text => Forall (fun c => c <> chr "010" /\ c <> EOF) text
  end.

(** [parser] at the place in the file where [q] is: the rest of the file
    and the coordinates are those of [q]. *)
Definition moved_to (q parser : BzlaSMT2Parser) : BzlaSMT2Parser :=
  set_last_end_of_line_ycoo (last_end_of_line_ycoo q)
    (set_nextcoo (nextcoo q) (set_coo (coo q) (set_infile (infile q) parser))).

(** The lexer reads from the file, with no saved character, and the
    coordinates leave room for the characters that are left. *)
Definition reads_file (parser : BzlaSMT2Parser) : Prop :=
  saved parser = false /\ prefix parser = None
  /\ 0 <= coo_x (nextcoo parser) /\ 0 <= coo_y (nextcoo parser)
  /\ coo_x (nextcoo parser) + Z.of_nat (length (infile parser)) < INT32_MAX
  /\ coo_y (nextcoo parser) + Z.of_nat (length (infile parser)) < INT32_MAX.

(** *** The lexer in any state *)

(** What [nextch_smt2] reads after the saved character: the characters of
    the prefix that are left, then the file. *)
Definition unsaved (parser : BzlaSMT2Parser) : list Z :=
  match prefix parser with
  | Some pre => drop (Z.to_nat (nprefix parser)) pre
  | None => []
  end ++ infile parser.

(** The characters that [nextch_smt2] delivers before end-of-file: the
    saved character, if there is one, and the unsaved ones. *)
Definition pending (parser : BzlaSMT2Parser) : list Z :=
  (if saved parser then [savedch parser] else []) ++ unsaved parser.

(** [parser] with the fields that the lexer writes when it reads a token
    without a lookup and without an error taken from [q]: the saved
    character, the place in the prefix and in the file, the coordinates,
    the token, the stored tokens and the last node. *)
Definition lexed (q parser : BzlaSMT2Parser) : BzlaSMT2Parser :=
  set_saved (saved q)
    (set_savedch (savedch q)
       (set_nprefix (nprefix q)
          (set_infile (infile q)
             (set_nextcoo (nextcoo q)
                (set_last_end_of_line_ycoo (last_end_of_line_ycoo q)
                   (set_coo (coo q)
                      (set_lastcoo (lastcoo q)
                         (set_token (token q)
                            (set_tokens (tokens q)
                               (set_last_node (last_node q) parser)))))))))).

(** The states of the lexer between two tokens: [nprefix] is a [uint32_t]
    that counts characters of the prefix, the characters to read are
    values of [getc] or of a [char], and the coordinates start at one. *)
Definition lexer_ok (parser : BzlaSMT2Parser) : Prop :=
  match prefix parser with
  | Some pre => 0 <= nprefix parser /\ Z.of_nat (length pre) < 2 ^ 32
  | None => True
  end
  /\ Forall (fun c => - 128 <= c < 256) (pending parser)
  /\ 1 <= coo_x (nextcoo parser) /\ 1 <= coo_y (nextcoo parser).

(** The coordinates can count [n] more characters. *)
Definition lexer_room (n : Z) (parser : BzlaSMT2Parser) : Prop :=
  coo_x (nextcoo parser) + n <= INT32_MAX
  /\ coo_y (nextcoo parser) + n <= INT32_MAX.

(** The lexer, started in [parser], has come to the state [q]: [input] is
    what is left to read, [tok] the token read so far, and the coordinates
    can count [n] more characters. *)
Definition lexer_at (input tok : list Z) (n : Z)
    (parser q : BzlaSMT2Parser) : Prop :=
  pending q = input /\ token q = tok
  /\ lexer_ok q /\ lexer_room n q /\ q = lexed q parser.

End Positions.


Section Frames.
Context `{Backend}.

(** Every run of [m] that returns relates the state before to the state
    after. *)
Definition preserves {A} (R : BzlaSMT2Parser -> BzlaSMT2Parser -> Prop)
    (m : M A) : Prop :=
  forall parser v parser', m parser = Some (v, parser') -> R parser parser'.

(** What no command but [set-logic] writes: the logic of the result and
    the counter of the [set-logic] commands.  An error that is set stays
    set. *)
Definition keeps_logic (parser parser' : BzlaSMT2Parser) : Prop :=
  logic (res parser') = logic (res parser)
  /\ set_logic (commands parser') = set_logic (commands parser)
  /\ (error parser <> None -> error parser' <> None).

(** After at most [k] commands: the counter of the [set-logic] commands
    is between 0 and [k], and while it is zero and no error is set the
    logic of the result is the zero it was cleared to. *)
Definition logic_unset (k : Z) (parser : BzlaSMT2Parser) : Prop :=
  0 <= set_logic (commands parser) <= k
  /\ (set_logic (commands parser) = 0 -> error parser = None ->
      logic (res parser) = 0).

End Frames.


(** * Properties *)

Local Open Scope monad_scope.

(** ** C strings *)

Lemma chr_range a : 0 <= chr a < 256.
Proof.
  unfold chr. pose proof (N_ascii_bounded a). lia.
Qed.

Lemma chr_inj a b : chr a = chr b -> a = b.
Proof.
  unfold chr. intros E.
  rewrite <- (ascii_N_embedding a), <- (ascii_N_embedding b).
  f_equal. lia.
Qed.

Lemma c_char_bar a : c_char a = chr "|" <-> a = "|"%char.
Proof.
  unfold c_char. pose proof (chr_range a).
  change (chr "|") with 124. split.
  - intros E. apply chr_inj. change (chr "|") with 124.
    destruct (chr a <? 128) eqn:C; lia.
  - intros ->. reflexivity.
Qed.

Lemma append_nil_l s : EmptyString +:+ s = s.
Proof. reflexivity. Qed.

Lemma append_cons c s r : String c s +:+ r = String c (s +:+ r).
Proof. reflexivity. Qed.

Lemma strlen_nonneg s : 0 <= strlen s.
Proof. unfold strlen. lia. Qed.

Lemma strlen_cons c s : strlen (String c s) = strlen s + 1.
Proof. unfold strlen. cbn [String.length]. lia. Qed.

Lemma strlen_append a b : strlen (a +:+ b) = strlen a + strlen b.
Proof.
  induction a as [|c a IH].
  - rewrite append_nil_l. change (strlen EmptyString) with 0. lia.
  - rewrite append_cons, !strlen_cons, IH. lia.
Qed.

Lemma strcmp_eq a b : strcmp a b = 0 <-> a = b.
Proof.
  revert b. induction a as [|c a IH]; intros [|d b]; cbn [strcmp];
    try (split; [lia | discriminate]); [tauto|].
  destruct (chr c =? chr d) eqn:E.
  - apply Z.eqb_eq, chr_inj in E. subst d. rewrite IH.
    split; [congruence | intros [= ->]; reflexivity].
  - apply Z.eqb_neq in E.
    split; [destruct (chr c <? chr d); lia | intros [= -> ->]; lia].
Qed.

Lemma strncmp_prefix_l a x : strncmp a x (strlen x) = 0 <-> exists r, a = x +:+ r.
Proof.
  revert a. induction x as [|d x IH]; intros a.
  - destruct a; cbn; split; eauto.
  - pose proof (strlen_nonneg x).
    destruct a as [|c a]; cbn [strncmp]; rewrite strlen_cons;
      destruct (strlen x + 1 <=? 0) eqn:L; try lia.
    + split; [lia | intros [r Hr]; discriminate].
    + replace (strlen x + 1 - 1) with (strlen x) by lia.
      destruct (chr c =? chr d) eqn:E.
      * apply Z.eqb_eq, chr_inj in E. subst d. rewrite IH.
        split; intros [r Hr]; exists r; rewrite append_cons in *; congruence.
      * apply Z.eqb_neq in E. split.
        -- destruct (chr c <? chr d); lia.
        -- intros [r Hr]. rewrite append_cons in Hr. injection Hr as -> _. lia.
Qed.

Lemma strncmp_prefix_r s y : strncmp s y (strlen s) = 0 <-> exists r, y = s +:+ r.
Proof.
  revert y. induction s as [|c s IH]; intros y.
  - destruct y; cbn; split; eauto.
  - pose proof (strlen_nonneg s).
    destruct y as [|d y]; cbn [strncmp]; rewrite strlen_cons;
      destruct (strlen s + 1 <=? 0) eqn:L; try lia.
    + split; [lia | intros [r Hr]; discriminate].
    + replace (strlen s + 1 - 1) with (strlen s) by lia.
      destruct (chr c =? chr d) eqn:E.
      * apply Z.eqb_eq, chr_inj in E. subst d. rewrite IH.
        split; intros [r Hr]; exists r; rewrite append_cons in *; congruence.
      * apply Z.eqb_neq in E. split.
        -- destruct (chr c <? chr d); lia.
        -- intros [r Hr]. rewrite append_cons in Hr. injection Hr as -> _. lia.
Qed.

Lemma str_at_0 c s : str_at (String c s) 0 = c_char c.
Proof. reflexivity. Qed.

Lemma str_at_nil i : str_at EmptyString i = 0.
Proof. unfold str_at. destruct (i <? 0); [reflexivity|]. now destruct (Z.to_nat i). Qed.

Lemma str_at_cons c s i : 0 <= i -> str_at (String c s) (i + 1) = str_at s i.
Proof.
  intros Hi. unfold str_at.
  destruct (i + 1 <? 0) eqn:A; [lia|]. destruct (i <? 0) eqn:B; [lia|].
  replace (Z.to_nat (i + 1)) with (S (Z.to_nat i)) by lia. reflexivity.
Qed.

Lemma str_at_app_l x r i : 0 <= i < strlen x -> str_at (x +:+ r) i = str_at x i.
Proof.
  revert i. induction x as [|c x IH]; intros i Hi.
  - unfold strlen in Hi. cbn in Hi. lia.
  - rewrite strlen_cons in Hi. rewrite append_cons.
    destruct (Z.eq_dec i 0) as [->|Hne]; [reflexivity|].
    replace i with (i - 1 + 1) by lia.
    rewrite !str_at_cons by lia. apply IH. lia.
Qed.

Lemma str_at_app_r x r i : 0 <= i -> str_at (x +:+ r) (strlen x + i) = str_at r i.
Proof.
  intros Hi. induction x as [|c x IH].
  - rewrite append_nil_l. change (strlen EmptyString) with 0. reflexivity.
  - rewrite strlen_cons. rewrite append_cons.
    replace (strlen x + 1 + i) with (strlen x + i + 1) by lia.
    pose proof (strlen_nonneg x). rewrite str_at_cons by lia. exact IH.
Qed.

Lemma string_snoc s : s = EmptyString \/ exists m c, s = m +:+ String c EmptyString.
Proof.
  induction s as [|c s IH]; [now left|right].
  destruct IH as [->|(m & d & ->)].
  - exists EmptyString, c. reflexivity.
  - exists (String c m), d. reflexivity.
Qed.

Lemma append_inj_l a b r r' :
  strlen a = strlen b -> a +:+ r = b +:+ r' -> a = b /\ r = r'.
Proof.
  revert b. induction a as [|c a IH]; intros [|d b] L E.
  - rewrite !append_nil_l in E. now split.
  - rewrite strlen_cons in L. pose proof (strlen_nonneg b).
    change (strlen EmptyString) with 0 in L. lia.
  - rewrite strlen_cons in L. pose proof (strlen_nonneg a).
    change (strlen EmptyString) with 0 in L. lia.
  - rewrite !strlen_cons in L. rewrite !append_cons in E. injection E as -> E.
    destruct (IH b ltac:(lia) E) as [-> ->]. now split.
Qed.

Lemma append_assoc a b c : (a +:+ b) +:+ c = a +:+ (b +:+ c).
Proof.
  induction a as [|x a IH]; [reflexivity|].
  rewrite !append_cons. now rewrite IH.
Qed.

(** ** Quoted names *)


Lemma bars_cons x : bars x = String "|" (x +:+ "|").
Proof. reflexivity. Qed.

Lemma strlen_bars x : strlen (bars x) = strlen x + 2.
Proof.
  rewrite bars_cons, strlen_cons, strlen_append.
  change (strlen "|") with 1. lia.
Qed.

Lemma is_quoted_bars x : is_quoted (bars x) (strlen (bars x)) = true.
Proof.
  unfold is_quoted. rewrite strlen_bars, bars_cons, str_at_0.
  change (c_char "|") with (chr "|"). rewrite Z.eqb_refl.
  pose proof (strlen_nonneg x).
  replace (strlen x + 2 - 1) with (strlen x + 0 + 1) by lia.
  rewrite str_at_cons by lia. rewrite str_at_app_r by lia.
  reflexivity.
Qed.

(** A name that the source takes for quoted is the single bar or has a bar
    at both ends. *)
Lemma is_quoted_inv s :
  is_quoted s (strlen s) = true -> s = "|"%string \/ exists m, s = bars m.
Proof.
  unfold is_quoted. destruct s as [|c s]; [cbn; discriminate|].
  rewrite str_at_0. destruct (c_char c =? chr "|") eqn:E; [|discriminate].
  apply Z.eqb_eq, c_char_bar in E. subst c. intros Hl.
  apply Z.eqb_eq in Hl. rewrite strlen_cons in Hl.
  destruct (string_snoc s) as [->|(m & d & ->)]; [now left|right].
  exists m. rewrite bars_cons. f_equal. f_equal.
  rewrite strlen_append in Hl. pose proof (strlen_nonneg m).
  change (strlen (String d EmptyString)) with 1 in Hl.
  replace (strlen m + 1 + 1 - 1) with (strlen m + 0 + 1) in Hl by lia.
  rewrite str_at_cons, str_at_app_r in Hl by lia.
  rewrite str_at_0 in Hl. apply c_char_bar in Hl. now subst d.
Qed.

Lemma bars_inj m x : bars m = bars x -> m = x.
Proof.
  rewrite !bars_cons. intros [= E].
  assert (L : strlen m = strlen x).
  { apply (f_equal strlen) in E. rewrite !strlen_append in E. lia. }
  now destruct (append_inj_l _ _ _ _ L E).
Qed.

Lemma str_offset_bars x : str_offset (bars x) 1 = x +:+ "|".
Proof. reflexivity. Qed.

Section SymbolTable.
Context `{Backend}.

(** The hash loop stops by itself: more fuel than characters changes
    nothing. *)
Lemma hash_name_loop_fuel n m name pos len res i :
  len - pos <= Z.of_nat n -> len - pos <= Z.of_nat m ->
  hash_name_loop n name pos len res i = hash_name_loop m name pos len res i.
Proof.
  revert m pos res i. induction n as [|n IH]; intros [|m] pos res i Hn Hm;
    cbn [hash_name_loop]; try reflexivity.
  - destruct (pos <? len) eqn:E; [lia | reflexivity].
  - destruct (pos <? len) eqn:E; [lia | reflexivity].
  - destruct (pos <? len) eqn:E; [|reflexivity]. apply IH; lia.
Qed.

Lemma hash_name_loop_bars n x pos res i :
  0 <= pos ->
  hash_name_loop n (bars x) (pos + 1) (strlen x + 1) res i
  = hash_name_loop n x pos (strlen x) res i.
Proof.
  revert pos res i. induction n as [|n IH]; intros pos res i Hpos;
    cbn [hash_name_loop]; [reflexivity|].
  destruct (pos <? strlen x) eqn:E.
  - replace (pos + 1 <? strlen x + 1) with true by lia.
    rewrite bars_cons, str_at_cons, str_at_app_l by lia.
    rewrite <- bars_cons. apply IH. lia.
  - replace (pos + 1 <? strlen x + 1) with false by lia. reflexivity.
Qed.

Lemma hash_name_smt2_bars parser x :
  is_quoted x (strlen x) = false -> strlen x + 2 < 2 ^ 64 ->
  hash_name_smt2 parser (bars x) = hash_name_smt2 parser x.
Proof.
  intros Hq Hlen. unfold hash_name_smt2.
  rewrite is_quoted_bars, Hq, strlen_bars. pose proof (strlen_nonneg x).
  unfold size_t. replace (strlen x + 2 - 1) with (strlen x + 1) by lia.
  rewrite Z.mod_small by lia. f_equal.
  change 1 with (0 + 1) at 2. rewrite hash_name_loop_bars by lia.
  apply hash_name_loop_fuel; lia.
Qed.

Lemma symbol_matches_refl s : symbol_matches s s = true.
Proof.
  unfold symbol_matches. rewrite Bool.eqb_reflx.
  apply Z.eqb_eq, strcmp_eq. reflexivity.
Qed.

Lemma symbol_matches_bars s x :
  is_quoted x (strlen x) = false -> fits (bars x) -> fits s ->
  symbol_matches s (bars x) = symbol_matches s x.
Proof.
  unfold fits. rewrite strlen_bars.
  intros Hq Hx Hs. unfold symbol_matches.
  rewrite is_quoted_bars, Hq, strlen_bars.
  pose proof (strlen_nonneg x). pose proof (strlen_nonneg s).
  destruct (is_quoted s (strlen s)) eqn:Qs; cbn [Bool.eqb].
  - destruct (is_quoted_inv _ Qs) as [->|[m ->]].
    + change (strlen "|") with 1. unfold size_t.
      replace ((1 - 2) mod 2 ^ 64 =? strlen x) with false
        by (change ((1 - 2) mod 2 ^ 64) with (2 ^ 64 - 1); lia).
      apply Z.eqb_neq. rewrite strcmp_eq. rewrite bars_cons.
      intros [= E]. apply (f_equal strlen) in E. rewrite strlen_append in E.
      change (strlen "|") with 1 in E. change (strlen EmptyString) with 0 in E. lia.
    + rewrite strlen_bars in *. pose proof (strlen_nonneg m).
      unfold size_t. replace (strlen m + 2 - 2) with (strlen m) by lia.
      rewrite Z.mod_small by lia. rewrite str_offset_bars.
      apply Bool.eq_iff_eq_true. rewrite Z.eqb_eq, strcmp_eq.
      destruct (strlen m =? strlen x) eqn:L.
      * apply Z.eqb_eq in L. rewrite Z.eqb_eq, strncmp_prefix_l. split.
        -- intros E. apply bars_inj in E. subst m. now exists "|"%string.
        -- intros [r E]. destruct (append_inj_l _ _ _ _ L E) as [-> _].
           reflexivity.
      * apply Z.eqb_neq in L. split; [|discriminate].
        intros E. apply bars_inj in E. now subst m.
  - unfold size_t. replace (strlen x + 2 - 2) with (strlen x) by lia.
    rewrite Z.mod_small by lia. rewrite str_offset_bars.
    apply Bool.eq_iff_eq_true. rewrite Z.eqb_eq, strcmp_eq.
    destruct (strlen x =? strlen s) eqn:L.
    + apply Z.eqb_eq in L. rewrite Z.eqb_eq, strncmp_prefix_r. split.
      * intros [r E]. symmetry in L.
        destruct (append_inj_l _ _ _ _ L (eq_sym E)) as [-> _]. reflexivity.
      * intros ->. now exists "|"%string.
    + apply Z.eqb_neq in L. split; [discriminate|]. intros ->. lia.
Qed.

Lemma find_in_chain_bars chain x :
  is_quoted x (strlen x) = false -> fits (bars x) ->
  Forall (fun s => fits (node_name s)) chain ->
  find_in_chain (bars x) chain = find_in_chain x chain.
Proof.
  intros Hq Hx. induction 1 as [|s chain Hs _ IH]; [reflexivity|].
  cbn [find_in_chain]. rewrite symbol_matches_bars by assumption.
  now rewrite IH.
Qed.

(** For every name [x] that is not itself written between bars,
    [find_symbol_smt2] returns the same entry (or no entry) for [|x|] and
    for [x], whatever the table holds. *)
Lemma find_symbol_bars (parser : BzlaSMT2Parser) (x : string) :
  is_quoted x (strlen x) = false ->
  fits (bars x) ->
  names_fit parser ->
  find_symbol_smt2 parser (bars x) = find_symbol_smt2 parser x.
Proof.
  intros Hq Hx Hfit.
  unfold find_symbol_smt2. destruct (size (symbol parser) =? 0); [reflexivity|].
  rewrite hash_name_smt2_bars
    by (try assumption; unfold fits in Hx; rewrite strlen_bars in Hx; lia).
  apply find_in_chain_bars; try assumption.
  set (h := Z.to_nat (hash_name_smt2 parser x)).
  destruct (table (symbol parser) !! h) as [chain|] eqn:E.
  - rewrite (list_lookup_total_correct _ _ _ E).
    exact (Forall_lookup_1 _ _ _ _ Hfit E).
  - rewrite list_lookup_total_alt, E. constructor.
Qed.

End SymbolTable.

Section TableFacts.
Context `{Backend}.

Lemma hash_name_smt2_raw parser name :
  hash_name_smt2 parser name
  = Z.land (hash_name_raw name) (u32 (size (symbol parser) - 1)).
Proof.
  unfold hash_name_smt2, hash_name_raw.
  now destruct (is_quoted name (strlen name)).
Qed.

Lemma hash_bucket_of parser s :
  Z.to_nat (hash_name_smt2 parser (node_name s)) = bucket_of (size (symbol parser)) s.
Proof. unfold bucket_of. now rewrite hash_name_smt2_raw. Qed.

Lemma mask_pow2 k : 0 <= k <= 32 -> u32 (2 ^ k - 1) = Z.ones k.
Proof.
  intros Hk. rewrite Z.ones_equiv. unfold u32, Z.pred.
  assert (0 < 2 ^ k) by (apply Z.pow_pos_nonneg; lia).
  assert (2 ^ k <= 2 ^ 32) by (apply Z.pow_le_mono_r; lia).
  apply Z.mod_small. lia.
Qed.

Lemma bucket_of_pow2 k s :
  0 <= k <= 32 -> Z.of_nat (bucket_of (2 ^ k) s) = hash_name_raw (node_name s) mod 2 ^ k.
Proof.
  intros Hk. unfold bucket_of. rewrite mask_pow2, Z.land_ones by lia.
  assert (0 < 2 ^ k) by (apply Z.pow_pos_nonneg; lia).
  pose proof (Z.mod_pos_bound (hash_name_raw (node_name s)) (2 ^ k)). lia.
Qed.

Lemma bucket_of_lt k s : 0 <= k <= 32 -> (bucket_of (2 ^ k) s < Z.to_nat (2 ^ k))%nat.
Proof.
  intros Hk. pose proof (bucket_of_pow2 k s Hk).
  assert (0 < 2 ^ k) by (apply Z.pow_pos_nonneg; lia).
  pose proof (Z.mod_pos_bound (hash_name_raw (node_name s)) (2 ^ k)). lia.
Qed.

Lemma length_chains_of sz live : length (chains_of sz live) = Z.to_nat sz.
Proof. unfold chains_of. now rewrite length_fmap, length_seq. Qed.

Lemma lookup_chains_of sz live h :
  (h < Z.to_nat sz)%nat ->
  chains_of sz live !! h = Some (filter (fun s => bucket_of sz s = h) live).
Proof.
  intros Hh. unfold chains_of. rewrite list_lookup_fmap, lookup_seq_lt by lia.
  reflexivity.
Qed.

Lemma lookup_total_chains_of sz live h :
  (h < Z.to_nat sz)%nat ->
  chains_of sz live !!! h = filter (fun s => bucket_of sz s = h) live.
Proof.
  intros Hh. apply list_lookup_total_correct. now apply lookup_chains_of.
Qed.

(** Prepending to the chain of its bucket is insertion in front of the
    live list. *)
Lemma chains_of_cons sz live s :
  (bucket_of sz s < Z.to_nat sz)%nat ->
  <[bucket_of sz s := s :: chains_of sz live !!! bucket_of sz s]> (chains_of sz live)
  = chains_of sz (s :: live).
Proof.
  intros Hh. apply list_eq. intros i.
  destruct (decide (i < Z.to_nat sz)%nat) as [Hi|Hi].
  - rewrite (lookup_chains_of _ (s :: live)) by assumption.
    destruct (decide (bucket_of sz s = i)) as [<-|Hne].
    + rewrite list_lookup_insert_eq by (now rewrite length_chains_of).
      rewrite lookup_total_chains_of by assumption.
      now rewrite filter_cons_True.
    + rewrite list_lookup_insert_ne by assumption.
      rewrite lookup_chains_of by assumption.
      now rewrite filter_cons_False.
  - rewrite !lookup_ge_None_2; [reflexivity| |];
      rewrite ?length_insert, length_chains_of; lia.
Qed.

Lemma filter_ext_in {A} (P Q : A -> Prop) `{!forall x, Decision (P x)}
    `{!forall x, Decision (Q x)} (l : list A) :
  (forall x, x ∈ l -> P x <-> Q x) -> filter P l = filter Q l.
Proof.
  induction l as [|x l IH]; intros E; [reflexivity|].
  rewrite !filter_cons.
  assert (Hx : P x <-> Q x) by (apply E; left).
  rewrite IH by (intros y Hy; apply E; now right).
  destruct (decide (P x)), (decide (Q x)); tauto.
Qed.

(** Replacing one chain by a filtered chain. *)
Lemma chains_of_filter sz live (P : BzlaSMT2Node -> Prop)
    `{!forall s, Decision (P s)} h :
  (h < Z.to_nat sz)%nat ->
  (forall s, s ∈ live -> bucket_of sz s <> h -> P s) ->
  <[h := filter P (chains_of sz live !!! h)]> (chains_of sz live)
  = chains_of sz (filter P live).
Proof.
  intros Hh HP. apply list_eq. intros i.
  destruct (decide (i < Z.to_nat sz)%nat) as [Hi|Hi].
  - rewrite (lookup_chains_of _ (filter P live)) by assumption.
    destruct (decide (h = i)) as [<-|Hne].
    + rewrite list_lookup_insert_eq by (now rewrite length_chains_of).
      rewrite lookup_total_chains_of by assumption.
      f_equal. rewrite !list_filter_filter. apply list_filter_iff. tauto.
    + rewrite list_lookup_insert_ne by assumption.
      rewrite lookup_chains_of by assumption. f_equal.
      rewrite list_filter_filter. apply filter_ext_in.
      intros s Hs. split; [|tauto]. intros Hb. split; [assumption|].
      apply HP; [assumption | lia].
  - rewrite !lookup_ge_None_2; [reflexivity| |];
      rewrite ?length_insert, length_chains_of; lia.
Qed.

(** *** Matching names hash alike *)

Lemma hash_name_raw_bars x :
  is_quoted x (strlen x) = false -> strlen x + 2 < 2 ^ 64 ->
  hash_name_raw (bars x) = hash_name_raw x.
Proof.
  intros Hq Hlen. unfold hash_name_raw.
  rewrite is_quoted_bars, Hq, strlen_bars. pose proof (strlen_nonneg x).
  unfold size_t. replace (strlen x + 2 - 1) with (strlen x + 1) by lia.
  rewrite Z.mod_small by lia.
  change 1 with (0 + 1) at 2. rewrite hash_name_loop_bars by lia.
  apply hash_name_loop_fuel; lia.
Qed.

Lemma symbol_matches_inv s name :
  fits s -> fits name ->
  symbol_matches s name = true ->
  s = name
  \/ (s = bars name /\ is_quoted name (strlen name) = false)
  \/ (name = bars s /\ is_quoted s (strlen s) = false).
Proof.
  unfold fits. intros Hs Hn. unfold symbol_matches.
  pose proof (strlen_nonneg s). pose proof (strlen_nonneg name).
  destruct (is_quoted s (strlen s)) eqn:Qs,
    (is_quoted name (strlen name)) eqn:Qn; cbn [Bool.eqb].
  - rewrite Z.eqb_eq, strcmp_eq. now left.
  - destruct (size_t (strlen s - 2) =? strlen name) eqn:L; [|discriminate].
    apply Z.eqb_eq in L. rewrite Z.eqb_eq.
    destruct (is_quoted_inv _ Qs) as [->|[m ->]].
    + change (strlen "|") with 1 in L. unfold size_t in L.
      change ((1 - 2) mod 2 ^ 64) with (2 ^ 64 - 1) in L. lia.
    + rewrite strlen_bars in *. pose proof (strlen_nonneg m).
      unfold size_t in L. replace (strlen m + 2 - 2) with (strlen m) in L by lia.
      rewrite Z.mod_small in L by lia. rewrite str_offset_bars.
      rewrite strncmp_prefix_l. intros [r E].
      destruct (append_inj_l _ _ _ _ L E) as [-> _]. right; left. now split.
  - destruct (size_t (strlen name - 2) =? strlen s) eqn:L; [|discriminate].
    apply Z.eqb_eq in L. rewrite Z.eqb_eq.
    destruct (is_quoted_inv _ Qn) as [->|[m ->]].
    + change (strlen "|") with 1 in L. unfold size_t in L.
      change ((1 - 2) mod 2 ^ 64) with (2 ^ 64 - 1) in L. lia.
    + rewrite strlen_bars in *. pose proof (strlen_nonneg m).
      unfold size_t in L. replace (strlen m + 2 - 2) with (strlen m) in L by lia.
      rewrite Z.mod_small in L by lia. rewrite str_offset_bars.
      rewrite strncmp_prefix_r. intros [r E]. symmetry in L.
      destruct (append_inj_l _ _ _ _ L (eq_sym E)) as [-> _].
      right; right. now split.
  - rewrite Z.eqb_eq, strcmp_eq. now left.
Qed.

Lemma symbol_matches_hash s name :
  fits s -> fits name -> symbol_matches s name = true ->
  hash_name_raw s = hash_name_raw name.
Proof.
  intros Hs Hn Hm.
  destruct (symbol_matches_inv _ _ Hs Hn Hm) as [->|[[-> Q]|[-> Q]]].
  - reflexivity.
  - unfold fits in Hs. rewrite strlen_bars in Hs. apply hash_name_raw_bars; [assumption|lia].
  - unfold fits in Hn. rewrite strlen_bars in Hn. symmetry.
    apply hash_name_raw_bars; [assumption|lia].
Qed.

(** Searching the chain of the bucket of [name] is searching the whole
    list of live entries. *)
Lemma find_in_chain_bucket sz name live :
  fits name -> Forall (fun s => fits (node_name s)) live ->
  find_in_chain name
    (filter (fun s => bucket_of sz s
                      = Z.to_nat (Z.land (hash_name_raw name) (u32 (sz - 1)))) live)
  = innermost name live.
Proof.
  intros Hn. induction 1 as [|s live Hs _ IH]; [reflexivity|].
  unfold innermost. cbn [List.find]. rewrite filter_cons.
  destruct (symbol_matches (node_name s) name) eqn:Hm.
  - rewrite decide_True.
    + cbn [find_in_chain]. now rewrite Hm.
    + unfold bucket_of. now rewrite (symbol_matches_hash _ _ Hs Hn Hm).
  - destruct (decide _); [cbn [find_in_chain]; rewrite Hm|]; exact IH.
Qed.

Lemma find_symbol_innermost parser live name :
  table_ok parser live -> fits name ->
  find_symbol_smt2 parser name = innermost name live.
Proof.
  intros [Hsz Ht Hc Hcs _ _ Hfit] Hn. unfold find_symbol_smt2.
  destruct (size (symbol parser) =? 0) eqn:Z0.
  - apply Z.eqb_eq in Z0. destruct live; [reflexivity|].
    cbn [length] in Hc. lia.
  - apply Z.eqb_neq in Z0. destruct Hsz as [?|(k & Hk & Hsz)]; [contradiction|].
    rewrite hash_name_smt2_raw, Ht, Hsz.
    rewrite lookup_total_chains_of.
    + now apply find_in_chain_bucket.
    + rewrite mask_pow2, Z.land_ones by lia.
      assert (0 < 2 ^ k) by (apply Z.pow_pos_nonneg; lia).
      pose proof (Z.mod_pos_bound (hash_name_raw name) (2 ^ k)). lia.
Qed.


(** *** Doubling the table *)

Lemma push_chain_rev (c : list BzlaSMT2Node) : push_chain c = rev c.
Proof.
  unfold push_chain.
  enough (G : forall acc, fold_left (fun chain p => p :: chain) c acc = rev c ++ acc)
    by (now rewrite G, app_nil_r).
  induction c as [|x c IH]; intros acc; [reflexivity|].
  cbn [fold_left rev]. now rewrite IH, <- app_assoc.
Qed.

Lemma chains_of_nil sz : chains_of sz [] = replicate (Z.to_nat sz) [].
Proof.
  unfold chains_of. apply list_eq. intros i.
  destruct (decide (i < Z.to_nat sz)%nat).
  - rewrite list_lookup_fmap, lookup_seq_lt, lookup_replicate_2 by lia.
    reflexivity.
  - rewrite lookup_ge_None_2 by (rewrite length_fmap, length_seq; lia).
    rewrite lookup_ge_None_2 by (rewrite length_replicate; lia). reflexivity.
Qed.

(** Popping the stack of a chain [c] puts the nodes of [c], in the order
    of [c], in front of the chains of their new buckets. *)
Lemma pop_chain_spec k c : 0 <= k <= 32 ->
  forall q L,
    size (symbol q) = 2 ^ k ->
    table (symbol q) = chains_of (2 ^ k) L ->
    pop_chain (rev c) q
    = set_symbol {| size := 2 ^ k; count := count (symbol q);
                    table := chains_of (2 ^ k) (c ++ L) |} q.
Proof.
  intros Hk. induction c as [|x c IH] using rev_ind; intros q L Hsz Ht.
  - cbn [rev pop_chain app]. destruct q as [? ? ? ? ? ? ? ? ? ? ? ? ? ? ? ? ? ? ? ? ? ? ? ? ? ? ? ? [? ? ?]].
    cbn in *. now subst.
  - rewrite rev_unit. cbn [pop_chain].
    rewrite hash_bucket_of, Hsz, Ht, chains_of_cons by (now apply bucket_of_lt).
    rewrite IH with (L := x :: L); [|exact Hsz|reflexivity].
    rewrite <- app_assoc. reflexivity.
Qed.

Lemma filter_none {A} (P : A -> Prop) `{!forall x, Decision (P x)} (l : list A) :
  (forall x, x ∈ l -> ~ P x) -> filter P l = [].
Proof.
  induction l as [|x l IH]; intros E; [reflexivity|].
  rewrite filter_cons_False by (apply E; left).
  apply IH. intros y Hy. apply E. now right.
Qed.

Lemma filter_bucket_concat {A} (g : A -> nat) (live : list A) n c :
  filter (fun x => g x = c)
    (concat (rev ((fun i => filter (fun x => g x = i) live) <$> seq 0 n)))
  = if decide (c < n)%nat then filter (fun x => g x = c) live else [].
Proof.
  induction n as [|n IH].
  - reflexivity.
  - rewrite seq_S, fmap_app. cbn [fmap list_fmap]. rewrite rev_unit.
    cbn [concat]. rewrite list.filter_app, IH, list_filter_filter.
    cbn [Nat.add].
    destruct (decide (c < n)%nat), (decide (c < S n)%nat); try lia.
    + rewrite (filter_none (fun x => g x = c /\ g x = n)) by (intros; lia).
      reflexivity.
    + assert (c = n) as -> by lia. rewrite app_nil_r.
      apply list_filter_iff. tauto.
    + rewrite (filter_none (fun x => g x = c /\ g x = n)) by (intros; lia).
      reflexivity.
Qed.

Lemma mod_pow2_succ a k : 0 <= k -> (a mod 2 ^ (k + 1)) mod 2 ^ k = a mod 2 ^ k.
Proof.
  intros Hk. apply Z.mod_mod_divide.
  exists 2. rewrite Z.pow_add_r by lia. lia.
Qed.

(** Rehashing the chains of a table of [2^k] buckets, last chain first,
    gives the table of [2^(k+1)] buckets of the same live list. *)
Lemma chains_of_rehash k live : 0 <= k <= 31 ->
  chains_of (2 ^ (k + 1)) (concat (rev (chains_of (2 ^ k) live)))
  = chains_of (2 ^ (k + 1)) live.
Proof.
  intros Hk. unfold chains_of at 1 3. apply list_fmap_ext. intros _ h _.
  set (c := Z.to_nat (Z.of_nat h mod 2 ^ k)).
  assert (0 < 2 ^ k) by (apply Z.pow_pos_nonneg; lia).
  assert (Himp : forall s, bucket_of (2 ^ (k + 1)) s = h -> bucket_of (2 ^ k) s = c).
  { intros s <-. unfold c. rewrite !bucket_of_pow2 by lia.
    rewrite mod_pow2_succ by lia. rewrite <- (bucket_of_pow2 k) by lia. lia. }
  rewrite <- (list_filter_filter_l _ (fun s => bucket_of (2 ^ k) s = c)) by exact Himp.
  unfold chains_of. rewrite filter_bucket_concat.
  rewrite decide_True.
  - now apply list_filter_filter_l.
  - unfold c. pose proof (Z.mod_pos_bound (Z.of_nat h) (2 ^ k)). lia.
Qed.

Lemma set_symbol_idem (parser : BzlaSMT2Parser) :
  set_symbol (symbol parser) parser = parser.
Proof. now destruct parser. Qed.

Lemma set_symbol_twice s1 s2 (parser : BzlaSMT2Parser) :
  set_symbol s1 (set_symbol s2 parser) = set_symbol s1 parser.
Proof. now destruct parser. Qed.

Lemma set_symbol_frame s (q parser : BzlaSMT2Parser) :
  q = set_symbol (symbol q) parser -> set_symbol s q = set_symbol s parser.
Proof.
  intros E. rewrite <- (set_symbol_twice s (symbol q) parser). now rewrite <- E.
Qed.

(** [q] is [parser] but for the symbol table and the messages. *)
Lemma table_frame_refl (parser : BzlaSMT2Parser) :
  parser = set_msgs (msgs parser) (set_symbol (symbol parser) parser).
Proof. now destruct parser. Qed.

Lemma table_frame_trans (p q r : BzlaSMT2Parser) :
  q = set_msgs (msgs q) (set_symbol (symbol q) p) ->
  r = set_msgs (msgs r) (set_symbol (symbol r) q) ->
  r = set_msgs (msgs r) (set_symbol (symbol r) p).
Proof.
  intros Hq Hr. rewrite Hr at 1. rewrite Hq at 1. now destruct p.
Qed.

Lemma table_frame_of m (q parser : BzlaSMT2Parser) :
  q = set_msgs m (set_symbol (symbol q) parser) ->
  q = set_msgs (msgs q) (set_symbol (symbol q) parser).
Proof.
  intros E. assert (Hm : msgs q = m) by (rewrite E; reflexivity).
  now rewrite Hm.
Qed.

Lemma enlarge_fold k (old : list (list BzlaSMT2Node)) (m : nat) q :
  0 <= k <= 32 -> (m <= length old)%nat ->
  size (symbol q) = 2 ^ k -> table (symbol q) = chains_of (2 ^ k) [] ->
  fold_left
    (fun parser i => pop_chain (push_chain (old !!! Z.to_nat i)) parser)
    (seqZ 0 (Z.of_nat m)) q
  = set_symbol {| size := 2 ^ k; count := count (symbol q);
                  table := chains_of (2 ^ k) (concat (rev (take m old))) |} q.
Proof.
  intros Hk Hm Hsz Ht. induction m as [|m IH].
  - change (concat (rev (take 0 old))) with (@nil BzlaSMT2Node).
    rewrite seqZ_nil by lia. cbn [fold_left].
    rewrite <- Hsz at 1. rewrite <- Ht.
    rewrite <- (set_symbol_idem q) at 1. now destruct (symbol q).
  - rewrite seqZ_S, fold_left_app, IH by lia. cbn [fold_left].
    destruct (lookup_lt_is_Some_2 old m ltac:(lia)) as [c Hc].
    replace (Z.to_nat (0 + Z.of_nat m)) with m by lia.
    rewrite (list_lookup_total_correct _ _ _ Hc), push_chain_rev.
    rewrite (pop_chain_spec k c Hk _ (concat (rev (take m old))))
      by (now destruct q).
    rewrite set_symbol_twice, (take_S_r _ _ _ Hc), rev_unit.
    now destruct q.
Qed.

(** [enlarge_symbol_table_smt2] keeps the entries and their order. *)
Lemma enlarge_symbol_table_ok parser live :
  table_ok parser live -> size (symbol parser) <= 2 ^ 30 ->
  table_ok (enlarge_symbol_table_smt2 parser) live
  /\ size (symbol parser) < size (symbol (enlarge_symbol_table_smt2 parser))
  /\ enlarge_symbol_table_smt2 parser
     = set_symbol (symbol (enlarge_symbol_table_smt2 parser)) parser.
Proof.
  intros [Hsz Ht Hc Hcs Ha Htag Hfit] Hle. unfold enlarge_symbol_table_smt2.
  destruct Hsz as [Z0|(k & Hk & Hsz)].
  - rewrite Z0. cbn [Z.eqb negb]. rewrite seqZ_nil by lia. cbn [fold_left].
    assert (live = []) as -> by (destruct live; [reflexivity|cbn [length] in Hc; lia]).
    split; [|split].
    + split; try assumption.
      * right. exists 0. split; [lia|reflexivity].
      * reflexivity.
      * destruct parser; cbn in *; lia.
    + now destruct parser.
    + now destruct parser.
  - assert (0 < 2 ^ k) by (apply Z.pow_pos_nonneg; lia).
    assert (k <= 30).
    { apply (Z.pow_le_mono_r_iff 2); lia. }
    assert (E : u32 (2 * size (symbol parser)) = 2 ^ (k + 1)).
    { rewrite Hsz, Z.pow_add_r by lia. change (2 ^ 1) with 2. unfold u32.
      rewrite Z.mod_small; [lia|].
      assert (2 ^ k <= 2 ^ 30) by (apply Z.pow_le_mono_r; lia). lia. }
    replace (negb (size (symbol parser) =? 0)) with true
      by (symmetry; apply negb_true_iff, Z.eqb_neq; lia).
    rewrite E.
    set (q := set_symbol _ parser).
    assert (Hfold : fold_left
      (fun parser0 i => pop_chain (push_chain (table (symbol parser) !!! Z.to_nat i)) parser0)
      (seqZ 0 (size (symbol parser))) q
      = set_symbol {| size := 2 ^ (k + 1); count := count (symbol parser);
                      table := chains_of (2 ^ (k + 1)) live |} parser).
    { replace (size (symbol parser)) with (Z.of_nat (Z.to_nat (2 ^ k))) by lia.
      rewrite (enlarge_fold (k + 1)).
      - rewrite firstn_all2 by (rewrite Ht, length_chains_of; lia).
        rewrite Ht, Hsz, chains_of_rehash by lia.
        unfold q. now rewrite set_symbol_twice.
      - lia.
      - rewrite Ht, length_chains_of. lia.
      - reflexivity.
      - rewrite chains_of_nil. reflexivity. }
    rewrite Hfold. clear Hfold q.
    split; [|split].
    * split; try assumption.
      -- right. exists (k + 1). split; [lia|]. reflexivity.
      -- reflexivity.
      -- rewrite Z.pow_add_r by lia. cbn. lia.
    * rewrite Z.pow_add_r by lia. cbn. lia.
    * now destruct parser.
Qed.

(** *** Loops in the monad *)

Lemma mforeach_from {A} (f : A -> M unit) (l : list A) (m0 : M unit) parser :
  fold_left (fun m a => run m; f a) l m0 parser
  = match m0 parser with
    | Some (_, parser') => mforeach l f parser'
    | None => None
    end.
Proof.
  revert m0 parser. induction l as [|a l IH]; intros m0 parser.
  - cbn. now destruct (m0 parser) as [[[] ?]|].
  - cbn [fold_left]. rewrite IH. unfold bind at 1.
    destruct (m0 parser) as [[[] p1]|]; [|reflexivity].
    symmetry. unfold mforeach at 1. cbn [fold_left]. rewrite IH.
    unfold bind, ret. reflexivity.
Qed.

Lemma mforeach_nil {A} (f : A -> M unit) parser :
  mforeach [] f parser = Some (tt, parser).
Proof. reflexivity. Qed.

Lemma mforeach_cons {A} (f : A -> M unit) a l parser :
  mforeach (a :: l) f parser
  = match f a parser with
    | Some (_, parser') => mforeach l f parser'
    | None => None
    end.
Proof.
  unfold mforeach at 1. cbn [fold_left]. rewrite mforeach_from.
  unfold bind, ret. reflexivity.
Qed.

Lemma mforeach_app {A} (f : A -> M unit) l1 l2 parser :
  mforeach (l1 ++ l2) f parser
  = match mforeach l1 f parser with
    | Some (_, parser') => mforeach l2 f parser'
    | None => None
    end.
Proof.
  revert parser. induction l1 as [|a l1 IH]; intros parser.
  - reflexivity.
  - cbn [app]. rewrite !mforeach_cons.
    destruct (f a parser) as [[[] ?]|]; [apply IH|reflexivity].
Qed.

(** *** Insertion *)

Lemma insert_symbol_ok parser live s :
  table_ok parser live ->
  Z.of_nat (length live) < 2 ^ 31 ->
  node_addr s ∉ node_addr <$> live ->
  node_tag s <> BZLA_PARENT_TAG_SMT2 ->
  fits (node_name s) ->
  exists parser',
    insert_symbol_smt2 s parser = Some (tt, parser')
    /\ table_ok parser' (s :: live)
    /\ parser'
       = set_msgs
           (msgs parser
            ++ [(2, "insert symbol '" +:+ node_name s +:+ "' at scope level "
                    +:+ fmt_u (scope_level parser))])
           (set_symbol (symbol parser') parser).
Proof.
  intros Hok Hlen Hnew Htag Hfit.
  assert (Hpre : exists q, (if size (symbol parser) <=? count (symbol parser)
                 then modify enlarge_symbol_table_smt2 else ret tt) parser
                = Some (tt, q)
            /\ table_ok q live /\ count (symbol q) < size (symbol q)
            /\ q = set_symbol (symbol q) parser).
  { destruct (size (symbol parser) <=? count (symbol parser)) eqn:E.
    - apply Z.leb_le in E.
      assert (Hs : size (symbol parser) <= 2 ^ 30).
      { destruct Hok as [[Z0|(k & Hk & Hsz)] _ Hc _ _ _ _]; [lia|].
        rewrite Hsz in *. apply Z.pow_le_mono_r; [lia|].
        assert (k < 31); [|lia]. apply (Z.pow_lt_mono_r_iff 2); lia. }
      destruct (enlarge_symbol_table_ok parser live Hok Hs) as (Hok' & Hlt & Hfr).
      eexists. split; [reflexivity|]. split; [exact Hok'|]. split; [|exact Hfr].
      destruct Hok as [_ _ Hc Hcs _ _ _], Hok' as [_ _ Hc' _ _ _ _]. lia.
    - apply Z.leb_gt in E. exists parser. split; [reflexivity|].
      split; [assumption|]. split; [assumption|]. now rewrite set_symbol_idem. }
  destruct Hpre as (q & Hq & [Hsz Ht Hc Hcs Ha Htg Hnm] & Hlt & Hfr).
  unfold insert_symbol_smt2, bind, get. rewrite Hq.
  unfold BZLA_MSG, modify, assert_.
  destruct Hsz as [Z0|(k & Hk & Hsz)]; [lia|].
  assert (Hcount : u32 (count (symbol q) + 1) = Z.of_nat (length (s :: live))).
  { cbn [length]. unfold u32. rewrite Z.mod_small; lia. }
  cbn [symbol set_table set_count set_symbol count size table].
  eexists. split.
  - rewrite Hcount. cbn [length].
    replace (0 <? Z.of_nat (S (length live))) with true
      by (symmetry; apply Z.ltb_lt; lia).
    reflexivity.
  - split.
    + split;
        cbn [symbol set_table set_count set_symbol count size table set_msgs];
        try assumption.
      * right. exists k. now split.
      * rewrite hash_bucket_of, Ht, Hsz.
        apply chains_of_cons, bucket_of_lt. lia.
      * cbn [length] in *. lia.
      * cbn [length] in *. lia.
      * rewrite fmap_cons. now constructor.
      * now constructor.
      * now constructor.
    + rewrite Hfr. generalize (symbol q). intros sq.
      now destruct parser.
Qed.

(** *** Removal *)

Lemma filter_all {A} (P : A -> Prop) `{!forall x, Decision (P x)} (l : list A) :
  (forall x, x ∈ l -> P x) -> filter P l = l.
Proof.
  induction l as [|x l IH]; intros E; [reflexivity|].
  rewrite filter_cons_True by (apply E; left).
  f_equal. apply IH. intros y Hy. apply E. now right.
Qed.

Lemma Forall_filter_keep {A} (Q P : A -> Prop) `{!forall x, Decision (P x)}
    (l : list A) :
  Forall Q l -> Forall Q (filter P l).
Proof.
  intros HQ. apply list.Forall_forall. intros x Hx.
  apply list_elem_of_filter in Hx as [_ Hx].
  now apply (proj1 (list.Forall_forall _ _) HQ).
Qed.

Lemma NoDup_fmap_filter {A B} (f : A -> B) (P : A -> Prop)
    `{!forall x, Decision (P x)} (l : list A) :
  NoDup (f <$> l) -> NoDup (f <$> filter P l).
Proof.
  induction l as [|x l IH]; intros Hnd; [constructor|].
  rewrite fmap_cons in Hnd. inversion Hnd as [|? ? Hx Hl]; subst.
  rewrite filter_cons. destruct (decide (P x)); [|now apply IH].
  rewrite fmap_cons. constructor; [|now apply IH].
  intros Hin. apply Hx. apply list_elem_of_fmap in Hin as (y & -> & Hy).
  apply list_elem_of_fmap. exists y. split; [reflexivity|].
  now apply list_elem_of_filter in Hy as [_ Hy].
Qed.

Lemma NoDup_fmap_eq {A B} (f : A -> B) (l : list A) x y :
  NoDup (f <$> l) -> x ∈ l -> y ∈ l -> f x = f y -> x = y.
Proof.
  induction l as [|z l IH]; intros Hnd Hx Hy E; [inversion Hx|].
  rewrite fmap_cons in Hnd. inversion Hnd as [|? ? Hz Hl]; subst.
  apply elem_of_cons in Hx as [->|Hx], Hy as [->|Hy].
  - reflexivity.
  - exfalso. apply Hz. rewrite E. apply list_elem_of_fmap. now exists y.
  - exfalso. apply Hz. rewrite <- E. apply list_elem_of_fmap. now exists x.
  - now apply IH.
Qed.

Lemma unlink_symbol_spec (s : BzlaSMT2Node) (c : list BzlaSMT2Node) :
  NoDup (node_addr <$> c) -> s ∈ c ->
  unlink_symbol s c = Some (filter (fun e => node_addr e <> node_addr s) c)
  /\ S (length (filter (fun e => node_addr e <> node_addr s) c)) = length c.
Proof.
  induction c as [|e c IH]; intros Hnd Hs; [inversion Hs|].
  rewrite fmap_cons in Hnd. inversion Hnd as [|? ? He Hc]; subst.
  cbn [unlink_symbol].
  destruct (decide (node_addr e = node_addr s)) as [E|E].
  - assert (e = s) as ->.
    { apply elem_of_cons in Hs as [->|Hs]; [reflexivity|].
      exfalso. apply He. rewrite E. apply list_elem_of_fmap. now exists s. }
    rewrite (proj2 (strcmp_eq _ _) eq_refl), Pos.eqb_refl.
    cbn [Z.eqb negb orb].
    rewrite filter_cons_False by tauto.
    rewrite filter_all; [easy|].
    intros x Hx Ex. apply He. rewrite <- Ex. apply list_elem_of_fmap. now exists x.
  - apply elem_of_cons in Hs as [->|Hs]; [contradiction|].
    replace (Pos.eqb (node_addr e) (node_addr s)) with false
      by (symmetry; now apply Pos.eqb_neq).
    rewrite orb_true_r. destruct (IH Hc Hs) as [-> Hlen].
    rewrite filter_cons_True by assumption. cbn [length]. now rewrite Hlen.
Qed.

Lemma remove_symbol_ok parser live s :
  table_ok parser live -> s ∈ live ->
  exists parser',
    remove_symbol_smt2 s parser = Some (tt, parser')
    /\ table_ok parser' (filter (fun e => node_addr e <> node_addr s) live)
    /\ parser'
       = set_msgs
           (msgs parser
            ++ [(2, "remove symbol '" +:+ node_name s +:+ "' at scope level "
                    +:+ fmt_u (scope_level parser))])
           (set_symbol (symbol parser') parser)
    /\ size (symbol parser') = size (symbol parser).
Proof.
  intros Hok Hs.
  unfold remove_symbol_smt2, bind at 1 2, get at 1, BZLA_MSG, modify at 1.
  set (p0 := set_msgs _ parser).
  assert (Hok0 : table_ok p0 live) by (destruct Hok; now split).
  change (size (symbol parser)) with (size (symbol p0)).
  clear Hok. revert Hok0.
  assert (Hp0 : p0 = set_msgs (msgs p0) parser) by reflexivity.
  assert (Hm0 : msgs p0
                = msgs parser
                  ++ [(2, "remove symbol '" +:+ node_name s
                          +:+ "' at scope level "
                          +:+ fmt_u (scope_level parser))]) by reflexivity.
  clearbody p0.
  intros [Hsz Ht Hc Hcs Ha Htg Hnm].
  destruct (unlink_symbol_spec s live Ha Hs) as [_ Hlen].
  destruct Hsz as [Z0|(k & Hk & Hsz)]; [lia|].
  assert (Hh : (bucket_of (2 ^ k) s < Z.to_nat (2 ^ k))%nat)
    by (apply bucket_of_lt; lia).
  unfold bind, get.
  rewrite hash_bucket_of, Ht, Hsz, lookup_total_chains_of by assumption.
  destruct (unlink_symbol_spec s (filter (fun e => bucket_of (2 ^ k) e = bucket_of (2 ^ k) s) live))
    as [-> _].
  { now apply NoDup_fmap_filter. }
  { apply list_elem_of_filter. now split. }
  unfold modify, release_symbol_smt2, assert_.
  replace (negb (node_tag s =? BZLA_PARENT_TAG_SMT2)) with true; cycle 1.
  { symmetry. apply negb_true_iff, Z.eqb_neq.
    now apply (proj1 (Forall_forall _ _) Htg), list_elem_of_In. }
  cbn [symbol set_table set_symbol count size table].
  replace (0 <? count (symbol p0)) with true
    by (symmetry; apply Z.ltb_lt; lia).
  eexists. split; [reflexivity|].
  assert (0 < 2 ^ k) by (apply Z.pow_pos_nonneg; lia).
  assert (2 ^ k <= 2 ^ 31) by (apply Z.pow_le_mono_r; lia).
  split; [|split].
  - split; cbn [symbol set_table set_count set_symbol count size table].
    + right. exists k. now split.
    + rewrite Hsz.
      rewrite <- (lookup_total_chains_of (2 ^ k) live) by assumption.
      apply chains_of_filter; [assumption|].
      intros e He Hb E. apply Hb. f_equal.
      now apply (NoDup_fmap_eq node_addr live).
    + unfold u32. rewrite Z.mod_small; lia.
    + unfold u32. rewrite Z.mod_small; lia.
    + now apply NoDup_fmap_filter.
    + now apply Forall_filter_keep.
    + now apply Forall_filter_keep.
  - rewrite <- Hm0. rewrite Hp0. generalize (msgs p0). intros m.
    unfold set_count, set_table. now destruct parser.
  - exact Hsz.
Qed.

(** *** Closing a scope *)

Lemma close_chain_ok (c : list BzlaSMT2Node) :
  forall parser live,
    table_ok parser live ->
    (forall n, n ∈ c -> forall e, e ∈ live -> node_addr e = node_addr n -> e = n) ->
    (forall n, n ∈ c -> node_scope_level n = scope_level parser -> n ∈ live) ->
    NoDup (node_addr <$> c) ->
    exists parser',
      mforeach c
        (fun node =>
           do parser <- get;
           if node_scope_level node =? scope_level parser
           then remove_symbol_smt2 node else ret tt) parser
      = Some (tt, parser')
      /\ table_ok parser'
           (filter (fun e => ~ (node_scope_level e = scope_level parser
                                /\ node_addr e ∈ node_addr <$> c)) live)
      /\ parser' = set_msgs (msgs parser') (set_symbol (symbol parser') parser)
      /\ size (symbol parser') = size (symbol parser).
Proof.
  induction c as [|n c IH]; intros parser live Hok Hinj Hin Hnd.
  - exists parser. rewrite mforeach_nil. split; [reflexivity|].
    split; [|split; [apply table_frame_refl|reflexivity]].
    rewrite filter_all; [assumption|].
    intros e _ [_ He]. inversion He.
  - rewrite fmap_cons in Hnd. inversion Hnd as [|? ? Hn Hc]; subst.
    rewrite mforeach_cons. unfold bind at 1, get at 1.
    destruct (node_scope_level n =? scope_level parser) eqn:E.
    + apply Z.eqb_eq in E.
      assert (Hnl : n ∈ live) by (apply Hin; [left|assumption]).
      destruct (remove_symbol_ok parser live n Hok Hnl) as (p1 & -> & Hok1 & Hfr1 & Hsz1).
      apply table_frame_of in Hfr1.
      assert (Hsl : scope_level p1 = scope_level parser) by (now rewrite Hfr1).
      destruct (IH p1 _ Hok1) as (p2 & Hrun & Hok2 & Hfr2 & Hsz2).
      * intros m Hm e He. apply list_elem_of_filter in He as [_ He].
        apply Hinj; [now right|assumption].
      * intros m Hm Hl. apply list_elem_of_filter. split.
        -- intros Ea. apply Hn. rewrite <- Ea. apply list_elem_of_fmap. now exists m.
        -- apply Hin; [now right|congruence].
      * assumption.
      * exists p2. split; [exact Hrun|]. split; [|split].
        -- rewrite Hsl, list_filter_filter in Hok2.
           erewrite filter_ext_in; [exact Hok2|].
           intros e He. cbn beta. rewrite fmap_cons, elem_of_cons.
           split.
           ++ intros Hp. split; [tauto|]. intros Ea. apply Hp. split; [|now left].
              rewrite (Hinj n ltac:(left) e He Ea). exact E.
           ++ intros [Hp Ha] [Hl [Ea|Hc']]; tauto.
        -- exact (table_frame_trans _ _ _ Hfr1 Hfr2).
        -- congruence.
    + apply Z.eqb_neq in E. unfold ret at 1.
      destruct (IH parser live Hok) as (p2 & Hrun & Hok2 & Hfr2 & Hsz2).
      * intros m Hm. apply Hinj. now right.
      * intros m Hm. apply Hin. now right.
      * assumption.
      * exists p2. split; [exact Hrun|]. split; [|now split].
        erewrite filter_ext_in; [exact Hok2|].
        intros e He. cbn beta. rewrite fmap_cons, elem_of_cons.
        split; [tauto|]. intros Hp [Hl [Ea|Hc']]; [|tauto].
        apply E. rewrite <- (Hinj n ltac:(left) e He Ea). exact Hl.
Qed.

Lemma close_buckets_ok parser live (m : nat) :
  table_ok parser live -> Z.of_nat m <= size (symbol parser) ->
  exists parser',
    mforeach (seqZ 0 (Z.of_nat m))
      (fun i =>
         do parser <- get;
         mforeach (table (symbol parser) !!! Z.to_nat i)
           (fun node =>
              do parser <- get;
              if node_scope_level node =? scope_level parser
              then remove_symbol_smt2 node else ret tt)) parser
    = Some (tt, parser')
    /\ table_ok parser'
         (filter (fun e => ~ (node_scope_level e = scope_level parser
                              /\ (bucket_of (size (symbol parser)) e < m)%nat))
                 live)
    /\ parser' = set_msgs (msgs parser') (set_symbol (symbol parser') parser)
    /\ size (symbol parser') = size (symbol parser).
Proof.
  intros Hok. induction m as [|m IH]; intros Hm.
  - exists parser. rewrite seqZ_nil, mforeach_nil by lia. split; [reflexivity|].
    split; [|split; [apply table_frame_refl|reflexivity]].
    rewrite filter_all; [assumption|]. intros e _ [_ He]. lia.
  - destruct IH as (p1 & Hrun1 & Hok1 & Hfr1 & Hsz1); [lia|].
    rewrite seqZ_S, mforeach_app, Hrun1, mforeach_cons.
    unfold bind at 1, get at 1.
    replace (Z.to_nat (0 + Z.of_nat m)) with m by lia.
    assert (Hsl : scope_level p1 = scope_level parser) by (now rewrite Hfr1).
    pose proof (ok_table _ _ Hok1) as Ht1. rewrite Hsz1 in Ht1.
    rewrite Ht1, lookup_total_chains_of by lia.
    set (live1 := filter _ live) in *.
    set (c := filter _ live1).
    destruct (close_chain_ok c p1 live1 Hok1) as (p2 & Hrun2 & Hok2 & Hfr2 & Hsz2).
    + intros n Hn e He. apply (NoDup_fmap_eq node_addr live1); [|assumption|].
      * apply (ok_addr _ _ Hok1).
      * now apply list_elem_of_filter in Hn as [_ Hn].
    + intros n Hn _. now apply list_elem_of_filter in Hn as [_ Hn].
    + apply NoDup_fmap_filter, (ok_addr _ _ Hok1).
    + rewrite Hrun2. exists p2. rewrite mforeach_nil. split; [reflexivity|].
      split; [|split].
      * rewrite Hsl in Hok2. unfold live1 in Hok2 at 1.
        rewrite list_filter_filter in Hok2.
        erewrite filter_ext_in; [exact Hok2|].
        intros e He. cbn beta. split.
        -- intros Hp. split.
           ++ intros [Hl Ha]. apply list_elem_of_fmap in Ha as (e' & Ea & He').
              apply list_elem_of_filter in He' as [Hb He'].
              apply list_elem_of_filter in He' as [_ He'].
              assert (e = e') as <-
                by (apply (NoDup_fmap_eq node_addr live); [apply (ok_addr _ _ Hok)|..];
                    assumption).
              apply Hp. split; [assumption|lia].
           ++ intros [Hl Hb]. apply Hp. split; [assumption|lia].
        -- intros [Hp1 Hp2] [Hl Hb].
           destruct (decide (bucket_of (size (symbol parser)) e = m)) as [Eb|Eb].
           ++ apply Hp1. split; [assumption|].
              apply list_elem_of_fmap. exists e. split; [reflexivity|].
              apply list_elem_of_filter. split; [assumption|].
              apply list_elem_of_filter. split; [|assumption].
              intros [_ ?]. lia.
           ++ apply Hp2. split; [assumption|lia].
      * exact (table_frame_trans _ _ _ Hfr1 Hfr2).
      * congruence.
Qed.

(** [close_current_scope] removes the entries of the current level. *)
Lemma close_current_scope_ok parser live :
  table_ok parser live -> global_declarations parser = false ->
  exists parser',
    close_current_scope parser = Some (tt, parser')
    /\ table_ok parser'
         (filter (fun e => node_scope_level e <> scope_level parser) live)
    /\ parser' = set_scope_level (u32 (scope_level parser - 1))
                   (set_msgs (msgs parser')
                      (set_symbol (symbol parser') parser)).
Proof.
  intros Hok Hg. unfold close_current_scope, bind at 1 2, get at 1.
  rewrite Hg. cbn [negb].
  assert (Hsz0 : 0 <= size (symbol parser)).
  { destruct (ok_size _ _ Hok) as [->|(k & Hk & ->)]; [lia|].
    apply Z.pow_nonneg. lia. }
  destruct (close_buckets_ok parser live (Z.to_nat (size (symbol parser))) Hok)
    as (p1 & Hrun & Hok1 & Hfr & Hsz); [lia|].
  rewrite Z2Nat.id in Hrun by assumption. rewrite Hrun.
  unfold seconds_text, BZLA_MSG, bind, get, modify, ret.
  assert (Hsl : scope_level p1 = scope_level parser) by (now rewrite Hfr).
  eexists. split; [reflexivity|]. split.
  - erewrite filter_ext_in in Hok1.
    + destruct Hok1; split; eassumption.
    + intros e He. cbn beta. split; [|tauto]. intros Hp Hl. apply Hp.
      split; [assumption|].
      destruct (ok_size _ _ Hok) as [Z0|(k & Hk & Hk2)].
      * destruct live; [inversion He|].
        pose proof (ok_count _ _ Hok). pose proof (ok_count_size _ _ Hok).
        cbn [length] in *. lia.
      * rewrite Hk2. apply bucket_of_lt. lia.
  - cbn [scope_level set_msgs]. rewrite Hsl.
    cbn [symbol msgs set_scope_level set_msgs].
    match goal with |- context [set_msgs ?m p1] => generalize m end.
    intros m. rewrite Hfr at 1. now destruct parser.
Qed.

Lemma close_current_scope_global parser :
  global_declarations parser = true ->
  close_current_scope parser
  = Some (tt, set_scope_level (u32 (scope_level parser - 1))
                (set_msgs
                   (msgs parser
                    ++ [(2, "closed scope at level "
                            +:+ fmt_d (scope_level parser) +:+ " in "
                            +:+ elapsed_seconds (length (msgs parser))
                            +:+ " seconds")])
                   parser)).
Proof.
  intros Hg. unfold close_current_scope, bind, get. rewrite Hg. reflexivity.
Qed.

Lemma set_scope_level_frame l1 l2 s1 s2 m1 m2 (parser : BzlaSMT2Parser) :
  set_scope_level l1
    (set_msgs m1
       (set_symbol s1
          (set_scope_level l2 (set_msgs m2 (set_symbol s2 parser)))))
  = set_scope_level l1 (set_msgs m1 (set_symbol s1 parser)).
Proof. now destruct parser. Qed.

(** The loop of [pop]: [level] times [close_current_scope]. *)
Lemma close_scopes_ok (n : nat) parser live :
  table_ok parser live -> global_declarations parser = false ->
  Z.of_nat n <= scope_level parser < 2 ^ 32 ->
  exists parser',
    mforeach (seqZ 0 (Z.of_nat n)) (fun _ => close_current_scope) parser
    = Some (tt, parser')
    /\ table_ok parser'
         (filter (fun e => ~ (scope_level parser - Z.of_nat n < node_scope_level e
                              <= scope_level parser)) live)
    /\ parser' = set_scope_level (scope_level parser - Z.of_nat n)
                   (set_msgs (msgs parser')
                      (set_symbol (symbol parser') parser)).
Proof.
  intros Hok Hg. induction n as [|n IH]; intros Hn.
  - exists parser. rewrite seqZ_nil, mforeach_nil by lia. split; [reflexivity|].
    split.
    + rewrite filter_all; [assumption|]. intros e _. lia.
    + replace (scope_level parser - Z.of_nat 0) with (scope_level parser) by lia.
      now destruct parser.
  - destruct IH as (p1 & Hrun1 & Hok1 & Hfr1); [lia|].
    rewrite seqZ_S, mforeach_app, Hrun1, mforeach_cons.
    assert (Hsl : scope_level p1 = scope_level parser - Z.of_nat n)
      by (now rewrite Hfr1).
    assert (Hg1 : global_declarations p1 = false) by (now rewrite Hfr1).
    destruct (close_current_scope_ok p1 _ Hok1 Hg1) as (p2 & -> & Hok2 & Hfr2).
    exists p2. rewrite mforeach_nil. split; [reflexivity|]. split.
    + rewrite list_filter_filter, Hsl in Hok2.
      erewrite list_filter_iff; [exact Hok2|]. intros e. cbn beta. lia.
    + transitivity (set_scope_level (u32 (scope_level p1 - 1))
                      (set_msgs (msgs p2) (set_symbol (symbol p2) p1)));
        [exact Hfr2|].
      rewrite Hsl, Hfr1, set_scope_level_frame.
      f_equal. unfold u32. rewrite Z.mod_small; lia.
Qed.

Lemma close_scopes_global (n : nat) parser :
  global_declarations parser = true ->
  Z.of_nat n <= scope_level parser < 2 ^ 32 ->
  exists parser',
    mforeach (seqZ 0 (Z.of_nat n)) (fun _ => close_current_scope) parser
    = Some (tt, parser')
    /\ parser' = set_scope_level (scope_level parser - Z.of_nat n)
                   (set_msgs (msgs parser') parser).
Proof.
  intros Hg. induction n as [|n IH]; intros Hn.
  - exists parser. rewrite seqZ_nil, mforeach_nil by lia.
    split; [reflexivity|].
    replace (scope_level parser - Z.of_nat 0) with (scope_level parser) by lia.
    now destruct parser.
  - destruct IH as (p1 & Hrun1 & Hfr1); [lia|].
    rewrite seqZ_S, mforeach_app, Hrun1, mforeach_cons by lia.
    rewrite close_current_scope_global by (now rewrite Hfr1).
    rewrite mforeach_nil. eexists. split; [reflexivity|].
    cbn [msgs set_scope_level set_msgs].
    replace (u32 (scope_level p1 - 1))
      with (scope_level parser - Z.of_nat (S n)).
    + generalize (msgs p1 ++ [(2, "closed scope at level "
                                  +:+ fmt_d (scope_level p1) +:+ " in "
                                  +:+ elapsed_seconds (length (msgs p1))
                                  +:+ " seconds")]).
      intros m. rewrite Hfr1. now destruct parser.
    + rewrite Hfr1. cbn [scope_level set_scope_level].
      unfold u32. rewrite Z.mod_small; lia.
Qed.

(** The loop of [push]: [level] times [open_new_scope]. *)
Lemma open_new_scope_spec parser :
  open_new_scope parser
  = Some (tt, set_msgs
                (msgs parser
                 ++ [(2, "opened new scope at level "
                         +:+ fmt_d (u32 (scope_level parser + 1)))])
                (set_scope_level (u32 (scope_level parser + 1)) parser)).
Proof. reflexivity. Qed.

Lemma open_scopes_spec (n : nat) parser :
  0 <= scope_level parser -> scope_level parser + Z.of_nat n < 2 ^ 32 ->
  exists parser',
    mforeach (seqZ 0 (Z.of_nat n)) (fun _ => open_new_scope) parser
    = Some (tt, parser')
    /\ parser' = set_scope_level (scope_level parser + Z.of_nat n)
                   (set_msgs (msgs parser') parser).
Proof.
  intros H0. induction n as [|n IH]; intros Hn.
  - exists parser. rewrite seqZ_nil, mforeach_nil by lia.
    split; [reflexivity|].
    replace (scope_level parser + Z.of_nat 0) with (scope_level parser) by lia.
    now destruct parser.
  - destruct IH as (p1 & Hrun1 & Hfr1); [lia|].
    rewrite seqZ_S, mforeach_app, Hrun1, mforeach_cons by lia.
    rewrite open_new_scope_spec, mforeach_nil.
    eexists. split; [reflexivity|].
    cbn [msgs set_scope_level set_msgs].
    replace (u32 (scope_level p1 + 1))
      with (scope_level parser + Z.of_nat (S n)).
    + generalize (msgs p1 ++ [(2, "opened new scope at level "
                                  +:+ fmt_d (scope_level parser
                                             + Z.of_nat (S n)))]).
      intros m. rewrite Hfr1. now destruct parser.
    + rewrite Hfr1. cbn [scope_level set_scope_level].
      unfold u32. rewrite Z.mod_small; lia.
Qed.

(** *** Sequences of insertions and removals *)

Lemma do_symops_ok (ops : list symop) :
  forall parser live,
    table_ok parser live -> symops_valid live ops ->
    Z.of_nat (length live + length ops) < 2 ^ 31 ->
    exists parser',
      do_symops ops parser = Some (tt, parser')
      /\ table_ok parser' (live_after ops live).
Proof.
  unfold do_symops.
  induction ops as [|op ops IH]; intros parser live Hok Hv Hlen.
  - exists parser. now split.
  - destruct Hv as [Hop Hv]. rewrite mforeach_cons. cbn [length] in Hlen.
    destruct op as [s|s]; cbn [do_symop live_after fold_left live_after_op] in *.
    + destruct Hop as (Hnew & Htag & Hfit).
      destruct (insert_symbol_ok parser live s Hok) as (p1 & -> & Hok1 & _);
        try assumption; [lia|].
      apply IH; [assumption..|]. cbn [length]. lia.
    + destruct (remove_symbol_ok parser live s Hok Hop) as (p1 & -> & Hok1 & _).
      apply IH; [assumption..|].
      pose proof (length_filter (fun e => node_addr e <> node_addr s) live). lia.
Qed.

Lemma levels_descend_filter (P : BzlaSMT2Node -> Prop)
    `{!forall s, Decision (P s)} live :
  levels_descend live -> levels_descend (filter P live).
Proof.
  induction live as [|s live IH]; intros Hd; [exact I|].
  destruct Hd as [Hs Hd]. rewrite filter_cons.
  destruct (decide (P s)); [|now apply IH].
  split; [now apply Forall_filter_keep | now apply IH].
Qed.

Lemma levels_descend_after ops :
  forall live, levels_descend live -> symops_monotone live ops ->
    levels_descend (live_after ops live).
Proof.
  induction ops as [|op ops IH]; intros live Hd Hm; [exact Hd|].
  destruct Hm as [Hop Hm]. apply IH; [|exact Hm].
  destruct op as [s|s]; cbn [live_after_op].
  - now split.
  - now apply levels_descend_filter.
Qed.

Lemma innermost_greatest name live s :
  levels_descend live -> innermost name live = Some s ->
  forall e, e ∈ live -> symbol_matches (node_name e) name = true ->
    node_scope_level e <= node_scope_level s.
Proof.
  unfold innermost.
  induction live as [|x live IH]; intros Hd Hf e He Hm; [inversion He|].
  destruct Hd as [Hx Hd]. cbn [List.find] in Hf.
  destruct (symbol_matches (node_name x) name) eqn:Ex.
  - injection Hf as <-. apply elem_of_cons in He as [->|He]; [lia|].
    now apply (proj1 (list.Forall_forall _ _) Hx).
  - apply elem_of_cons in He as [->|He]; [congruence|]. now apply IH.
Qed.

Lemma innermost_first name live s :
  innermost name live = Some s ->
  exists older newer,
    live = newer ++ s :: older
    /\ symbol_matches (node_name s) name = true
    /\ Forall (fun e => symbol_matches (node_name e) name = false) newer.
Proof.
  unfold innermost. induction live as [|x live IH]; intros Hf; [discriminate|].
  cbn [List.find] in Hf.
  destruct (symbol_matches (node_name x) name) eqn:Ex.
  - injection Hf as <-. exists live, []. now repeat split.
  - destruct (IH Hf) as (older & newer & -> & Hs & Hn).
    exists older, (x :: newer). repeat split; [assumption|]. now constructor.
Qed.

(** C2. After a sequence of insertions and removals that starts from a
    well-formed table and keeps fewer than [2^31] entries, whether or not
    an insertion doubles the table, [find_symbol_smt2] returns the most
    recently inserted live entry whose name is [name] in either spelling;
    when every insertion happens at a scope level that is not below the
    level of any live entry, no live entry of that name has a greater
    [scope_level]. *)
Theorem find_symbol_most_recent parser live ops name :
  table_ok parser live ->
  symops_valid live ops ->
  Z.of_nat (length live + length ops) < 2 ^ 31 ->
  fits name ->
  exists parser',
    do_symops ops parser = Some (tt, parser')
    /\ find_symbol_smt2 parser' name = innermost name (live_after ops live)
    /\ (forall s, find_symbol_smt2 parser' name = Some s ->
          exists older newer,
            live_after ops live = newer ++ s :: older
            /\ symbol_matches (node_name s) name = true
            /\ Forall (fun e => symbol_matches (node_name e) name = false) newer)
    /\ (levels_descend live -> symops_monotone live ops ->
        forall s e,
          find_symbol_smt2 parser' name = Some s ->
          e ∈ live_after ops live ->
          symbol_matches (node_name e) name = true ->
          node_scope_level e <= node_scope_level s).
Proof.
  intros Hok Hv Hlen Hfit.
  destruct (do_symops_ok ops parser live Hok Hv Hlen) as (p' & Hrun & Hok').
  exists p'. split; [exact Hrun|].
  pose proof (find_symbol_innermost p' _ name Hok' Hfit) as Hfind.
  split; [exact Hfind|]. split.
  - intros s Hs. apply innermost_first. now rewrite <- Hfind.
  - intros Hd Hm s e Hs He Hme.
    apply (innermost_greatest name (live_after ops live) s); try assumption.
    + now apply levels_descend_after.
    + now rewrite <- Hfind.
Qed.

Lemma table_ok_names_fit parser live : table_ok parser live -> names_fit parser.
Proof.
  intros [_ Ht _ _ _ _ Hn]. unfold names_fit. rewrite Ht. unfold chains_of.
  apply list.Forall_forall. intros c Hc.
  apply list_elem_of_fmap in Hc as (h & -> & _). now apply Forall_filter_keep.
Qed.

(** C7.  Lookup takes the quoted and the unquoted spelling of a name for
    the same name.  For every name [x] that is not itself written between
    bars, [find_symbol_smt2] returns the same result for [|x|] and for
    [x], whatever the table holds.  In a table that holds the entries
    [live], whenever an entry is named [x] or [|x|] both lookups return
    an entry, the same one, and it is an entry of the table named [x] or
    [|x|]: the most recent entry of either spelling; and an entry that a
    lookup returns is such an entry. *)
Theorem find_symbol_quoted_unquoted (parser : BzlaSMT2Parser) (x : string) :
  is_quoted x (strlen x) = false ->
  fits ("|" +:+ x +:+ "|") ->
  names_fit parser ->
  find_symbol_smt2 parser ("|" +:+ x +:+ "|") = find_symbol_smt2 parser x
  /\ forall live : list BzlaSMT2Node,
       table_ok parser live ->
       (forall e : BzlaSMT2Node,
          e ∈ live ->
          node_name e = x \/ node_name e = "|" +:+ x +:+ "|" ->
          exists s : BzlaSMT2Node,
            find_symbol_smt2 parser x = Some s
            /\ find_symbol_smt2 parser ("|" +:+ x +:+ "|") = Some s
            /\ s ∈ live
            /\ (node_name s = x \/ node_name s = "|" +:+ x +:+ "|")
            /\ List.find
                 (fun s' => String.eqb (node_name s') x
                            || String.eqb (node_name s') ("|" +:+ x +:+ "|"))
                 live = Some s)
       /\ (forall s : BzlaSMT2Node,
             find_symbol_smt2 parser x = Some s ->
             s ∈ live /\ (node_name s = x \/ node_name s = "|" +:+ x +:+ "|")).
Proof.
  intros Hq Hx Hfit. change ("|" +:+ x +:+ "|") with (bars x) in *.
  pose proof (find_symbol_bars parser x Hq Hx Hfit) as Heq.
  split; [exact Heq|]. intros live Hok.
  assert (Hfx : fits x).
  { unfold fits in *. rewrite strlen_bars in Hx. lia. }
  assert (Hnames : forall e, e ∈ live -> fits (node_name e)).
  { destruct Hok as [_ _ _ _ _ _ Hn]. intros e He.
    now apply (proj1 (list.Forall_forall _ _) Hn). }
  assert (Hiff : forall e, e ∈ live ->
            symbol_matches (node_name e) x
            = (String.eqb (node_name e) x || String.eqb (node_name e) (bars x))).
  { intros e He. apply Bool.eq_iff_eq_true.
    rewrite Bool.orb_true_iff, !String.eqb_eq. split.
    - intros Hm.
      destruct (symbol_matches_inv _ _ (Hnames e He) Hfx Hm)
        as [E|[[E _]|[E _]]]; [now left|now right|].
      rewrite E, is_quoted_bars in Hq. discriminate.
    - intros [E|E]; rewrite E.
      + apply symbol_matches_refl.
      + rewrite <- (symbol_matches_bars (bars x) x Hq Hx Hx).
        apply symbol_matches_refl. }
  rewrite Heq, (find_symbol_innermost parser live x Hok Hfx). unfold innermost.
  assert (Hfind : List.find (fun s => symbol_matches (node_name s) x) live
                  = List.find
                      (fun s' => String.eqb (node_name s') x
                                 || String.eqb (node_name s') (bars x)) live).
  { clear - Hiff. induction live as [|a live IH]; [reflexivity|].
    cbn [List.find]. rewrite Hiff by apply list_elem_of_here.
    rewrite IH; [reflexivity|]. intros e He. apply Hiff.
    now apply list_elem_of_further. }
  assert (Hsome : forall s,
            List.find (fun s => symbol_matches (node_name s) x) live = Some s ->
            s ∈ live /\ (node_name s = x \/ node_name s = bars x)).
  { intros s Hs. apply List.find_some in Hs as [Hin Hm].
    apply list_elem_of_In in Hin. split; [exact Hin|].
    rewrite (Hiff s Hin) in Hm.
    now rewrite Bool.orb_true_iff, !String.eqb_eq in Hm. }
  split; [|exact Hsome].
  intros e He Hname.
  destruct (List.find (fun s => symbol_matches (node_name s) x) live)
    as [s|] eqn:F.
  - exists s. destruct (Hsome s eq_refl) as [Hin Hn].
    repeat split; try assumption. now rewrite <- Hfind.
  - exfalso. apply list_elem_of_In in He.
    pose proof (List.find_none _ _ F e He) as Hno. cbn beta in Hno.
    apply list_elem_of_In in He. rewrite (Hiff e He) in Hno.
    apply Bool.orb_false_iff in Hno as [N1 N2].
    apply String.eqb_neq in N1, N2. tauto.
Qed.

End TableFacts.

(** ** Scopes: push and pop *)

Section Scopes.
Context `{Backend}.

Lemma print_success_frame parser :
  exists out,
    print_success_ parser = Some (tt, set_outfile out parser).
Proof.
  unfold print_success_, bind, get.
  destruct (print_success parser); cbn [negb].
  - eexists. reflexivity.
  - exists (outfile parser). unfold ret. now destruct parser.
Qed.

(** [push level] opens [level] scopes and pushes the assertion stack; the
    symbol table is as before. *)
Lemma push_opens_scopes parser p1 p2 level :
  parse_uint32_smt2 true parser = Some (Some level, p1) ->
  read_rpar_smt2 (Some " after 'push'") p1 = Some (1, p2) ->
  0 <= level -> 0 <= scope_level p2 -> scope_level p2 + level < 2 ^ 32 ->
  exists p',
    read_command_push parser = Some (true, p')
    /\ scope_level p' = scope_level p2 + level
    /\ bzla p' = boolector_push (bzla p2) level
    /\ symbol p' = symbol p2
    /\ global_declarations p' = global_declarations p2.
Proof.
  intros H1 H2 Hl H0 Hb. unfold read_command_push, bind at 1 2. rewrite H1, H2.
  cbn [Z.eqb]. unfold bind at 1.
  destruct (open_scopes_spec (Z.to_nat level) p2 H0 ltac:(lia))
    as (q & Hrun & Hq).
  rewrite Z2Nat.id in Hrun, Hq by lia. rewrite Hrun.
  unfold bind, modify. cbn beta iota.
  match goal with |- context [print_success_ ?q] =>
    destruct (print_success_frame q) as (out & Hps) end.
  rewrite Hps. eexists. split; [reflexivity|].
  cbn [scope_level bzla symbol global_declarations set_outfile set_bzla].
  rewrite Hq. repeat split.
Qed.

(** C1. [pop level], once the numeral and the closing parenthesis are
    read: when [level] exceeds the current scope level the command fails
    with the message about popping more scopes than were pushed and the
    table is untouched; otherwise the scope level drops by [level], the
    assertion stack of the backend is popped by [level], and either
    global declarations are on and the symbol table is left as it is, or
    exactly the entries whose [scope_level] is one of the closed levels are
    removed, the others staying in their order.  So the table is again the
    one of before the push when the entries of the closed levels are the
    ones inserted since. *)
Theorem pop_closes_scopes parser p1 p2 level live :
  parse_uint32_smt2 true parser = Some (Some level, p1) ->
  read_rpar_smt2 (Some " after 'pop'") p1 = Some (1, p2) ->
  table_ok p2 live ->
  0 <= level -> 0 <= scope_level p2 < 2 ^ 32 ->
  (scope_level p2 < level ->
   exists p',
     read_command_pop parser = Some (false, p')
     /\ symbol p' = symbol p2 /\ scope_level p' = scope_level p2
     /\ bzla p' = bzla p2
     /\ (error p2 = None ->
         err_msg <$> error p' =
         Some ("popping more scopes (" +:+ fmt_u level
               +:+ ") than created via push ("
               +:+ fmt_u (scope_level p2) +:+ ")")))
  /\ (level <= scope_level p2 ->
      exists p',
        read_command_pop parser = Some (true, p')
        /\ scope_level p' = scope_level p2 - level
        /\ bzla p' = boolector_pop (bzla p2) level
        /\ (global_declarations p2 = true -> symbol p' = symbol p2)
        /\ (global_declarations p2 = false ->
            table_ok p'
              (filter (fun e => ~ (scope_level p2 - level < node_scope_level e
                                   <= scope_level p2)) live)
            /\ forall news live0,
                 live = news ++ live0 ->
                 Forall (fun e => scope_level p2 - level < node_scope_level e
                                  <= scope_level p2) news ->
                 Forall (fun e => node_scope_level e <= scope_level p2 - level)
                        live0 ->
                 table_ok p' live0)).
Proof.
  intros H1 H2 Hok Hl Hb.
  split; intros Hc; unfold read_command_pop, bind at 1 2;
    rewrite H1, H2; cbn [Z.eqb]; unfold bind at 1, get at 1.
  - rename Hc into Hlt. replace (scope_level p2 <? level) with true
      by (symmetry; now apply Z.ltb_lt).
    unfold bind, perr_smt2, modify, ret. eexists. split; [reflexivity|].
    destruct (error p2) eqn:E; repeat split; discriminate.
  - rename Hc into Hle. replace (scope_level p2 <? level) with false
      by (symmetry; now apply Z.ltb_ge).
    unfold bind at 1.
    destruct (global_declarations p2) eqn:Hg.
    + destruct (close_scopes_global (Z.to_nat level) p2 Hg ltac:(lia))
        as (q & Hrun & Hq).
      rewrite Z2Nat.id in Hrun, Hq by lia. rewrite Hrun.
      unfold bind, modify. cbn beta iota.
      match goal with |- context [print_success_ ?q] =>
        destruct (print_success_frame q) as (out & Hps) end.
      rewrite Hps. eexists. split; [reflexivity|].
      cbn [scope_level bzla symbol set_outfile set_bzla].
      rewrite Hq. repeat split; try lia; discriminate.
    + destruct (close_scopes_ok (Z.to_nat level) p2 live Hok Hg) as (q & Hrun & Hq & Hfr);
        [lia|].
      rewrite Z2Nat.id in Hrun, Hq, Hfr by lia. rewrite Hrun.
      unfold bind, modify. cbn beta iota.
      match goal with |- context [print_success_ ?q] =>
        destruct (print_success_frame q) as (out & Hps) end.
      rewrite Hps. eexists. split; [reflexivity|].
      assert (Hq' : table_ok (set_outfile out (set_bzla (boolector_pop (bzla q) level) q))
                      (filter (fun e => ~ (scope_level p2 - level < node_scope_level e
                                           <= scope_level p2)) live)).
      { destruct Hq; split; assumption. }
      cbn [scope_level bzla set_outfile set_bzla].
      split; [now rewrite Hfr|]. split; [now rewrite Hfr|].
      split; [discriminate|]. intros _. split; [exact Hq'|].
      intros news live0 -> Hn Ho.
      rewrite list.filter_app, filter_none, filter_all in Hq'.
      * exact Hq'.
      * intros e He. apply (proj1 (list.Forall_forall _ _) Ho) in He. lia.
      * intros e He. apply (proj1 (list.Forall_forall _ _) Hn) in He. tauto.
Qed.

End Scopes.

(** ** The lexer on numerals *)

Section Lexer.
Context `{Backend}.

Lemma s32_small z : - 2 ^ 31 <= z < 2 ^ 31 -> s32 z = z.
Proof. intros Hz. unfold s32. rewrite Z.mod_small; lia. Qed.

Lemma to_char_small z : - 128 <= z < 128 -> to_char z = z.
Proof. intros Hz. unfold to_char. rewrite Z.mod_small; lia. Qed.

(** [nextch_smt2] on a character of the file that is not a new line. *)
Lemma nextch_plain parser c rest :
  saved parser = false -> prefix parser = None ->
  infile parser = c :: rest -> c <> chr "010" ->
  0 <= coo_y (nextcoo parser) < INT32_MAX ->
  nextch_smt2 parser
  = Some (c, set_nextcoo (set_coo_y (coo_y (nextcoo parser) + 1) (nextcoo parser))
               (set_infile rest parser)).
Proof.
  intros Hs Hp Hi Hc Hy. unfold nextch_smt2, bind, get, getc, bind, get.
  rewrite Hs, Hp, Hi. unfold modify, ret.
  replace (c =? chr "010") with false by (symmetry; now apply Z.eqb_neq).
  cbn [nextcoo set_infile set_nextcoo coo_y set_coo_y].
  unfold INT32_MAX in Hy. rewrite s32_small by lia. unfold assert_.
  replace (0 <? coo_y (nextcoo parser) + 1) with true
    by (symmetry; apply Z.ltb_lt; lia).
  reflexivity.
Qed.

Lemma pushch_plain parser ch :
  store_tokens parser = false -> ch <> EOF ->
  pushch_smt2 ch parser = Some (tt, set_token (token parser ++ [to_char ch]) parser).
Proof.
  intros Hst Hch. unfold pushch_smt2, bind, assert_, modify, storech_smt2, bind, get.
  replace (ch =? EOF) with false by (symmetry; now apply Z.eqb_neq).
  cbn [negb store_tokens set_token]. rewrite Hst. reflexivity.
Qed.

Lemma read_token_restart_plain fuel parser c rest :
  saved parser = false -> prefix parser = None ->
  infile parser = c :: rest ->
  c <> EOF -> isspace_smt2 c = false -> c <> chr ";" ->
  0 <= coo_y (nextcoo parser) < INT32_MAX ->
  read_token_restart (S fuel) parser
  = Some (inr c,
          set_nextcoo (set_coo_y (coo_y (nextcoo parser) + 1) (nextcoo parser))
            (set_infile rest (set_coo (nextcoo parser) parser))).
Proof.
  intros Hs Hp Hi He Hsp Hc Hy. cbn [read_token_restart].
  unfold bind at 1 2, modify at 1.
  rewrite (nextch_plain _ c rest); try assumption.
  - replace (c =? EOF) with false by (symmetry; now apply Z.eqb_neq).
    rewrite Hsp.
    replace (c =? chr ";") with false by (symmetry; now apply Z.eqb_neq).
    reflexivity.
  - intros ->. discriminate.
Qed.

Lemma savech_plain parser ch :
  saved parser = false -> - 128 <= ch < 128 -> ch <> chr "010" ->
  1 < coo_y (nextcoo parser) <= INT32_MAX ->
  savech_smt2 ch parser
  = Some (tt, set_nextcoo (set_coo_y (coo_y (nextcoo parser) - 1) (nextcoo parser))
                (set_savedch ch (set_saved true parser))).
Proof.
  intros Hs Hr Hc Hy. unfold savech_smt2, bind, get, assert_, modify.
  rewrite Hs, to_char_small by assumption. cbn [negb].
  replace (ch =? chr "010") with false by (symmetry; now apply Z.eqb_neq).
  cbn [nextcoo set_savedch set_saved].
  replace (1 <? coo_y (nextcoo parser)) with true
    by (symmetry; apply Z.ltb_lt; lia).
  unfold INT32_MAX in Hy. rewrite s32_small by lia. reflexivity.
Qed.

End Lexer.

(** ** Closing a term *)

Section WorkStack.
Context `{Backend}.

Lemma item_at_lookup parser i item :
  work parser !! i = Some item -> item_at i parser = Some (item, parser).
Proof. intros E. unfold item_at, bind, get. now rewrite E. Qed.

Lemma exp_at_lookup parser i item e :
  work parser !! i = Some item -> item_u item = ItemExp e ->
  exp_at i parser = Some (e, parser).
Proof.
  intros E Eu. unfold exp_at, bind. rewrite (item_at_lookup _ _ _ E).
  unfold item_exp. now rewrite Eu.
Qed.

Lemma mall_true (range : list Z) (body : Z -> M bool) parser :
  (forall i, i ∈ range -> body i parser = Some (true, parser)) ->
  mall range body parser = Some (true, parser).
Proof.
  induction range as [|i range IH]; intros Hb; [reflexivity|].
  cbn [mall]. unfold bind. rewrite Hb by left.
  apply IH. intros j Hj. apply Hb. now right.
Qed.

Lemma mfold_pure {A} (range : list Z) (body : A -> Z -> M A) (g : A -> Z -> A)
    parser :
  (forall a i, i ∈ range -> body a i parser = Some (g a i, parser)) ->
  forall a, mfold range body a parser = Some (fold_left g range a, parser).
Proof.
  induction range as [|i range IH]; intros Hb a; [reflexivity|].
  cbn [mfold fold_left]. unfold bind. rewrite Hb by left.
  apply IH. intros b j Hj. apply Hb. now right.
Qed.

Lemma mforeach_pure {A} (range : list A) (f : A -> M unit) parser :
  (forall i, i ∈ range -> f i parser = Some (tt, parser)) ->
  mforeach range f parser = Some (tt, parser).
Proof.
  induction range as [|i range IH]; intros Hf; [reflexivity|].
  rewrite mforeach_cons, Hf by left. apply IH. intros j Hj. apply Hf. now right.
Qed.

(** A loop over indices is a fold over the list they index. *)
Lemma fold_left_seqZ {A B} (f : A -> B -> A) (h : Z -> B) (xs : list B) :
  forall o a,
    (forall k x, xs !! k = Some x -> h (o + Z.of_nat k) = x) ->
    fold_left (fun a i => f a (h i)) (seqZ o (Z.of_nat (length xs))) a
    = fold_left f xs a.
Proof.
  induction xs as [|x xs IH]; intros o a Hh; [reflexivity|].
  cbn [length]. rewrite Nat2Z.inj_succ, seqZ_cons by lia.
  cbn [fold_left]. replace (Z.pred (Z.succ (Z.of_nat (length xs))))
    with (Z.of_nat (length xs)) by lia.
  rewrite <- (Hh 0%nat x eq_refl). replace (o + Z.of_nat 0) with o by lia.
  apply IH. intros k y Hk. rewrite <- (Hh (S k) y Hk). f_equal. lia.
Qed.

Lemma last_lpar_from_top (stack rest : list BzlaSMT2Item) lpar :
  item_tag lpar = BZLA_LPAR_TAG_SMT2 ->
  Forall (fun item => item_tag item <> BZLA_LPAR_TAG_SMT2) rest ->
  last_lpar_from (stack ++ lpar :: rest) (length (stack ++ lpar :: rest))
  = Some (length stack).
Proof.
  intros Hl Hr.
  enough (G : forall k, (k <= length rest)%nat ->
            last_lpar_from (stack ++ lpar :: rest) (S (length stack + k))
            = Some (length stack)).
  { rewrite length_app. cbn [length].
    replace (length stack + S (length rest))%nat
      with (S (length stack + length rest)) by lia.
    now apply G. }
  induction k as [|k IH]; intros Hk; cbn [last_lpar_from].
  - rewrite Nat.add_0_r, list_lookup_middle by reflexivity.
    now rewrite Hl, Z.eqb_refl.
  - destruct (lookup_lt_is_Some_2 rest k ltac:(lia)) as [item Hi].
    rewrite lookup_app_r by lia.
    replace (length stack + S k - length stack)%nat with (S k) by lia.
    change ((lpar :: rest) !! S k) with (rest !! k). rewrite Hi.
    replace (item_tag item =? BZLA_LPAR_TAG_SMT2) with false.
    + replace (length stack + S k)%nat with (S (length stack + k)) by lia.
      apply IH. lia.
    + symmetry. apply Z.eqb_neq.
      now apply (proj1 (list.Forall_forall _ _) Hr), (list_elem_of_lookup_2 _ k).
Qed.

Section Open.
Variables (parser : BzlaSMT2Parser) (stack : list BzlaSMT2Item)
  (lpar op : BzlaSMT2Item) (args : list BzlaSMT2Item) (es : list BoolectorNode).
Hypothesis Hopen : term_open parser stack lpar op args es.

Lemma args_length : length args = length es.
Proof. eapply Forall2_length, (to_args _ _ _ _ _ _ Hopen). Qed.

Lemma op_lookup : work parser !! S (length stack) = Some op.
Proof.
  rewrite (to_work _ _ _ _ _ _ Hopen), lookup_app_r by lia.
  replace (S (length stack) - length stack)%nat with 1%nat by lia. reflexivity.
Qed.

Lemma arg_lookup k e :
  es !! k = Some e ->
  exists item,
    work parser !! idx (S (length stack)) (Z.of_nat (S k)) = Some item
    /\ item_tag item = BZLA_EXP_TAG_SMT2 /\ item_u item = ItemExp e.
Proof.
  intros Hk.
  pose proof (to_args _ _ _ _ _ _ Hopen) as Ha.
  destruct (Forall2_lookup_r _ _ _ _ _ Ha Hk) as (item & Hi & Htag & Hu).
  exists item. split; [|now split].
  rewrite (to_work _ _ _ _ _ _ Hopen). unfold idx. rewrite lookup_app_r by lia.
  replace (S (length stack) + Z.to_nat (Z.of_nat (S k)) - length stack)%nat
    with (S (S k)) by lia.
  exact Hi.
Qed.

Lemma arg_index i :
  1 <= i <= Z.of_nat (length es) ->
  exists k e, i = Z.of_nat (S k) /\ es !! k = Some e.
Proof.
  intros Hi. exists (Z.to_nat (i - 1)).
  destruct (lookup_lt_is_Some_2 es (Z.to_nat (i - 1)) ltac:(lia)) as [e He].
  exists e. split; [lia|exact He].
Qed.

Lemma exp_at_arg k e :
  es !! k = Some e ->
  exp_at (idx (S (length stack)) (Z.of_nat (S k))) parser = Some (e, parser).
Proof.
  intros Hk. destruct (arg_lookup k e Hk) as (item & Hi & _ & Hu).
  exact (exp_at_lookup _ _ _ _ Hi Hu).
Qed.

Lemma exp_at_nth d i :
  1 <= i <= Z.of_nat (length es) ->
  exp_at (idx (S (length stack)) i) parser
  = Some (nth (Z.to_nat (i - 1)) es d, parser).
Proof.
  intros Hi. destruct (arg_index i Hi) as (k & e & -> & Hk).
  rewrite (exp_at_arg k e Hk). do 2 f_equal.
  replace (Z.to_nat (Z.of_nat (S k) - 1)) with k by lia.
  symmetry. now apply nth_lookup_Some.
Qed.

Lemma last_lpar_open :
  item_tag op <> BZLA_LPAR_TAG_SMT2 ->
  last_lpar_smt2 parser = Some (length stack).
Proof.
  intros Hop. unfold last_lpar_smt2. rewrite (to_work _ _ _ _ _ _ Hopen).
  apply last_lpar_from_top; [exact (to_lpar _ _ _ _ _ _ Hopen)|].
  constructor; [exact Hop|].
  apply list.Forall_forall. intros item Hi.
  apply list_elem_of_lookup in Hi as [k Hk].
  pose proof (to_args _ _ _ _ _ _ Hopen) as Ha.
  destruct (Forall2_lookup_l _ _ _ _ _ Ha Hk) as (e & _ & Htag & _).
  rewrite Htag. discriminate.
Qed.

Lemma nargs_open :
  u32 (Z.of_nat (length (work parser) - S (length stack) - 1))
  = Z.of_nat (length es).
Proof.
  rewrite (to_work _ _ _ _ _ _ Hopen), length_app. cbn [length].
  rewrite <- args_length.
  replace (length stack + S (S (length args)) - S (length stack) - 1)%nat
    with (length args) by lia.
  pose proof (to_nargs _ _ _ _ _ _ Hopen). unfold u32.
  rewrite Z.mod_small; lia.
Qed.

(** The loop that checks that the operands are expressions. *)
Lemma operands_are_expressions :
  mall (seqZ 1 (Z.of_nat (length es) - 1 + 1))
    (fun i =>
       do item_i <- item_at (idx (S (length stack)) i);
       if negb (item_tag item_i =? BZLA_EXP_TAG_SMT2) then
         run modify (set_perrcoo (item_coo item_i));
         run perr_smt2 "expected expression";
         ret false
       else ret true) parser
  = Some (true, parser).
Proof.
  apply mall_true. intros i Hi. apply elem_of_seqZ in Hi.
  destruct (arg_index i ltac:(lia)) as (k & e & -> & Hk).
  destruct (arg_lookup k e Hk) as (item & Hl & Htag & _).
  unfold bind. rewrite (item_at_lookup _ _ _ Hl), Htag. reflexivity.
Qed.

Lemma release_exp_and_overwrite_open exp :
  release_exp_and_overwrite (length stack) (S (length stack))
    (Z.of_nat (length es)) exp parser
  = Some (tt, set_work (stack ++ [set_item_u (ItemExp exp)
                                   (set_item_tag BZLA_EXP_TAG_SMT2 lpar)])
                parser).
Proof.
  unfold release_exp_and_overwrite, bind at 1.
  rewrite mforeach_pure.
  - unfold bind, modify, update_item, modify. do 2 f_equal.
    cbn [work set_work]. rewrite (to_work _ _ _ _ _ _ Hopen).
    rewrite take_app_ge by lia.
    replace (S (length stack) - length stack)%nat with 1%nat by lia.
    cbn [take].
    replace (length stack) with (length stack + 0)%nat at 1 by lia.
    rewrite alter_app_r. cbn. now destruct parser.
  - intros i Hi. apply elem_of_seqZ in Hi.
    destruct (arg_index i ltac:(lia)) as (k & e & -> & Hk).
    unfold bind. now rewrite (exp_at_arg k e Hk).
Qed.

Lemma enter_close_term :
  item_tag op <> BZLA_LPAR_TAG_SMT2 ->
  (0 <=? open parser) = true
  /\ (open parser =? 0) = false
  /\ last_lpar_smt2 parser = Some (length stack)
  /\ (S (length stack) =? length (work parser))%nat = false
  /\ item_at (S (length stack)) parser = Some (op, parser).
Proof.
  intros Hop. pose proof (to_open _ _ _ _ _ _ Hopen) as Ho.
  split; [apply Z.leb_le; lia|]. split; [apply Z.eqb_neq; lia|].
  split; [now apply last_lpar_open|]. split.
  - apply Nat.eqb_neq. rewrite (to_work _ _ _ _ _ _ Hopen), length_app.
    cbn [length]. lia.
  - apply item_at_lookup, op_lookup.
Qed.

End Open.

Lemma term_open_perrcoo parser stack lpar op args es c :
  term_open parser stack lpar op args es ->
  term_open (set_perrcoo c parser) stack lpar op args es.
Proof. intros []. now split. Qed.

Lemma check_arg_sorts_match_uniform parser stack lpar op args es :
  term_open parser stack lpar op args es -> uniform_sort es ->
  check_arg_sorts_match_smt2 (S (length stack)) 0 (Z.of_nat (length es)) parser
  = Some (true, set_perrcoo (set_coo_x 0 (item_coo op)) parser).
Proof.
  intros Hopen Hu. destruct es as [|e1 es']; [contradiction|].
  unfold check_arg_sorts_match_smt2, bind at 1 2 3 4, assert_.
  replace (1 <=? Z.of_nat (length (e1 :: es'))) with true
    by (symmetry; apply Z.leb_le; cbn [length]; lia).
  rewrite (item_at_lookup _ _ _ (op_lookup _ _ _ _ _ _ Hopen)).
  unfold modify at 1.
  pose proof (term_open_perrcoo _ _ _ _ _ _ (item_coo op) Hopen) as Hq.
  set (q := set_perrcoo (item_coo op) parser) in *.
  change (u32 (0 + 1)) with 1. cbv zeta.
  pose proof (exp_at_arg q _ _ _ _ _ Hq 0 e1 eq_refl) as He1.
  change (Z.of_nat 1) with 1 in He1. rewrite He1.
  assert (Hloop : forall (P : BoolectorNode -> Prop) (body : Z -> M bool) a,
            Forall P es' -> 2 <= a ->
            (forall k e, (e1 :: es') !! k = Some e -> P e ->
               body (Z.of_nat (S k)) q = Some (true, q)) ->
            mall (seqZ a (Z.of_nat (length (e1 :: es')) - a + 1)) body q
            = Some (true, q)).
  { intros P body a HP Ha Hb. apply mall_true. intros i Hi.
    apply elem_of_seqZ in Hi.
    destruct (arg_index (e1 :: es') i ltac:(lia)) as (k & e & -> & Hk).
    apply (Hb k e Hk). destruct k as [|k]; [lia|].
    now apply (proj1 (list.Forall_forall _ _) HP), (list_elem_of_lookup_2 _ k). }
  cbn [uniform_sort] in Hu. unfold bind at 1.
  destruct (boolector_is_array e1) eqn:Ea; [|destruct (boolector_is_fun e1) eqn:Ef].
  - replace (Z.of_nat (length (e1 :: es')) - 1)
      with (Z.of_nat (length (e1 :: es')) - (1 + 1) + 1) by lia.
    rewrite (Hloop _ _ _ Hu); [now destruct parser|lia|].
    intros k e Hk (Ha & Hw & Hi). unfold bind.
    rewrite (exp_at_arg q _ _ _ _ _ Hq k e Hk), Ha, Hw, Hi, !Z.eqb_refl.
    reflexivity.
  - replace (Z.of_nat (length (e1 :: es')) - 1)
      with (Z.of_nat (length (e1 :: es')) - (1 + 1) + 1) by lia.
    rewrite (Hloop _ _ _ Hu); [now destruct parser|lia|].
    intros k e Hk (Hf & Hs). unfold bind.
    rewrite (exp_at_arg q _ _ _ _ _ Hq k e Hk), Hf. cbn [negb].
    rewrite He1, Hs. reflexivity.
  - assert (Hu' : Forall (fun e => boolector_is_array e = false
                    /\ boolector_is_fun e = false
                    /\ boolector_bv_get_width e = boolector_bv_get_width e1)
                   (e1 :: es')) by (now constructor).
    rewrite mall_true; [now destruct parser|].
    intros i Hi. apply elem_of_seqZ in Hi.
    destruct (arg_index (e1 :: es') i ltac:(lia)) as (k & e & -> & Hk).
    pose proof (proj1 (list.Forall_forall _ _) Hu' e (list_elem_of_lookup_2 _ k _ Hk))
      as (Ha & Hf & Hw).
    unfold bind. rewrite (exp_at_arg q _ _ _ _ _ Hq k e Hk), Ha, Hf, Hw, Z.eqb_refl.
    reflexivity.
Qed.

End WorkStack.

(** Evaluates the comparisons of the tag [t] with the tags of the source. *)
Ltac eval_tag_tests t :=
  repeat match goal with
  | |- context [t =? ?x] =>
      let b := eval vm_compute in (t =? x) in change (t =? x) with b
  end.

(** The head of [close_term] on an open term, up to the choice of the
    reduction by the tag of the operator. *)
Ltac enter_close_term Hopen Htag :=
  let E1 := fresh "E" in let E2 := fresh "E" in let E3 := fresh "E" in
  let E4 := fresh "E" in let E5 := fresh "E" in
  destruct (enter_close_term _ _ _ _ _ _ Hopen
              ltac:(rewrite Htag; discriminate)) as (E1 & E2 & E3 & E4 & E5);
  unfold close_term, bind at 1, get at 1;
  rewrite (to_body _ _ _ _ _ _ Hopen);
  unfold bind at 1, assert_ at 1;
  rewrite E1, E2, E3, E4; unfold bind at 1;
  rewrite E5, Htag, ?(nargs_open _ _ _ _ _ _ Hopen);
  clear E1 E2 E3 E4 E5.

(** ** Equality and distinctness *)

Section EqualDistinct.
Context `{Backend}.

(** The accumulation of the loop of [distinct]. *)
Lemma fold_opt_and (xs : list BoolectorNode) a :
  fold_left
    (fun (acc : option BoolectorNode) x =>
       Some (match acc with
             | Some old => boolector_and old x
             | None => x
             end)) xs (Some a)
  = Some (fold_left boolector_and xs a).
Proof.
  revert a. induction xs as [|x xs IH]; intros a; [reflexivity|].
  cbn [fold_left]. apply IH.
Qed.

Lemma fold_opt_and_all (xs : list BoolectorNode) :
  xs <> [] ->
  fold_left
    (fun (acc : option BoolectorNode) x =>
       Some (match acc with
             | Some old => boolector_and old x
             | None => x
             end)) xs None
  = and_all xs.
Proof.
  destruct xs as [|x xs]; [congruence|]. intros _. cbn [fold_left and_all].
  apply fold_opt_and.
Qed.

Lemma length_pairwise_nes (es : list BoolectorNode) :
  2 * Z.of_nat (length (pairwise_nes es))
  = Z.of_nat (length es) * (Z.of_nat (length es) - 1).
Proof.
  induction es as [|e es IH]; [reflexivity|].
  cbn [pairwise_nes length]. rewrite length_app, length_fmap. nia.
Qed.

Lemma length_consecutive_eqs (es : list BoolectorNode) :
  length (consecutive_eqs es) = (length es - 1)%nat.
Proof.
  unfold consecutive_eqs. rewrite length_zip_with.
  destruct es; cbn [tail length]; lia.
Qed.

(** The loop of [=] over the arguments 3 to [n]. *)
Lemma equal_loop (d e1 e2 : BoolectorNode) rest :
  fold_left
    (fun exp i =>
       boolector_and exp
         (boolector_eq (nth (Z.to_nat (i - 1 - 1)) (e1 :: e2 :: rest) d)
                       (nth (Z.to_nat (i - 1)) (e1 :: e2 :: rest) d)))
    (seqZ 3 (Z.of_nat (length (e1 :: e2 :: rest)) - 2))
    (boolector_eq e1 e2)
  = fold_left boolector_and (zip_with boolector_eq (e2 :: rest) rest)
      (boolector_eq e1 e2).
Proof.
  replace (Z.of_nat (length (e1 :: e2 :: rest)) - 2)
    with (Z.of_nat (length (zip_with boolector_eq (e2 :: rest) rest)))
    by (rewrite length_zip_with; cbn [length]; lia).
  apply (fold_left_seqZ boolector_and
           (fun i => boolector_eq (nth (Z.to_nat (i - 1 - 1)) (e1 :: e2 :: rest) d)
                                  (nth (Z.to_nat (i - 1)) (e1 :: e2 :: rest) d))).
  intros k x Hk. rewrite lookup_zip_with in Hk.
  destruct ((e2 :: rest) !! k) as [a|] eqn:Ea; [|discriminate].
  destruct (rest !! k) as [b|] eqn:Eb; [|discriminate].
  injection Hk as <-.
  replace (Z.to_nat (3 + Z.of_nat k - 1 - 1)) with (S k) by lia.
  replace (Z.to_nat (3 + Z.of_nat k - 1)) with (S (S k)) by lia.
  f_equal.
  - change (nth (S k) (e1 :: e2 :: rest) d) with (nth k (e2 :: rest) d).
    now apply nth_lookup_Some.
  - change (nth (S (S k)) (e1 :: e2 :: rest) d) with (nth k rest d).
    now apply nth_lookup_Some.
Qed.

(** The two loops of [distinct]. *)
Lemma distinct_loop (d : BoolectorNode) (pre suf : list BoolectorNode) acc :
  fold_left
    (fun exp i =>
       fold_left
         (fun (exp : option BoolectorNode) j =>
            Some (match exp with
                  | Some old =>
                      boolector_and old
                        (boolector_ne (nth (Z.to_nat (i - 1)) (pre ++ suf) d)
                                      (nth (Z.to_nat (j - 1)) (pre ++ suf) d))
                  | None =>
                      boolector_ne (nth (Z.to_nat (i - 1)) (pre ++ suf) d)
                                   (nth (Z.to_nat (j - 1)) (pre ++ suf) d)
                  end))
         (seqZ (i + 1) (Z.of_nat (length (pre ++ suf)) - i)) exp)
    (seqZ (Z.of_nat (length pre) + 1) (Z.of_nat (length suf) - 1)) acc
  = fold_left
      (fun (acc : option BoolectorNode) x =>
         Some (match acc with
               | Some old => boolector_and old x
               | None => x
               end)) (pairwise_nes suf) acc.
Proof.
  revert pre acc. induction suf as [|e suf IH]; intros pre acc.
  - rewrite seqZ_nil by (cbn; lia). reflexivity.
  - cbn [pairwise_nes]. rewrite fold_left_app.
    destruct suf as [|e' suf'].
    { rewrite seqZ_nil by (cbn; lia). reflexivity. }
    rewrite seqZ_cons by (cbn [length]; lia). cbn [fold_left].
    set (suf := e' :: suf') in *.
    replace (Z.succ (Z.of_nat (length pre) + 1))
      with (Z.of_nat (length (pre ++ [e])) + 1)
      by (rewrite length_app; cbn [length]; lia).
    replace (Z.pred (Z.of_nat (length (e :: suf)) - 1))
      with (Z.of_nat (length suf) - 1) by (cbn [length]; lia).
    replace (pre ++ e :: suf) with ((pre ++ [e]) ++ suf)
      by (now rewrite <- app_assoc).
    rewrite IH. f_equal.
    replace (Z.of_nat (length ((pre ++ [e]) ++ suf)) - (Z.of_nat (length pre) + 1))
      with (Z.of_nat (length (boolector_ne e <$> suf)))
      by (rewrite length_fmap, !length_app; cbn [length]; lia).
    apply (fold_left_seqZ
             (fun (acc : option BoolectorNode) x =>
                Some (match acc with
                      | Some old => boolector_and old x
                      | None => x
                      end))
             (fun j => boolector_ne
                         (nth (Z.to_nat (Z.of_nat (length pre) + 1 - 1))
                              ((pre ++ [e]) ++ suf) d)
                         (nth (Z.to_nat (j - 1)) ((pre ++ [e]) ++ suf) d))).
    intros k x Hk. rewrite list_lookup_fmap in Hk.
    destruct (suf !! k) as [b|] eqn:Eb; [|discriminate]. injection Hk as <-.
    f_equal.
    + apply nth_lookup_Some. rewrite <- app_assoc, lookup_app_r by lia.
      replace (Z.to_nat (Z.of_nat (length pre) + 1 - 1) - length pre)%nat
        with 0%nat by lia.
      reflexivity.
    + apply nth_lookup_Some. rewrite lookup_app_r by (rewrite length_app; cbn; lia).
      rewrite length_app. cbn [length].
      replace (Z.to_nat (Z.of_nat (length pre) + 1 + 1 + Z.of_nat k - 1)
               - (length pre + 1))%nat with k by lia.
      exact Eb.
Qed.

Variable close_term_other : Z -> nat -> nat -> Z -> M bool.

Lemma close_term_equal parser stack lpar op args es :
  term_open parser stack lpar op args es ->
  item_tag op = BZLA_EQUAL_TAG_SMT2 ->
  (2 <= length es)%nat -> uniform_sort es ->
  exists p' exp,
    close_term close_term_other parser = Some (1, p')
    /\ term_closed parser p' stack lpar exp
    /\ and_all (consecutive_eqs es) = Some exp.
Proof.
  intros Hopen Htag Hn Hu.
  enter_close_term Hopen Htag.
  eval_tag_tests BZLA_EQUAL_TAG_SMT2. cbn [negb andb orb]. cbv beta iota.
  unfold bind at 1. rewrite (operands_are_expressions _ _ _ _ _ _ Hopen).
  cbn [negb]. cbv beta iota.
  destruct es as [|e1 [|e2 rest]]; try (cbn [length] in Hn; lia).
  set (es := e1 :: e2 :: rest) in *.
  replace (Z.of_nat (length es) =? 0) with false
    by (symmetry; apply Z.eqb_neq; subst es; cbn [length]; lia).
  replace (Z.of_nat (length es) =? 1) with false
    by (symmetry; apply Z.eqb_neq; subst es; cbn [length]; lia).
  unfold bind at 1 2.
  rewrite (check_arg_sorts_match_uniform _ _ _ _ _ _ Hopen Hu).
  cbn [negb]. cbv beta iota.
  pose proof (term_open_perrcoo _ _ _ _ _ _ (set_coo_x 0 (item_coo op)) Hopen) as Hq.
  set (q := set_perrcoo _ parser) in *.
  pose proof (exp_at_arg q _ _ _ _ _ Hq 0 e1 eq_refl) as He1.
  pose proof (exp_at_arg q _ _ _ _ _ Hq 1 e2 eq_refl) as He2.
  change (Z.of_nat 1) with 1 in He1. change (Z.of_nat 2) with 2 in He2.
  unfold bind at 1. rewrite He1. unfold bind at 1. rewrite He2.
  unfold bind at 1.
  rewrite (mfold_pure _ _
             (fun exp i =>
                boolector_and exp
                  (boolector_eq (nth (Z.to_nat (i - 1 - 1)) es e1)
                                (nth (Z.to_nat (i - 1)) es e1)))).
  - unfold bind at 1.
    rewrite (release_exp_and_overwrite_open q _ _ _ _ _ Hq).
    unfold ret at 1. cbn [negb]. cbv beta iota.
    unfold bind, assert_, modify, ret.
    replace (0 <? open parser) with true
      by (symmetry; apply Z.ltb_lt, (to_open _ _ _ _ _ _ Hopen)).
    eexists. eexists. split; [reflexivity|]. split.
    + repeat split.
    + subst es. rewrite equal_loop. reflexivity.
  - intros a i Hi. apply elem_of_seqZ in Hi. unfold bind.
    rewrite (exp_at_nth q _ _ _ _ _ Hq e1) by lia.
    rewrite (exp_at_nth q _ _ _ _ _ Hq e1) by lia.
    reflexivity.
Qed.

Lemma close_term_distinct parser stack lpar op args es :
  term_open parser stack lpar op args es ->
  item_tag op = BZLA_DISTINCT_TAG_SMT2 ->
  (2 <= length es)%nat -> uniform_sort es ->
  exists p' exp,
    close_term close_term_other parser = Some (1, p')
    /\ term_closed parser p' stack lpar exp
    /\ and_all (pairwise_nes es) = Some exp.
Proof.
  intros Hopen Htag Hn Hu.
  enter_close_term Hopen Htag.
  eval_tag_tests BZLA_DISTINCT_TAG_SMT2. cbn [negb andb orb]. cbv beta iota.
  unfold bind at 1. rewrite (operands_are_expressions _ _ _ _ _ _ Hopen).
  cbn [negb]. cbv beta iota.
  destruct es as [|e1 [|e2 rest]]; try (cbn [length] in Hn; lia).
  set (es := e1 :: e2 :: rest) in *.
  replace (Z.of_nat (length es) =? 0) with false
    by (symmetry; apply Z.eqb_neq; subst es; cbn [length]; lia).
  replace (Z.of_nat (length es) =? 1) with false
    by (symmetry; apply Z.eqb_neq; subst es; cbn [length]; lia).
  unfold bind at 1 2.
  rewrite (check_arg_sorts_match_uniform _ _ _ _ _ _ Hopen Hu).
  cbn [negb]. cbv beta iota.
  pose proof (term_open_perrcoo _ _ _ _ _ _ (set_coo_x 0 (item_coo op)) Hopen) as Hq.
  set (q := set_perrcoo _ parser) in *.
  unfold bind at 1.
  rewrite (mfold_pure _ _
             (fun exp i =>
                fold_left
                  (fun (exp : option BoolectorNode) j =>
                     Some (match exp with
                           | Some old =>
                               boolector_and old
                                 (boolector_ne (nth (Z.to_nat (i - 1)) ([] ++ es) e1)
                                               (nth (Z.to_nat (j - 1)) ([] ++ es) e1))
                           | None =>
                               boolector_ne (nth (Z.to_nat (i - 1)) ([] ++ es) e1)
                                            (nth (Z.to_nat (j - 1)) ([] ++ es) e1)
                           end))
                  (seqZ (i + 1) (Z.of_nat (length ([] ++ es)) - i)) exp)).
  - change (seqZ 1 (Z.of_nat (length es) - 1))
      with (seqZ (Z.of_nat (length (@nil BoolectorNode)) + 1)
                 (Z.of_nat (length es) - 1)).
    rewrite distinct_loop, fold_opt_and_all by discriminate.
    cbn [and_all pairwise_nes es fmap list_fmap app].
    unfold bind at 1.
    rewrite (release_exp_and_overwrite_open q _ _ _ _ _ Hq).
    unfold ret at 1. cbn [negb]. cbv beta iota.
    unfold bind, assert_, modify, ret.
    replace (0 <? open parser) with true
      by (symmetry; apply Z.ltb_lt, (to_open _ _ _ _ _ _ Hopen)).
    eexists. eexists. split; [reflexivity|]. split; [repeat split|reflexivity].
  - intros a i Hi. apply elem_of_seqZ in Hi.
    apply mfold_pure. intros b j Hj. apply elem_of_seqZ in Hj.
    cbn [app] in *. unfold bind.
    rewrite (exp_at_nth q _ _ _ _ _ Hq e1) by lia.
    rewrite (exp_at_nth q _ _ _ _ _ Hq e1) by lia.
    now destruct b.
Qed.

Lemma close_term_few_arguments parser stack lpar op args es :
  term_open parser stack lpar op args es ->
  item_tag op = BZLA_EQUAL_TAG_SMT2 \/ item_tag op = BZLA_DISTINCT_TAG_SMT2 ->
  (length es <= 1)%nat ->
  exists p',
    close_term close_term_other parser = Some (0, p')
    /\ reports parser p'
         ((if length es is O then "arguments to '" else "only one argument to '")
          +:+ (if item_tag op =? BZLA_EQUAL_TAG_SMT2 then "=" else "distinct")
          +:+ (if length es is O then "' missing" else "'")).
Proof.
  intros Hopen [Htag|Htag] Hn.
  - enter_close_term Hopen Htag.
    eval_tag_tests BZLA_EQUAL_TAG_SMT2. cbn [negb andb orb]. cbv beta iota.
    unfold bind at 1. rewrite (operands_are_expressions _ _ _ _ _ _ Hopen).
    cbn [negb]. cbv beta iota.
    destruct es as [|e1 [|e2 rest]]; try (cbn [length] in Hn; lia);
      cbn [length Z.of_nat Z.eqb Pos.eqb]; cbv beta iota;
      unfold bind, modify, perr_smt2, modify, ret; cbn [negb error set_perrcoo];
      eexists; (split; [reflexivity|]); intros He; rewrite He; reflexivity.
  - enter_close_term Hopen Htag.
    eval_tag_tests BZLA_DISTINCT_TAG_SMT2. cbn [negb andb orb]. cbv beta iota.
    unfold bind at 1. rewrite (operands_are_expressions _ _ _ _ _ _ Hopen).
    cbn [negb]. cbv beta iota.
    destruct es as [|e1 [|e2 rest]]; try (cbn [length] in Hn; lia);
      cbn [length Z.of_nat Z.eqb Pos.eqb]; cbv beta iota;
      unfold bind, modify, perr_smt2, modify, ret; cbn [negb error set_perrcoo];
      eexists; (split; [reflexivity|]); intros He; rewrite He; reflexivity.
Qed.

(** C6. Closing [(= x1 ... xn)] or [(distinct x1 ... xn)]: with no
    argument or one argument the parser reports an error; with two or more
    arguments of uniform sort the term is replaced by the conjunction, from
    the left, of the [n-1] equalities of consecutive arguments for [=], and
    of the [n(n-1)/2] inequalities of the pairs [i < j] for [distinct]. *)
Theorem close_term_equal_distinct parser stack lpar op args es :
  term_open parser stack lpar op args es ->
  item_tag op = BZLA_EQUAL_TAG_SMT2 \/ item_tag op = BZLA_DISTINCT_TAG_SMT2 ->
  ((length es <= 1)%nat ->
   exists p',
     close_term close_term_other parser = Some (0, p')
     /\ reports parser p'
          ((if length es is O then "arguments to '" else "only one argument to '")
           +:+ (if item_tag op =? BZLA_EQUAL_TAG_SMT2 then "=" else "distinct")
           +:+ (if length es is O then "' missing" else "'")))
  /\ ((2 <= length es)%nat -> uniform_sort es ->
      exists p' exp,
        close_term close_term_other parser = Some (1, p')
        /\ term_closed parser p' stack lpar exp
        /\ (item_tag op = BZLA_EQUAL_TAG_SMT2 ->
            and_all (consecutive_eqs es) = Some exp
            /\ length (consecutive_eqs es) = (length es - 1)%nat)
        /\ (item_tag op = BZLA_DISTINCT_TAG_SMT2 ->
            and_all (pairwise_nes es) = Some exp
            /\ 2 * Z.of_nat (length (pairwise_nes es))
               = Z.of_nat (length es) * (Z.of_nat (length es) - 1))).
Proof.
  intros Hopen Htag. split.
  - intros Hn. exact (close_term_few_arguments _ _ _ _ _ _ Hopen Htag Hn).
  - intros Hn Hu. destruct Htag as [Htag|Htag].
    + destruct (close_term_equal _ _ _ _ _ _ Hopen Htag Hn Hu) as (p' & exp & Hr & Hc & He).
      exists p', exp. split; [exact Hr|]. split; [exact Hc|]. split.
      * intros _. split; [exact He|apply length_consecutive_eqs].
      * rewrite Htag. discriminate.
    + destruct (close_term_distinct _ _ _ _ _ _ Hopen Htag Hn Hu) as (p' & exp & Hr & Hc & He).
      exists p', exp. split; [exact Hr|]. split; [exact Hc|]. split.
      * rewrite Htag. discriminate.
      * intros _. split; [exact He|apply length_pairwise_nes].
Qed.

End EqualDistinct.

(** ** Indexed operators: extract and rotate *)

Section Indexed.
Context `{Backend}.
Variable close_term_other : Z -> nat -> nat -> Z -> M bool.

Lemma check_nargs_exact parser stack lpar op args es node :
  term_open parser stack lpar op args es ->
  item_u op = ItemNode node ->
  check_nargs_smt2 (S (length stack)) (Z.of_nat (length es))
    (Z.of_nat (length es)) parser
  = Some (true, parser).
Proof.
  intros Hopen Hnode. unfold check_nargs_smt2, bind at 1, node_name_at, bind at 1.
  rewrite (item_at_lookup _ _ _ (op_lookup _ _ _ _ _ _ Hopen)).
  unfold bind at 1, item_node. rewrite Hnode. unfold ret at 1 2.
  unfold bind at 1. rewrite (item_at_lookup _ _ _ (op_lookup _ _ _ _ _ _ Hopen)).
  replace (s32 (Z.of_nat (length es) - Z.of_nat (length es))) with 0
    by (now rewrite Z.sub_diag).
  reflexivity.
Qed.

Lemma check_not_array_or_uf_args_ok parser stack lpar op args es :
  term_open parser stack lpar op args es ->
  Forall (fun e => boolector_is_array e = false /\ boolector_is_fun e = false) es ->
  check_not_array_or_uf_args_smt2 (S (length stack)) (Z.of_nat (length es)) parser
  = Some (true, parser).
Proof.
  intros Hopen Hes. unfold check_not_array_or_uf_args_smt2.
  pose proof (to_nargs _ _ _ _ _ _ Hopen) as Hn.
  rewrite (args_length _ _ _ _ _ _ Hopen) in Hn.
  apply mall_true. intros i Hi. apply elem_of_seqZ in Hi.
  assert (Hi' : 1 <= i <= Z.of_nat (length es)).
  { split; [lia|]. destruct Hi as [_ Hi]. revert Hi. unfold s32.
    pose proof (Z.mod_pos_bound (Z.of_nat (length es) + 2 ^ 31) (2 ^ 32)).
    destruct (Z.lt_ge_cases (Z.of_nat (length es)) (2 ^ 31)).
    - rewrite Z.mod_small by lia. lia.
    - intros. replace (Z.of_nat (length es) + 2 ^ 31)
        with (Z.of_nat (length es) - 2 ^ 31 + 1 * 2 ^ 32) in * by lia.
      rewrite Z.mod_add in * by lia. rewrite Z.mod_small in * by lia. lia. }
  destruct (arg_index es i Hi') as (k & e & -> & Hk).
  destruct (arg_lookup _ _ _ _ _ _ Hopen k e Hk) as (item & Hl & _ & Hu).
  pose proof (proj1 (list.Forall_forall _ _) Hes e (list_elem_of_lookup_2 _ k _ Hk))
    as (Ha & Hf).
  unfold bind. rewrite (item_at_lookup _ _ _ Hl). unfold item_exp. rewrite Hu.
  unfold ret at 1. now rewrite Ha, Hf.
Qed.

Lemma close_term_rotate_bv_fun_spec parser stack lpar op arg t node fun_ :
  term_open parser stack lpar op [arg] [t] ->
  item_tag op = BZLA_BV_ROTATE_LEFT_TAG_SMT2
  \/ item_tag op = BZLA_BV_ROTATE_RIGHT_TAG_SMT2 ->
  item_u op = ItemNode node ->
  boolector_is_array t = false -> boolector_is_fun t = false ->
  0 < boolector_bv_get_width t ->
  close_term_rotate_bv_fun (length stack) (S (length stack)) 1 fun_ parser
  = Some (1, set_work
               (stack ++ [set_item_u
                            (ItemExp (fun_ t (item_num op mod boolector_bv_get_width t)))
                            (set_item_tag BZLA_EXP_TAG_SMT2 lpar)])
               parser).
Proof.
  intros Hopen Htag Hnode Ha Hf Hw.
  unfold close_term_rotate_bv_fun, bind at 1.
  rewrite (item_at_lookup _ _ _ (op_lookup _ _ _ _ _ _ Hopen)).
  unfold bind at 1, assert_.
  replace ((item_tag op =? BZLA_BV_ROTATE_LEFT_TAG_SMT2)
           || (item_tag op =? BZLA_BV_ROTATE_RIGHT_TAG_SMT2)) with true
    by (destruct Htag as [-> | ->]; reflexivity).
  pose proof (check_nargs_exact _ _ _ _ _ [t] node Hopen Hnode) as Hc1.
  pose proof (check_not_array_or_uf_args_ok _ _ _ _ _ [t] Hopen
                ltac:(constructor; [now split|constructor])) as Hc2.
  pose proof (exp_at_arg _ _ _ _ _ _ Hopen 0 t eq_refl) as He1.
  pose proof (fun e => release_exp_and_overwrite_open _ _ _ _ _ [t] Hopen e) as Hr.
  change (Z.of_nat (length [t])) with 1 in *. change (Z.of_nat 1) with 1 in *.
  unfold bind at 1. rewrite Hc1. cbn [negb]. unfold bind at 1. rewrite Hc2.
  cbn [negb]. unfold bind at 1. rewrite He1.
  replace (boolector_bv_get_width t =? 0) with false
    by (symmetry; apply Z.eqb_neq; lia).
  unfold bind at 1. rewrite Hr. reflexivity.
Qed.

(** *** Reading an index *)

Lemma digit_char a :
  isdigit (c_char a) = true -> c_char a = chr a /\ 48 <= chr a <= 57.
Proof.
  unfold isdigit, c_char. destruct (chr a <? 128) eqn:E; intros Hd;
    apply andb_true_iff in Hd as [H1 H2];
    apply Z.leb_le in H1; apply Z.leb_le in H2.
  - split; [reflexivity|lia].
  - apply Z.ltb_ge in E. pose proof (chr_range a). lia.
Qed.

Lemma dec_step_mono (l : list ascii) r :
  Forall (fun a => isdigit (c_char a) = true) l -> 0 <= r ->
  r <= fold_left (fun v a => 10 * v + (chr a - chr "0")) l r.
Proof.
  revert r. induction l as [|a l IH]; intros r Hl Hr; [cbn; lia|].
  inversion Hl as [|? ? Ha Hl']; subst. cbn [fold_left].
  destruct (digit_char a Ha) as [_ Hd]. change (chr "0") with 48.
  etransitivity; [|apply IH; [assumption|lia]]. lia.
Qed.

Lemma str2uint32_loop_value (s : string) :
  forall res,
    decimal s -> 0 <= res ->
    fold_left (fun v a => 10 * v + (chr a - chr "0")) (list_ascii_of_string s) res
      <= UINT32_MAX ->
    str2uint32_loop s res
    = Some (fold_left (fun v a => 10 * v + (chr a - chr "0"))
              (list_ascii_of_string s) res).
Proof.
  unfold decimal. induction s as [|a s IH]; intros res Hs Hr Hv; [reflexivity|].
  cbn [list_ascii_of_string] in *. inversion Hs as [|? ? Ha Hs']; subst.
  cbn [fold_left] in *. destruct (digit_char a Ha) as [Hc Hd].
  pose proof (dec_step_mono _ (10 * res + (chr a - chr "0")) Hs'
                ltac:(change (chr "0") with 48; lia)) as Hm.
  change (chr "0") with 48 in *. change (chr "9") with 57 in *.
  unfold UINT32_MAX in *.
  cbn [str2uint32_loop]. rewrite Hc. change (chr "0") with 48.
  change (chr "9") with 57. change (UINT32_MAX / 10) with 429496729.
  replace (429496729 <? res) with false by (symmetry; apply Z.ltb_ge; lia).
  replace (chr a <? 48) with false by (symmetry; apply Z.ltb_ge; lia).
  replace (57 <? chr a) with false by (symmetry; apply Z.ltb_ge; lia).
  cbn [orb].
  assert (Hres : (if negb (res =? 0) then u64 (res * 10) else res) = 10 * res).
  { destruct (res =? 0) eqn:E; cbn [negb].
    - apply Z.eqb_eq in E. lia.
    - unfold u64. rewrite Z.mod_small; lia. }
  rewrite Hres. unfold UINT32_MAX, u32. rewrite (Z.mod_small (4294967295 - _)) by lia.
  replace (4294967295 - (chr a - 48) <? 10 * res) with false
    by (symmetry; apply Z.ltb_ge; lia).
  unfold u64. rewrite Z.mod_small by lia.
  apply IH; [assumption|lia|exact Hv].
Qed.

(** Every decimal numeral whose value fits 32 bits is read as its value:
    zero only when [allow_zero]. *)
Lemma parse_uint32_decimal allow_zero parser p1 :
  read_token_smt2 parser = Some (BZLA_DECIMAL_CONSTANT_TAG_SMT2, p1) ->
  decimal (c_string (token p1)) ->
  dec_value (c_string (token p1)) <= UINT32_MAX ->
  allow_zero = true \/ 0 < dec_value (c_string (token p1)) ->
  parse_uint32_smt2 allow_zero parser
  = Some (Some (dec_value (c_string (token p1))), p1).
Proof.
  intros Hr Hd Hv Hz. unfold parse_uint32_smt2, bind at 1. rewrite Hr.
  change (BZLA_DECIMAL_CONSTANT_TAG_SMT2 =? BZLA_INVALID_TAG_SMT2) with false.
  change (BZLA_DECIMAL_CONSTANT_TAG_SMT2 =? EOF) with false.
  rewrite Z.eqb_refl. cbn [negb]. unfold bind, get, str2uint32_smt2.
  rewrite (str2uint32_loop_value _ 0 Hd ltac:(lia) Hv).
  fold (dec_value (c_string (token p1))).
  pose proof (dec_step_mono _ 0 Hd ltac:(lia)) as H0.
  fold (dec_value (c_string (token p1))) in H0.
  replace (negb allow_zero && (dec_value (c_string (token p1)) =? 0)) with false.
  - unfold bind, assert_.
    replace (dec_value (c_string (token p1)) <=? UINT32_MAX) with true
      by (symmetry; now apply Z.leb_le).
    unfold ret, u32. unfold UINT32_MAX in Hv. rewrite Z.mod_small by lia.
    reflexivity.
  - symmetry. destruct Hz as [-> | Hz]; [reflexivity|].
    apply andb_false_iff. right. apply Z.eqb_neq. lia.
Qed.

(** *** Shifting an indexed operator *)

Lemma parametric_one_index parser p0 p1 item_cur tag node msg k :
  (2 <= length (work parser))%nat ->
  check_open_term_indexed node parser = Some (1, p0) ->
  (1 <= item_cur)%nat -> tag = s32 (node_tag node) ->
  parse_uint32_smt2 true p0 = Some (Some k, p1) ->
  parse_open_term_indexed_parametric item_cur tag 1 node msg parser
  = close_indexed msg
      (shifted item_cur
         (fun item => set_item_u (ItemNode node)
                        (set_item_tag tag (set_item_idx0 k item))) p1).
Proof.
  intros Hw Hc Hi Ht Hp.
  unfold parse_open_term_indexed_parametric, bind at 1 2, get at 1, assert_ at 1.
  replace ((1 <? 1) || (2 <=? length (work parser))%nat) with true
    by (symmetry; apply orb_true_iff; right; now apply Nat.leb_le).
  unfold bind at 1. rewrite Hc. cbn [Z.eqb]. unfold bind at 1, assert_ at 1.
  replace (1 <=? item_cur)%nat with true by (symmetry; now apply Nat.leb_le).
  unfold bind at 1, assert_ at 1.
  replace (tag =? s32 (node_tag node)) with true
    by (symmetry; now apply Z.eqb_eq).
  cbn [Z.eqb Pos.eqb]. unfold bind at 1 2. rewrite Hp.
  unfold bind at 1, update_item at 1, modify at 1, ret at 1.
  cbn [negb]. unfold bind at 1, update_item at 1, modify at 1.
  unfold bind at 1, modify at 1.
  unfold close_indexed, shifted. cbn [work set_work].
  rewrite list_alter_alter_eq. now destruct p1.
Qed.

Lemma parametric_two_indices parser p0 p1 p2 item_cur tag node msg idx0 idx1 :
  check_open_term_indexed node parser = Some (1, p0) ->
  (1 <= item_cur)%nat -> tag = s32 (node_tag node) ->
  parse_uint32_smt2 true p0 = Some (Some idx0, p1) ->
  parse_uint32_smt2 true
    (set_work (alter (set_item_idx0 idx0) (item_cur - 1)%nat (work p1)) p1)
  = Some (Some idx1, p2) ->
  parse_open_term_indexed_parametric item_cur tag 2 node msg parser
  = if (tag =? BZLA_BV_EXTRACT_TAG_SMT2) && (idx0 <? idx1) then
      (run perr_smt2
             ("first parameter '" +:+ fmt_u idx0
              +:+ "' of '(_ extract' smaller than second '" +:+ fmt_u idx1
              +:+ "'");
       ret 0)
        (set_perrcoo (coo p1)
           (set_work (alter (set_item_idx1 idx1) (item_cur - 1)%nat (work p2)) p2))
    else
      close_indexed msg
        (shifted item_cur
           (fun item => set_item_u (ItemNode node)
                          (set_item_tag tag (set_item_idx1 idx1 item))) p2).
Proof.
  intros Hc Hi Ht Hp1 Hp2.
  unfold parse_open_term_indexed_parametric, bind at 1 2, get at 1, assert_ at 1.
  cbn [Z.ltb Z.compare Pos.compare Pos.compare_cont orb].
  unfold bind at 1. rewrite Hc. cbn [Z.eqb]. unfold bind at 1, assert_ at 1.
  replace (1 <=? item_cur)%nat with true by (symmetry; now apply Nat.leb_le).
  unfold bind at 1, assert_ at 1.
  replace (tag =? s32 (node_tag node)) with true
    by (symmetry; now apply Z.eqb_eq).
  cbn [Z.eqb Pos.eqb]. unfold bind at 1 2, assert_ at 1. unfold bind at 1.
  rewrite Hp1. unfold bind at 1, update_item at 1, modify at 1.
  unfold bind at 1, get at 1. unfold bind at 1.
  cbn [coo set_work]. rewrite Hp2.
  unfold bind at 1, update_item at 1, modify at 1.
  destruct ((tag =? BZLA_BV_EXTRACT_TAG_SMT2) && (idx0 <? idx1)).
  - unfold bind at 1, modify at 1. unfold bind at 1 3.
    destruct (perr_smt2 _ _) as [[[] ?]|] eqn:E; [|discriminate E].
    unfold ret at 1 2. cbn [negb]. unfold perr_smt2, modify in E.
    injection E as <-. reflexivity.
  - unfold ret at 1. cbn [negb].
    unfold bind at 1, update_item at 1, modify at 1.
    unfold bind at 1, modify at 1.
    unfold close_indexed, shifted. cbn [work set_work].
    rewrite list_alter_alter_eq. now destruct p2.
Qed.

(** *** Closing a rotate or an extract *)

Lemma close_term_rotate parser stack lpar op arg t node :
  term_open parser stack lpar op [arg] [t] ->
  item_tag op = BZLA_BV_ROTATE_LEFT_TAG_SMT2
  \/ item_tag op = BZLA_BV_ROTATE_RIGHT_TAG_SMT2 ->
  item_u op = ItemNode node ->
  boolector_is_array t = false -> boolector_is_fun t = false ->
  0 < boolector_bv_get_width t ->
  exists p',
    close_term close_term_other parser = Some (1, p')
    /\ term_closed parser p' stack lpar
         ((if item_tag op =? BZLA_BV_ROTATE_LEFT_TAG_SMT2
           then boolector_roli else boolector_rori)
            t (item_num op mod boolector_bv_get_width t)).
Proof.
  intros Hopen Htag Hnode Ha Hf Hw.
  pose proof (fun f => close_term_rotate_bv_fun_spec _ _ _ _ _ _ _ f
                         Hopen Htag Hnode Ha Hf Hw) as Hrot.
  pose proof (operands_are_expressions _ _ _ _ _ _ Hopen) as Hops.
  pose proof (to_open _ _ _ _ _ _ Hopen) as Ho.
  destruct Htag as [Htag|Htag].
  - enter_close_term Hopen Htag.
    eval_tag_tests BZLA_BV_ROTATE_LEFT_TAG_SMT2. cbn [negb andb orb]. cbv beta iota.
    unfold bind at 1. rewrite Hops. cbn [negb]. cbv beta iota.
    change (Z.of_nat (length [t])) with 1.
    unfold bind at 1 2. rewrite Hrot. unfold ret at 1. cbn [Z.eqb negb].
    unfold bind, assert_, modify, ret.
    replace (0 <? open parser) with true by (symmetry; now apply Z.ltb_lt).
    eexists. split; [reflexivity|]. repeat split.
  - enter_close_term Hopen Htag.
    eval_tag_tests BZLA_BV_ROTATE_RIGHT_TAG_SMT2. cbn [negb andb orb]. cbv beta iota.
    unfold bind at 1. rewrite Hops. cbn [negb]. cbv beta iota.
    change (Z.of_nat (length [t])) with 1.
    unfold bind at 1 2. rewrite Hrot. unfold ret at 1. cbn [Z.eqb negb].
    unfold bind, assert_, modify, ret.
    replace (0 <? open parser) with true by (symmetry; now apply Z.ltb_lt).
    eexists. split; [reflexivity|]. repeat split.
Qed.

Lemma close_term_extract parser stack lpar op arg t node :
  term_open parser stack lpar op [arg] [t] ->
  item_tag op = BZLA_BV_EXTRACT_TAG_SMT2 ->
  item_u op = ItemNode node ->
  boolector_is_array t = false -> boolector_is_fun t = false ->
  0 <= item_idx0 op < 2 ^ 32 ->
  exists p',
    if boolector_bv_get_width t <=? item_idx0 op then
      close_term close_term_other parser = Some (0, p')
      /\ reports parser p'
           ("first (high) 'extract' parameter " +:+ fmt_u (item_idx0 op)
            +:+ " too large for bit-vector argument of bit-width "
            +:+ fmt_u (boolector_bv_get_width t))
    else
      close_term close_term_other parser = Some (1, p')
      /\ term_closed parser p' stack lpar
           (boolector_bv_slice t (item_idx0 op) (item_idx1 op)).
Proof.
  intros Hopen Htag Hnode Ha Hf Hhi.
  pose proof (operands_are_expressions _ _ _ _ _ _ Hopen) as Hops.
  pose proof (to_open _ _ _ _ _ _ Hopen) as Ho.
  pose proof (check_nargs_exact _ _ _ _ _ [t] node Hopen Hnode) as Hc1.
  pose proof (check_not_array_or_uf_args_ok _ _ _ _ _ [t] Hopen
                ltac:(constructor; [now split|constructor])) as Hc2.
  pose proof (exp_at_arg _ _ _ _ _ _ Hopen 0 t eq_refl) as He1.
  pose proof (fun e => release_exp_and_overwrite_open _ _ _ _ _ [t] Hopen e) as Hr.
  change (Z.of_nat (length [t])) with 1 in *. change (Z.of_nat 1) with 1 in *.
  destruct (boolector_bv_get_width t <=? item_idx0 op) eqn:Ew;
    enter_close_term Hopen Htag;
    eval_tag_tests BZLA_BV_EXTRACT_TAG_SMT2; cbn [negb andb orb]; cbv beta iota;
    unfold bind at 1; change (Z.of_nat (length [t])) with 1; rewrite Hops;
    cbn [negb]; cbv beta iota;
    unfold bind at 1 2; rewrite Hc1; cbn [negb]; unfold bind at 1; rewrite Hc2;
    cbn [negb]; unfold bind at 1; rewrite He1;
    unfold u32; rewrite (Z.mod_small (item_idx0 op)) by lia; rewrite Ew.
  - unfold bind, modify, perr_smt2, modify, ret. cbn [negb error set_perrcoo].
    eexists. split; [reflexivity|]. intros He. rewrite He. reflexivity.
  - unfold bind at 1. rewrite Hr. unfold ret at 1. cbn [negb].
    unfold bind, assert_, modify, ret.
    replace (0 <? open parser) with true by (symmetry; now apply Z.ltb_lt).
    eexists. split; [reflexivity|]. repeat split.
Qed.

(** C4. Parsing [((_ extract hi lo) t)].  When the operator is shifted,
    once both indices are read: if [hi < lo] the parser reports that the
    first parameter is smaller than the second, otherwise the operator item
    gets the two indices and the parser goes on with the closing
    parenthesis.  When the term is closed on a bit-vector argument [t]
    that is neither an array nor a function: if the width of [t] is at
    most [hi] the parser reports that the first (high) parameter is too
    large for the bit-width, otherwise the term becomes the slice of [t]
    from [hi] down to [lo]. *)
Theorem extract_index_checks
    parser0 p0 p1 p2 item_cur node msg hi lo
    parser stack lpar op arg t node' :
  (check_open_term_indexed node parser0 = Some (1, p0) ->
   (1 <= item_cur)%nat ->
   BZLA_BV_EXTRACT_TAG_SMT2 = s32 (node_tag node) ->
   parse_uint32_smt2 true p0 = Some (Some hi, p1) ->
   parse_uint32_smt2 true
     (set_work (alter (set_item_idx0 hi) (item_cur - 1)%nat (work p1)) p1)
   = Some (Some lo, p2) ->
   (hi < lo ->
    exists p',
      parse_open_term_indexed_parametric item_cur BZLA_BV_EXTRACT_TAG_SMT2 2
        node msg parser0 = Some (0, p')
      /\ reports p2 p'
           ("first parameter '" +:+ fmt_u hi
            +:+ "' of '(_ extract' smaller than second '" +:+ fmt_u lo +:+ "'"))
   /\ (lo <= hi ->
       parse_open_term_indexed_parametric item_cur BZLA_BV_EXTRACT_TAG_SMT2 2
         node msg parser0
       = close_indexed msg
           (shifted item_cur
              (fun item => set_item_u (ItemNode node)
                             (set_item_tag BZLA_BV_EXTRACT_TAG_SMT2
                                (set_item_idx1 lo item))) p2)))
  /\ (term_open parser stack lpar op [arg] [t] ->
      item_tag op = BZLA_BV_EXTRACT_TAG_SMT2 ->
      item_u op = ItemNode node' ->
      boolector_is_array t = false -> boolector_is_fun t = false ->
      0 <= item_idx0 op < 2 ^ 32 ->
      (boolector_bv_get_width t <= item_idx0 op ->
       exists p',
         close_term close_term_other parser = Some (0, p')
         /\ reports parser p'
              ("first (high) 'extract' parameter " +:+ fmt_u (item_idx0 op)
               +:+ " too large for bit-vector argument of bit-width "
               +:+ fmt_u (boolector_bv_get_width t)))
      /\ (item_idx0 op < boolector_bv_get_width t ->
          exists p',
            close_term close_term_other parser = Some (1, p')
            /\ term_closed parser p' stack lpar
                 (boolector_bv_slice t (item_idx0 op) (item_idx1 op)))).
Proof.
  split.
  - intros Hc Hi Ht Hp1 Hp2.
    pose proof (parametric_two_indices _ _ _ _ _ _ _ msg _ _ Hc Hi Ht Hp1 Hp2) as Hs.
    rewrite Z.eqb_refl in Hs. cbn [andb] in Hs. split; intros Hlt.
    + rewrite Hs. replace (hi <? lo) with true by (symmetry; now apply Z.ltb_lt).
      unfold bind, perr_smt2, modify, ret. eexists. split; [reflexivity|].
      intros He. cbn [error set_perrcoo set_work]. rewrite He. reflexivity.
    + rewrite Hs. replace (hi <? lo) with false by (symmetry; now apply Z.ltb_ge).
      reflexivity.
  - intros Hopen Htag Hnode Ha Hf Hhi.
    destruct (close_term_extract _ _ _ _ _ _ _ Hopen Htag Hnode Ha Hf Hhi) as (p' & Hp).
    split; intros Hw.
    + replace (boolector_bv_get_width t <=? item_idx0 op) with true in Hp
        by (symmetry; now apply Z.leb_le).
      now exists p'.
    + replace (boolector_bv_get_width t <=? item_idx0 op) with false in Hp
        by (symmetry; now apply Z.leb_gt).
      now exists p'.
Qed.

(** C10. Parsing [((_ rotate_left k) t)] and [((_ rotate_right k) t)].
    When the operator is shifted, every decimal numeral [k] whose value
    fits 32 bits is accepted and stored in the operator item, without any
    comparison with a width.  When the term is closed on a bit-vector
    argument [t] of width [w > 0] that is neither an array nor a function,
    the term becomes the rotation of [t] by [k mod w]. *)
Theorem rotate_index_mod_width
    parser0 p0 p1 item_cur tag node msg
    parser stack lpar op arg t node' :
  ((2 <= length (work parser0))%nat ->
   check_open_term_indexed node parser0 = Some (1, p0) ->
   (1 <= item_cur)%nat -> tag = s32 (node_tag node) ->
   read_token_smt2 p0 = Some (BZLA_DECIMAL_CONSTANT_TAG_SMT2, p1) ->
   decimal (c_string (token p1)) ->
   dec_value (c_string (token p1)) <= UINT32_MAX ->
   parse_open_term_indexed_parametric item_cur tag 1 node msg parser0
   = close_indexed msg
       (shifted item_cur
          (fun item => set_item_u (ItemNode node)
                         (set_item_tag tag
                            (set_item_idx0 (dec_value (c_string (token p1)))
                               item))) p1))
  /\ (term_open parser stack lpar op [arg] [t] ->
      item_tag op = BZLA_BV_ROTATE_LEFT_TAG_SMT2
      \/ item_tag op = BZLA_BV_ROTATE_RIGHT_TAG_SMT2 ->
      item_u op = ItemNode node' ->
      boolector_is_array t = false -> boolector_is_fun t = false ->
      0 < boolector_bv_get_width t ->
      exists p',
        close_term close_term_other parser = Some (1, p')
        /\ term_closed parser p' stack lpar
             ((if item_tag op =? BZLA_BV_ROTATE_LEFT_TAG_SMT2
               then boolector_roli else boolector_rori)
                t (item_num op mod boolector_bv_get_width t))).
Proof.
  split.
  - intros Hw Hc Hi Ht Hr Hd Hv.
    apply (parametric_one_index _ p0); try assumption.
    apply parse_uint32_decimal; try assumption. now left.
  - apply close_term_rotate.
Qed.

End Indexed.

(** ** Bit-vector constants [(_ bvK n)] *)

Lemma list_ascii_append (a b : string) :
  list_ascii_of_string (a +:+ b) = list_ascii_of_string a ++ list_ascii_of_string b.
Proof.
  induction a as [|c a IH]; [now rewrite append_nil_l|].
  rewrite append_cons. cbn [list_ascii_of_string app]. now rewrite IH.
Qed.

Lemma bin_value_bin_str_of_pos (p : positive) :
  forall acc v,
    fold_left (fun v a => 2 * v + (chr a - chr "0"))
      (list_ascii_of_string (bin_str_of_pos p acc)) v
    = fold_left (fun v a => 2 * v + (chr a - chr "0"))
        (list_ascii_of_string acc) (v * 2 ^ Z.pos (Pos.size p) + Z.pos p).
Proof.
  induction p as [p IH|p IH|]; intros acc v; cbn [bin_str_of_pos].
  - rewrite IH. cbn [list_ascii_of_string fold_left]. f_equal.
    change (chr "1" - chr "0") with 1. cbn [Pos.size].
    rewrite Pos2Z.inj_succ, Z.pow_succ_r by lia. lia.
  - rewrite IH. cbn [list_ascii_of_string fold_left]. f_equal.
    change (chr "0" - chr "0") with 0. cbn [Pos.size].
    rewrite Pos2Z.inj_succ, Z.pow_succ_r by lia. lia.
  - cbn [list_ascii_of_string fold_left]. f_equal.
    change (chr "1" - chr "0") with 1. cbn [Pos.size].
    change (2 ^ 1) with 2. lia.
Qed.

Lemma strlen_bin_str_of_pos (p : positive) :
  forall acc, strlen (bin_str_of_pos p acc) = Z.pos (Pos.size p) + strlen acc.
Proof.
  induction p as [p IH|p IH|]; intros acc; cbn [bin_str_of_pos].
  - rewrite IH, strlen_cons. cbn [Pos.size]. lia.
  - rewrite IH, strlen_cons. cbn [Pos.size]. lia.
  - rewrite strlen_cons. cbn [Pos.size]. lia.
Qed.

Lemma pos_size_log2 (p : positive) : Z.pos (Pos.size p) = Z.log2 (Z.pos p) + 1.
Proof. destruct p; cbn [Pos.size Z.log2]; lia. Qed.

(** The binary digits of [K >= 0] without leading zeros have the value [K]
    and there are [log2 K + 1] of them, none for zero. *)
Lemma dec_to_bin_str_value (s : string) :
  0 <= dec_value s ->
  bin_value (dec_to_bin_str s) = dec_value s
  /\ strlen (dec_to_bin_str s)
     = (if dec_value s =? 0 then 0 else Z.log2 (dec_value s) + 1).
Proof.
  intros H0. unfold dec_to_bin_str, bin_value.
  destruct (dec_value s) as [|p|p] eqn:E; [now split| |lia].
  rewrite bin_value_bin_str_of_pos, strlen_bin_str_of_pos, pos_size_log2.
  cbn [list_ascii_of_string fold_left]. change (strlen EmptyString) with 0.
  split; [lia|]. cbn [Z.eqb]. lia.
Qed.

Lemma strlen_bzla_bv_new (n : Z) : 0 <= n -> strlen (bzla_bv_new n) = n.
Proof.
  intros Hn. unfold bzla_bv_new, strlen.
  rewrite <- (Z2Nat.id n) at 2 by lia. f_equal.
  induction (Z.to_nat n) as [|k IH]; [reflexivity|].
  cbn [replicate string_of_list_ascii String.length]. now rewrite IH.
Qed.

Lemma bin_value_uext (bits : string) (n : Z) :
  bin_value (bzla_bv_uext bits n) = bin_value bits.
Proof.
  unfold bzla_bv_uext, bzla_bv_new, bin_value. rewrite list_ascii_append.
  rewrite fold_left_app. f_equal.
  rewrite list_ascii_of_string_of_list_ascii.
  induction (Z.to_nat n) as [|k IH]; [reflexivity|].
  cbn [replicate fold_left]. exact IH.
Qed.

Lemma dec_value_nonneg (s : string) : decimal s -> 0 <= dec_value s.
Proof. intros Hd. unfold dec_value. now apply dec_step_mono. Qed.

Section BvConstant.
Context `{Backend}.
Variable parse_open_close_term_indexed_fp_special_const
  : nat -> Z -> BzlaSMT2Node -> string -> M Z.

Lemma prev_item_was_lpar_top parser stack lpar top :
  work parser = stack ++ [lpar; top] ->
  item_tag lpar = BZLA_LPAR_TAG_SMT2 ->
  prev_item_was_lpar_smt2 parser = Some (true, parser).
Proof.
  intros Hw Hl. unfold prev_item_was_lpar_smt2, bind, get.
  rewrite Hw, length_app. cbn [length].
  replace (2 <=? length stack + 2)%nat with true
    by (symmetry; apply Nat.leb_le; lia).
  replace (length stack + 2 - 2)%nat with (length stack) by lia.
  rewrite list_lookup_middle by reflexivity. now rewrite Hl, Z.eqb_refl.
Qed.

Lemma is_bvconst_str_decimal (decstr : string) :
  decimal decstr -> decstr <> EmptyString ->
  is_bvconst_str_smt2 ("bv" +:+ decstr) = true.
Proof.
  intros Hd Hne. destruct decstr as [|a rest]; [congruence|].
  unfold decimal in Hd. cbn [list_ascii_of_string] in Hd.
  inversion Hd as [|? ? Ha Hrest]; subst.
  rewrite !append_cons, append_nil_l. unfold is_bvconst_str_smt2.
  change (str_at (String "b" (String "v" (String a rest))) 0) with (chr "b").
  change (str_at (String "b" (String "v" (String a rest))) 1) with (chr "v").
  change (str_at (String "b" (String "v" (String a rest))) 2) with (c_char a).
  change (str_offset (String "b" (String "v" (String a rest))) 3) with rest.
  rewrite !Z.eqb_refl, Ha. cbn [negb orb].
  apply forallb_forall. intros x Hx.
  now apply (proj1 (Forall_forall _ _) Hrest).
Qed.

(** C5. Parsing [(_ bvK n)] once the symbol [bvK] and the width [n] are
    read, for a solver whose decimal-to-binary conversion yields the binary
    digits of [K] without leading zeros and whose constants have the width
    of their digit string: when [K >= 2^n], that is when [K] needs more
    than [n] binary digits, the parser reports an error; when [K < 2^n] the
    open parenthesis is replaced by a constant of width [n] whose value is
    [K], either the constant of an [n]-digit string (the digits of [K]
    after as many zeros as are missing) or, for [K = 0], the zero of the
    sort of width [n]. *)
Theorem bv_constant_value parser p1 p2 stack lpar us decstr n :
  work parser = stack ++ [lpar; us] ->
  item_tag lpar = BZLA_LPAR_TAG_SMT2 ->
  read_token_smt2 parser = Some (BZLA_SYMBOL_TAG_SMT2, p1) ->
  c_string (token p1) = "bv" +:+ decstr ->
  decimal decstr -> decstr <> EmptyString ->
  parse_uint32_smt2 false p1 = Some (Some n, p2) ->
  0 < n < 2 ^ 32 ->
  work p2 = work parser -> 0 < open p2 ->
  bzla_util_dec_to_bin_str decstr = dec_to_bin_str decstr ->
  (forall bits, boolector_bv_get_width (boolector_const bits) = strlen bits) ->
  boolector_bv_get_width (boolector_zero (boolector_bv_sort n)) = n ->
  Z.log2 (dec_value decstr) + 1 < 2 ^ 32 ->
  (2 ^ n <= dec_value decstr ->
   exists p',
     parse_open_term_indexed parse_open_close_term_indexed_fp_special_const
       (S (length stack)) parser = Some (0, p')
     /\ reports p2 p'
          ("decimal constant '" +:+ decstr +:+ "' needs "
           +:+ fmt_d (s32 (Z.log2 (dec_value decstr) + 1))
           +:+ " bits which exceeds bit-width '" +:+ fmt_d (s32 n) +:+ "'"))
  /\ (dec_value decstr < 2 ^ n ->
      exists p3 exp,
        parse_open_term_indexed parse_open_close_term_indexed_fp_special_const
          (S (length stack)) parser
        = (do ok <- read_rpar_smt2 (Some " to close '(_ bv..'");
           if ok =? 0 then ret 0 else ret 1) p3
        /\ term_closed p2 p3 stack lpar exp
        /\ ((exists bits,
               exp = boolector_const bits /\ strlen bits = n
               /\ bin_value bits = dec_value decstr)
            \/ (dec_value decstr = 0
                /\ exp = boolector_zero (boolector_bv_sort n)))).
Proof.
  intros Hw Hl Hr Htok Hd Hne Hp Hn Hw2 Ho Hbin Hcw Hzw Hk.
  pose proof (dec_value_nonneg _ Hd) as H0.
  destruct (dec_to_bin_str_value decstr H0) as [Hval Hlen].
  assert (Hoff : str_offset ("bv" +:+ decstr) 2 = decstr)
    by (now rewrite !append_cons, append_nil_l).
  assert (Hlen32 : u32 (strlen (dec_to_bin_str decstr))
                   = strlen (dec_to_bin_str decstr)).
  { unfold u32. apply Z.mod_small. rewrite Hlen.
    destruct (dec_value decstr =? 0) eqn:E; [lia|]. apply Z.eqb_neq in E.
    pose proof (Z.log2_nonneg (dec_value decstr)). lia. }
  split; intros Hcase;
    unfold parse_open_term_indexed, bind at 1;
    rewrite (prev_item_was_lpar_top _ _ _ _ Hw Hl); cbn [negb];
    unfold bind at 1; rewrite Hr; unfold bind at 1, get at 1;
    eval_tag_tests BZLA_SYMBOL_TAG_SMT2; cbv beta iota zeta;
    rewrite Htok, (is_bvconst_str_decimal _ Hd Hne); cbn [andb];
    rewrite Hoff, Hbin; unfold bind at 1; rewrite Hp; unfold bind at 1;
    rewrite Hlen32.
  - assert (Hpos : 0 < dec_value decstr).
    { assert (0 < 2 ^ n) by (apply Z.pow_pos_nonneg; lia). lia. }
    replace (dec_value decstr =? 0) with false in Hlen
      by (symmetry; apply Z.eqb_neq; lia).
    assert (n <= Z.log2 (dec_value decstr)) by (apply Z.log2_le_pow2; lia).
    replace (n <? strlen (dec_to_bin_str decstr)) with true
      by (symmetry; apply Z.ltb_lt; lia).
    rewrite Hlen. unfold bind, modify, perr_smt2, modify, ret.
    eexists. split; [reflexivity|]. intros He.
    cbn [error set_perrcoo]. rewrite He. reflexivity.
  - assert (Hle : strlen (dec_to_bin_str decstr) <= n).
    { rewrite Hlen. destruct (dec_value decstr =? 0) eqn:E; [lia|].
      apply Z.eqb_neq in E.
      assert (Z.log2 (dec_value decstr) < n); [|lia].
      apply Z.log2_lt_pow2; lia. }
    replace (n <? strlen (dec_to_bin_str decstr)) with false
      by (symmetry; apply Z.ltb_ge; lia).
    match goal with |- context [match ?e p2 with _ => _ end] =>
      assert (Hexp : exists exp,
                e p2 = Some (Some exp, p2)
                /\ boolector_bv_get_width exp = n
                /\ ((exists bits,
                       exp = boolector_const bits /\ strlen bits = n
                       /\ bin_value bits = dec_value decstr)
                    \/ (dec_value decstr = 0
                        /\ exp = boolector_zero (boolector_bv_sort n))))
    end.
    { destruct (strlen (dec_to_bin_str decstr) =? n) eqn:E1.
      - apply Z.eqb_eq in E1. eexists. split; [reflexivity|].
        split; [now rewrite Hcw|]. left. eexists. now repeat split.
      - apply Z.eqb_neq in E1.
        destruct (strlen (dec_to_bin_str decstr) =? 0) eqn:E2.
        + apply Z.eqb_eq in E2. eexists. split; [reflexivity|].
          split; [exact Hzw|]. right. split; [|reflexivity].
          rewrite E2 in Hlen. destruct (dec_value decstr =? 0) eqn:E3.
          * now apply Z.eqb_eq in E3.
          * pose proof (Z.log2_nonneg (dec_value decstr)). lia.
        + apply Z.eqb_neq in E2.
          pose proof (strlen_nonneg (dec_to_bin_str decstr)) as Hnn.
          replace (strcmp (dec_to_bin_str decstr) EmptyString =? 0) with false.
          2:{ symmetry. apply Z.eqb_neq. intros Hs. apply strcmp_eq in Hs.
              rewrite Hs in E2. now apply E2. }
          unfold u32. rewrite (Z.mod_small (n - _)) by lia.
          eexists. split; [reflexivity|]. unfold bzla_bv_to_char, bzla_bv_char_to_bv.
          assert (Hl2 : strlen (bzla_bv_uext (dec_to_bin_str decstr)
                                  (n - strlen (dec_to_bin_str decstr))) = n).
          { unfold bzla_bv_uext. rewrite strlen_append, strlen_bzla_bv_new by lia.
            lia. }
          split; [now rewrite Hcw|]. left. eexists. split; [reflexivity|].
          split; [exact Hl2|]. now rewrite bin_value_uext. }
    destruct Hexp as (exp & -> & Hwexp & Hprop).
    unfold bind at 1, assert_ at 1. rewrite Hwexp, Z.eqb_refl.
    unfold bind at 1, assert_ at 1. cbn [Nat.ltb Nat.leb].
    unfold bind at 1, modify at 1. unfold bind at 1.
    replace (S (length stack) - 1)%nat with (length stack) by lia.
    assert (Hrl : removelast (work p2) = stack ++ [lpar]).
    { rewrite Hw2, Hw. change [lpar; us] with ([lpar] ++ [us]).
      rewrite app_assoc. apply removelast_last. }
    rewrite (item_at_lookup _ _ lpar)
      by (cbn [work set_work]; rewrite Hrl; now apply list_lookup_middle).
    unfold bind at 1, assert_ at 1. rewrite Hl, Z.eqb_refl.
    unfold bind at 1, get at 1. unfold bind at 1, assert_ at 1.
    cbn [open set_work].
    replace (0 <? open p2) with true by (symmetry; now apply Z.ltb_lt).
    unfold bind at 1, modify at 1. unfold bind at 1, update_item, modify.
    eexists. exists exp. split; [reflexivity|]. split; [|exact Hprop].
    unfold term_closed. cbn [work set_work set_open open error].
    rewrite Hrl. replace (length stack) with (length stack + 0)%nat at 1 by lia.
    rewrite alter_app_r. repeat split.
Qed.

End BvConstant.

(** ** Rotation by a term: [ext_rotate_left] and [ext_rotate_right] *)

Section ExtRotate.
Context `{Backend}.
Variable close_term_other : Z -> nat -> nat -> Z -> M bool.

(** C8. Closing [(ext_rotate_left t s)] or [(ext_rotate_right t s)] on
    two arguments that are neither arrays nor functions.  When [s] is a
    constant whose value [v] is below the width of [t], the term becomes
    the rotation of [t] by [v], which is [v mod width].  When [s] is a
    constant whose value is not below the width of [t], the assertion of
    [translate_ext_rotate_smt2] fails: no reduction modulo the width takes
    place.  When [s] is not a constant, the error message is built from the
    [node] member of an item whose [exp] member was the one written. *)
Theorem ext_rotate_shift_below_width parser stack lpar op a1 a2 t s node :
  term_open parser stack lpar op [a1; a2] [t; s] ->
  item_tag op = BZLA_BV_EXT_ROTATE_LEFT_TAG_SMT2
  \/ item_tag op = BZLA_BV_EXT_ROTATE_RIGHT_TAG_SMT2 ->
  item_u op = ItemNode node ->
  boolector_is_array t = false -> boolector_is_fun t = false ->
  boolector_is_array s = false -> boolector_is_fun s = false ->
  (boolector_is_const s = true ->
   u32 (bzla_bv_to_uint64 (bzla_bv_char_to_bv (boolector_get_bits s)))
     < boolector_bv_get_width t ->
   exists p',
     close_term close_term_other parser = Some (1, p')
     /\ term_closed parser p' stack lpar
          ((if item_tag op =? BZLA_BV_EXT_ROTATE_LEFT_TAG_SMT2
            then boolector_roli else boolector_rori)
             t (u32 (bzla_bv_to_uint64
                       (bzla_bv_char_to_bv (boolector_get_bits s)))
                mod boolector_bv_get_width t)))
  /\ (boolector_is_const s = true ->
      boolector_bv_get_width t
        <= u32 (bzla_bv_to_uint64 (bzla_bv_char_to_bv (boolector_get_bits s))) ->
      close_term close_term_other parser = None)
  /\ (boolector_is_const s = false ->
      close_term close_term_other parser = None).
Proof.
  intros Hopen Htag Hnode Hat Hft Has Hfs.
  pose proof (operands_are_expressions _ _ _ _ _ _ Hopen) as Hops.
  pose proof (to_open _ _ _ _ _ _ Hopen) as Ho.
  pose proof (check_nargs_exact _ _ _ _ _ [t; s] node Hopen Hnode) as Hc1.
  pose proof (check_not_array_or_uf_args_ok _ _ _ _ _ [t; s] Hopen
                ltac:(repeat constructor; assumption)) as Hc2.
  pose proof (exp_at_arg _ _ _ _ _ _ Hopen 0 t eq_refl) as He1.
  destruct (arg_lookup _ _ _ _ _ _ Hopen 1 s eq_refl) as (item2 & Hl2 & _ & Hu2).
  pose proof (fun e => release_exp_and_overwrite_open _ _ _ _ _ [t; s] Hopen e) as Hr.
  change (Z.of_nat (length [t; s])) with 2 in *.
  change (Z.of_nat 1) with 1 in *. change (Z.of_nat 2) with 2 in *.
  set (v := u32 (bzla_bv_to_uint64 (bzla_bv_char_to_bv (boolector_get_bits s)))).
  assert (Hv0 : 0 <= v) by (apply Z.mod_pos_bound; lia).
  assert (Hstart : forall tag,
    item_tag op = tag ->
    tag = BZLA_BV_EXT_ROTATE_LEFT_TAG_SMT2
    \/ tag = BZLA_BV_EXT_ROTATE_RIGHT_TAG_SMT2 ->
    close_term close_term_other parser
    = (do continue <-
         (if negb (boolector_is_const s) then
            run modify (set_perrcoo (item_coo item2));
            do node2 <- item_node item2;
            run perr_smt2
              ("second argument '" +:+ node_name node2 +:+ "' of ext_rotate_"
               +:+ (if tag =? BZLA_BV_EXT_ROTATE_LEFT_TAG_SMT2
                    then "left" else "right")
               +:+ "is not a bit vector constant");
            ret false
          else
            do e1 <- exp_at (idx (S (length stack)) 1);
            do exp <-
              translate_ext_rotate_smt2 e1 s
                (tag =? BZLA_BV_EXT_ROTATE_LEFT_TAG_SMT2);
            run release_exp_and_overwrite (length stack) (S (length stack)) 2 exp;
            ret true);
       if negb continue then ret 0 else
       run assert_ (0 <? open parser);
       run modify (set_open (s32 (open parser - 1)));
       ret 1) parser).
  { intros tag Et [-> | ->].
    - enter_close_term Hopen Et.
      eval_tag_tests BZLA_BV_EXT_ROTATE_LEFT_TAG_SMT2.
      cbn [negb andb orb]. cbv beta iota.
      change (Z.of_nat (length [t; s])) with 2.
      unfold bind at 1. rewrite Hops. cbn [negb]. cbv beta iota.
      unfold bind at 1 2. rewrite Hc1. cbn [negb]. unfold bind at 1 2.
      rewrite Hc2. cbn [negb]. unfold bind at 1 2.
      rewrite (item_at_lookup _ _ _ Hl2). unfold bind at 1 2.
      unfold item_exp at 1. rewrite Hu2. reflexivity.
    - enter_close_term Hopen Et.
      eval_tag_tests BZLA_BV_EXT_ROTATE_RIGHT_TAG_SMT2.
      cbn [negb andb orb]. cbv beta iota.
      change (Z.of_nat (length [t; s])) with 2.
      unfold bind at 1. rewrite Hops. cbn [negb]. cbv beta iota.
      unfold bind at 1 2. rewrite Hc1. cbn [negb]. unfold bind at 1 2.
      rewrite Hc2. cbn [negb]. unfold bind at 1 2.
      rewrite (item_at_lookup _ _ _ Hl2). unfold bind at 1 2.
      unfold item_exp at 1. rewrite Hu2. reflexivity. }
  rewrite (Hstart _ eq_refl Htag). clear Hstart.
  split; [|split].
  - intros Hc Hlt. rewrite Hc. cbn [negb]. unfold bind at 1 2. rewrite He1.
    unfold bind at 1, translate_ext_rotate_smt2, bind at 1, assert_ at 1.
    rewrite Hc. unfold bind at 1, assert_ at 1. fold v.
    replace (v <? boolector_bv_get_width t) with true
      by (symmetry; now apply Z.ltb_lt).
    unfold ret at 1. unfold bind at 1. rewrite Hr. unfold ret at 1. cbn [negb].
    unfold bind, assert_, modify, ret.
    replace (0 <? open parser) with true by (symmetry; now apply Z.ltb_lt).
    eexists. split; [reflexivity|]. rewrite Z.mod_small by lia.
    destruct (item_tag op =? BZLA_BV_EXT_ROTATE_LEFT_TAG_SMT2); repeat split.
  - intros Hc Hge. rewrite Hc. cbn [negb]. unfold bind at 1 2. rewrite He1.
    unfold bind at 1, translate_ext_rotate_smt2, bind at 1, assert_ at 1.
    rewrite Hc. unfold bind at 1, assert_ at 1. fold v.
    replace (v <? boolector_bv_get_width t) with false
      by (symmetry; now apply Z.ltb_ge).
    reflexivity.
  - intros Hc. rewrite Hc. cbn [negb]. unfold bind at 1 2, modify at 1.
    unfold bind at 1, item_node. rewrite Hu2. reflexivity.
Qed.

End ExtRotate.

(** ** Frames: what the runs of a function leave alone *)

Section FrameRules.
Context `{Backend}.
Variable R : BzlaSMT2Parser -> BzlaSMT2Parser -> Prop.
Hypothesis R_refl : forall p, R p p.
Hypothesis R_trans : forall p q r, R p q -> R q r -> R p r.

Lemma preserves_ret {A} (a : A) : preserves R (ret a).
Proof. intros p v p' [= _ <-]. apply R_refl. Qed.

Lemma preserves_get : preserves R get.
Proof. intros p v p' [= _ <-]. apply R_refl. Qed.

Lemma preserves_assert b : preserves R (assert_ b).
Proof. intros p v p'. unfold assert_. destruct b; [|discriminate].
  intros [= _ <-]. apply R_refl. Qed.

Lemma preserves_undefined {A} : preserves R (@undefined _ A).
Proof. intros p v p'. discriminate. Qed.

Lemma preserves_modify f : (forall p, R p (f p)) -> preserves R (modify f).
Proof. intros Hf p v p' [= _ <-]. apply Hf. Qed.

Lemma preserves_bind {A B} (m : M A) (k : A -> M B) :
  preserves R m -> (forall a, preserves R (k a)) -> preserves R (bind m k).
Proof.
  intros Hm Hk p v p'. unfold bind.
  destruct (m p) as [[a q]|] eqn:E; [|discriminate].
  intros Hrun. exact (R_trans _ _ _ (Hm _ _ _ E) (Hk _ _ _ _ Hrun)).
Qed.

Lemma preserves_mforeach {A} (f : A -> M unit) (l : list A) :
  (forall a, preserves R (f a)) -> preserves R (mforeach l f).
Proof.
  intros Hf. induction l as [|a l IH]; intros p v p'.
  - rewrite mforeach_nil. intros [= _ <-]. apply R_refl.
  - rewrite mforeach_cons. destruct (f a p) as [[[] q]|] eqn:E; [|discriminate].
    intros Hrun. exact (R_trans _ _ _ (Hf _ _ _ _ E) (IH _ _ _ Hrun)).
Qed.

End FrameRules.

(** One step of a frame proof: [side] proves the condition of [modify]. *)
Ltac frame_step refl trans side :=
  match goal with
  | |- preserves _ (bind _ _) => apply (preserves_bind _ trans); [|intros ?]
  | |- preserves _ (ret _) => apply (preserves_ret _ refl)
  | |- preserves _ get => apply (preserves_get _ refl)
  | |- preserves _ (assert_ _) => apply (preserves_assert _ refl)
  | |- preserves _ undefined => apply preserves_undefined
  | |- preserves _ (modify _) => apply preserves_modify; intros ?; side
  | |- preserves _ (mforeach _ _) =>
      apply (preserves_mforeach _ refl trans); intros ?
  | |- preserves _ (if ?b then _ else _) => destruct b
  | |- preserves _ (match ?x with _ => _ end) => destruct x
  | |- preserves _ _ => assumption
  | |- preserves _ _ => solve [auto with frames]
  end.

Create HintDb frames.

Section LogicFrames.
Context `{Backend}.

Lemma keeps_logic_refl p : keeps_logic p p.
Proof. now repeat split. Qed.

Lemma keeps_logic_trans p q r : keeps_logic p q -> keeps_logic q r -> keeps_logic p r.
Proof.
  intros (H1 & H2 & H3) (H4 & H5 & H6).
  split; [congruence|]. split; [congruence|auto].
Qed.

End LogicFrames.

(** A [modify] that writes neither the result, nor the counters, nor the
    error. *)
Ltac keeps_logic_side :=
  split; [reflexivity|split; [reflexivity|intros Hne; exact Hne]].

Ltac keeps_logic_frame :=
  repeat (let refl := uconstr:(keeps_logic_refl) in
          let trans := uconstr:(keeps_logic_trans) in
          frame_step refl trans ltac:(keeps_logic_side)).

Section LogicFramesOfFunctions.
Context `{Backend}.

Lemma perr_smt2_keeps msg : preserves keeps_logic (perr_smt2 msg).
Proof.
  apply preserves_modify. intros p. split; [|split].
  - now destruct (error p).
  - now destruct (error p).
  - intros Hne. destruct (error p) eqn:E; [|contradiction].
    cbn [error]. rewrite E. discriminate.
Qed.
#[local] Hint Resolve perr_smt2_keeps : frames.

Lemma BZLA_MSG_keeps level text : preserves keeps_logic (BZLA_MSG level text).
Proof. unfold BZLA_MSG. keeps_logic_frame. Qed.
#[local] Hint Resolve BZLA_MSG_keeps : frames.

Lemma seconds_text_keeps : preserves keeps_logic seconds_text.
Proof. unfold seconds_text. keeps_logic_frame. Qed.
#[local] Hint Resolve seconds_text_keeps : frames.

Lemma getc_keeps : preserves keeps_logic getc.
Proof. unfold getc. keeps_logic_frame. Qed.
#[local] Hint Resolve getc_keeps : frames.

Lemma nextch_smt2_keeps : preserves keeps_logic nextch_smt2.
Proof. unfold nextch_smt2. keeps_logic_frame. Qed.
#[local] Hint Resolve nextch_smt2_keeps : frames.

Lemma savech_smt2_keeps ch : preserves keeps_logic (savech_smt2 ch).
Proof. unfold savech_smt2. cbv zeta. keeps_logic_frame. Qed.
#[local] Hint Resolve savech_smt2_keeps : frames.

Lemma cerr_smt2_keeps p ch s : preserves keeps_logic (cerr_smt2 p ch s).
Proof. unfold cerr_smt2. keeps_logic_frame. Qed.
#[local] Hint Resolve cerr_smt2_keeps : frames.

Lemma storech_smt2_keeps ch : preserves keeps_logic (storech_smt2 ch).
Proof. unfold storech_smt2. cbv zeta. keeps_logic_frame. Qed.
#[local] Hint Resolve storech_smt2_keeps : frames.

Lemma pushch_smt2_keeps ch : preserves keeps_logic (pushch_smt2 ch).
Proof. unfold pushch_smt2. keeps_logic_frame. Qed.
#[local] Hint Resolve pushch_smt2_keeps : frames.

Lemma read_while_keeps test fuel : preserves keeps_logic (read_while test fuel).
Proof.
  induction fuel as [|fuel IH]; cbn [read_while]; keeps_logic_frame.
Qed.
#[local] Hint Resolve read_while_keeps : frames.

Lemma skip_comment_keeps fuel : preserves keeps_logic (skip_comment fuel).
Proof.
  induction fuel as [|fuel IH]; cbn [skip_comment]; keeps_logic_frame.
Qed.
#[local] Hint Resolve skip_comment_keeps : frames.

Lemma read_token_restart_keeps fuel :
  preserves keeps_logic (read_token_restart fuel).
Proof.
  induction fuel as [|fuel IH]; cbn [read_token_restart]; keeps_logic_frame.
Qed.
#[local] Hint Resolve read_token_restart_keeps : frames.

Lemma new_node_smt2_keeps tag : preserves keeps_logic (new_node_smt2 tag).
Proof. unfold new_node_smt2. keeps_logic_frame. Qed.
#[local] Hint Resolve new_node_smt2_keeps : frames.

Lemma pop_chain_frame (c : list BzlaSMT2Node) :
  forall p, pop_chain c p = set_symbol (symbol (pop_chain c p)) p.
Proof.
  induction c as [|n c IH]; intros p; cbn [pop_chain].
  - symmetry. apply set_symbol_idem.
  - cbv zeta. rewrite IH at 1. unfold set_table. apply set_symbol_twice.
Qed.

Lemma enlarge_symbol_table_frame p :
  enlarge_symbol_table_smt2 p
  = set_symbol (symbol (enlarge_symbol_table_smt2 p)) p.
Proof.
  unfold enlarge_symbol_table_smt2. cbv zeta.
  generalize (table (symbol p)). intros old.
  generalize (seqZ 0 (size (symbol p))). intros l.
  match goal with |- context [fold_left ?f l (set_symbol ?s p)] =>
    generalize s; set (g := f) end.
  induction l as [|i l IH] using rev_ind; intros s0.
  - cbn [fold_left]. now destruct p.
  - rewrite fold_left_app. cbn [fold_left]. unfold g at 1 3.
    rewrite pop_chain_frame at 1.
    apply set_symbol_frame. apply IH.
Qed.

Lemma enlarge_symbol_table_keeps :
  preserves keeps_logic (modify enlarge_symbol_table_smt2).
Proof.
  apply preserves_modify. intros p. rewrite enlarge_symbol_table_frame.
  keeps_logic_side.
Qed.
#[local] Hint Resolve enlarge_symbol_table_keeps : frames.

Lemma insert_symbol_smt2_keeps s : preserves keeps_logic (insert_symbol_smt2 s).
Proof. unfold insert_symbol_smt2. cbv zeta. keeps_logic_frame. Qed.
#[local] Hint Resolve insert_symbol_smt2_keeps : frames.

Lemma remove_symbol_smt2_keeps s : preserves keeps_logic (remove_symbol_smt2 s).
Proof.
  unfold remove_symbol_smt2, release_symbol_smt2. cbv zeta. keeps_logic_frame.
Qed.
#[local] Hint Resolve remove_symbol_smt2_keeps : frames.

Lemma lookup_or_insert_token_keeps tag :
  preserves keeps_logic (lookup_or_insert_token tag).
Proof. unfold lookup_or_insert_token. cbv zeta. keeps_logic_frame. Qed.
#[local] Hint Resolve lookup_or_insert_token_keeps : frames.

Lemma read_string_keeps fuel : preserves keeps_logic (read_string fuel).
Proof.
  induction fuel as [|fuel IH]; cbn [read_string]; keeps_logic_frame.
Qed.
#[local] Hint Resolve read_string_keeps : frames.

Lemma read_quoted_symbol_keeps fuel :
  preserves keeps_logic (read_quoted_symbol fuel).
Proof.
  induction fuel as [|fuel IH]; cbn [read_quoted_symbol]; keeps_logic_frame.
Qed.
#[local] Hint Resolve read_quoted_symbol_keeps : frames.

Lemma read_token_aux_smt2_keeps : preserves keeps_logic read_token_aux_smt2.
Proof. unfold read_token_aux_smt2. cbv zeta. keeps_logic_frame. Qed.
#[local] Hint Resolve read_token_aux_smt2_keeps : frames.

Lemma read_token_smt2_keeps : preserves keeps_logic read_token_smt2.
Proof. unfold read_token_smt2. keeps_logic_frame. Qed.
#[local] Hint Resolve read_token_smt2_keeps : frames.

Lemma read_rpar_smt2_keeps msg : preserves keeps_logic (read_rpar_smt2 msg).
Proof. unfold read_rpar_smt2. cbv zeta. keeps_logic_frame. Qed.
#[local] Hint Resolve read_rpar_smt2_keeps : frames.

Lemma str2uint32_smt2_keeps allow_zero str :
  preserves keeps_logic (str2uint32_smt2 allow_zero str).
Proof. unfold str2uint32_smt2. keeps_logic_frame. Qed.
#[local] Hint Resolve str2uint32_smt2_keeps : frames.

Lemma parse_uint32_smt2_keeps allow_zero :
  preserves keeps_logic (parse_uint32_smt2 allow_zero).
Proof. unfold parse_uint32_smt2. keeps_logic_frame. Qed.
#[local] Hint Resolve parse_uint32_smt2_keeps : frames.

Lemma open_new_scope_keeps : preserves keeps_logic open_new_scope.
Proof. unfold open_new_scope. keeps_logic_frame. Qed.
#[local] Hint Resolve open_new_scope_keeps : frames.

Lemma close_current_scope_keeps : preserves keeps_logic close_current_scope.
Proof. unfold close_current_scope. keeps_logic_frame. Qed.
#[local] Hint Resolve close_current_scope_keeps : frames.

Lemma print_success_keeps : preserves keeps_logic print_success_.
Proof. unfold print_success_. keeps_logic_frame. Qed.
#[local] Hint Resolve print_success_keeps : frames.

Lemma read_command_push_keeps : preserves keeps_logic read_command_push.
Proof. unfold read_command_push. keeps_logic_frame. Qed.
#[local] Hint Resolve read_command_push_keeps : frames.

Lemma read_command_pop_keeps : preserves keeps_logic read_command_pop.
Proof. unfold read_command_pop. keeps_logic_frame. Qed.
#[local] Hint Resolve read_command_pop_keeps : frames.

(** A failed [perr_smt2] leaves an error. *)
Lemma perr_smt2_sets msg p v p' :
  perr_smt2 msg p = Some (v, p') -> error p' <> None.
Proof.
  unfold perr_smt2, modify. intros [= _ <-].
  destruct (error p) eqn:E; cbn [error]; [rewrite E|]; discriminate.
Qed.

(** When [read_rpar_smt2] returns 0 an error is set. *)
Lemma read_rpar_smt2_fails msg p p' :
  read_rpar_smt2 msg p = Some (0, p') -> error p' <> None.
Proof.
  unfold read_rpar_smt2, bind. cbv zeta.
  destruct (read_token_smt2 p) as [[tag p1]|]; [|discriminate].
  destruct (tag =? EOF).
  { destruct (perr_smt2 _ p1) as [[[] p2]|] eqn:E; [|discriminate].
    unfold ret. intros [= <-]. exact (perr_smt2_sets _ _ _ _ E). }
  destruct (tag =? BZLA_INVALID_TAG_SMT2).
  { unfold get, assert_, ret.
    destruct (bool_decide (is_Some (error p1))) eqn:E; [|discriminate].
    intros [= <-]. apply bool_decide_eq_true in E. destruct E as [e ->].
    discriminate. }
  destruct (negb (tag =? BZLA_RPAR_TAG_SMT2)).
  { unfold get.
    destruct (perr_smt2 _ p1) as [[[] p2]|] eqn:E; [|discriminate].
    unfold ret. intros [= <-]. exact (perr_smt2_sets _ _ _ _ E). }
  unfold ret. discriminate.
Qed.

Lemma logic_unset_keeps k p p' :
  keeps_logic p p' -> logic_unset k p -> logic_unset k p'.
Proof.
  intros (Hl & Hc & He) [Hb Hz]. split; [now rewrite Hc|].
  intros Hc' He'. rewrite Hl. apply Hz; [now rewrite <- Hc|].
  destruct (error p) eqn:E; [|reflexivity].
  exfalso. apply He; [discriminate|exact He'].
Qed.

Lemma logic_unset_mono k k' p : k <= k' -> logic_unset k p -> logic_unset k' p.
Proof. intros Hk [Hb Hz]. split; [lia|exact Hz]. Qed.

End LogicFramesOfFunctions.

#[export] Hint Resolve perr_smt2_keeps BZLA_MSG_keeps seconds_text_keeps getc_keeps nextch_smt2_keeps savech_smt2_keeps cerr_smt2_keeps storech_smt2_keeps
  pushch_smt2_keeps read_while_keeps skip_comment_keeps read_token_restart_keeps new_node_smt2_keeps enlarge_symbol_table_keeps insert_symbol_smt2_keeps remove_symbol_smt2_keeps
  lookup_or_insert_token_keeps read_string_keeps read_quoted_symbol_keeps read_token_aux_smt2_keeps read_token_smt2_keeps read_rpar_smt2_keeps str2uint32_smt2_keeps parse_uint32_smt2_keeps open_new_scope_keeps close_current_scope_keeps print_success_keeps read_command_push_keeps read_command_pop_keeps : frames.


(** ** The logic of the parse result *)

(** The state after a run of [m] is related to the state before by
    [keeps_logic]. *)
Ltac by_logic_frame H :=
  match type of H with
  | ?m ?p = Some (?v, ?q) =>
      let Hk := fresh "Hk" in
      assert (Hk : preserves keeps_logic m) by keeps_logic_frame;
      apply Hk in H
  end.

Ltac unset_by_frame k Hq :=
  let Hrun := fresh "Hrun" in
  intros Hrun; by_logic_frame Hrun;
  apply (logic_unset_mono k); [lia|];
  exact (logic_unset_keeps _ _ _ Hrun Hq).

Section Logic.
Context `{Backend}.
Variable L : BzlaLogic.
Variable read_command_other : Z -> M bool.
Hypothesis other_keeps :
  forall tag, preserves keeps_logic (read_command_other tag).

(** [set-logic] either counts one more command, or fails; when it fails
    after having written the logic, an error is set. *)
Lemma read_command_set_logic_unset k p ok p' :
  logic_unset k p -> k + 1 < 2 ^ 31 ->
  read_command_set_logic L p = Some (ok, p') ->
  logic_unset (k + 1) p'.
Proof.
  intros Hp Hk. unfold read_command_set_logic, bind at 1.
  destruct (read_token_smt2 p) as [[tag p1]|] eqn:Etok; [|discriminate].
  assert (H1 : logic_unset k p1)
    by (exact (logic_unset_keeps _ _ _ (read_token_smt2_keeps _ _ _ Etok) Hp)).
  destruct (tag =? EOF).
  { unset_by_frame k H1. }
  destruct (tag =? BZLA_INVALID_TAG_SMT2).
  { unset_by_frame k H1. }
  destruct (Z.land tag BZLA_LOGIC_TAG_CLASS_SMT2 =? 0).
  { unset_by_frame k H1. }
  unfold bind at 1, get at 1. unfold bind at 1.
  match goal with |- match ?b p1 with _ => _ end = _ -> _ =>
    destruct (b p1) as [[ok1 p2]|] eqn:Eb; [|discriminate];
    assert (Hb : (ok1 = false /\ keeps_logic p1 p2)
                 \/ (ok1 = true
                     /\ set_logic (commands p2) = set_logic (commands p1)
                     /\ error p2 = error p1))
  end.
  { revert Eb.
    repeat match goal with
           | |- context [if ?b then _ else _] => destruct b
           end;
      try (unfold bind, modify, ret, set_logic_; intros [= <- <-];
           right; now repeat split).
    intros Hrun. left.
    unfold bind in Hrun.
    destruct (perr_smt2 _ p1) as [[[] q]|] eqn:E; [|discriminate].
    injection Hrun as <- <-. split; [reflexivity|].
    exact (perr_smt2_keeps _ _ _ _ E). }
  destruct Hb as [[-> Hkeep]|(-> & Hc2 & He2)]; cbn [negb].
  { unfold ret. intros [= _ <-].
    apply (logic_unset_mono k); [lia|]. exact (logic_unset_keeps _ _ _ Hkeep H1). }
  unfold bind at 1, BZLA_MSG at 1, modify at 1.
  set (p2m := set_msgs _ p2).
  unfold bind at 1.
  destruct (read_rpar_smt2 _ p2m) as [[r p3]|] eqn:Er; [|discriminate].
  pose proof (read_rpar_smt2_keeps _ _ _ _ Er) as (_ & Hc3 & He3).
  change (set_logic (commands p2m)) with (set_logic (commands p2)) in Hc3.
  destruct H1 as [Hb1 Hz1].
  destruct (Z.eqb_spec r 0) as [->|Hr].
  - unfold ret. intros [= _ <-]. split; [rewrite Hc3, Hc2; lia|].
    intros _ Hnone. exfalso. exact (read_rpar_smt2_fails _ _ _ Er Hnone).
  - unfold bind at 1, get at 1. unfold bind at 1, modify at 1.
    set (p4 := set_commands_set_logic _ p3).
    intros Hrun. by_logic_frame Hrun. destruct Hrun as (_ & Hc5 & _).
    assert (Hc4 : set_logic (commands p4) = set_logic (commands p1) + 1).
    { unfold p4. cbn [set_commands_set_logic commands set_commands set_logic].
      rewrite Hc3, Hc2. apply s32_small. lia. }
    split; rewrite Hc5, Hc4; lia.
Qed.

(** One command. *)
Lemma read_command_smt2_unset k p r p' :
  logic_unset k p -> k + 1 < 2 ^ 31 ->
  read_command_smt2 L read_command_other p = Some (r, p') ->
  logic_unset (k + 1) p'.
Proof.
  intros Hp Hk. unfold read_command_smt2, bind at 1.
  destruct (read_token_smt2 p) as [[tag p1]|] eqn:Etok; [|discriminate].
  assert (H1 : logic_unset k p1)
    by (exact (logic_unset_keeps _ _ _ (read_token_smt2_keeps _ _ _ Etok) Hp)).
  unfold bind at 1, get at 1.
  destruct (negb (model (commands p1) =? 0) && (tag =? BZLA_RPAR_TAG_SMT2)).
  { unfold bind, modify, ret. intros [= _ <-].
    apply (logic_unset_mono k); [lia|].
    apply (logic_unset_keeps _ p1); [|exact H1]. now repeat split. }
  destruct (negb (model (commands p1) =? 0) && (tag =? EOF)).
  { unset_by_frame k H1. }
  destruct ((tag =? EOF) || (tag =? BZLA_INVALID_TAG_SMT2)).
  { unset_by_frame k H1. }
  destruct (negb (tag =? BZLA_LPAR_TAG_SMT2)).
  { unset_by_frame k H1. }
  unfold bind at 1.
  destruct (read_token_smt2 p1) as [[tag2 p2]|] eqn:Etok2; [|discriminate].
  assert (H2 : logic_unset k p2)
    by (exact (logic_unset_keeps _ _ _ (read_token_smt2_keeps _ _ _ Etok2) H1)).
  unfold bind at 1, get at 1.
  destruct (tag2 =? EOF).
  { unset_by_frame k H2. }
  destruct (tag2 =? BZLA_INVALID_TAG_SMT2).
  { unset_by_frame k H2. }
  destruct (negb (model (commands p2) =? 0)
            && negb (tag2 =? BZLA_DEFINE_FUN_TAG_SMT2)).
  { unset_by_frame k H2. }
  destruct (Z.land tag2 BZLA_COMMAND_TAG_CLASS_SMT2 =? 0).
  { unset_by_frame k H2. }
  unfold bind at 1.
  match goal with |- match ?d p2 with _ => _ end = _ -> _ =>
    destruct (d p2) as [[ok p3]|] eqn:Ed; [|discriminate];
    assert (H3 : logic_unset (k + 1) p3)
  end.
  { destruct (tag2 =? BZLA_SET_LOGIC_TAG_SMT2).
    - exact (read_command_set_logic_unset _ _ _ _ H2 Hk Ed).
    - apply (logic_unset_mono k); [lia|].
      apply (logic_unset_keeps _ p2); [|exact H2].
      destruct (tag2 =? BZLA_PUSH_TAG_SMT2);
        [exact (read_command_push_keeps _ _ _ Ed)|].
      destruct (tag2 =? BZLA_POP_TAG_SMT2);
        [exact (read_command_pop_keeps _ _ _ Ed)|].
      exact (other_keeps _ _ _ _ Ed). }
  intros Hrun. by_logic_frame Hrun.
  exact (logic_unset_keeps _ _ _ Hrun H3).
Qed.

(** The loop over the commands. *)
Lemma read_commands_unset (fuel : nat) :
  forall k p p',
    logic_unset k p -> k + Z.of_nat fuel < 2 ^ 31 ->
    read_commands L read_command_other fuel p = Some (tt, p') ->
    logic_unset (k + Z.of_nat fuel) p'.
Proof.
  induction fuel as [|fuel IH]; intros k p p' Hp Hk; cbn [read_commands];
    [discriminate|].
  unfold bind at 1.
  destruct (read_command_smt2 L read_command_other p) as [[r p1]|] eqn:E;
    [|discriminate].
  pose proof (read_command_smt2_unset _ _ _ _ Hp ltac:(lia) E) as H1.
  unfold bind at 1, get at 1.
  destruct (negb (r =? 0) && negb (done p1)).
  - intros Hrun.
    replace (k + Z.of_nat (S fuel)) with (k + 1 + Z.of_nat fuel) by lia.
    apply (IH _ _ _ H1); [lia|exact Hrun].
  - unfold ret. intros [= <-]. apply (logic_unset_mono (k + 1)); [lia|exact H1].
Qed.

Lemma logic_without_set_logic (parser : BzlaSMT2Parser) :
  logics_distinct L ->
  logic (res parser) = 0 -> set_logic (commands parser) = 0 ->
  exists p',
    parse_smt2_parser_logic L parser = Some (tt, p')
    /\ logic (res p')
       = inferred_logic L (need_functions parser) (need_arrays parser)
           (need_quantifiers parser).
Proof.
  intros Hd Hl Hs. unfold logics_distinct in Hd.
  assert (Hne : BZLA_LOGIC_QF_BV L <> BZLA_LOGIC_ALL L).
  { intros E. apply list.NoDup_cons in Hd as [_ Hd].
    apply list.NoDup_cons in Hd as [Hd _].
    apply Hd. rewrite E. do 2 right. left. }
  unfold parse_smt2_parser_logic, bind at 1, get at 1.
  rewrite Hl, Hs. unfold inferred_logic.
  rewrite (Z.eqb_sym 0 (BZLA_LOGIC_QF_BV L)), (Z.eqb_sym 0 (BZLA_LOGIC_ALL L)).
  destruct (BZLA_LOGIC_QF_BV L =? 0) eqn:E1.
  - apply Z.eqb_eq in E1.
    replace (BZLA_LOGIC_ALL L =? 0) with false
      by (symmetry; apply Z.eqb_neq; congruence).
    destruct (need_functions parser), (need_arrays parser);
      cbn [andb orb negb Z.eqb]; unfold bind, BZLA_MSG, modify, ret;
      eexists; (split; [reflexivity|]); cbn; congruence.
  - rewrite !andb_false_r.
    destruct (BZLA_LOGIC_ALL L =? 0) eqn:E2.
    + destruct (need_quantifiers parser), (need_functions parser),
        (need_arrays parser);
        cbn [andb orb negb]; unfold modify;
        eexists; (split; [reflexivity|]); reflexivity.
    + cbn [negb Z.eqb]. unfold ret. eexists. split; [reflexivity|exact Hl].
Qed.

Lemma logic_upgraded (parser : BzlaSMT2Parser) :
  logic (res parser) = BZLA_LOGIC_QF_BV L -> need_functions parser = true ->
  exists p',
    parse_smt2_parser_logic L parser = Some (tt, p')
    /\ logic (res p')
       = (if need_arrays parser then BZLA_LOGIC_QF_AUFBV L
          else BZLA_LOGIC_QF_UFBV L)
    /\ msgs p'
       = msgs parser
         ++ [(1, if need_arrays parser
                 then "found functions thus using 'QF_AUFBV' logic"
                 else "found functions thus using 'QF_UFBV' logic")].
Proof.
  intros Hl Hf. unfold parse_smt2_parser_logic, bind at 1, get at 1.
  rewrite Hl, Hf, Z.eqb_refl.
  destruct (need_arrays parser); cbn [andb];
    unfold bind, BZLA_MSG, modify; eexists; (split; [reflexivity|]);
    split; reflexivity.
Qed.

(** The choice of the logic always returns, and writes the result and the
    messages only. *)
Lemma parse_smt2_parser_logic_frame parser :
  exists p',
    parse_smt2_parser_logic L parser = Some (tt, p')
    /\ error p' = error parser /\ commands p' = commands parser
    /\ symbol p' = symbol parser /\ work p' = work parser
    /\ need_functions p' = need_functions parser
    /\ need_arrays p' = need_arrays parser
    /\ need_quantifiers p' = need_quantifiers parser.
Proof.
  unfold parse_smt2_parser_logic, bind at 1, get at 1. cbv zeta.
  repeat match goal with
         | |- context [if ?b then _ else _] => destruct b
         end;
    unfold bind, BZLA_MSG, modify, ret;
    eexists; (split; [reflexivity|]); destruct parser; repeat split.
Qed.

(** [parse_smt2_parser] after the loop over the commands: the error when
    one is set, otherwise the diagnostics and the choice of the logic. *)
Lemma parse_smt2_parser_after_loop (fuel : nat) prefix_ infile_ infile_name_
    outfile_ parser p0 p1 :
  parse_smt2_parser_init prefix_ infile_ outfile_ parser = Some (tt, p0) ->
  read_commands L read_command_other fuel p0 = Some (tt, p1) ->
  (forall e, error p1 = Some e ->
     parse_smt2_parser L read_command_other fuel prefix_ infile_ infile_name_
       outfile_ parser = Some (Some e, p1))
  /\ (error p1 = None ->
      exists q p',
        parse_smt2_parser L read_command_other fuel prefix_ infile_
          infile_name_ outfile_ parser = Some (None, p')
        /\ q = set_msgs (msgs q) p1
        /\ parse_smt2_parser_logic L q = Some (tt, p')).
Proof.
  intros Hinit Hloop. split.
  - intros e E. unfold parse_smt2_parser, bind at 1. rewrite Hinit.
    unfold bind at 1. rewrite Hloop. unfold bind at 1, get at 1.
    rewrite E. reflexivity.
  - intros E. unfold parse_smt2_parser, bind at 1. rewrite Hinit.
    unfold bind at 1. rewrite Hloop. unfold bind at 1, get at 1.
    rewrite E.
    destruct (all (commands p1) =? 0), (set_logic (commands p1) =? 0),
      (asserts (commands p1) =? 0), (check_sat (commands p1) =? 0),
      (exits (commands p1) =? 0);
      unfold seconds_text, BZLA_MSG; unfold bind, modify, get, ret;
      match goal with |- context [parse_smt2_parser_logic L ?q] =>
        destruct (parse_smt2_parser_logic_frame q) as (p' & Hrun & _);
        exists q, p'; rewrite Hrun
      end;
      (split; [reflexivity|]); (split; [now destruct p1|reflexivity]).
Qed.

(** The runs of [parse_smt2_parser], taken apart. *)
Lemma parse_smt2_parser_inv (fuel : nat) prefix_ infile_ infile_name_
    outfile_ parser r p' :
  parse_smt2_parser L read_command_other fuel prefix_ infile_ infile_name_
    outfile_ parser = Some (r, p') ->
  exists p0 p1,
    parse_smt2_parser_init prefix_ infile_ outfile_ parser = Some (tt, p0)
    /\ read_commands L read_command_other fuel p0 = Some (tt, p1)
    /\ error p1 = r
    /\ (r = None ->
        exists q, q = set_msgs (msgs q) p1
                  /\ parse_smt2_parser_logic L q = Some (tt, p')).
Proof.
  intros Hrun.
  destruct (parse_smt2_parser_init prefix_ infile_ outfile_ parser)
    as [[[] p0]|] eqn:Hinit;
    [|unfold parse_smt2_parser, bind at 1 in Hrun; rewrite Hinit in Hrun;
      discriminate].
  destruct (read_commands L read_command_other fuel p0) as [[[] p1]|] eqn:Hloop;
    [|unfold parse_smt2_parser, bind at 1 in Hrun; rewrite Hinit in Hrun;
      unfold bind at 1 in Hrun; rewrite Hloop in Hrun; discriminate].
  exists p0, p1. split; [reflexivity|]. split; [exact Hloop|].
  destruct (parse_smt2_parser_after_loop fuel prefix_ infile_ infile_name_
              outfile_ parser p0 p1 Hinit Hloop) as [Herr Hok].
  destruct (error p1) as [e|] eqn:E.
  - rewrite (Herr e eq_refl) in Hrun. injection Hrun as <- <-.
    split; [reflexivity|discriminate].
  - destruct (Hok eq_refl) as (q & p2 & Hrun2 & Hq & Hlogic).
    rewrite Hrun2 in Hrun. injection Hrun as <- <-.
    split; [reflexivity|]. intros _. exists q. now split.
Qed.

(** A run without [set-logic]: the logic is inferred from the zero that
    the result was cleared to. *)
Lemma logic_of_run_without_set_logic (fuel : nat) prefix_ infile_ infile_name_
    outfile_ parser p' :
  logics_distinct L ->
  Z.of_nat fuel < 2 ^ 31 ->
  set_logic (commands parser) = 0 ->
  parse_smt2_parser L read_command_other fuel prefix_ infile_ infile_name_
    outfile_ parser = Some (None, p') ->
  set_logic (commands p') = 0 ->
  logic (res p')
  = inferred_logic L (need_functions p') (need_arrays p') (need_quantifiers p').
Proof.
  intros Hd Hfuel Hc Hrun Hc'.
  destruct (parse_smt2_parser_inv _ _ _ _ _ _ _ _ Hrun)
    as (p0 & p1 & Hinit & Hloop & He1 & Htail).
  destruct (Htail eq_refl) as (q & Hq & Hlogic). clear Htail.
  assert (H0 : logic_unset 0 p0).
  { unfold parse_smt2_parser_init, bind, modify in Hinit.
    injection Hinit as <-. split; cbn; [lia|reflexivity]. }
  pose proof (read_commands_unset fuel 0 p0 p1 H0 ltac:(lia) Hloop) as [_ Hz].
  destruct (parse_smt2_parser_logic_frame q)
    as (p2 & Hrun2 & _ & Hc2 & _ & _ & Hf & Ha & Hn).
  rewrite Hlogic in Hrun2. injection Hrun2 as <-.
  assert (Hcq : set_logic (commands q) = 0) by (now rewrite <- Hc2).
  assert (Hc1 : set_logic (commands p1) = 0) by (now rewrite Hq in Hcq).
  assert (Hlq : logic (res q) = 0).
  { rewrite Hq. cbn [res set_msgs]. now apply Hz. }
  destruct (logic_without_set_logic q Hd Hlq Hcq) as (p2 & Hrun2 & Hres).
  rewrite Hlogic in Hrun2. injection Hrun2 as <-.
  now rewrite Hres, Hf, Ha, Hn.
Qed.

End Logic.

Section LogicOfParseResult.
Context `{Backend}.


End LogicOfParseResult.

(** ** The properties on sample states *)

(** A run that returns [v] leaves the state [exec]. *)
Lemma run_exec {A} (m : M A) (parser : BzlaSMT2Parser) (v : A) :
  fst <$> m parser = Some v -> m parser = Some (v, exec m parser).
Proof.
  unfold exec. destruct (m parser) as [[a p']|]; cbn; [|discriminate].
  now intros [= ->].
Qed.

(** The invariant of a table read off the value of [parser->symbol]. *)
Lemma table_ok_by_symbol `{Backend} (parser : BzlaSMT2Parser) sz c t live k :
  symbol parser = {| size := sz; count := c; table := t |} ->
  0 <= k <= 31 -> sz = 2 ^ k ->
  t = chains_of sz live ->
  c = Z.of_nat (length live) -> c <= sz ->
  NoDup (node_addr <$> live) ->
  Forall (fun s => node_tag s <> BZLA_PARENT_TAG_SMT2) live ->
  Forall (fun s => fits (node_name s)) live ->
  table_ok parser live.
Proof.
  intros Hs Hk Hsz Ht Hc Hcs Ha Htag Hfit.
  split; rewrite ?Hs; cbn [size count table]; try assumption.
  right. now exists k.
Qed.

Lemma table_ok_zero_parser : table_ok (zero_parser 0) [].
Proof.
  split; [now left|reflexivity|reflexivity|cbn; lia|constructor..].
Qed.

(** In a table that holds the one entry [|x|], the lookups of [|x|] and of
    [x] both return that entry. *)
Lemma find_symbol_quoted_unquoted_witness :
  find_symbol_smt2 (table_with [sample_node 1 BZLA_SYMBOL_TAG_SMT2 0 "|x|"]) "|x|"
  = find_symbol_smt2 (table_with [sample_node 1 BZLA_SYMBOL_TAG_SMT2 0 "|x|"]) "x"
  /\ find_symbol_smt2 (table_with [sample_node 1 BZLA_SYMBOL_TAG_SMT2 0 "|x|"]) "x"
     = Some (sample_node 1 BZLA_SYMBOL_TAG_SMT2 0 "|x|")
  /\ find_symbol_smt2 (table_with [sample_node 1 BZLA_SYMBOL_TAG_SMT2 0 "|x|"]) "|x|"
     = Some (sample_node 1 BZLA_SYMBOL_TAG_SMT2 0 "|x|").
Proof.
  assert (Hok : table_ok
                  (table_with [sample_node 1 BZLA_SYMBOL_TAG_SMT2 0 "|x|"])
                  [sample_node 1 BZLA_SYMBOL_TAG_SMT2 0 "|x|"]).
  { apply (table_ok_by_symbol _ 1 1
             [[sample_node 1 BZLA_SYMBOL_TAG_SMT2 0 "|x|"]] _ 0).
    - reflexivity.
    - lia.
    - reflexivity.
    - reflexivity.
    - reflexivity.
    - lia.
    - repeat constructor. intros Hin. inversion Hin.
    - repeat constructor; discriminate.
    - repeat constructor; vm_compute; reflexivity. }
  destruct (find_symbol_quoted_unquoted
              (table_with [sample_node 1 BZLA_SYMBOL_TAG_SMT2 0 "|x|"]) "x")
    as [Heq Hlive].
  - reflexivity.
  - vm_compute. reflexivity.
  - exact (table_ok_names_fit _ _ Hok).
  - destruct (Hlive _ Hok) as [Hentry _].
    destruct (Hentry (sample_node 1 BZLA_SYMBOL_TAG_SMT2 0 "|x|"))
      as (s & Hx & Hbars & _ & _ & Hfirst).
    + apply list_elem_of_here.
    + right. reflexivity.
    + injection Hfirst as <-. split; [exact Heq|]. split; assumption.
Defined.

(** Two entries [x], the second inserted at a deeper level: the second is
    found. *)
Lemma find_symbol_most_recent_witness :
  exists parser',
    do_symops [OpInsert (sample_node 1 BZLA_SYMBOL_TAG_SMT2 0 "x");
               OpInsert (sample_node 2 BZLA_SYMBOL_TAG_SMT2 1 "x")]
      (zero_parser 0) = Some (tt, parser')
    /\ find_symbol_smt2 parser' "x"
       = Some (sample_node 2 BZLA_SYMBOL_TAG_SMT2 1 "x").
Proof.
  destruct (find_symbol_most_recent (zero_parser (H := term_backend) 0) []
              [OpInsert (sample_node 1 BZLA_SYMBOL_TAG_SMT2 0 "x");
               OpInsert (sample_node 2 BZLA_SYMBOL_TAG_SMT2 1 "x")] "x")
    as (parser' & Hrun & Hfind & _).
  - exact table_ok_zero_parser.
  - cbn [symops_valid symop_valid live_after_op fmap list_fmap node_addr
         node_tag node_name sample_node].
    repeat split; try discriminate; try (vm_compute; reflexivity);
      intros Hin; repeat (apply elem_of_cons in Hin as [Hin|Hin]; [discriminate|]);
      inversion Hin.
  - vm_compute. reflexivity.
  - vm_compute. reflexivity.
  - exists parser'. split; [exact Hrun|]. rewrite Hfind. reflexivity.
Defined.

(** With global declarations switched on, [x] declared in a scope that is
    then closed stays in the table with [scope_level] 1; [x] entered
    afterwards at level 0 is the one that is found, although the live entry
    of level 1 has the greater [scope_level]. *)
Lemma find_symbol_lower_scope_level :
  fst <$> (run retained_symbol; declare_symbol "x") (zero_parser 0) = Some tt
  /\ entries (exec (run retained_symbol; declare_symbol "x") (zero_parser 0))
     = [("x", 0); ("x", 1)]
  /\ node_scope_level
       <$> find_symbol_smt2
             (exec (run retained_symbol; declare_symbol "x") (zero_parser 0)) "x"
     = Some 0.
Proof.
  split; [vm_compute; reflexivity|]. split; vm_compute; reflexivity.
Qed.

(** [x] kept by a [pop] under global declarations is in the table before
    [(push 1)]; the [(pop 1)] that follows removes it: the table after the
    pop is not the table of before the push. *)
Lemma pop_removes_retained_entry :
  fst <$> retained_symbol (parser_on "1)") = Some tt
  /\ entries (exec retained_symbol (parser_on "1)")) = [("x", 1)]
  /\ scope_level (exec retained_symbol (parser_on "1)")) = 0
  /\ global_declarations (exec retained_symbol (parser_on "1)")) = false
  /\ fst <$> read_command_push (exec retained_symbol (parser_on "1)"))
     = Some true
  /\ entries (exec read_command_push (exec retained_symbol (parser_on "1)")))
     = [("x", 1)]
  /\ fst <$> read_command_pop
               (set_infile (file_of "1)")
                  (exec read_command_push (exec retained_symbol (parser_on "1)"))))
     = Some true
  /\ entries
       (exec read_command_pop
          (set_infile (file_of "1)")
             (exec read_command_push (exec retained_symbol (parser_on "1)")))))
     = []
  /\ scope_level
       (exec read_command_pop
          (set_infile (file_of "1)")
             (exec read_command_push (exec retained_symbol (parser_on "1)")))))
     = 0.
Proof. repeat split; vm_compute; reflexivity. Qed.

(** [(pop 1)] in a scope in which [x] was declared. *)
Lemma pop_closes_scopes_witness :
  exists p',
    read_command_pop (reading "1)" (run open_new_scope; declare_symbol "x"))
    = Some (true, p')
    /\ scope_level p' = 0
    /\ table_ok p' [].
Proof.
  destruct (pop_closes_scopes
              (reading "1)" (run open_new_scope; declare_symbol "x"))
              (exec (parse_uint32_smt2 true)
                 (reading "1)" (run open_new_scope; declare_symbol "x")))
              (exec (read_rpar_smt2 (Some " after 'pop'"))
                 (exec (parse_uint32_smt2 true)
                    (reading "1)" (run open_new_scope; declare_symbol "x"))))
              1 [sample_node 1 BZLA_SYMBOL_TAG_SMT2 1 "x"])
    as [_ Hpop].
  - apply run_exec. vm_compute. reflexivity.
  - apply run_exec. vm_compute. reflexivity.
  - apply (table_ok_by_symbol _ 1 1
             [[sample_node 1 BZLA_SYMBOL_TAG_SMT2 1 "x"]] _ 0).
    + reflexivity.
    + lia.
    + reflexivity.
    + reflexivity.
    + reflexivity.
    + lia.
    + repeat constructor. intros Hin. inversion Hin.
    + repeat constructor; discriminate.
    + repeat constructor; vm_compute; reflexivity.
  - lia.
  - vm_compute. split; [discriminate|reflexivity].
  - destruct Hpop as (p' & Hrun & Hlevel & _ & _ & Htable).
    + vm_compute. discriminate.
    + exists p'. split; [exact Hrun|]. split; [exact Hlevel|].
      apply (Htable eq_refl).
Defined.

(** The file [01]: the lexer returns the decimal constant [0], then the
    decimal constant [1], and reports no error. *)
Lemma leading_zero_then_digit_no_error :
  exists p1 p2,
    read_token_smt2 (parser_on "01") = Some (BZLA_DECIMAL_CONSTANT_TAG_SMT2, p1)
    /\ c_string (token p1) = "0" /\ err_msg <$> error p1 = None
    /\ read_token_smt2 p1 = Some (BZLA_DECIMAL_CONSTANT_TAG_SMT2, p2)
    /\ c_string (token p2) = "1" /\ err_msg <$> error p2 = None.
Proof.
  exists (exec read_token_smt2 (parser_on "01")).
  exists (exec read_token_smt2 (exec read_token_smt2 (parser_on "01"))).
  split; [apply run_exec; vm_compute; reflexivity|].
  split; [vm_compute; reflexivity|]. split; [vm_compute; reflexivity|].
  split; [apply run_exec; vm_compute; reflexivity|].
  split; vm_compute; reflexivity.
Qed.




Lemma exp_items_sample (es : list term) : exp_items (exp_item <$> es) es.
Proof.
  induction es as [|e es IH]; [constructor|].
  rewrite fmap_cons. constructor; [now split|exact IH].
Qed.

Lemma term_open_closing (op : BzlaSMT2Item) (es : list term) :
  Z.of_nat (length es) < 2 ^ 32 ->
  term_open (closing op es) [] lpar_item op (exp_item <$> es) es.
Proof.
  intros Hn. split.
  - reflexivity.
  - reflexivity.
  - apply exp_items_sample.
  - reflexivity.
  - reflexivity.
  - now rewrite length_fmap.
Qed.

(** [(= a b c)] on bit-vectors of width 4. *)
Lemma close_term_equal_distinct_witness :
  exists p',
    close_term no_other_term
      (closing (op_item BZLA_EQUAL_TAG_SMT2 "=" 0 0)
         [TVar (TBitVec 4) "a"; TVar (TBitVec 4) "b"; TVar (TBitVec 4) "c"])
    = Some (1, p')
    /\ work p'
       = [exp_item (TAnd (TEq (TVar (TBitVec 4) "a") (TVar (TBitVec 4) "b"))
                         (TEq (TVar (TBitVec 4) "b") (TVar (TBitVec 4) "c")))].
Proof.
  pose proof (term_open_closing (op_item BZLA_EQUAL_TAG_SMT2 "=" 0 0)
                [TVar (TBitVec 4) "a"; TVar (TBitVec 4) "b"; TVar (TBitVec 4) "c"]
                ltac:(vm_compute; reflexivity)) as Hopen.
  destruct (close_term_equal_distinct no_other_term _ _ _ _ _ _
              Hopen (or_introl eq_refl))
    as [_ Hmany].
  destruct Hmany as (p' & exp & Hrun & (Hwork & _) & Heq & _).
  - cbn [length]; lia.
  - unfold uniform_sort.
    change (@boolector_is_array term_backend (TVar (TBitVec 4) "a")) with false.
    change (@boolector_is_fun term_backend (TVar (TBitVec 4) "a")) with false.
    cbv iota; repeat constructor.
  - exists p'; split; [exact Hrun|]; rewrite Hwork.
    destruct (Heq eq_refl) as [Hexp _]; injection Hexp as <-; reflexivity.
Defined.

(** [((_ extract 3 1) x)] on [x] of width 4, and the indices [1 3]. *)
Lemma extract_index_checks_witness :
  (exists p',
     parse_open_term_indexed_parametric 2 BZLA_BV_EXTRACT_TAG_SMT2 2
       (sample_node 1 BZLA_BV_EXTRACT_TAG_SMT2 0 "extract")
       " to close '(_ extract'" (indexing "1 3)") = Some (0, p')
     /\ err_msg <$> error p'
        = Some "first parameter '1' of '(_ extract' smaller than second '3'")
  /\ (exists p',
        close_term no_other_term
          (closing (op_item BZLA_BV_EXTRACT_TAG_SMT2 "extract" 3 1)
             [TVar (TBitVec 4) "x"]) = Some (1, p')
        /\ work p' = [exp_item (TSlice (TVar (TBitVec 4) "x") 3 1)]).
Proof.
  pose proof (term_open_closing (op_item BZLA_BV_EXTRACT_TAG_SMT2 "extract" 3 1)
                [TVar (TBitVec 4) "x"] ltac:(vm_compute; reflexivity)) as Hopen.
  pose proof (@extract_index_checks term_backend no_other_term
                (indexing "1 3)")
                (exec (check_open_term_indexed
                         (sample_node 1 BZLA_BV_EXTRACT_TAG_SMT2 0 "extract"))
                   (indexing "1 3)"))
                (exec (parse_uint32_smt2 true)
                   (exec (check_open_term_indexed
                            (sample_node 1 BZLA_BV_EXTRACT_TAG_SMT2 0 "extract"))
                      (indexing "1 3)")))
                (exec (parse_uint32_smt2 true)
                   (set_work
                      (alter (set_item_idx0 1) (2 - 1)%nat
                         (work (exec (parse_uint32_smt2 true)
                                  (exec (check_open_term_indexed
                                           (sample_node 1 BZLA_BV_EXTRACT_TAG_SMT2
                                              0 "extract"))
                                     (indexing "1 3)")))))
                      (exec (parse_uint32_smt2 true)
                         (exec (check_open_term_indexed
                                  (sample_node 1 BZLA_BV_EXTRACT_TAG_SMT2 0
                                     "extract"))
                            (indexing "1 3)")))))
                2%nat (sample_node 1 BZLA_BV_EXTRACT_TAG_SMT2 0 "extract")
                " to close '(_ extract'" 1 3
                (closing (op_item BZLA_BV_EXTRACT_TAG_SMT2 "extract" 3 1)
                   [TVar (TBitVec 4) "x"])
                [] lpar_item (op_item BZLA_BV_EXTRACT_TAG_SMT2 "extract" 3 1)
                (exp_item (TVar (TBitVec 4) "x")) (TVar (TBitVec 4) "x")
                (sample_node 1 BZLA_BV_EXTRACT_TAG_SMT2 0 "extract"))
    as [Hshift Hreduce].
  split.
  - destruct Hshift as [Hlt _].
    + apply run_exec; vm_compute; reflexivity.
    + lia.
    + vm_compute; reflexivity.
    + apply run_exec; vm_compute; reflexivity.
    + apply run_exec; vm_compute; reflexivity.
    + destruct Hlt as (p' & Hrun & Hrep); [lia|].
      exists p'. split; [exact Hrun|]. apply Hrep. vm_compute; reflexivity.
  - destruct (Hreduce Hopen) as [_ Hslice].
    + reflexivity.
    + reflexivity.
    + reflexivity.
    + reflexivity.
    + vm_compute. split; [discriminate|reflexivity].
    + destruct Hslice as (p' & Hrun & Hwork & _); [vm_compute; reflexivity|].
      exists p'. split; [exact Hrun|exact Hwork].
Defined.

(** [((_ rotate_left 7) x)] on [x] of width 4: the index 7 is stored and
    the rotation is by 3. *)
Lemma rotate_index_mod_width_witness :
  (exists p',
     parse_open_term_indexed_parametric 2 BZLA_BV_ROTATE_LEFT_TAG_SMT2 1
       (sample_node 1 BZLA_BV_ROTATE_LEFT_TAG_SMT2 0 "rotate_left")
       " to close '(_ rotate_left'" (indexing "7)") = Some (1, p')
     /\ item_num <$> work p' !! 1%nat = Some 7)
  /\ (exists p',
        close_term no_other_term
          (closing (op_item BZLA_BV_ROTATE_LEFT_TAG_SMT2 "rotate_left" 7 0)
             [TVar (TBitVec 4) "x"]) = Some (1, p')
        /\ work p' = [exp_item (TRoli (TVar (TBitVec 4) "x") 3)]).
Proof.
  pose proof (term_open_closing
                (op_item BZLA_BV_ROTATE_LEFT_TAG_SMT2 "rotate_left" 7 0)
                [TVar (TBitVec 4) "x"] ltac:(vm_compute; reflexivity)) as Hopen.
  pose proof (@rotate_index_mod_width term_backend no_other_term
                (indexing "7)")
                (exec (check_open_term_indexed
                         (sample_node 1 BZLA_BV_ROTATE_LEFT_TAG_SMT2 0 "rotate_left"))
                   (indexing "7)"))
                (exec read_token_smt2
                   (exec (check_open_term_indexed
                            (sample_node 1 BZLA_BV_ROTATE_LEFT_TAG_SMT2 0
                               "rotate_left"))
                      (indexing "7)")))
                2%nat BZLA_BV_ROTATE_LEFT_TAG_SMT2
                (sample_node 1 BZLA_BV_ROTATE_LEFT_TAG_SMT2 0 "rotate_left")
                " to close '(_ rotate_left'"
                (closing (op_item BZLA_BV_ROTATE_LEFT_TAG_SMT2 "rotate_left" 7 0)
                   [TVar (TBitVec 4) "x"])
                [] lpar_item (op_item BZLA_BV_ROTATE_LEFT_TAG_SMT2 "rotate_left" 7 0)
                (exp_item (TVar (TBitVec 4) "x")) (TVar (TBitVec 4) "x")
                (sample_node 1 BZLA_BV_ROTATE_LEFT_TAG_SMT2 0 "rotate_left"))
    as [Hshift Hreduce].
  split.
  - rewrite Hshift.
    + eexists. split; [apply run_exec|]; vm_compute; reflexivity.
    + vm_compute. lia.
    + apply run_exec. vm_compute. reflexivity.
    + lia.
    + vm_compute. reflexivity.
    + apply run_exec. vm_compute. reflexivity.
    + vm_compute; repeat constructor.
    + vm_compute. discriminate.
  - destruct (Hreduce Hopen) as (p' & Hrun & Hwork & _).
    + left. reflexivity.
    + reflexivity.
    + reflexivity.
    + reflexivity.
    + vm_compute. reflexivity.
    + exists p'. split; [exact Hrun|exact Hwork].
Defined.

(** [(ext_rotate_left #b0101 #b0011)] rotates by 3; on
    [(ext_rotate_left #b01 #b11)] the assertion fails. *)
Lemma ext_rotate_shift_below_width_witness :
  (exists p',
     close_term no_other_term
       (closing (op_item BZLA_BV_EXT_ROTATE_LEFT_TAG_SMT2 "ext_rotate_left" 0 0)
          [TConst "0101"; TConst "0011"]) = Some (1, p')
     /\ work p' = [exp_item (TRoli (TConst "0101") 3)])
  /\ close_term no_other_term
       (closing (op_item BZLA_BV_EXT_ROTATE_LEFT_TAG_SMT2 "ext_rotate_left" 0 0)
          [TConst "01"; TConst "11"]) = None.
Proof.
  pose proof (term_open_closing
                (op_item BZLA_BV_EXT_ROTATE_LEFT_TAG_SMT2 "ext_rotate_left" 0 0)
                [TConst "0101"; TConst "0011"] ltac:(vm_compute; reflexivity))
    as Hopen1.
  pose proof (term_open_closing
                (op_item BZLA_BV_EXT_ROTATE_LEFT_TAG_SMT2 "ext_rotate_left" 0 0)
                [TConst "01"; TConst "11"] ltac:(vm_compute; reflexivity))
    as Hopen2.
  split.
  - destruct (@ext_rotate_shift_below_width term_backend no_other_term
                _ _ _ _ _ _ _ _
                (sample_node 1 BZLA_BV_EXT_ROTATE_LEFT_TAG_SMT2 0 "ext_rotate_left")
                Hopen1 (or_introl eq_refl) eq_refl eq_refl eq_refl eq_refl eq_refl)
      as [Hsmall _].
    destruct Hsmall as (p' & Hrun & Hwork & _);
      [reflexivity|vm_compute; reflexivity|].
    exists p'. split; [exact Hrun|exact Hwork].
  - destruct (@ext_rotate_shift_below_width term_backend no_other_term
                _ _ _ _ _ _ _ _
                (sample_node 1 BZLA_BV_EXT_ROTATE_LEFT_TAG_SMT2 0 "ext_rotate_left")
                Hopen2 (or_introl eq_refl) eq_refl eq_refl eq_refl eq_refl eq_refl)
      as (_ & Hlarge & _).
    apply Hlarge; [reflexivity|vm_compute; discriminate].
Defined.

(** [(_ bv5 4)]. *)
Lemma bv_constant_value_witness :
  exists p3 exp,
    parse_open_term_indexed no_fp_special_const 1
      (set_open 1
         (set_work [lpar_item; item_of BZLA_UNDERSCORE_TAG_SMT2 0 0 ItemZero]
            (parser_on "bv5 4)")))
    = (do ok <- read_rpar_smt2 (Some " to close '(_ bv..'");
       if ok =? 0 then ret 0 else ret 1) p3
    /\ work p3 = [exp_item exp]
    /\ ((exists bits,
           exp = TConst bits /\ strlen bits = 4 /\ bin_value bits = 5)
        \/ (5 = 0 /\ exp = TZero (TBitVec 4))).
Proof.
  destruct (@bv_constant_value term_backend no_fp_special_const
              (set_open 1
                 (set_work [lpar_item; item_of BZLA_UNDERSCORE_TAG_SMT2 0 0 ItemZero]
                    (parser_on "bv5 4)")))
              (exec read_token_smt2
                 (set_open 1
                    (set_work [lpar_item; item_of BZLA_UNDERSCORE_TAG_SMT2 0 0 ItemZero]
                       (parser_on "bv5 4)"))))
              (exec (parse_uint32_smt2 false)
                 (exec read_token_smt2
                    (set_open 1
                       (set_work
                          [lpar_item; item_of BZLA_UNDERSCORE_TAG_SMT2 0 0 ItemZero]
                          (parser_on "bv5 4)")))))
              [] lpar_item (item_of BZLA_UNDERSCORE_TAG_SMT2 0 0 ItemZero)
              "5" 4)
    as [_ Hfits].
  - reflexivity.
  - reflexivity.
  - apply run_exec. vm_compute. reflexivity.
  - vm_compute. reflexivity.
  - repeat constructor.
  - discriminate.
  - apply run_exec. vm_compute. reflexivity.
  - vm_compute. split; reflexivity.
  - transitivity [lpar_item; item_of BZLA_UNDERSCORE_TAG_SMT2 0 0 ItemZero];
      reflexivity.
  - vm_compute. reflexivity.
  - reflexivity.
  - intros bits. reflexivity.
  - reflexivity.
  - vm_compute. reflexivity.
  - destruct Hfits as (p3 & exp & Hrun & (Hwork & _) & Hexp);
      [vm_compute; reflexivity|].
    exists p3, exp. split; [exact Hrun|]. split; [exact Hwork|exact Hexp].
Defined.

(** ** Further properties of the symbol table *)

Section TableOperations.
Context `{Backend}.

Lemma land_le_r a b : 0 <= a -> 0 <= b -> Z.land a b <= b.
Proof.
  intros Ha Hb.
  replace a with (Z.of_N (Z.to_N a)) by (apply Z2N.id; lia).
  replace b with (Z.of_N (Z.to_N b)) by (apply Z2N.id; lia).
  rewrite <- N2Z.inj_land. apply N2Z.inj_le, N.land_le_r.
Qed.

Lemma hash_name_loop_nonneg (n : nat) name :
  forall pos len res i, 0 <= res -> 0 <= hash_name_loop n name pos len res i.
Proof.
  induction n as [|n IH]; intros pos len res i Hres; cbn [hash_name_loop].
  - exact Hres.
  - destruct (pos <? len); [|exact Hres].
    apply IH. unfold u32. apply Z.mod_pos_bound. reflexivity.
Qed.

Lemma hash_name_raw_nonneg name : 0 <= hash_name_raw name.
Proof.
  unfold hash_name_raw.
  destruct (is_quoted name (strlen name)); now apply hash_name_loop_nonneg.
Qed.

Lemma size_pop_chain (c : list BzlaSMT2Node) :
  forall q, size (symbol (pop_chain c q)) = size (symbol q)
            /\ count (symbol (pop_chain c q)) = count (symbol q).
Proof.
  induction c as [|x c IH]; intros q; cbn [pop_chain]; [now split|].
  destruct (IH (set_table
                  (<[Z.to_nat (hash_name_smt2 q (node_name x)) :=
                       x :: table (symbol q) !!! Z.to_nat (hash_name_smt2 q (node_name x))]>
                     (table (symbol q))) q)) as [-> ->].
  now destruct q.
Qed.

Lemma size_enlarge_fold (old : list (list BzlaSMT2Node)) (range : list Z) :
  forall q,
    size (symbol (fold_left
                    (fun parser i => pop_chain (push_chain (old !!! Z.to_nat i)) parser)
                    range q)) = size (symbol q)
    /\ count (symbol (fold_left
                    (fun parser i => pop_chain (push_chain (old !!! Z.to_nat i)) parser)
                    range q)) = count (symbol q).
Proof.
  induction range as [|i range IH]; intros q; cbn [fold_left]; [now split|].
  destruct (IH (pop_chain (push_chain (old !!! Z.to_nat i)) q)) as [-> ->].
  apply size_pop_chain.
Qed.

(** X1. The bucket that [hash_name_smt2] computes is an index of the table:
    for a table of at least one and at most [2^32] buckets the hash of
    every name is below the number of buckets. *)
Theorem hash_name_within_table (parser : BzlaSMT2Parser) (name : string) :
  0 < size (symbol parser) <= 2 ^ 32 ->
  0 <= hash_name_smt2 parser name < size (symbol parser).
Proof.
  intros Hsz. rewrite hash_name_smt2_raw.
  pose proof (hash_name_raw_nonneg name) as Hraw.
  assert (E : u32 (size (symbol parser) - 1) = size (symbol parser) - 1).
  { unfold u32. apply Z.mod_small. lia. }
  rewrite E. split.
  - apply Z.land_nonneg. now left.
  - pose proof (land_le_r (hash_name_raw name) (size (symbol parser) - 1)
                  Hraw ltac:(lia)). lia.
Qed.

(** X2. Insertion followed by lookup: [insert_symbol_smt2] succeeds on a
    well-formed table for a newly allocated node, after which
    [find_symbol_smt2] returns that node for its name, returns what it
    returned before for every name that does not match the name of the
    node, and the count is one more.  The message "insert symbol ... at
    scope level ..." is recorded at verbosity 2, and nothing but the symbol
    table and the messages of the parser has changed. *)
Theorem insert_then_find parser live s :
  table_ok parser live ->
  Z.of_nat (length live) < 2 ^ 31 ->
  node_addr s ∉ node_addr <$> live ->
  node_tag s <> BZLA_PARENT_TAG_SMT2 ->
  fits (node_name s) ->
  exists parser',
    insert_symbol_smt2 s parser = Some (tt, parser')
    /\ find_symbol_smt2 parser' (node_name s) = Some s
    /\ (forall name, fits name -> symbol_matches (node_name s) name = false ->
          find_symbol_smt2 parser' name = find_symbol_smt2 parser name)
    /\ count (symbol parser') = count (symbol parser) + 1
    /\ parser'
       = set_msgs
           (msgs parser
            ++ [(2, "insert symbol '" +:+ node_name s +:+ "' at scope level "
                    +:+ fmt_u (scope_level parser))])
           (set_symbol (symbol parser') parser).
Proof.
  intros Hok Hlen Haddr Htag Hfit.
  destruct (insert_symbol_ok parser live s Hok Hlen Haddr Htag Hfit)
    as (parser' & Hrun & Hok' & Hframe).
  exists parser'. split; [exact Hrun|]. split; [|split; [|split]].
  - rewrite (find_symbol_innermost parser' (s :: live)) by assumption.
    unfold innermost. cbn [List.find]. now rewrite symbol_matches_refl.
  - intros name Hname Hno.
    rewrite (find_symbol_innermost parser' (s :: live)) by assumption.
    rewrite (find_symbol_innermost parser live) by assumption.
    unfold innermost. cbn [List.find]. now rewrite Hno.
  - rewrite (ok_count _ _ Hok'), (ok_count _ _ Hok). cbn [length]. lia.
  - exact Hframe.
Qed.

(** X3. Insertion followed by removal: removing a node that was just
    inserted leaves a well-formed table with the entries of before, in
    which every lookup returns what it returned before the insertion (the
    entry that the node shadowed is found again) and the count is the one
    of before; the table may have been doubled in between. *)
Theorem insert_then_remove parser live s :
  table_ok parser live ->
  Z.of_nat (length live) < 2 ^ 31 ->
  node_addr s ∉ node_addr <$> live ->
  node_tag s <> BZLA_PARENT_TAG_SMT2 ->
  fits (node_name s) ->
  exists p1 p2,
    insert_symbol_smt2 s parser = Some (tt, p1)
    /\ remove_symbol_smt2 s p1 = Some (tt, p2)
    /\ table_ok p2 live
    /\ (forall name, fits name ->
          find_symbol_smt2 p2 name = find_symbol_smt2 parser name)
    /\ count (symbol p2) = count (symbol parser)
    /\ size (symbol parser) <= size (symbol p2).
Proof.
  intros Hok Hlen Haddr Htag Hfit.
  destruct (insert_symbol_ok parser live s Hok Hlen Haddr Htag Hfit)
    as (p1 & Hrun1 & Hok1 & Hframe1).
  destruct (remove_symbol_ok p1 (s :: live) s Hok1 ltac:(apply list_elem_of_here))
    as (p2 & Hrun2 & Hok2 & Hframe2 & Hsz2).
  assert (E : filter (fun e => node_addr e <> node_addr s) (s :: live) = live).
  { rewrite filter_cons_False by (intros Hne; now apply Hne).
    apply filter_all. intros e He Heq.
    apply Haddr. rewrite <- Heq. apply list_elem_of_fmap. now exists e. }
  rewrite E in Hok2.
  exists p1, p2. split; [exact Hrun1|]. split; [exact Hrun2|].
  split; [exact Hok2|]. split; [|split].
  - intros name Hname.
    rewrite (find_symbol_innermost p2 live), (find_symbol_innermost parser live)
      by assumption.
    reflexivity.
  - now rewrite (ok_count _ _ Hok2), (ok_count _ _ Hok).
  - rewrite Hsz2.
    unfold insert_symbol_smt2, bind, get, modify, ret, assert_ in Hrun1.
    destruct (size (symbol parser) <=? count (symbol parser)) eqn:Hfull.
    + pose proof (ok_count_size _ _ Hok) as Hcs.
      pose proof (ok_size _ _ Hok) as Hsize.
      assert (Hle : size (symbol parser) <= 2 ^ 30).
      { apply Z.leb_le in Hfull. rewrite (ok_count _ _ Hok) in Hfull.
        destruct Hsize as [->|(k & Hk & Hsize)]; [lia|].
        assert (k <= 30); [|rewrite Hsize; apply Z.pow_le_mono_r; lia].
        destruct (Z_le_gt_dec k 30) as [?|Hgt]; [assumption|].
        assert (k = 31) as -> by lia. rewrite Hsize in Hfull. lia. }
      destruct (enlarge_symbol_table_ok parser live Hok Hle) as (_ & Hlt & _).
      cbn in Hrun1.
      destruct (0 <? _) in Hrun1; [|discriminate].
      injection Hrun1 as <-. cbn. lia.
    + cbn in Hrun1.
      destruct (0 <? _) in Hrun1; [|discriminate].
      injection Hrun1 as <-. cbn. lia.
Qed.

(** X4. Doubling the table: [enlarge_symbol_table_smt2] makes a table of
    one bucket out of the empty table and doubles the number of buckets
    otherwise, keeps the count, and every lookup returns what it returned
    before. *)
Theorem enlarge_keeps_lookups parser live :
  table_ok parser live -> size (symbol parser) <= 2 ^ 30 ->
  size (symbol (enlarge_symbol_table_smt2 parser))
  = (if size (symbol parser) =? 0 then 1 else 2 * size (symbol parser))
  /\ count (symbol (enlarge_symbol_table_smt2 parser)) = count (symbol parser)
  /\ table_ok (enlarge_symbol_table_smt2 parser) live
  /\ forall name, fits name ->
       find_symbol_smt2 (enlarge_symbol_table_smt2 parser) name
       = find_symbol_smt2 parser name.
Proof.
  intros Hok Hle.
  destruct (enlarge_symbol_table_ok parser live Hok Hle) as (Hok' & _ & _).
  split; [|split; [|split]].
  - unfold enlarge_symbol_table_smt2.
    match goal with
    | |- size (symbol (fold_left _ ?r ?q)) = _ =>
        rewrite (proj1 (size_enlarge_fold (table (symbol parser)) r q))
    end.
    cbn [symbol size].
    replace (symbol (set_symbol _ parser)) with
      {| size := if negb (size (symbol parser) =? 0)
                 then u32 (2 * size (symbol parser)) else 1;
         count := count (symbol parser);
         table := replicate
                    (Z.to_nat (if negb (size (symbol parser) =? 0)
                               then u32 (2 * size (symbol parser)) else 1)) [] |}
      by (now destruct parser).
    cbn [size]. destruct (size (symbol parser) =? 0) eqn:Z0; [reflexivity|].
    cbn [negb]. unfold u32. apply Z.mod_small.
    pose proof (ok_count_size _ _ Hok). pose proof (ok_count _ _ Hok). lia.
  - unfold enlarge_symbol_table_smt2.
    match goal with
    | |- count (symbol (fold_left _ ?r ?q)) = _ =>
        rewrite (proj2 (size_enlarge_fold (table (symbol parser)) r q))
    end.
    now destruct parser.
  - exact Hok'.
  - intros name Hname.
    rewrite (find_symbol_innermost _ live), (find_symbol_innermost parser live)
      by assumption.
    reflexivity.
Qed.

(** X5. What a lookup returns.  In a well-formed table, an entry that
    [find_symbol_smt2] returns for [name] is a live entry whose name is
    [name], or [name] between bars, or [name] without its bars; and the
    lookup returns no entry exactly when no live entry has such a name:
    looking in one bucket only loses nothing. *)
Theorem find_symbol_sound_complete parser live name :
  table_ok parser live -> fits name ->
  (forall s, find_symbol_smt2 parser name = Some s ->
     s ∈ live
     /\ (node_name s = name
         \/ (node_name s = bars name /\ is_quoted name (strlen name) = false)
         \/ (name = bars (node_name s)
             /\ is_quoted (node_name s) (strlen (node_name s)) = false)))
  /\ (find_symbol_smt2 parser name = None
      <-> Forall (fun s => symbol_matches (node_name s) name = false) live).
Proof.
  intros Hok Hname. rewrite (find_symbol_innermost parser live) by assumption.
  unfold innermost. split.
  - intros s Hfind. apply find_some in Hfind as [Hin Hm].
    apply list_elem_of_In in Hin. split; [exact Hin|].
    apply symbol_matches_inv; [|exact Hname|exact Hm].
    pose proof (ok_names _ _ Hok) as Hfits.
    rewrite list.Forall_forall in Hfits. now apply Hfits.
  - split.
    + intros Hnone. apply list.Forall_forall. intros s Hin.
      apply list_elem_of_In in Hin.
      apply (find_none _ _ Hnone s Hin).
    + intros Hall. destruct (List.find _ live) as [s|] eqn:Hfind; [|reflexivity].
      apply find_some in Hfind as [Hin Hm].
      apply list_elem_of_In in Hin.
      rewrite list.Forall_forall in Hall. rewrite (Hall s Hin) in Hm. discriminate.
Qed.

(** X6. The lookup that ends a symbol or a keyword in the lexer.  On a
    well-formed table whose nodes were allocated before the next free
    address, [lookup_or_insert_token] returns a node that the table then
    holds for the text of the token and records it as the last node.  When
    the table already had an entry for the token, that entry is returned
    and the table is unchanged; otherwise the node is new, with the given
    tag, the current scope level and the text of the token as its name, and
    it is the most recent entry of the table. *)
Theorem lookup_or_insert_token_spec parser live tag :
  table_ok parser live ->
  Z.of_nat (length live) < 2 ^ 31 ->
  Forall (fun s => (node_addr s < mem parser)%positive) live ->
  tag <> BZLA_PARENT_TAG_SMT2 ->
  fits (c_string (token parser)) ->
  exists node parser',
    lookup_or_insert_token tag parser = Some (node, parser')
    /\ last_node parser' = Some node
    /\ find_symbol_smt2 parser' (c_string (token parser)) = Some node
    /\ (forall old, find_symbol_smt2 parser (c_string (token parser)) = Some old ->
          node = old /\ symbol parser' = symbol parser /\ mem parser' = mem parser)
    /\ (find_symbol_smt2 parser (c_string (token parser)) = None ->
          node_tag node = tag
          /\ node_scope_level node = scope_level parser
          /\ node_name node = c_string (token parser)
          /\ node_addr node = mem parser
          /\ table_ok parser' (node :: live)).
Proof.
  intros Hok Hlen Hmem Htag Hfit.
  destruct (find_symbol_smt2 parser (c_string (token parser))) as [old|] eqn:Hfind.
  - exists old, (set_last_node (Some old) parser).
    split; [unfold lookup_or_insert_token, bind, get; now rewrite Hfind|]. split; [now destruct parser|].
    split; [|split].
    + unfold find_symbol_smt2, hash_name_smt2 in *. now destruct parser.
    + intros old' [= <-]. repeat split; now destruct parser.
    + discriminate.
  - set (node := set_node_name (c_string (token parser))
                   {| node_addr := mem parser; node_tag := tag; node_bound := false;
                      node_sort := false; node_scope_level := scope_level parser;
                      node_coo := {| coo_x := 0; coo_y := 0 |};
                      node_name := EmptyString;
                      node_exp := None; node_sort_alias := None |}).
    set (q := set_mem (Pos.succ (mem parser)) parser).
    assert (Hq : table_ok q live).
    { destruct Hok as [? ? ? ? ? ? ?]. unfold q.
      split; destruct parser; cbn in *; assumption. }
    assert (Hfresh : node_addr node ∉ node_addr <$> live).
    { intros Hin. apply list_elem_of_fmap in Hin as (e & He & Hin).
      rewrite list.Forall_forall in Hmem. specialize (Hmem e Hin).
      cbn in He. rewrite <- He in Hmem. lia. }
    destruct (insert_symbol_ok q live node Hq Hlen Hfresh Htag Hfit)
      as (q' & Hrun & Hok' & Hframe).
    assert (Hfindq : find_symbol_smt2 q (node_name node) = None).
    { change (node_name node) with (c_string (token parser)).
      rewrite <- Hfind. unfold q, find_symbol_smt2, hash_name_smt2.
      now destruct parser. }
    exists node, (set_last_node (Some node) q').
    assert (Hstep : lookup_or_insert_token tag parser
                    = Some (node, set_last_node (Some node) q')).
    { unfold lookup_or_insert_token, bind, get, new_node_smt2, modify, ret, assert_.
      rewrite Hfind.
      change (match
                match
                  (if negb (bool_decide
                              (is_Some (find_symbol_smt2 q (node_name node))))
                   then Some (tt, q) else None)
                with
                | Some (_, p') =>
                    match insert_symbol_smt2 node p' with
                    | Some (_, p'0) => Some (node, p'0)
                    | None => None
                    end
                | None => None
                end
              with
              | Some (a, p') => Some (a, set_last_node (Some a) p')
              | None => None
              end = Some (node, set_last_node (Some node) q')).
      rewrite Hfindq. cbn [is_Some bool_decide negb].
      replace (bool_decide (is_Some (@None BzlaSMT2Node))) with false
        by (symmetry; apply bool_decide_eq_false; intros [? [=]]).
      cbn [negb]. now rewrite Hrun. }
    split; [exact Hstep|]. split; [now destruct q'|].
    assert (Hok'' : table_ok (set_last_node (Some node) q') (node :: live)).
    { destruct Hok' as [? ? ? ? ? ? ?]. split; destruct q'; cbn in *; assumption. }
    split; [|split].
    + rewrite (find_symbol_innermost _ (node :: live)) by assumption.
      unfold innermost. cbn [List.find].
      change (node_name node) with (c_string (token parser)).
      now rewrite symbol_matches_refl.
    + discriminate.
    + intros _. do 4 (split; [reflexivity|]). exact Hok''.
Qed.

End TableOperations.

(** *** The properties of the symbol table on sample tables *)

Lemma table_ok_one_symbol (s : BzlaSMT2Node) :
  node_tag s <> BZLA_PARENT_TAG_SMT2 -> fits (node_name s) ->
  symbol (table_with [s]) = {| size := 1; count := 1; table := [[s]] |} ->
  table_ok (table_with [s]) [s].
Proof.
  intros Htag Hfit Hsym.
  apply (table_ok_by_symbol _ 1 1 [[s]] _ 0).
  - exact Hsym.
  - lia.
  - reflexivity.
  - unfold chains_of. change (seq 0 (Z.to_nat 1)) with [0%nat].
    cbn [fmap list_fmap]. rewrite filter_cons_True; [reflexivity|].
    unfold bucket_of. change (u32 (1 - 1)) with 0. now rewrite Z.land_0_r.
  - reflexivity.
  - lia.
  - repeat constructor. intros Hin. inversion Hin.
  - repeat constructor; assumption.
  - repeat constructor; assumption.
Qed.

(** The bucket of [y] in the table that holds [x]. *)
Lemma hash_name_within_table_witness :
  0 <= hash_name_smt2 (table_with [sample_node 1 BZLA_SYMBOL_TAG_SMT2 0 "x"]) "y"
    < size (symbol (table_with [sample_node 1 BZLA_SYMBOL_TAG_SMT2 0 "x"])).
Proof.
  apply (hash_name_within_table
           (table_with [sample_node 1 BZLA_SYMBOL_TAG_SMT2 0 "x"]) "y").
  vm_compute. split; [reflexivity|discriminate].
Defined.

(** A second [x], entered at level 1 in the table that holds [x] of level
    0, is the one found. *)
Lemma insert_then_find_witness :
  exists parser',
    insert_symbol_smt2 (sample_node 2 BZLA_SYMBOL_TAG_SMT2 1 "x")
      (table_with [sample_node 1 BZLA_SYMBOL_TAG_SMT2 0 "x"]) = Some (tt, parser')
    /\ find_symbol_smt2 parser' "x"
       = Some (sample_node 2 BZLA_SYMBOL_TAG_SMT2 1 "x")
    /\ msgs parser'
       = [(2, "insert symbol 'x' at scope level 0");
          (2, "insert symbol 'x' at scope level 0")].
Proof.
  destruct (insert_then_find
              (table_with [sample_node 1 BZLA_SYMBOL_TAG_SMT2 0 "x"])
              [sample_node 1 BZLA_SYMBOL_TAG_SMT2 0 "x"]
              (sample_node 2 BZLA_SYMBOL_TAG_SMT2 1 "x"))
    as (parser' & Hrun & Hfind & _ & _ & Hframe).
  - apply table_ok_one_symbol;
      [discriminate|vm_compute; reflexivity|reflexivity].
  - vm_compute. reflexivity.
  - intros Hin. apply elem_of_cons in Hin as [Hin|Hin]; [discriminate|].
    inversion Hin.
  - discriminate.
  - vm_compute. reflexivity.
  - exists parser'. split; [exact Hrun|]. split; [exact Hfind|].
    rewrite Hframe. cbn [msgs set_msgs]. vm_compute. reflexivity.
Defined.

(** The second [x] removed again: [x] of level 0 is found as before. *)
Lemma insert_then_remove_witness :
  exists p1 p2,
    insert_symbol_smt2 (sample_node 2 BZLA_SYMBOL_TAG_SMT2 1 "x")
      (table_with [sample_node 1 BZLA_SYMBOL_TAG_SMT2 0 "x"]) = Some (tt, p1)
    /\ remove_symbol_smt2 (sample_node 2 BZLA_SYMBOL_TAG_SMT2 1 "x") p1
       = Some (tt, p2)
    /\ find_symbol_smt2 p2 "x"
       = find_symbol_smt2 (table_with [sample_node 1 BZLA_SYMBOL_TAG_SMT2 0 "x"]) "x".
Proof.
  destruct (insert_then_remove
              (table_with [sample_node 1 BZLA_SYMBOL_TAG_SMT2 0 "x"])
              [sample_node 1 BZLA_SYMBOL_TAG_SMT2 0 "x"]
              (sample_node 2 BZLA_SYMBOL_TAG_SMT2 1 "x"))
    as (p1 & p2 & Hrun1 & Hrun2 & _ & Hfind & _).
  - apply table_ok_one_symbol;
      [discriminate|vm_compute; reflexivity|reflexivity].
  - vm_compute. reflexivity.
  - intros Hin. apply elem_of_cons in Hin as [Hin|Hin]; [discriminate|].
    inversion Hin.
  - discriminate.
  - vm_compute. reflexivity.
  - exists p1, p2. split; [exact Hrun1|]. split; [exact Hrun2|].
    apply Hfind. vm_compute. reflexivity.
Defined.

(** The table that holds [x] gets two buckets, and [x] is found as
    before. *)
Lemma enlarge_keeps_lookups_witness :
  size (symbol (enlarge_symbol_table_smt2
                  (table_with [sample_node 1 BZLA_SYMBOL_TAG_SMT2 0 "x"]))) = 2
  /\ find_symbol_smt2
       (enlarge_symbol_table_smt2
          (table_with [sample_node 1 BZLA_SYMBOL_TAG_SMT2 0 "x"])) "x"
     = find_symbol_smt2 (table_with [sample_node 1 BZLA_SYMBOL_TAG_SMT2 0 "x"]) "x".
Proof.
  destruct (enlarge_keeps_lookups
              (table_with [sample_node 1 BZLA_SYMBOL_TAG_SMT2 0 "x"])
              [sample_node 1 BZLA_SYMBOL_TAG_SMT2 0 "x"])
    as (Hsize & _ & _ & Hfind).
  - apply table_ok_one_symbol;
      [discriminate|vm_compute; reflexivity|reflexivity].
  - vm_compute. discriminate.
  - split; [exact Hsize|]. apply Hfind. vm_compute. reflexivity.
Defined.

(** No entry for [y] in the table that holds [x]. *)
Lemma find_symbol_sound_complete_witness :
  find_symbol_smt2 (table_with [sample_node 1 BZLA_SYMBOL_TAG_SMT2 0 "x"]) "y"
  = None.
Proof.
  destruct (find_symbol_sound_complete
              (table_with [sample_node 1 BZLA_SYMBOL_TAG_SMT2 0 "x"])
              [sample_node 1 BZLA_SYMBOL_TAG_SMT2 0 "x"] "y")
    as (_ & Hnone).
  - apply table_ok_one_symbol;
      [discriminate|vm_compute; reflexivity|reflexivity].
  - vm_compute. reflexivity.
  - apply Hnone. repeat constructor.
Defined.

(** The token [x] looked up in the empty table. *)
Lemma lookup_or_insert_token_spec_witness :
  exists node parser',
    lookup_or_insert_token BZLA_SYMBOL_TAG_SMT2
      (set_token (file_of "x") (zero_parser 0)) = Some (node, parser')
    /\ find_symbol_smt2 parser' "x" = Some node
    /\ node_tag node = BZLA_SYMBOL_TAG_SMT2
    /\ node_scope_level node = 0.
Proof.
  destruct (lookup_or_insert_token_spec
              (set_token (file_of "x") (zero_parser (H := term_backend) 0)) []
              BZLA_SYMBOL_TAG_SMT2)
    as (node & parser' & Hrun & _ & Hfind & _ & Hnew).
  - split; [now left|reflexivity|reflexivity|cbn; lia|constructor..].
  - vm_compute. reflexivity.
  - constructor.
  - discriminate.
  - vm_compute. reflexivity.
  - exists node, parser'. split; [exact Hrun|]. split; [exact Hfind|].
    destruct Hnew as (Htag & Hlevel & _); [reflexivity|].
    split; [exact Htag|exact Hlevel].
Defined.

(** ** Further properties of the lexer *)

Ltac decide_comparisons :=
  repeat match goal with
  | |- context [?a <=? ?b] => destruct (Z.leb_spec a b); try lia
  | |- context [?a <? ?b] => destruct (Z.ltb_spec a b); try lia
  | |- context [?a >=? ?b] =>
      rewrite (Z.geb_leb a b); destruct (Z.leb_spec b a); try lia
  | |- context [?a =? ?b] => destruct (Z.eqb_spec a b); try lia
  end.

Ltac chr_values :=
  repeat match goal with
  | |- context [chr (Ascii ?b0 ?b1 ?b2 ?b3 ?b4 ?b5 ?b6 ?b7)] =>
      let v := eval vm_compute in (chr (Ascii b0 b1 b2 b3 b4 b5 b6 b7)) in
      change (chr (Ascii b0 b1 b2 b3 b4 b5 b6 b7)) with v
  end.

Section CharClasses.

Lemma byte_cases (P : Z -> bool) :
  forallb P (seqZ 0 256) = true -> forall ch, 0 <= ch < 256 -> P ch = true.
Proof.
  intros Hall ch Hch. rewrite forallb_forall in Hall. apply Hall.
  apply list_elem_of_In, elem_of_seqZ. lia.
Qed.

Lemma class_out_of_range class ch :
  ch < 0 \/ 256 <= ch -> is_class class ch = false.
Proof.
  intros Hr. unfold is_class, cc_smt2.
  replace ((ch <? 0) || (ch >=? 256)) with true; [reflexivity|].
  symmetry. apply orb_true_iff. rewrite Z.geb_leb.
  destruct Hr; [left; apply Z.ltb_lt|right; apply Z.leb_le]; lia.
Qed.

Lemma class_by_cases (class : Z) (f : Z -> bool) :
  (forall ch, ch < 0 \/ 256 <= ch -> f ch = false) ->
  forallb (fun ch => Bool.eqb (is_class class ch) (f ch)) (seqZ 0 256) = true ->
  forall ch, is_class class ch = f ch.
Proof.
  intros Hout Hall ch.
  destruct (Z_lt_ge_dec ch 0) as [Hneg|Hpos].
  - rewrite class_out_of_range, Hout by lia. reflexivity.
  - destruct (Z_lt_ge_dec ch 256) as [Hlt|Hge].
    + apply eqb_prop. apply (byte_cases _ Hall ch). lia.
    + rewrite class_out_of_range, Hout by lia. reflexivity.
Qed.

Lemma is_class_decimal ch :
  is_class BZLA_DECIMAL_DIGIT_CHAR_CLASS_SMT2 ch = isdigit ch.
Proof.
  apply (class_by_cases _ isdigit); [|vm_compute; reflexivity].
  intros c Hc. unfold isdigit. decide_comparisons; reflexivity.
Qed.

(** X7. The table of character classes that [init_char_classes_smt2]
    fills, in closed form, for every value of a character, end-of-file
    included: the decimal digits are [0] to [9]; the hexadecimal digits are
    the decimal ones and the letters [a] to [f] in either case; the string
    characters are the printable characters with tabulator, new line and
    carriage return; the symbol characters are the letters, the digits and
    [+-/*=%?!.$_~&^<>@]; the characters of quoted symbols are the string
    characters other than the backslash and the bar; and the keyword
    characters are the symbol characters. *)
Theorem char_classes_closed_form (ch : Z) :
  is_class BZLA_DECIMAL_DIGIT_CHAR_CLASS_SMT2 ch = isdigit ch
  /\ is_class BZLA_HEXADECIMAL_DIGIT_CHAR_CLASS_SMT2 ch
     = (isdigit ch || ((chr "a" <=? ch) && (ch <=? chr "f"))
        || ((chr "A" <=? ch) && (ch <=? chr "F")))
  /\ is_class BZLA_STRING_CHAR_CLASS_SMT2 ch
     = (isprint ch || (ch =? chr "009") || (ch =? chr "010") || (ch =? chr "013"))
  /\ is_class BZLA_SYMBOL_CHAR_CLASS_SMT2 ch
     = (isdigit ch || ((chr "a" <=? ch) && (ch <=? chr "z"))
        || ((chr "A" <=? ch) && (ch <=? chr "Z"))
        || existsb (Z.eqb ch) (file_of bzla_extra_symbol_chars_smt2))
  /\ is_class BZLA_QUOTED_SYMBOL_CHAR_CLASS_SMT2 ch
     = (is_class BZLA_STRING_CHAR_CLASS_SMT2 ch
        && negb (ch =? chr "\") && negb (ch =? chr "|"))
  /\ is_class BZLA_KEYWORD_CHAR_CLASS_SMT2 ch
     = is_class BZLA_SYMBOL_CHAR_CLASS_SMT2 ch.
Proof.
  split; [apply is_class_decimal|].
  split.
  { apply (class_by_cases _
             (fun ch => isdigit ch || ((chr "a" <=? ch) && (ch <=? chr "f"))
                        || ((chr "A" <=? ch) && (ch <=? chr "F"))));
      [|vm_compute; reflexivity].
    intros c Hc. unfold isdigit. change (chr "a") with 97. change (chr "f") with 102.
    change (chr "A") with 65. change (chr "F") with 70.
    decide_comparisons; reflexivity. }
  split.
  { apply (class_by_cases _
             (fun ch => isprint ch || (ch =? chr "009") || (ch =? chr "010")
                        || (ch =? chr "013")));
      [|vm_compute; reflexivity].
    intros c Hc. unfold isprint. change (chr "009") with 9.
    change (chr "010") with 10. change (chr "013") with 13.
    decide_comparisons; reflexivity. }
  split.
  { apply (class_by_cases _
             (fun ch => isdigit ch || ((chr "a" <=? ch) && (ch <=? chr "z"))
                        || ((chr "A" <=? ch) && (ch <=? chr "Z"))
                        || existsb (Z.eqb ch) (file_of bzla_extra_symbol_chars_smt2)));
      [|vm_compute; reflexivity].
    intros c Hc. unfold isdigit.
    change (chr "a") with 97. change (chr "z") with 122.
    change (chr "A") with 65. change (chr "Z") with 90.
    change (file_of bzla_extra_symbol_chars_smt2)
      with [43; 45; 47; 42; 61; 37; 63; 33; 46; 36; 95; 126; 38; 94; 60; 62; 64].
    cbn [existsb]. decide_comparisons; reflexivity. }
  split.
  { apply (class_by_cases _
             (fun ch => is_class BZLA_STRING_CHAR_CLASS_SMT2 ch
                        && negb (ch =? chr "\") && negb (ch =? chr "|")));
      [|vm_compute; reflexivity].
    intros c Hc. now rewrite class_out_of_range. }
  apply (class_by_cases _ (is_class BZLA_SYMBOL_CHAR_CLASS_SMT2));
    [|vm_compute; reflexivity].
  intros c Hc. now apply class_out_of_range.
Qed.

End CharClasses.

Section Numerals.
Context `{Backend}.

Lemma set_infile_same (parser : BzlaSMT2Parser) l :
  infile parser = l -> set_infile l parser = parser.
Proof. intros <-. now destruct parser. Qed.

(** [nextch_smt2] at the end of the file. *)
Lemma nextch_eof parser :
  saved parser = false -> prefix parser = None -> infile parser = [] ->
  0 <= coo_y (nextcoo parser) < INT32_MAX ->
  nextch_smt2 parser
  = Some (EOF, set_nextcoo (set_coo_y (coo_y (nextcoo parser) + 1) (nextcoo parser))
                 parser).
Proof.
  intros Hs Hp Hi Hy. unfold nextch_smt2, bind, get, getc, bind, get.
  rewrite Hs, Hp, Hi. unfold modify, ret.
  change (EOF =? chr "010") with false. cbv beta iota.
  unfold INT32_MAX in Hy. rewrite s32_small by lia. unfold assert_.
  cbn [nextcoo set_nextcoo coo_y set_coo_y].
  replace (0 <? coo_y (nextcoo parser) + 1) with true
    by (symmetry; apply Z.ltb_lt; lia).
  reflexivity.
Qed.

(** [nextch_smt2] on the next character of the file, or at its end, when
    that character is not a new line. *)
Lemma nextch_any parser tail :
  saved parser = false -> prefix parser = None -> infile parser = tail ->
  hd EOF tail <> chr "010" ->
  0 <= coo_y (nextcoo parser) < INT32_MAX ->
  nextch_smt2 parser
  = Some (hd EOF tail,
          set_nextcoo (set_coo_y (coo_y (nextcoo parser) + 1) (nextcoo parser))
            (set_infile (tl tail) parser)).
Proof.
  intros Hs Hp Hi Hc Hy. destruct tail as [|c rest].
  - cbn [hd tl]. rewrite (set_infile_same _ _ Hi). now apply nextch_eof.
  - now apply nextch_plain.
Qed.

(** The loop that reads the characters of a token: the characters [cs]
    that pass [test] are appended to the token, and the character after
    them is returned. *)
Lemma read_while_plain (test : Z -> bool) (cs : list Z) :
  forall (fuel : nat) parser tail,
    saved parser = false -> prefix parser = None -> store_tokens parser = false ->
    infile parser = cs ++ tail ->
    Forall (fun c => test c = true /\ c <> chr "010" /\ c <> EOF) cs ->
    test (hd EOF tail) = false -> hd EOF tail <> chr "010" ->
    (length cs < fuel)%nat ->
    0 <= coo_y (nextcoo parser) ->
    coo_y (nextcoo parser) + Z.of_nat (length cs) < INT32_MAX ->
    read_while test fuel parser
    = Some (hd EOF tail,
            set_nextcoo
              (set_coo_y (coo_y (nextcoo parser) + Z.of_nat (length cs) + 1)
                 (nextcoo parser))
              (set_infile (tl tail)
                 (set_token (token parser ++ (to_char <$> cs)) parser))).
Proof.
  induction cs as [|c cs IH]; intros fuel parser tail Hs Hp Hst Hi Hcs Ht Hnl Hfuel Hy0 Hy.
  - destruct fuel as [|fuel]; [cbn in Hfuel; lia|]. cbn [read_while].
    unfold bind. cbn [app] in Hi.
    rewrite (nextch_any parser tail) by (try assumption; cbn [length] in Hy; lia).
    rewrite Ht. cbn [negb]. unfold ret. cbn [length fmap list_fmap].
    rewrite app_nil_r, Z.add_0_r. repeat f_equal; now destruct parser.
  - destruct fuel as [|fuel]; [cbn in Hfuel; lia|]. cbn [read_while].
    apply Forall_cons_1 in Hcs as [(Htc & Hcnl & Hceof) Hcs].
    cbn [length] in Hfuel, Hy. rewrite Nat2Z.inj_succ in Hy.
    unfold bind at 1. cbn [app] in Hi.
    rewrite (nextch_plain parser c (cs ++ tail)) by (try assumption; lia).
    rewrite Htc. cbn [negb]. unfold bind at 1.
    rewrite pushch_plain by (try assumption; now destruct parser).
    rewrite (IH fuel _ tail); try assumption; try (now destruct parser); try lia.
    + cbn [length fmap list_fmap]. rewrite Nat2Z.inj_succ.
      replace (coo_y (nextcoo parser) + Z.succ (Z.of_nat (length cs)) + 1)
        with (coo_y (nextcoo parser) + 1 + Z.of_nat (length cs) + 1) by lia.
      destruct parser. cbn. rewrite <- app_assoc. reflexivity.
    + destruct parser; cbn in *; lia.
    + destruct parser; cbn in *; lia.
Qed.

Lemma c_string_chars (l : list ascii) (rest : list Z) :
  Forall (fun a => 0 < chr a < 128) l ->
  c_string ((to_char <$> (chr <$> l)) ++ 0 :: rest) = string_of_list_ascii l.
Proof.
  induction l as [|a l IH]; intros Hl; [reflexivity|].
  apply Forall_cons_1 in Hl as [Ha Hl].
  cbn [fmap list_fmap app c_string string_of_list_ascii].
  rewrite to_char_small by lia.
  replace (chr a =? 0) with false by (symmetry; apply Z.eqb_neq; lia).
  rewrite Z.mod_small by lia. unfold chr. rewrite N2Z.id, ascii_N_embedding.
  f_equal. now apply IH.
Qed.

Lemma decimal_chars (s : string) :
  decimal s ->
  Forall (fun a => 0 < chr a < 128) (list_ascii_of_string s)
  /\ Forall (fun c => is_class BZLA_DECIMAL_DIGIT_CHAR_CLASS_SMT2 c = true
                      /\ c <> chr "010" /\ c <> EOF) (file_of s).
Proof.
  unfold decimal, file_of. induction (list_ascii_of_string s) as [|a l IH];
    intros Hd; [split; constructor|].
  apply Forall_cons_1 in Hd as [Ha Hd]. destruct (IH Hd) as [IH1 IH2].
  destruct (digit_char a Ha) as [_ Hr].
  split; constructor; try assumption; [lia|].
  rewrite is_class_decimal. unfold isdigit, EOF. change (chr "010") with 10.
  split; [|lia]. apply andb_true_iff. split; apply Z.leb_le; lia.
Qed.

End Numerals.

Section NumeralTokens.
Context `{Backend}.

Lemma lex_decimal parser (a : ascii) (digits : string) (tail : list Z) :
  saved parser = false -> prefix parser = None -> store_tokens parser = false ->
  infile parser = file_of (String a digits) ++ tail ->
  isdigit (chr a) = true -> chr a <> chr "0" -> decimal digits ->
  isdigit (hd EOF tail) = false -> hd EOF tail <> chr "." ->
  hd EOF tail <> chr "010" -> -128 <= hd EOF tail < 128 ->
  0 <= coo_y (nextcoo parser) ->
  coo_y (nextcoo parser) + strlen digits + 2 < INT32_MAX ->
  exists p',
    read_token_smt2 parser = Some (BZLA_DECIMAL_CONSTANT_TAG_SMT2, p')
    /\ c_string (token p') = String a digits
    /\ error p' = error parser
    /\ saved p' = true /\ savedch p' = hd EOF tail /\ infile p' = tl tail
    /\ symbol p' = symbol parser /\ work p' = work parser.
Proof.
  intros Hs Hp Hst Hi Hda Hnz Hdec Hnd Hdot Hnl Hr Hy0 Hy.
  pose proof Hda as Hda'.
  unfold isdigit in Hda'. apply andb_true_iff in Hda' as [Hlo Hhi].
  apply Z.leb_le in Hlo, Hhi. change (chr "0") with 48 in Hnz.
  change (file_of (String a digits)) with (chr a :: file_of digits) in Hi.
  cbn [app] in Hi.
  destruct (decimal_chars digits Hdec) as [Hchars Hclass].
  assert (Hlen : length (file_of digits) = String.length digits).
  { unfold file_of. rewrite length_fmap. clear.
    induction digits; cbn; congruence. }
  unfold strlen in Hy. rewrite <- Hlen in Hy. unfold INT32_MAX in Hy.
  set (d := chr a) in *.
  unfold read_token_smt2, read_token_aux_smt2, bind at 1 2 3 4 5,
    modify at 1 2 3, get at 1.
  cbv beta iota zeta.
  rewrite (read_token_restart_plain _ _ d (file_of digits ++ tail));
    [|exact Hs|exact Hp|exact Hi|unfold EOF; lia
     |unfold isspace_smt2; chr_values; decide_comparisons; reflexivity
     |change (chr ";") with 59; lia
     |unfold INT32_MAX; cbn; lia].
  cbv beta iota.
  repeat match goal with
  | |- context [d =? ?k] =>
      replace (d =? k) with false
        by (symmetry; apply Z.eqb_neq;
            let v := eval vm_compute in k in change k with v; lia)
  end.
  cbv beta iota.
  change (negb (Z.land (cc_smt2 d) BZLA_DECIMAL_DIGIT_CHAR_CLASS_SMT2 =? 0))
    with (is_class BZLA_DECIMAL_DIGIT_CHAR_CLASS_SMT2 d).
  rewrite is_class_decimal, Hda.
  set (fuel := S (S (input_left _))).
  assert (Hfuel : (length (file_of digits) < fuel)%nat).
  { unfold fuel, input_left.
    cbn [saved prefix infile set_last_node set_token set_lastcoo].
    rewrite Hs, Hp, Hi. cbn [length]. rewrite length_app. lia. }
  clearbody fuel.
  unfold bind at 1.
  rewrite pushch_plain; [|exact Hst|unfold EOF; lia].
  unfold bind at 1.
  rewrite (read_while_plain _ (file_of digits) fuel _ tail);
    [|exact Hs|exact Hp|exact Hst|reflexivity|exact Hclass
     |rewrite is_class_decimal; exact Hnd|exact Hnl|exact Hfuel
     |cbn; lia|unfold INT32_MAX; cbn; lia].
  replace (hd EOF tail =? chr ".") with false by (symmetry; now apply Z.eqb_neq).
  unfold bind at 1.
  rewrite savech_plain;
    [|exact Hs|exact Hr|exact Hnl
     |unfold INT32_MAX; cbn; lia].
  unfold bind at 1.
  rewrite pushch_plain; [|exact Hst|discriminate].
  unfold ret. eexists. split; [reflexivity|].
  split; [|cbn; repeat split].
  cbn [token set_token set_nextcoo set_savedch set_saved set_infile].
  change (c_string ((to_char <$> (chr <$> a :: list_ascii_of_string digits)) ++ [0])
          = String a digits).
  rewrite c_string_chars by (constructor; [fold d; lia|exact Hchars]).
  cbn [string_of_list_ascii]. now rewrite string_of_list_ascii_of_string.
Qed.

(** X8. A numeral in the file: when the next characters are a non-zero
    digit, any number of digits, and then a character (or the end of the
    file) that is neither a digit, nor a point, nor a new line, the lexer
    returns a decimal constant whose text is the digits, reports no error,
    keeps the character after the digits as the saved one, and leaves the
    symbol table and the work stack alone. *)
Theorem read_token_decimal parser (a : ascii) (digits : string) (tail : list Z) :
  saved parser = false -> prefix parser = None -> store_tokens parser = false ->
  infile parser = file_of (String a digits) ++ tail ->
  isdigit (chr a) = true -> chr a <> chr "0" -> decimal digits ->
  isdigit (hd EOF tail) = false -> hd EOF tail <> chr "." ->
  hd EOF tail <> chr "010" -> -128 <= hd EOF tail < 128 ->
  0 <= coo_y (nextcoo parser) ->
  coo_y (nextcoo parser) + strlen digits + 2 < INT32_MAX ->
  exists p',
    read_token_smt2 parser = Some (BZLA_DECIMAL_CONSTANT_TAG_SMT2, p')
    /\ c_string (token p') = String a digits
    /\ error p' = error parser
    /\ saved p' = true /\ savedch p' = hd EOF tail /\ infile p' = tl tail
    /\ symbol p' = symbol parser /\ work p' = work parser.
Proof. apply lex_decimal. Qed.

Lemma perr_smt2_reports msg (parser : BzlaSMT2Parser) :
  exists p',
    perr_smt2 msg parser = Some (tt, p')
    /\ reports parser p' msg
    /\ (error parser <> None -> p' = parser)
    /\ p' = set_error (error p') parser.
Proof.
  unfold perr_smt2, modify, reports. destruct (error parser) eqn:E.
  - exists parser. split; [reflexivity|]. split; [discriminate|].
    split; [reflexivity|]. rewrite E. rewrite <- E. now destruct parser.
  - eexists. split; [reflexivity|]. split; [reflexivity|].
    split; [congruence|]. reflexivity.
Qed.

Lemma str2uint32_loop_not_decimal (s : string) :
  forall res, ~ decimal s -> str2uint32_loop s res = None.
Proof.
  unfold decimal. induction s as [|a s IH]; intros res Hs.
  - exfalso. apply Hs. constructor.
  - cbn [str2uint32_loop].
    destruct ((UINT32_MAX / 10 <? res) || (c_char a <? chr "0")
              || (chr "9" <? c_char a)) eqn:E; [reflexivity|].
    apply orb_false_iff in E as [E E3]. apply orb_false_iff in E as [E1 E2].
    assert (Ha : isdigit (c_char a) = true).
    { unfold isdigit. apply Z.ltb_ge in E2, E3.
      change (chr "0") with 48 in E2. change (chr "9") with 57 in E3.
      apply andb_true_iff. split; apply Z.leb_le; lia. }
    destruct (u32 _ <? _); [reflexivity|].
    apply IH. intros Hs'. apply Hs. cbn [list_ascii_of_string].
    now constructor.
Qed.

Lemma str2uint32_loop_overflow (s : string) :
  forall res,
    decimal s -> 0 <= res <= UINT32_MAX ->
    UINT32_MAX
      < fold_left (fun v a => 10 * v + (chr a - chr "0")) (list_ascii_of_string s) res ->
    str2uint32_loop s res = None.
Proof.
  unfold decimal. induction s as [|a s IH]; intros res Hs Hr Hv.
  - cbn in Hv. lia.
  - cbn [list_ascii_of_string] in *. inversion Hs as [|? ? Ha Hs']; subst.
    cbn [fold_left] in Hv. destruct (digit_char a Ha) as [Hc Hd].
    change (chr "0") with 48 in *. unfold UINT32_MAX in *.
    cbn [str2uint32_loop]. rewrite Hc. change (chr "0") with 48.
    change (chr "9") with 57. change (UINT32_MAX / 10) with 429496729.
    destruct (Z.ltb_spec 429496729 res) as [Hbig|Hsmall]; [reflexivity|].
    replace (chr a <? 48) with false by (symmetry; apply Z.ltb_ge; lia).
    replace (57 <? chr a) with false by (symmetry; apply Z.ltb_ge; lia).
    cbn [orb].
    assert (Hres : (if negb (res =? 0) then u64 (res * 10) else res) = 10 * res).
    { destruct (res =? 0) eqn:E; cbn [negb].
      - apply Z.eqb_eq in E. lia.
      - unfold u64. rewrite Z.mod_small; lia. }
    rewrite Hres. unfold UINT32_MAX, u32.
    rewrite (Z.mod_small (4294967295 - _)) by lia.
    destruct (Z.ltb_spec (4294967295 - (chr a - 48)) (10 * res)) as [Ho|Hn];
      [reflexivity|].
    unfold u64. rewrite Z.mod_small by lia.
    apply IH; [assumption|lia|exact Hv].
Qed.

(** X9. [str2uint32_smt2] on every string.  A string of decimal digits
    whose value is at most [UINT32_MAX] is converted to its value, unless
    the value is zero and zero is not allowed, which is reported as
    "expected positive non-zero 32-bit integer"; a string of digits whose
    value exceeds [UINT32_MAX], and a string with a character that is not a
    digit, are reported as "invalid 32-bit integer".  The overflow test of
    the loop is exact. *)
Theorem str2uint32_smt2_spec (allow_zero : bool) (str : string) parser :
  (decimal str -> dec_value str <= UINT32_MAX ->
   allow_zero = true \/ 0 < dec_value str ->
   str2uint32_smt2 allow_zero str parser = Some (Some (dec_value str), parser))
  /\ (decimal str -> dec_value str = 0 -> allow_zero = false ->
      exists p',
        str2uint32_smt2 allow_zero str parser = Some (None, p')
        /\ reports parser p'
             ("expected positive non-zero 32-bit integer at '" +:+ str +:+ "'"))
  /\ (~ decimal str \/ (decimal str /\ UINT32_MAX < dec_value str) ->
      exists p',
        str2uint32_smt2 allow_zero str parser = Some (None, p')
        /\ reports parser p' ("invalid 32-bit integer '" +:+ str +:+ "'")).
Proof.
  split; [|split].
  - intros Hd Hv Hz. unfold str2uint32_smt2.
    rewrite (str2uint32_loop_value _ 0 Hd ltac:(lia) Hv).
    fold (dec_value str).
    pose proof (dec_step_mono _ 0 Hd ltac:(lia)) as H0.
    fold (dec_value str) in H0.
    replace (negb allow_zero && (dec_value str =? 0)) with false.
    + unfold bind, assert_.
      replace (dec_value str <=? UINT32_MAX) with true
        by (symmetry; now apply Z.leb_le).
      unfold ret, u32. unfold UINT32_MAX in Hv. rewrite Z.mod_small by lia.
      reflexivity.
    + symmetry. destruct Hz as [-> | Hz]; [reflexivity|].
      apply andb_false_iff. right. apply Z.eqb_neq. lia.
  - intros Hd Hv ->. unfold str2uint32_smt2.
    rewrite (str2uint32_loop_value _ 0 Hd ltac:(lia))
      by (fold (dec_value str); rewrite Hv; discriminate).
    fold (dec_value str). rewrite Hv. cbn [negb andb Z.eqb].
    destruct (perr_smt2_reports
                ("expected positive non-zero 32-bit integer at '" +:+ str +:+ "'")
                parser) as (p' & Hrun & Hrep & _).
    exists p'. unfold bind. rewrite Hrun. now split.
  - intros Hbad. unfold str2uint32_smt2.
    assert (Hloop : str2uint32_loop str 0 = None).
    { destruct Hbad as [Hnd|[Hd Hv]].
      - now apply str2uint32_loop_not_decimal.
      - apply str2uint32_loop_overflow; [exact Hd|unfold UINT32_MAX; lia|exact Hv]. }
    rewrite Hloop.
    destruct (perr_smt2_reports ("invalid 32-bit integer '" +:+ str +:+ "'") parser)
      as (p' & Hrun & Hrep & _).
    exists p'. unfold bind. rewrite Hrun. now split.
Qed.

(** X10. [parse_uint32_smt2] on a numeral in the file (a non-zero digit
    and any number of digits, followed by a character that is neither a
    digit, nor a point, nor a new line): a numeral whose value is at most
    [UINT32_MAX] is returned as its value, with the character after it kept
    as the saved one; a larger numeral is reported as an invalid 32-bit
    integer. *)
Theorem parse_uint32_reads_numeral (allow_zero : bool) parser (a : ascii)
    (digits : string) (tail : list Z) :
  saved parser = false -> prefix parser = None -> store_tokens parser = false ->
  infile parser = file_of (String a digits) ++ tail ->
  isdigit (chr a) = true -> chr a <> chr "0" -> decimal digits ->
  isdigit (hd EOF tail) = false -> hd EOF tail <> chr "." ->
  hd EOF tail <> chr "010" -> -128 <= hd EOF tail < 128 ->
  0 <= coo_y (nextcoo parser) ->
  coo_y (nextcoo parser) + strlen digits + 2 < INT32_MAX ->
  (dec_value (String a digits) <= UINT32_MAX ->
   exists p',
     parse_uint32_smt2 allow_zero parser
     = Some (Some (dec_value (String a digits)), p')
     /\ error p' = error parser
     /\ saved p' = true /\ savedch p' = hd EOF tail /\ infile p' = tl tail)
  /\ (UINT32_MAX < dec_value (String a digits) ->
      exists p',
        parse_uint32_smt2 allow_zero parser = Some (None, p')
        /\ reports parser p'
             ("invalid 32-bit integer '" +:+ String a digits +:+ "'")
        /\ infile p' = tl tail).
Proof.
  intros Hs Hp Hst Hi Hda Hnz Hdec Hnd Hdot Hnl Hr Hy0 Hy.
  destruct (lex_decimal parser a digits tail Hs Hp Hst Hi Hda Hnz Hdec Hnd Hdot
              Hnl Hr Hy0 Hy)
    as (p1 & Hrun & Htok & Herr & Hsaved & Hch & Hin & _).
  assert (Hdec' : decimal (String a digits)).
  { unfold decimal. cbn [list_ascii_of_string]. constructor; [|exact Hdec].
    unfold c_char. pose proof Hda as Hda'. unfold isdigit in Hda'.
    apply andb_true_iff in Hda' as [_ Hhi]. apply Z.leb_le in Hhi.
    replace (chr a <? 128) with true by (symmetry; apply Z.ltb_lt; lia).
    exact Hda. }
  assert (Hpos : 0 < dec_value (String a digits)).
  { unfold dec_value. cbn [list_ascii_of_string fold_left].
    pose proof (dec_step_mono (list_ascii_of_string digits)
                  (10 * 0 + (chr a - chr "0")) Hdec) as Hm.
    unfold isdigit in Hda. apply andb_true_iff in Hda as [Hlo _].
    apply Z.leb_le in Hlo. change (chr "0") with 48 in *. lia. }
  split.
  - intros Hv. exists p1. split; [|now repeat split].
    rewrite <- Htok. apply parse_uint32_decimal; rewrite ?Htok; try assumption.
    now right.
  - intros Hv. unfold parse_uint32_smt2, bind at 1. rewrite Hrun.
    change (BZLA_DECIMAL_CONSTANT_TAG_SMT2 =? BZLA_INVALID_TAG_SMT2) with false.
    change (BZLA_DECIMAL_CONSTANT_TAG_SMT2 =? EOF) with false.
    rewrite Z.eqb_refl. cbn [negb]. unfold bind at 1, get at 1. rewrite Htok.
    unfold str2uint32_smt2.
    rewrite (str2uint32_loop_overflow (String a digits) 0 Hdec'
               ltac:(unfold UINT32_MAX; lia) Hv).
    destruct (perr_smt2_reports
                ("invalid 32-bit integer '" +:+ String a digits +:+ "'") p1)
      as (p' & Hrun' & Hrep & _ & Hframe).
    exists p'. unfold bind. rewrite Hrun'. split; [reflexivity|].
    split.
    + unfold reports in *. rewrite Herr in Hrep. exact Hrep.
    + rewrite Hframe. cbn. exact Hin.
Qed.

End NumeralTokens.

(** ** The checks on the arguments of an operator *)

Section ArgumentChecks.
Context `{Backend}.

(** A loop that returns at the first element whose body returns 0. *)
Lemma mall_first_false (range1 : list Z) i (range2 : list Z) (body : Z -> M bool)
    parser p' :
  (forall j, j ∈ range1 -> body j parser = Some (true, parser)) ->
  body i parser = Some (false, p') ->
  mall (range1 ++ i :: range2) body parser = Some (false, p').
Proof.
  induction range1 as [|j range1 IH]; intros Hgood Hbad; cbn [app mall].
  - unfold bind. now rewrite Hbad.
  - unfold bind. rewrite Hgood by left.
    apply IH; [|exact Hbad]. intros k Hk. apply Hgood. now right.
Qed.

Lemma seqZ_split (o n k : Z) :
  0 <= k < n -> seqZ o n = seqZ o k ++ (o + k) :: seqZ (o + k + 1) (n - k - 1).
Proof.
  intros Hk. replace n with (k + (1 + (n - k - 1))) at 1 by lia.
  rewrite seqZ_app by lia. f_equal.
  rewrite seqZ_cons by lia. f_equal. f_equal; lia.
Qed.

Lemma node_name_at_op parser stack lpar op args es node :
  term_open parser stack lpar op args es -> item_u op = ItemNode node ->
  node_name_at (S (length stack)) parser = Some (node_name node, parser).
Proof.
  intros Hopen Hnode. unfold node_name_at, bind.
  rewrite (item_at_lookup _ _ _ (op_lookup _ _ _ _ _ _ Hopen)).
  unfold item_node. now rewrite Hnode.
Qed.

Lemma s32_id z : - 2 ^ 31 <= z < 2 ^ 31 -> s32 z = z.
Proof. apply s32_small. Qed.

Lemma check_nargs_cases parser stack lpar op args es node (required : Z) :
  term_open parser stack lpar op args es ->
  item_u op = ItemNode node ->
  0 <= required < 2 ^ 31 -> Z.of_nat (length es) < 2 ^ 31 ->
  exists p',
    check_nargs_smt2 (S (length stack)) (Z.of_nat (length es)) required parser
    = Some (Z.of_nat (length es) =? required, p')
    /\ (Z.of_nat (length es) = required -> p' = parser)
    /\ (Z.of_nat (length es) <> required ->
        work p' = work parser
        /\ reports parser p'
             (let diff := Z.of_nat (length es) - required in
              if diff =? -1 then
                "one argument to '" +:+ node_name node +:+ "' missing"
              else if diff <? 0 then
                fmt_d (- diff) +:+ " arguments to '" +:+ node_name node
                +:+ "' missing"
              else if diff =? 1 then
                "'" +:+ node_name node +:+ "' has one argument too much"
              else
                "'" +:+ node_name node +:+ "' has " +:+ fmt_d diff
                +:+ " arguments too much")).
Proof.
  intros Hopen Hnode Hr Hn. unfold check_nargs_smt2, bind at 1.
  rewrite (node_name_at_op _ _ _ _ _ _ _ Hopen Hnode).
  unfold bind at 1. rewrite (item_at_lookup _ _ _ (op_lookup _ _ _ _ _ _ Hopen)).
  rewrite s32_id by lia. cbv zeta.
  set (diff := Z.of_nat (length es) - required).
  destruct (Z.eqb_spec (Z.of_nat (length es)) required) as [Heq|Hne].
  - exists parser. replace diff with 0 by (unfold diff; lia).
    split; [reflexivity|]. split; [reflexivity|]. intros Hc. contradiction.
  - assert (Hd : diff <> 0) by (unfold diff; lia).
    replace (diff =? 0) with false by (symmetry; now apply Z.eqb_neq).
    cbn [negb]. unfold bind at 1, modify at 1.
    set (q := set_perrcoo (item_coo op) parser).
    assert (Hq : forall msg (v : bool),
              exists p', (run perr_smt2 msg; ret v) q = Some (v, p')
                         /\ work p' = work parser /\ reports parser p' msg).
    { intros msg v. destruct (perr_smt2_reports msg q) as (p' & Hrun & Hrep & _ & Hf).
      exists p'. unfold bind. rewrite Hrun. split; [reflexivity|].
      split; [rewrite Hf; reflexivity|exact Hrep]. }
    destruct (Z.eqb_spec diff (-1)).
    + destruct (Hq ("one argument to '" +:+ node_name node +:+ "' missing") false)
        as (p' & Hrun & Hw & Hrep).
      exists p'. split; [exact Hrun|]. split; [intros; contradiction|now split].
    + destruct (Z.ltb_spec diff 0).
      * destruct (Hq (fmt_d (- diff) +:+ " arguments to '" +:+ node_name node
                      +:+ "' missing") false) as (p' & Hrun & Hw & Hrep).
        exists p'. split; [exact Hrun|]. split; [intros; contradiction|now split].
      * destruct (Z.eqb_spec diff 1).
        -- destruct (Hq ("'" +:+ node_name node +:+ "' has one argument too much")
                       false) as (p' & Hrun & Hw & Hrep).
           exists p'. split; [exact Hrun|]. split; [intros; contradiction|now split].
        -- replace (0 <? diff) with true by (symmetry; apply Z.ltb_lt; lia).
           destruct (Hq ("'" +:+ node_name node +:+ "' has " +:+ fmt_d diff
                         +:+ " arguments too much") false)
             as (p' & Hrun & Hw & Hrep).
           exists p'. split; [exact Hrun|].
           split; [intros; contradiction|now split].
Qed.

(** X11. [check_nargs_smt2] on an operator with [n] arguments when [r]
    are required: it returns true and changes nothing when [n = r];
    otherwise it returns false and reports, at the place of the operator,
    that one argument or [r - n] arguments are missing, or that the
    operator has one argument or [n - r] arguments too much. *)
Theorem check_nargs_smt2_spec parser stack lpar op args es node (required : Z) :
  term_open parser stack lpar op args es ->
  item_u op = ItemNode node ->
  0 <= required < 2 ^ 31 -> Z.of_nat (length es) < 2 ^ 31 ->
  exists p',
    check_nargs_smt2 (S (length stack)) (Z.of_nat (length es)) required parser
    = Some (Z.of_nat (length es) =? required, p')
    /\ (Z.of_nat (length es) = required -> p' = parser)
    /\ (Z.of_nat (length es) <> required ->
        work p' = work parser
        /\ reports parser p'
             (let diff := Z.of_nat (length es) - required in
              if diff =? -1 then
                "one argument to '" +:+ node_name node +:+ "' missing"
              else if diff <? 0 then
                fmt_d (- diff) +:+ " arguments to '" +:+ node_name node
                +:+ "' missing"
              else if diff =? 1 then
                "'" +:+ node_name node +:+ "' has one argument too much"
              else
                "'" +:+ node_name node +:+ "' has " +:+ fmt_d diff
                +:+ " arguments too much")).
Proof. apply check_nargs_cases. Qed.

Lemma lookup_good (good rest : list BoolectorNode) bad k e :
  (good ++ bad :: rest) !! k = Some e -> (k < length good)%nat -> e ∈ good.
Proof.
  intros Hk Hlt. rewrite lookup_app_l in Hk by exact Hlt.
  now apply list_elem_of_lookup_2 in Hk.
Qed.

Lemma lookup_bad (good rest : list BoolectorNode) bad :
  (good ++ bad :: rest) !! length good = Some bad.
Proof. now rewrite list_lookup_middle. Qed.

(** The loop of a check over the arguments, up to the first argument that
    fails it. *)
Lemma check_args_first_bad parser stack lpar op args good bad rest
    (body : Z -> M bool) p' :
  term_open parser stack lpar op args (good ++ bad :: rest) ->
  Z.of_nat (length (good ++ bad :: rest)) < 2 ^ 31 ->
  (forall k e, (good ++ bad :: rest) !! k = Some e -> e ∈ good ->
     body (Z.of_nat (S k)) parser = Some (true, parser)) ->
  body (Z.of_nat (S (length good))) parser = Some (false, p') ->
  mall (seqZ 1 (s32 (Z.of_nat (length (good ++ bad :: rest))))) body parser
  = Some (false, p').
Proof.
  intros Hopen Hn Hgood Hbad. rewrite s32_id by lia.
  assert (Hlen : Z.of_nat (length good) < Z.of_nat (length (good ++ bad :: rest))).
  { rewrite length_app. cbn [length]. lia. }
  rewrite (seqZ_split 1 _ (Z.of_nat (length good))) by lia.
  apply mall_first_false.
  - intros j Hj. apply elem_of_seqZ in Hj.
    destruct (arg_index (good ++ bad :: rest) j ltac:(lia)) as (k & e & -> & Hk).
    apply (Hgood k e Hk). apply (lookup_good good rest bad k e Hk). lia.
  - replace (1 + Z.of_nat (length good)) with (Z.of_nat (S (length good))) by lia.
    exact Hbad.
Qed.

Lemma check_not_array_or_uf_args_smt2_bad_all parser stack lpar op args es node :
  term_open parser stack lpar op args es ->
  item_u op = ItemNode node ->
  Z.of_nat (length es) < 2 ^ 31 ->
  (Forall (fun e => boolector_is_array e = false /\ boolector_is_fun e = false) es ->
   check_not_array_or_uf_args_smt2 (S (length stack)) (Z.of_nat (length es)) parser
   = Some (true, parser))
  /\ (forall good bad rest,
        es = good ++ bad :: rest ->
        Forall (fun e => boolector_is_array e = false
                         /\ boolector_is_fun e = false) good ->
        boolector_is_array bad = true \/ boolector_is_fun bad = true ->
        exists p',
          check_not_array_or_uf_args_smt2 (S (length stack))
            (Z.of_nat (length es)) parser = Some (false, p')
          /\ work p' = work parser
          /\ reports parser p'
               ("argument " +:+ fmt_d (Z.of_nat (length good) + 1) +:+ " of '"
                +:+ node_name node
                +:+ (if boolector_is_array bad then "' is an array"
                     else "' is a function"))).
Proof.
  intros Hopen Hnode Hn. split.
  - intros Hes. exact (check_not_array_or_uf_args_ok _ _ _ _ _ _ Hopen Hes).
  - intros good bad rest -> Hgood Hbad.
    destruct (arg_lookup _ _ _ _ _ _ Hopen (length good) bad
                (lookup_bad good rest bad)) as (item & Hl & _ & Hu).
    set (msg := "argument " +:+ fmt_d (Z.of_nat (length good) + 1) +:+ " of '"
                +:+ node_name node
                +:+ (if boolector_is_array bad then "' is an array"
                     else "' is a function")).
    destruct (perr_smt2_reports msg (set_perrcoo (item_coo item) parser))
      as (p' & Hrun & Hrep & _ & Hf).
    exists p'. split; [|split; [rewrite Hf; reflexivity|exact Hrep]].
    unfold check_not_array_or_uf_args_smt2.
    apply (check_args_first_bad _ _ _ _ _ _ _ _ _ _ Hopen Hn).
    + intros k e Hk He.
      destruct (arg_lookup _ _ _ _ _ _ Hopen k e Hk) as (item' & Hl' & _ & Hu').
      pose proof (proj1 (list.Forall_forall _ _) Hgood e He) as (Ha & Hf').
      unfold bind. rewrite (item_at_lookup _ _ _ Hl'). unfold item_exp.
      rewrite Hu'. unfold ret at 1. now rewrite Ha, Hf'.
    + unfold bind at 1. rewrite (item_at_lookup _ _ _ Hl).
      unfold bind at 1, item_exp. rewrite Hu. unfold ret at 1.
      pose proof (term_open_perrcoo _ _ _ _ _ _ (item_coo item) Hopen) as Hq.
      replace (Z.of_nat (S (length good))) with (Z.of_nat (length good) + 1) by lia.
      destruct (boolector_is_array bad) eqn:Ea.
      * unfold bind at 1, modify at 1. unfold bind at 1.
        rewrite (node_name_at_op _ _ _ _ _ _ _ Hq Hnode).
        unfold bind. fold msg. now rewrite Hrun.
      * destruct Hbad as [?|Hfun]; [discriminate|]. rewrite Hfun.
        unfold bind at 1, modify at 1. unfold bind at 1.
        rewrite (node_name_at_op _ _ _ _ _ _ _ Hq Hnode).
        unfold bind. fold msg. now rewrite Hrun.
Qed.

(** X12. [check_not_array_or_uf_args_smt2]: it returns true and changes
    nothing when no argument is an array or a function; otherwise it
    returns false and reports the first such argument, by its position and
    the name of the operator, as an array or as a function. *)
Theorem check_not_array_or_uf_args_smt2_spec parser stack lpar op args es node :
  term_open parser stack lpar op args es ->
  item_u op = ItemNode node ->
  Z.of_nat (length es) < 2 ^ 31 ->
  (Forall (fun e => boolector_is_array e = false /\ boolector_is_fun e = false) es ->
   check_not_array_or_uf_args_smt2 (S (length stack)) (Z.of_nat (length es)) parser
   = Some (true, parser))
  /\ (forall good bad rest,
        es = good ++ bad :: rest ->
        Forall (fun e => boolector_is_array e = false
                         /\ boolector_is_fun e = false) good ->
        boolector_is_array bad = true \/ boolector_is_fun bad = true ->
        exists p',
          check_not_array_or_uf_args_smt2 (S (length stack))
            (Z.of_nat (length es)) parser = Some (false, p')
          /\ work p' = work parser
          /\ reports parser p'
               ("argument " +:+ fmt_d (Z.of_nat (length good) + 1) +:+ " of '"
                +:+ node_name node
                +:+ (if boolector_is_array bad then "' is an array"
                     else "' is a function"))).
Proof. apply check_not_array_or_uf_args_smt2_bad_all. Qed.

End ArgumentChecks.

(** ** The reductions of the Boolean and bit-vector operators *)

Section ReductionFacts.
Context `{Backend}.
Variable boolector_bv_xor : BoolectorNode -> BoolectorNode -> BoolectorNode.
Variable boolector_bv_not : BoolectorNode -> BoolectorNode.

Lemma fold_opt_left (f : BoolectorNode -> BoolectorNode -> BoolectorNode)
    (xs : list BoolectorNode) a :
  fold_left
    (fun (acc : option BoolectorNode) x =>
       Some (match acc with Some old => f old x | None => x end)) xs (Some a)
  = Some (fold_left f xs a).
Proof.
  revert a. induction xs as [|x xs IH]; intros a; [reflexivity|].
  cbn [fold_left]. apply IH.
Qed.

Lemma fmap_rev {A B} (f : A -> B) (l : list A) : f <$> rev l = rev (f <$> l).
Proof.
  induction l as [|x l IH]; [reflexivity|].
  cbn [rev fmap list_fmap]. rewrite fmap_app, IH. reflexivity.
Qed.

Lemma elem_of_rev {A} (x : A) (l : list A) : x ∈ rev l -> x ∈ l.
Proof. intros Hx. apply list_elem_of_In, in_rev, list_elem_of_In, Hx. Qed.

Lemma fold_args_left_open parser stack lpar op args e1 es'
    (f : BoolectorNode -> BoolectorNode -> BoolectorNode) :
  term_open parser stack lpar op args (e1 :: es') ->
  fold_args_left (S (length stack)) (Z.of_nat (length (e1 :: es'))) f parser
  = Some (Some (fold_left f es' e1), parser).
Proof.
  intros Hopen. unfold fold_args_left.
  rewrite (mfold_pure _ _
             (fun exp i =>
                Some (match exp with
                      | Some old => f old (nth (Z.to_nat (i - 1)) (e1 :: es') e1)
                      | None => nth (Z.to_nat (i - 1)) (e1 :: es') e1
                      end))).
  - rewrite (fold_left_seqZ
               (fun (acc : option BoolectorNode) x =>
                  Some (match acc with Some old => f old x | None => x end))
               (fun i => nth (Z.to_nat (i - 1)) (e1 :: es') e1) (e1 :: es')).
    + cbn [fold_left]. now rewrite fold_opt_left.
    + intros k x Hk. replace (Z.to_nat (1 + Z.of_nat k - 1)) with k by lia.
      now apply nth_lookup_Some.
  - intros a i Hi. apply elem_of_seqZ in Hi. unfold bind.
    rewrite (exp_at_nth _ _ _ _ _ _ Hopen e1 i) by lia.
    now destruct a.
Qed.

Lemma fold_args_right_open parser stack lpar op args init last
    (f : BoolectorNode -> BoolectorNode -> BoolectorNode) :
  term_open parser stack lpar op args (init ++ [last]) ->
  fold_args_right (S (length stack)) (Z.of_nat (length (init ++ [last]))) f parser
  = Some (Some (fold_right f last init), parser).
Proof.
  intros Hopen. unfold fold_args_right.
  set (es := init ++ [last]) in *.
  rewrite (mfold_pure _ _
             (fun exp i =>
                Some (match exp with
                      | Some old => f (nth (Z.to_nat (i - 1)) es last) old
                      | None => nth (Z.to_nat (i - 1)) es last
                      end))).
  - f_equal. f_equal.
    assert (Hmap : (fun i => nth (Z.to_nat (i - 1)) es last)
                     <$> seqZ 1 (Z.of_nat (length es)) = es).
    { apply list_eq. intros k. rewrite list_lookup_fmap.
      destruct (es !! k) as [x|] eqn:Hk.
      - rewrite lookup_seqZ_lt by (apply lookup_lt_Some in Hk; lia).
        cbn. f_equal. replace (Z.to_nat (1 + Z.of_nat k - 1)) with k by lia.
        now apply nth_lookup_Some.
      - rewrite lookup_seqZ_ge; [reflexivity|].
        apply lookup_ge_None in Hk. lia. }
    transitivity
      (fold_left
         (fun (acc : option BoolectorNode) x =>
            Some (match acc with Some old => f x old | None => x end))
         (rev es) None).
    + rewrite <- Hmap at 2. rewrite <- fmap_rev. clear.
      generalize (rev (seqZ 1 (Z.of_nat (length es)))) (@None BoolectorNode).
      intros l. induction l as [|i l IH]; intros a; [reflexivity|].
      cbn [fmap list_fmap fold_left]. apply IH.
    + unfold es. rewrite rev_unit. cbn [fold_left].
      rewrite <- (rev_involutive init) at 2. rewrite fold_left_rev_right.
      generalize (rev init). intros l. clear. revert last.
      induction l as [|x l IH]; intros a; [reflexivity|].
      cbn [fold_left]. apply IH.
  - intros a i Hi. apply elem_of_rev, elem_of_seqZ in Hi. unfold bind.
    rewrite (exp_at_nth _ _ _ _ _ _ Hopen last i) by (fold es; lia).
    now destruct a.
Qed.

Lemma check_boolean_args_ok parser stack lpar op args es :
  term_open parser stack lpar op args es ->
  Z.of_nat (length es) < 2 ^ 31 ->
  Forall (fun e => boolector_is_array e = false /\ boolector_bv_get_width e = 1) es ->
  check_boolean_args_smt2 (S (length stack)) (Z.of_nat (length es)) parser
  = Some (true, parser).
Proof.
  intros Hopen Hn Hes. unfold check_boolean_args_smt2.
  rewrite s32_id by lia. apply mall_true. intros i Hi. apply elem_of_seqZ in Hi.
  destruct (arg_index es i ltac:(lia)) as (k & e & -> & Hk).
  destruct (arg_lookup _ _ _ _ _ _ Hopen k e Hk) as (item & Hl & _ & Hu).
  pose proof (proj1 (list.Forall_forall _ _) Hes e (list_elem_of_lookup_2 _ k _ Hk))
    as (Ha & Hw).
  unfold bind. rewrite (item_at_lookup _ _ _ Hl). unfold item_exp. rewrite Hu.
  unfold ret at 1. now rewrite Ha, Hw.
Qed.

Lemma check_boolean_args_bad parser stack lpar op args good bad rest node :
  term_open parser stack lpar op args (good ++ bad :: rest) ->
  item_u op = ItemNode node ->
  Z.of_nat (length (good ++ bad :: rest)) < 2 ^ 31 ->
  Forall (fun e => boolector_is_array e = false /\ boolector_bv_get_width e = 1)
    good ->
  boolector_is_array bad = true \/ boolector_bv_get_width bad <> 1 ->
  exists p',
    check_boolean_args_smt2 (S (length stack))
      (Z.of_nat (length (good ++ bad :: rest))) parser = Some (false, p')
    /\ work p' = work parser
    /\ reports parser p'
         ("argument " +:+ fmt_d (Z.of_nat (length good) + 1) +:+ " of '"
          +:+ node_name node
          +:+ (if boolector_is_array bad then "' is an array term"
               else "' is a bit-vector of width "
                    +:+ fmt_d (s32 (boolector_bv_get_width bad)))).
Proof.
  intros Hopen Hnode Hn Hgood Hbad.
  destruct (arg_lookup _ _ _ _ _ _ Hopen (length good) bad
              (lookup_bad good rest bad)) as (item & Hl & _ & Hu).
  set (msg := "argument " +:+ fmt_d (Z.of_nat (length good) + 1) +:+ " of '"
              +:+ node_name node
              +:+ (if boolector_is_array bad then "' is an array term"
                   else "' is a bit-vector of width "
                        +:+ fmt_d (s32 (boolector_bv_get_width bad)))).
  destruct (perr_smt2_reports msg (set_perrcoo (item_coo item) parser))
    as (p' & Hrun & Hrep & _ & Hf).
  exists p'. split; [|split; [rewrite Hf; reflexivity|exact Hrep]].
  unfold check_boolean_args_smt2.
  apply (check_args_first_bad _ _ _ _ _ _ _ _ _ _ Hopen Hn).
  - intros k e Hk He.
    destruct (arg_lookup _ _ _ _ _ _ Hopen k e Hk) as (item' & Hl' & _ & Hu').
    pose proof (proj1 (list.Forall_forall _ _) Hgood e He) as (Ha & Hw).
    unfold bind. rewrite (item_at_lookup _ _ _ Hl'). unfold item_exp.
    rewrite Hu'. unfold ret at 1. now rewrite Ha, Hw.
  - unfold bind at 1. rewrite (item_at_lookup _ _ _ Hl).
    unfold bind at 1, item_exp. rewrite Hu. unfold ret at 1.
    pose proof (term_open_perrcoo _ _ _ _ _ _ (item_coo item) Hopen) as Hq.
    replace (Z.of_nat (S (length good))) with (Z.of_nat (length good) + 1) by lia.
    unfold msg in Hrun. destruct (boolector_is_array bad) eqn:Ea.
    + unfold bind at 1, modify at 1. unfold bind at 1.
      rewrite (node_name_at_op _ _ _ _ _ _ _ Hq Hnode).
      unfold bind. now rewrite Hrun.
    + destruct Hbad as [?|Hw]; [discriminate|]. cbv zeta.
      replace (boolector_bv_get_width bad =? 1) with false
        by (symmetry; now apply Z.eqb_neq).
      cbn [negb]. unfold bind at 1, modify at 1. unfold bind at 1.
      rewrite (node_name_at_op _ _ _ _ _ _ _ Hq Hnode).
      unfold bind. now rewrite Hrun.
Qed.

Lemma missing_argument parser stack lpar op args es node :
  term_open parser stack lpar op args es ->
  item_u op = ItemNode node ->
  exists p',
    (run modify (set_perrcoo (item_coo op));
     do name <- node_name_at (S (length stack));
     run perr_smt2 ("argument to '" +:+ name +:+ "' missing");
     ret 0) parser = Some (0, p')
    /\ work p' = work parser
    /\ reports parser p' ("argument to '" +:+ node_name node +:+ "' missing").
Proof.
  intros Hopen Hnode.
  pose proof (term_open_perrcoo _ _ _ _ _ _ (item_coo op) Hopen) as Hq.
  destruct (perr_smt2_reports ("argument to '" +:+ node_name node +:+ "' missing")
              (set_perrcoo (item_coo op) parser))
    as (p' & Hrun & Hrep & _ & Hf).
  exists p'. unfold bind at 1, modify at 1. unfold bind at 1.
  rewrite (node_name_at_op _ _ _ _ _ _ _ Hq Hnode). unfold bind. rewrite Hrun.
  split; [reflexivity|]. split; [rewrite Hf; reflexivity|exact Hrep].
Qed.

(** X13. [close_term_bin_bool] on the arguments of [=>], [and], [or] or
    [xor].  With fewer than two arguments it reports that an argument is
    missing.  With two or more arguments that are Boolean (no array, width
    1), the items of the term are replaced by one expression: for [=>] the
    arguments combined from the right, [a => (b => c)], for the other
    operators the arguments combined from the left, [(a op b) op c].  The
    first argument that is not Boolean is reported by its position, as an
    array term or as a bit-vector of its width. *)
Theorem close_term_bin_bool_spec parser stack lpar op args es node
    (fun_ : BoolectorNode -> BoolectorNode -> BoolectorNode) :
  term_open parser stack lpar op args es ->
  item_u op = ItemNode node ->
  item_tag op = BZLA_IMPLIES_TAG_SMT2 \/ item_tag op = BZLA_AND_TAG_SMT2
  \/ item_tag op = BZLA_OR_TAG_SMT2 \/ item_tag op = BZLA_XOR_TAG_SMT2 ->
  Z.of_nat (length es) < 2 ^ 31 ->
  ((length es < 2)%nat ->
   exists p',
     close_term_bin_bool (length stack) (S (length stack))
       (Z.of_nat (length es)) fun_ parser = Some (0, p')
     /\ work p' = work parser
     /\ reports parser p' ("argument to '" +:+ node_name node +:+ "' missing"))
  /\ (forall e1 init last,
        es = e1 :: init ++ [last] ->
        Forall (fun e => boolector_is_array e = false
                         /\ boolector_bv_get_width e = 1) es ->
        close_term_bin_bool (length stack) (S (length stack))
          (Z.of_nat (length es)) fun_ parser
        = Some (1, set_work
                     (stack ++ [set_item_u
                                  (ItemExp
                                     (if item_tag op =? BZLA_IMPLIES_TAG_SMT2
                                      then fold_right fun_ last (e1 :: init)
                                      else fold_left fun_ (init ++ [last]) e1))
                                  (set_item_tag BZLA_EXP_TAG_SMT2 lpar)])
                     parser))
  /\ (forall good bad rest,
        es = good ++ bad :: rest -> (2 <= length es)%nat ->
        Forall (fun e => boolector_is_array e = false
                         /\ boolector_bv_get_width e = 1) good ->
        boolector_is_array bad = true \/ boolector_bv_get_width bad <> 1 ->
        exists p',
          close_term_bin_bool (length stack) (S (length stack))
            (Z.of_nat (length es)) fun_ parser = Some (0, p')
          /\ work p' = work parser
          /\ reports parser p'
               ("argument " +:+ fmt_d (Z.of_nat (length good) + 1) +:+ " of '"
                +:+ node_name node
                +:+ (if boolector_is_array bad then "' is an array term"
                     else "' is a bit-vector of width "
                          +:+ fmt_d (s32 (boolector_bv_get_width bad))))).
Proof.
  intros Hopen Hnode Htag Hn.
  assert (Hhead : forall k : BzlaSMT2Item -> M Z,
            (do item <- item_at (S (length stack));
             run assert_
                   ((item_tag item =? BZLA_IMPLIES_TAG_SMT2)
                    || (item_tag item =? BZLA_AND_TAG_SMT2)
                    || (item_tag item =? BZLA_OR_TAG_SMT2)
                    || (item_tag item =? BZLA_XOR_TAG_SMT2));
             k item) parser = k op parser).
  { intros k. unfold bind at 1.
    rewrite (item_at_lookup _ _ _ (op_lookup _ _ _ _ _ _ Hopen)).
    unfold bind, assert_.
    replace ((item_tag op =? BZLA_IMPLIES_TAG_SMT2)
             || (item_tag op =? BZLA_AND_TAG_SMT2)
             || (item_tag op =? BZLA_OR_TAG_SMT2)
             || (item_tag op =? BZLA_XOR_TAG_SMT2)) with true; [reflexivity|].
    destruct Htag as [-> | [-> | [-> | ->]]]; reflexivity. }
  unfold close_term_bin_bool. rewrite Hhead. clear Hhead.
  split; [|split].
  - intros Hfew.
    replace (Z.of_nat (length es) <? 2) with true
      by (symmetry; apply Z.ltb_lt; lia).
    exact (missing_argument _ _ _ _ _ _ _ Hopen Hnode).
  - intros e1 init last Hes Hbool.
    assert (Hlen : 2 <= Z.of_nat (length es)).
    { rewrite Hes. cbn [length]. rewrite length_app. cbn [length]. lia. }
    replace (Z.of_nat (length es) <? 2) with false
      by (symmetry; apply Z.ltb_ge; lia).
    unfold bind at 1. rewrite (check_boolean_args_ok _ _ _ _ _ _ Hopen Hn Hbool).
    cbn [negb]. unfold bind at 1.
    pose proof (release_exp_and_overwrite_open _ _ _ _ _ _ Hopen) as Hrel.
    destruct (item_tag op =? BZLA_IMPLIES_TAG_SMT2).
    + pose proof Hopen as Hopen'.
      rewrite Hes in Hopen'. rewrite app_comm_cons in Hopen'.
      pose proof (fold_args_right_open _ _ _ _ _ _ _ fun_ Hopen') as Hfold.
      rewrite <- app_comm_cons, <- Hes in Hfold. rewrite Hfold.
      unfold bind. now rewrite Hrel.
    + pose proof Hopen as Hopen'. rewrite Hes in Hopen'.
      pose proof (fold_args_left_open _ _ _ _ _ _ _ fun_ Hopen') as Hfold.
      rewrite <- Hes in Hfold. rewrite Hfold.
      unfold bind. now rewrite Hrel.
  - intros good bad rest Hes Hlen Hgood Hbad.
    replace (Z.of_nat (length es) <? 2) with false
      by (symmetry; apply Z.ltb_ge; lia).
    subst es.
    destruct (check_boolean_args_bad _ _ _ _ _ _ _ _ _ Hopen Hnode Hn Hgood Hbad)
      as (p' & Hrun & Hw & Hrep).
    exists p'. unfold bind at 1. rewrite Hrun. now split.
Qed.


Lemma check_nargs_ok parser stack lpar op args es node (required : Z) :
  term_open parser stack lpar op args es ->
  item_u op = ItemNode node ->
  Z.of_nat (length es) = required ->
  check_nargs_smt2 (S (length stack)) (Z.of_nat (length es)) required parser
  = Some (true, parser).
Proof.
  intros Hopen Hnode <-. exact (check_nargs_exact _ _ _ _ _ _ _ Hopen Hnode).
Qed.

Lemma check_nargs_bad parser stack lpar op args es node (required : Z) :
  term_open parser stack lpar op args es ->
  item_u op = ItemNode node ->
  0 <= required < 2 ^ 31 -> Z.of_nat (length es) < 2 ^ 31 ->
  Z.of_nat (length es) <> required ->
  exists p',
    check_nargs_smt2 (S (length stack)) (Z.of_nat (length es)) required parser
    = Some (false, p')
    /\ work p' = work parser
    /\ (error parser = None -> error p' <> None).
Proof.
  intros Hopen Hnode Hr Hn Hne.
  destruct (check_nargs_cases _ _ _ _ _ _ _ required Hopen Hnode Hr Hn)
    as (p' & Hrun & _ & Hbad).
  destruct (Hbad Hne) as (Hw & Hrep).
  exists p'. split; [|split; [exact Hw|]].
  - rewrite Hrun. f_equal. f_equal. now apply Z.eqb_neq.
  - intros Hnone Herr. specialize (Hrep Hnone). rewrite Herr in Hrep.
    discriminate.
Qed.

(** X14. [close_term_unary_bv_fun] on the arguments of [bvnot], [bvneg],
    [bvredor] or [bvredand]: with one argument that is neither an array
    nor a function, the items of the term are replaced by the expression
    that the function makes of the argument; with a different number of
    arguments, or with an array or a function as the argument, the
    function returns 0, reports an error and leaves the work stack as it
    is. *)
Theorem close_term_unary_bv_fun_spec parser stack lpar op args es node
    (fun_ : BoolectorNode -> BoolectorNode) :
  term_open parser stack lpar op args es ->
  item_u op = ItemNode node ->
  item_tag op = BZLA_BV_NOT_TAG_SMT2 \/ item_tag op = BZLA_BV_NEG_TAG_SMT2
  \/ item_tag op = BZLA_BV_REDOR_TAG_SMT2 \/ item_tag op = BZLA_BV_REDAND_TAG_SMT2 ->
  Z.of_nat (length es) < 2 ^ 31 ->
  (forall t, es = [t] ->
     boolector_is_array t = false -> boolector_is_fun t = false ->
     close_term_unary_bv_fun (length stack) (S (length stack))
       (Z.of_nat (length es)) fun_ parser
     = Some (1, set_work
                  (stack ++ [set_item_u (ItemExp (fun_ t))
                               (set_item_tag BZLA_EXP_TAG_SMT2 lpar)])
                  parser))
  /\ (length es <> 1%nat
      \/ (exists t, es = [t]
                    /\ (boolector_is_array t = true \/ boolector_is_fun t = true)) ->
      exists p',
        close_term_unary_bv_fun (length stack) (S (length stack))
          (Z.of_nat (length es)) fun_ parser = Some (0, p')
        /\ work p' = work parser
        /\ (error parser = None -> error p' <> None)).
Proof.
  intros Hopen Hnode Htag Hn.
  assert (Hhead : forall k : BzlaSMT2Item -> M Z,
            (do item <- item_at (S (length stack));
             run assert_
                   ((item_tag item =? BZLA_BV_NOT_TAG_SMT2)
                    || (item_tag item =? BZLA_BV_NEG_TAG_SMT2)
                    || (item_tag item =? BZLA_BV_REDOR_TAG_SMT2)
                    || (item_tag item =? BZLA_BV_REDAND_TAG_SMT2));
             k item) parser = k op parser).
  { intros k. unfold bind at 1.
    rewrite (item_at_lookup _ _ _ (op_lookup _ _ _ _ _ _ Hopen)).
    unfold bind, assert_.
    replace ((item_tag op =? BZLA_BV_NOT_TAG_SMT2)
             || (item_tag op =? BZLA_BV_NEG_TAG_SMT2)
             || (item_tag op =? BZLA_BV_REDOR_TAG_SMT2)
             || (item_tag op =? BZLA_BV_REDAND_TAG_SMT2)) with true; [reflexivity|].
    destruct Htag as [-> | [-> | [-> | ->]]]; reflexivity. }
  unfold close_term_unary_bv_fun. rewrite Hhead. clear Hhead.
  split.
  - intros t Hes Ha Hf. subst es.
    unfold bind at 1.
    rewrite (check_nargs_ok _ _ _ _ _ _ _ 1 Hopen Hnode eq_refl).
    cbn [negb]. unfold bind at 1.
    rewrite (check_not_array_or_uf_args_ok _ _ _ _ _ _ Hopen
               ltac:(constructor; [now split|constructor])).
    cbn [negb]. unfold bind at 1.
    pose proof (exp_at_arg _ _ _ _ _ _ Hopen 0 t eq_refl) as He1.
    change (Z.of_nat 1) with 1 in He1. rewrite He1.
    unfold bind. now rewrite (release_exp_and_overwrite_open _ _ _ _ _ _ Hopen).
  - intros [Hlen|(t & Hes & Hbad)].
    + destruct (check_nargs_bad _ _ _ _ _ _ _ 1 Hopen Hnode ltac:(lia) Hn
                  ltac:(lia)) as (p' & Hrun & Hw & Herr).
      exists p'. unfold bind at 1. rewrite Hrun. now split.
    + subst es. unfold bind at 1.
      rewrite (check_nargs_ok _ _ _ _ _ _ _ 1 Hopen Hnode eq_refl).
      cbn [negb].
      destruct (proj2 (check_not_array_or_uf_args_smt2_bad_all _ _ _ _ _ _ _
                         Hopen Hnode Hn) [] t [] eq_refl ltac:(constructor) Hbad)
        as (p' & Hrun & Hw & Hrep).
      exists p'. unfold bind at 1. rewrite Hrun. cbn [negb]. unfold ret.
      split; [reflexivity|]. split; [exact Hw|].
      intros Hnone Herr. specialize (Hrep Hnone). rewrite Herr in Hrep.
      discriminate.
Qed.


(** The loop of [check_arg_sorts_match_smt2] over bit-vector arguments, up
    to the first argument that is an array, a function, or of another
    width than the first. *)
Lemma check_arg_sorts_match_bv_bad parser stack lpar op args e1 good bad rest node :
  term_open parser stack lpar op args (e1 :: good ++ bad :: rest) ->
  item_u op = ItemNode node ->
  Z.of_nat (length (e1 :: good ++ bad :: rest)) < 2 ^ 31 ->
  boolector_is_array e1 = false -> boolector_is_fun e1 = false ->
  Forall (fun e => boolector_is_array e = false /\ boolector_is_fun e = false
                   /\ boolector_bv_get_width e = boolector_bv_get_width e1) good ->
  boolector_is_array bad = true \/ boolector_is_fun bad = true
  \/ boolector_bv_get_width bad <> boolector_bv_get_width e1 ->
  exists p',
    check_arg_sorts_match_smt2 (S (length stack)) 0
      (Z.of_nat (length (e1 :: good ++ bad :: rest))) parser = Some (false, p')
    /\ work p' = work parser
    /\ reports parser p'
         (if boolector_is_array bad then
            "argument " +:+ fmt_d (Z.of_nat (length good) + 2) +:+ " of '"
            +:+ node_name node +:+ "' is an array but first argument not"
          else if boolector_is_fun bad then
            "argument " +:+ fmt_d (Z.of_nat (length good) + 2) +:+ " of '"
            +:+ node_name node +:+ "' is a function but first argument not"
          else
            "first argument of '" +:+ node_name node
            +:+ "' is bit-vector of width " +:+ fmt_d (boolector_bv_get_width e1)
            +:+ " but argument " +:+ fmt_d (Z.of_nat (length good) + 2)
            +:+ " is a bit-vector of width "
            +:+ fmt_d (boolector_bv_get_width bad)).
Proof.
  intros Hopen Hnode Hn Ha1 Hf1 Hgood Hbad.
  set (es := e1 :: good ++ bad :: rest) in *.
  set (msg := if boolector_is_array bad then _ else _).
  pose proof (term_open_perrcoo _ _ _ _ _ _ (item_coo op) Hopen) as Hq.
  set (q := set_perrcoo (item_coo op) parser) in *.
  destruct (perr_smt2_reports msg q) as (p' & Hrun & Hrep & _ & Hf).
  exists p'. split; [|split; [rewrite Hf; reflexivity|exact Hrep]].
  unfold check_arg_sorts_match_smt2, bind at 1 2 3 4, assert_.
  replace (1 <=? Z.of_nat (length es)) with true
    by (symmetry; apply Z.leb_le; unfold es; cbn [length]; lia).
  rewrite (item_at_lookup _ _ _ (op_lookup _ _ _ _ _ _ Hopen)).
  unfold modify at 1. fold q.
  change (u32 (0 + 1)) with 1. cbv zeta.
  pose proof (exp_at_arg q _ _ _ _ _ Hq 0 e1 eq_refl) as He1.
  change (Z.of_nat 1) with 1 in He1. rewrite He1.
  rewrite Ha1, Hf1.
  assert (Hsplit : es = (e1 :: good) ++ bad :: rest) by reflexivity.
  assert (Hloop : forall body : Z -> M bool,
            (forall k e, es !! k = Some e -> e ∈ e1 :: good ->
               body (Z.of_nat (S k)) q = Some (true, q)) ->
            body (Z.of_nat (S (length (e1 :: good)))) q = Some (false, p') ->
            mall (seqZ 1 (Z.of_nat (length es) - 1 + 1)) body q = Some (false, p')).
  { intros body Hg Hb.
    replace (Z.of_nat (length es) - 1 + 1) with (s32 (Z.of_nat (length es)))
      by (rewrite s32_id; lia).
    revert Hg Hb Hq Hn. rewrite Hsplit. intros Hg Hb Hq' Hn'.
    now apply (check_args_first_bad _ _ _ _ _ _ _ _ _ _ Hq' Hn'). }
  unfold bind at 1. rewrite Hloop; [reflexivity| |].
  - intros k e Hk He.
    assert (He' : boolector_is_array e = false /\ boolector_is_fun e = false
                  /\ boolector_bv_get_width e = boolector_bv_get_width e1).
    { apply elem_of_cons in He as [->|He]; [now repeat split|].
      exact (proj1 (list.Forall_forall _ _) Hgood e He). }
    destruct He' as (Ha & Hfu & Hw).
    unfold bind. rewrite (exp_at_arg q _ _ _ _ _ Hq k e Hk), Ha, Hfu, Hw, Z.eqb_refl.
    reflexivity.
  - assert (Hk : es !! length (e1 :: good) = Some bad).
    { rewrite Hsplit. apply list_lookup_middle. reflexivity. }
    unfold bind at 1. rewrite (exp_at_arg q _ _ _ _ _ Hq _ bad Hk).
    replace (Z.of_nat (S (length (e1 :: good))))
      with (Z.of_nat (length good) + 2) by (cbn [length]; lia).
    unfold msg in Hrun.
    destruct (boolector_is_array bad) eqn:Ea.
    + unfold bind at 1. rewrite (node_name_at_op _ _ _ _ _ _ _ Hq Hnode).
      unfold bind. now rewrite Hrun.
    + destruct (boolector_is_fun bad) eqn:Efu.
      * unfold bind at 1. rewrite (node_name_at_op _ _ _ _ _ _ _ Hq Hnode).
        unfold bind. now rewrite Hrun.
      * destruct Hbad as [?|[?|Hw]]; try discriminate.
        replace (boolector_bv_get_width bad =? boolector_bv_get_width e1)
          with false by (symmetry; now apply Z.eqb_neq).
        cbn [negb]. unfold bind at 1.
        rewrite (node_name_at_op _ _ _ _ _ _ _ Hq Hnode).
        unfold bind. now rewrite Hrun.
Qed.

(** X15. [check_arg_sorts_match_smt2] when the first argument is a
    bit-vector: it returns true when every argument is a bit-vector of the
    width of the first; otherwise it returns false and reports the first
    argument that differs, at the place of the operator: an array, a
    function, or a bit-vector of another width, with both widths. *)
Theorem check_arg_sorts_match_bit_vectors parser stack lpar op args e1 es' node :
  term_open parser stack lpar op args (e1 :: es') ->
  item_u op = ItemNode node ->
  Z.of_nat (length (e1 :: es')) < 2 ^ 31 ->
  boolector_is_array e1 = false -> boolector_is_fun e1 = false ->
  (Forall (fun e => boolector_is_array e = false /\ boolector_is_fun e = false
                    /\ boolector_bv_get_width e = boolector_bv_get_width e1) es' ->
   check_arg_sorts_match_smt2 (S (length stack)) 0
     (Z.of_nat (length (e1 :: es'))) parser
   = Some (true, set_perrcoo (set_coo_x 0 (item_coo op)) parser))
  /\ (forall good bad rest,
        es' = good ++ bad :: rest ->
        Forall (fun e => boolector_is_array e = false /\ boolector_is_fun e = false
                         /\ boolector_bv_get_width e = boolector_bv_get_width e1)
          good ->
        boolector_is_array bad = true \/ boolector_is_fun bad = true
        \/ boolector_bv_get_width bad <> boolector_bv_get_width e1 ->
        exists p',
          check_arg_sorts_match_smt2 (S (length stack)) 0
            (Z.of_nat (length (e1 :: es'))) parser = Some (false, p')
          /\ work p' = work parser
          /\ reports parser p'
               (if boolector_is_array bad then
                  "argument " +:+ fmt_d (Z.of_nat (length good) + 2) +:+ " of '"
                  +:+ node_name node +:+ "' is an array but first argument not"
                else if boolector_is_fun bad then
                  "argument " +:+ fmt_d (Z.of_nat (length good) + 2) +:+ " of '"
                  +:+ node_name node +:+ "' is a function but first argument not"
                else
                  "first argument of '" +:+ node_name node
                  +:+ "' is bit-vector of width "
                  +:+ fmt_d (boolector_bv_get_width e1)
                  +:+ " but argument " +:+ fmt_d (Z.of_nat (length good) + 2)
                  +:+ " is a bit-vector of width "
                  +:+ fmt_d (boolector_bv_get_width bad))).
Proof.
  intros Hopen Hnode Hn Ha1 Hf1. split.
  - intros Hes. apply (check_arg_sorts_match_uniform _ _ _ _ _ _ Hopen).
    cbn [uniform_sort]. now rewrite Ha1, Hf1.
  - intros good bad rest -> Hgood Hbad.
    exact (check_arg_sorts_match_bv_bad _ _ _ _ _ _ _ _ _ _ Hopen Hnode Hn Ha1 Hf1
             Hgood Hbad).
Qed.

(** X16. [close_term_bin_bv_fun] on the arguments of a binary bit-vector
    operator.  With two bit-vector arguments of one width the items of the
    term are replaced by the expression that the function makes of them.
    With a different number of arguments the function returns 0 with an
    error; with two bit-vectors of different widths it returns 0 and
    reports both widths.  *)
Theorem close_term_bin_bv_fun_spec parser stack lpar op args es node
    (fun_ : BoolectorNode -> BoolectorNode -> BoolectorNode) :
  term_open parser stack lpar op args es ->
  item_u op = ItemNode node ->
  In (item_tag op)
    [BZLA_BV_UDIV_TAG_SMT2; BZLA_BV_UREM_TAG_SMT2; BZLA_BV_SHL_TAG_SMT2;
     BZLA_BV_LSHR_TAG_SMT2; BZLA_BV_ASHR_TAG_SMT2; BZLA_BV_NAND_TAG_SMT2;
     BZLA_BV_NOR_TAG_SMT2; BZLA_BV_XNOR_TAG_SMT2; BZLA_BV_COMP_TAG_SMT2;
     BZLA_BV_SDIV_TAG_SMT2; BZLA_BV_SREM_TAG_SMT2; BZLA_BV_SMOD_TAG_SMT2;
     BZLA_BV_ULT_TAG_SMT2; BZLA_BV_ULE_TAG_SMT2; BZLA_BV_UGT_TAG_SMT2;
     BZLA_BV_UGE_TAG_SMT2; BZLA_BV_SLT_TAG_SMT2; BZLA_BV_SLE_TAG_SMT2;
     BZLA_BV_SGT_TAG_SMT2; BZLA_BV_SGE_TAG_SMT2] ->
  Z.of_nat (length es) < 2 ^ 31 ->
  (forall a b, es = [a; b] ->
     boolector_is_array a = false -> boolector_is_fun a = false ->
     boolector_is_array b = false -> boolector_is_fun b = false ->
     (boolector_bv_get_width b = boolector_bv_get_width a ->
      close_term_bin_bv_fun (length stack) (S (length stack))
        (Z.of_nat (length es)) fun_ parser
      = Some (1, set_work
                   (stack ++ [set_item_u (ItemExp (fun_ a b))
                                (set_item_tag BZLA_EXP_TAG_SMT2 lpar)])
                   (set_perrcoo (set_coo_x 0 (item_coo op)) parser)))
     /\ (boolector_bv_get_width b <> boolector_bv_get_width a ->
         exists p',
           close_term_bin_bv_fun (length stack) (S (length stack))
             (Z.of_nat (length es)) fun_ parser = Some (0, p')
           /\ work p' = work parser
           /\ reports parser p'
                ("first argument of '" +:+ node_name node
                 +:+ "' is bit-vector of width "
                 +:+ fmt_d (boolector_bv_get_width a)
                 +:+ " but argument " +:+ fmt_d 2
                 +:+ " is a bit-vector of width "
                 +:+ fmt_d (boolector_bv_get_width b))))
  /\ (length es <> 2%nat ->
      exists p',
        close_term_bin_bv_fun (length stack) (S (length stack))
          (Z.of_nat (length es)) fun_ parser = Some (0, p')
        /\ work p' = work parser
        /\ (error parser = None -> error p' <> None)).
Proof.
  intros Hopen Hnode Htag Hn.
  assert (Hhead : forall k : BzlaSMT2Item -> M Z,
            close_term_bin_bv_fun (length stack) (S (length stack))
              (Z.of_nat (length es)) fun_ parser
            = (do ok <- check_nargs_smt2 (S (length stack)) (Z.of_nat (length es)) 2;
               if negb ok then ret 0 else
               do ok <- check_arg_sorts_match_smt2 (S (length stack)) 0 2;
               if negb ok then ret 0 else
               do ok <- check_not_array_or_uf_args_smt2 (S (length stack))
                          (Z.of_nat (length es));
               if negb ok then ret 0 else
               do e1 <- exp_at (idx (S (length stack)) 1);
               do e2 <- exp_at (idx (S (length stack)) 2);
               run release_exp_and_overwrite (length stack) (S (length stack))
                     (Z.of_nat (length es)) (fun_ e1 e2);
               ret 1) parser).
  { intros _. unfold close_term_bin_bv_fun, bind at 1.
    rewrite (item_at_lookup _ _ _ (op_lookup _ _ _ _ _ _ Hopen)).
    unfold bind at 1, assert_.
    match goal with
    | |- (match (if ?c then _ else _) with _ => _ end) = _ =>
        replace c with true; [reflexivity|]
    end.
    cbn [In] in Htag.
    repeat (destruct Htag as [<- | Htag]; [reflexivity|]). contradiction. }
  rewrite (Hhead (fun _ => ret 0)). clear Hhead.
  split.
  - intros a b Hes Ha Hfa Hb Hfb. subst es. split.
    + intros Hw. unfold bind at 1.
      rewrite (check_nargs_ok _ _ _ _ _ _ _ 2 Hopen Hnode eq_refl).
      cbn [negb]. unfold bind at 1.
      pose proof (check_arg_sorts_match_uniform _ _ _ _ _ [a; b] Hopen) as Hc.
      change (Z.of_nat (length [a; b])) with 2 in *.
      rewrite Hc by (cbn [uniform_sort]; rewrite Ha, Hfa;
                     repeat constructor; assumption).
      cbn [negb]. unfold bind at 1.
      pose proof (term_open_perrcoo _ _ _ _ _ _ (set_coo_x 0 (item_coo op)) Hopen)
        as Hq.
      pose proof (check_not_array_or_uf_args_ok _ _ _ _ _ [a; b] Hq
                    ltac:(repeat constructor; assumption)) as Hc2.
      change (Z.of_nat (length [a; b])) with 2 in *. rewrite Hc2.
      cbn [negb]. unfold bind at 1.
      pose proof (exp_at_arg _ _ _ _ _ _ Hq 0 a eq_refl) as He1.
      pose proof (exp_at_arg _ _ _ _ _ _ Hq 1 b eq_refl) as He2.
      change (Z.of_nat 1) with 1 in He1. change (Z.of_nat 2) with 2 in He2.
      rewrite He1. unfold bind at 1. rewrite He2.
      pose proof (release_exp_and_overwrite_open _ _ _ _ _ _ Hq (fun_ a b)) as Hr.
      change (Z.of_nat (length [a; b])) with 2 in Hr.
      unfold bind. now rewrite Hr.
    + intros Hw. unfold bind at 1.
      rewrite (check_nargs_ok _ _ _ _ _ _ _ 2 Hopen Hnode eq_refl).
      cbn [negb].
      destruct (check_arg_sorts_match_bv_bad _ _ _ _ _ a [] b [] node Hopen Hnode
                  Hn Ha Hfa ltac:(constructor) ltac:(right; right; exact Hw))
        as (p' & Hrun & Hwk & Hrep).
      change (Z.of_nat (length (a :: [] ++ [b]))) with 2 in Hrun.
      exists p'. unfold bind at 1. rewrite Hrun. cbn [negb]. unfold ret.
      split; [reflexivity|]. split; [exact Hwk|].
      rewrite Hb, Hfb in Hrep. exact Hrep.
  - intros Hlen.
    destruct (check_nargs_bad _ _ _ _ _ _ _ 2 Hopen Hnode ltac:(lia) Hn ltac:(lia))
      as (p' & Hrun & Hw & Herr).
    exists p'. unfold bind at 1. rewrite Hrun. now split.
Qed.


(** X17. [close_term_bin_bv_left_associative] on the arguments of
    [concat], [bvand], [bvor], [bvxor], [bvxnor], [bvadd], [bvsub] or
    [bvmul].  With fewer than two arguments it reports that an argument is
    missing.  With two or more arguments that are neither arrays nor
    functions and, except for [concat], of one width, the items of the
    term are replaced by the arguments combined from the left,
    [(a op b) op c]; when the function is [boolector_xnor] the result is
    the negation of the arguments combined by [boolector_bv_xor]. *)
Theorem close_term_bin_bv_left_associative_spec parser stack lpar op args es node
    (fun_ : BoolectorNode -> BoolectorNode -> BoolectorNode) (fun_is_xnor : bool) :
  term_open parser stack lpar op args es ->
  item_u op = ItemNode node ->
  In (item_tag op)
    [BZLA_BV_CONCAT_TAG_SMT2; BZLA_BV_AND_TAG_SMT2; BZLA_BV_OR_TAG_SMT2;
     BZLA_BV_XOR_TAG_SMT2; BZLA_BV_XNOR_TAG_SMT2; BZLA_BV_ADD_TAG_SMT2;
     BZLA_BV_SUB_TAG_SMT2; BZLA_BV_MUL_TAG_SMT2] ->
  Z.of_nat (length es) < 2 ^ 31 ->
  ((length es < 2)%nat ->
   exists p',
     close_term_bin_bv_left_associative boolector_bv_xor boolector_bv_not
       (length stack) (S (length stack)) (Z.of_nat (length es)) fun_ fun_is_xnor
       parser = Some (0, p')
     /\ work p' = work parser
     /\ reports parser p' ("argument to '" +:+ node_name node +:+ "' missing"))
  /\ (forall e1 es',
        es = e1 :: es' -> (2 <= length es)%nat ->
        Forall (fun e => boolector_is_array e = false
                         /\ boolector_is_fun e = false) es ->
        item_tag op = BZLA_BV_CONCAT_TAG_SMT2
        \/ Forall (fun e => boolector_bv_get_width e = boolector_bv_get_width e1)
             es' ->
        exists p',
          close_term_bin_bv_left_associative boolector_bv_xor boolector_bv_not
            (length stack) (S (length stack)) (Z.of_nat (length es)) fun_
            fun_is_xnor parser = Some (1, p')
          /\ work p'
             = stack ++ [set_item_u
                           (ItemExp
                              (if fun_is_xnor
                               then boolector_bv_not
                                      (fold_left boolector_bv_xor es' e1)
                               else fold_left fun_ es' e1))
                           (set_item_tag BZLA_EXP_TAG_SMT2 lpar)]
          /\ error p' = error parser /\ open p' = open parser).
Proof.
  intros Hopen Hnode Htag Hn.
  assert (Hhead : forall k : BzlaSMT2Item -> M Z,
            (do item <- item_at (S (length stack));
             run assert_
                   ((item_tag item =? BZLA_BV_CONCAT_TAG_SMT2)
                    || (item_tag item =? BZLA_BV_AND_TAG_SMT2)
                    || (item_tag item =? BZLA_BV_OR_TAG_SMT2)
                    || (item_tag item =? BZLA_BV_XOR_TAG_SMT2)
                    || (item_tag item =? BZLA_BV_XNOR_TAG_SMT2)
                    || (item_tag item =? BZLA_BV_ADD_TAG_SMT2)
                    || (item_tag item =? BZLA_BV_SUB_TAG_SMT2)
                    || (item_tag item =? BZLA_BV_MUL_TAG_SMT2));
             k item) parser = k op parser).
  { intros k. unfold bind at 1.
    rewrite (item_at_lookup _ _ _ (op_lookup _ _ _ _ _ _ Hopen)).
    unfold bind, assert_.
    match goal with
    | |- (match (if ?c then _ else _) with _ => _ end) = _ =>
        replace c with true; [reflexivity|]
    end.
    cbn [In] in Htag.
    repeat (destruct Htag as [<- | Htag]; [reflexivity|]). contradiction. }
  unfold close_term_bin_bv_left_associative. rewrite Hhead. clear Hhead.
  split.
  - intros Hfew.
    replace (Z.of_nat (length es) <? 2) with true
      by (symmetry; apply Z.ltb_lt; lia).
    exact (missing_argument _ _ _ _ _ _ _ Hopen Hnode).
  - intros e1 es' Hes Hlen Hbv Hsort.
    replace (Z.of_nat (length es) <? 2) with false
      by (symmetry; apply Z.ltb_ge; lia).
    assert (Hcheck : exists c,
              (if negb (item_tag op =? BZLA_BV_CONCAT_TAG_SMT2)
               then check_arg_sorts_match_smt2 (S (length stack)) 0
                      (Z.of_nat (length es))
               else ret true) parser = Some (true, set_perrcoo c parser)).
    { destruct (Z.eqb_spec (item_tag op) BZLA_BV_CONCAT_TAG_SMT2) as [Hc|Hc].
      - exists (perrcoo parser). cbn [negb]. unfold ret. now destruct parser.
      - destruct Hsort as [?|Hsort]; [contradiction|].
        exists (set_coo_x 0 (item_coo op)). cbn [negb].
        apply (check_arg_sorts_match_uniform _ _ _ _ _ _ Hopen).
        rewrite Hes in Hbv |- *. apply Forall_cons_1 in Hbv as [[Ha Hf] Hbv].
        cbn [uniform_sort]. rewrite Ha, Hf.
        apply list.Forall_forall. intros e He.
        pose proof (proj1 (list.Forall_forall _ _) Hbv e He) as [? ?].
        pose proof (proj1 (list.Forall_forall _ _) Hsort e He).
        now repeat split. }
    destruct Hcheck as (c & Hcheck).
    unfold bind at 1. rewrite Hcheck. cbn [negb].
    pose proof (term_open_perrcoo _ _ _ _ _ _ c Hopen) as Hq.
    unfold bind at 1.
    rewrite (check_not_array_or_uf_args_ok _ _ _ _ _ _ Hq Hbv).
    cbn [negb]. cbv zeta. unfold bind at 1.
    pose proof Hq as Hq'. rewrite Hes in Hq'.
    pose proof (fun f => fold_args_left_open _ _ _ _ _ _ _ f Hq') as Hfold.
    rewrite <- Hes in Hfold. rewrite Hfold.
    pose proof (release_exp_and_overwrite_open _ _ _ _ _ _ Hq) as Hrel.
    unfold bind. rewrite Hrel. eexists. split; [reflexivity|].
    cbn [work set_work error open set_perrcoo].
    split; [|split; now destruct parser].
    destruct fun_is_xnor; now destruct parser.
Qed.

(** X18. [close_term_extend_bv_fun] on the argument of [zero_extend] or
    [sign_extend] with an index of at most [INT32_MAX]: when the width of
    the argument plus the index is at most [INT32_MAX] the items of the
    term are replaced by the extension of the argument by the index;
    otherwise the function reports that the resulting bit-width is too
    large. *)
Theorem close_term_extend_bv_fun_spec parser stack lpar op arg t node
    (fun_ : BoolectorNode -> Z -> BoolectorNode) :
  term_open parser stack lpar op [arg] [t] ->
  item_u op = ItemNode node ->
  item_tag op = BZLA_BV_ZERO_EXTEND_TAG_SMT2
  \/ item_tag op = BZLA_BV_SIGN_EXTEND_TAG_SMT2 ->
  boolector_is_array t = false -> boolector_is_fun t = false ->
  0 <= item_num op <= INT32_MAX ->
  (boolector_bv_get_width t + item_num op <= INT32_MAX ->
   close_term_extend_bv_fun (length stack) (S (length stack)) 1 fun_ parser
   = Some (1, set_work
                (stack ++ [set_item_u (ItemExp (fun_ t (item_num op)))
                             (set_item_tag BZLA_EXP_TAG_SMT2 lpar)])
                parser))
  /\ (INT32_MAX < boolector_bv_get_width t + item_num op ->
      exists p',
        close_term_extend_bv_fun (length stack) (S (length stack)) 1 fun_ parser
        = Some (0, p')
        /\ work p' = work parser
        /\ reports parser p'
             ("resulting bit-width of '" +:+ node_name node +:+ "' too large")).
Proof.
  intros Hopen Hnode Htag Ha Hf Hnum.
  assert (Hstart : close_term_extend_bv_fun (length stack) (S (length stack)) 1
                     fun_ parser
                   = (if u32 (INT32_MAX - item_num op) <? boolector_bv_get_width t
                      then
                        run modify (set_perrcoo (item_coo op));
                        do name <- node_name_at (S (length stack));
                        run perr_smt2
                              ("resulting bit-width of '" +:+ name +:+ "' too large");
                        ret 0
                      else
                        run release_exp_and_overwrite (length stack)
                              (S (length stack)) 1 (fun_ t (item_num op));
                        ret 1) parser).
  { unfold close_term_extend_bv_fun, bind at 1.
    rewrite (item_at_lookup _ _ _ (op_lookup _ _ _ _ _ _ Hopen)).
    unfold bind at 1, assert_.
    replace ((item_tag op =? BZLA_BV_ZERO_EXTEND_TAG_SMT2)
             || (item_tag op =? BZLA_BV_SIGN_EXTEND_TAG_SMT2)) with true
      by (destruct Htag as [-> | ->]; reflexivity).
    pose proof (check_nargs_exact _ _ _ _ _ [t] node Hopen Hnode) as Hc1.
    pose proof (check_not_array_or_uf_args_ok _ _ _ _ _ [t] Hopen
                  ltac:(constructor; [now split|constructor])) as Hc2.
    pose proof (exp_at_arg _ _ _ _ _ _ Hopen 0 t eq_refl) as He1.
    change (Z.of_nat (length [t])) with 1 in *. change (Z.of_nat 1) with 1 in *.
    unfold bind at 1. rewrite Hc1. cbn [negb]. unfold bind at 1. rewrite Hc2.
    cbn [negb]. unfold bind at 1. rewrite He1. reflexivity. }
  rewrite Hstart. clear Hstart.
  assert (E : u32 (INT32_MAX - item_num op) = INT32_MAX - item_num op).
  { unfold u32, INT32_MAX in *. apply Z.mod_small. lia. }
  rewrite E. split.
  - intros Hfit.
    replace (INT32_MAX - item_num op <? boolector_bv_get_width t) with false
      by (symmetry; apply Z.ltb_ge; lia).
    pose proof (release_exp_and_overwrite_open _ _ _ _ _ _ Hopen
                  (fun_ t (item_num op))) as Hr.
    change (Z.of_nat (length [t])) with 1 in Hr.
    unfold bind. now rewrite Hr.
  - intros Hbig.
    replace (INT32_MAX - item_num op <? boolector_bv_get_width t) with true
      by (symmetry; apply Z.ltb_lt; lia).
    pose proof (term_open_perrcoo _ _ _ _ _ _ (item_coo op) Hopen) as Hq.
    destruct (perr_smt2_reports
                ("resulting bit-width of '" +:+ node_name node +:+ "' too large")
                (set_perrcoo (item_coo op) parser))
      as (p' & Hrun & Hrep & _ & Hfr).
    exists p'. unfold bind at 1, modify at 1. unfold bind at 1.
    rewrite (node_name_at_op _ _ _ _ _ _ _ Hq Hnode). unfold bind. rewrite Hrun.
    split; [reflexivity|]. split; [rewrite Hfr; reflexivity|exact Hrep].
Qed.

(** X19. [check_ite_args_sorts_match_smt2] on the three arguments of
    [ite].  It returns true exactly when the first argument is a
    bit-vector of width 1 and the other two are either arrays of one
    element width and one index width, or no arrays and of one width.  When
    it returns true the parser is unchanged.  When it returns false the
    work stack is unchanged and the error of the first test that fails is
    reported: the first argument is an array, a function or of another
    width than 1; only one of the other two is an array; or their widths,
    or the widths of their indices, differ. *)
Theorem check_ite_args_sorts_match_smt2_spec parser stack lpar op args c a b :
  term_open parser stack lpar op args [c; a; b] ->
  item_tag op = BZLA_ITE_TAG_SMT2 ->
  let ok :=
    negb (boolector_is_array c) && negb (boolector_is_fun c)
    && (boolector_bv_get_width c =? 1)
    && (if boolector_is_array a then
          boolector_is_array b
          && (boolector_bv_get_width a =? boolector_bv_get_width b)
          && (boolector_array_get_index_width a
              =? boolector_array_get_index_width b)
        else
          negb (boolector_is_array b)
          && (boolector_bv_get_width a =? boolector_bv_get_width b)) in
  exists p',
    check_ite_args_sorts_match_smt2 (S (length stack)) parser = Some (ok, p')
    /\ work p' = work parser
    /\ (ok = true -> p' = parser)
    /\ (ok = false ->
        reports parser p'
          (if boolector_is_array c then "first argument of 'ite' is an array"
           else if boolector_is_fun c then
             "first argument of 'ite' is a function"
           else if boolector_bv_get_width c =? 1 then
             if boolector_is_array a then
               if boolector_is_array b then
                 if boolector_bv_get_width a =? boolector_bv_get_width b then
                   "second argument of 'ite' is array with index bit-vectors of width "
                   +:+ fmt_u (boolector_array_get_index_width a)
                   +:+ " and third argument is array with index bit-vectors of width "
                   +:+ fmt_u (boolector_array_get_index_width b)
                 else
                   "second argument of 'ite' is array of bit-vectors of width "
                   +:+ fmt_u (boolector_bv_get_width a)
                   +:+ " and third argument is array of bit-vectors of width "
                   +:+ fmt_u (boolector_bv_get_width b)
               else "second argument of 'ite' is an array but third not"
             else if boolector_is_array b then
               "third argument of 'ite' is an array but second not"
             else
               "second argument of 'ite' is bit-vector of width "
               +:+ fmt_d (s32 (boolector_bv_get_width a))
               +:+ " and third argument is bit-vector of width "
               +:+ fmt_d (s32 (boolector_bv_get_width b))
           else
             "first argument of 'ite' is bit-vector of bit-width "
             +:+ fmt_u (boolector_bv_get_width c))).
Proof.
  intros Hopen Htag ok. subst ok.
  destruct (arg_lookup _ _ _ _ _ _ Hopen 0 c eq_refl) as (item1 & Hl1 & _ & Hu1).
  pose proof (exp_at_arg _ _ _ _ _ _ Hopen 1 a eq_refl) as He2.
  pose proof (exp_at_arg _ _ _ _ _ _ Hopen 2 b eq_refl) as He3.
  change (Z.of_nat 1) with 1 in *. change (Z.of_nat 2) with 2 in *.
  change (Z.of_nat 3) with 3 in *.
  assert (Hfail : forall coo_ msg,
            exists p',
              (run modify (set_perrcoo coo_); run perr_smt2 msg; ret false) parser
              = Some (false, p')
              /\ work p' = work parser
              /\ (false = true -> p' = parser)
              /\ (false = false -> reports parser p' msg)).
  { intros coo_ msg.
    destruct (perr_smt2_reports msg (set_perrcoo coo_ parser))
      as (p' & Hrun & Hrep & _ & Hfr).
    exists p'. unfold bind at 1, modify at 1. unfold bind. rewrite Hrun.
    split; [reflexivity|]. split; [rewrite Hfr; reflexivity|].
    split; [discriminate|]. intros _. exact Hrep. }
  unfold check_ite_args_sorts_match_smt2, bind at 1.
  rewrite (item_at_lookup _ _ _ (op_lookup _ _ _ _ _ _ Hopen)).
  unfold bind at 1, assert_. rewrite Htag, Z.eqb_refl.
  unfold bind at 1. rewrite (item_at_lookup _ _ _ Hl1).
  unfold bind at 1, item_exp. rewrite Hu1. unfold ret at 1.
  destruct (boolector_is_array c); [apply Hfail|].
  destruct (boolector_is_fun c); [apply Hfail|].
  destruct (boolector_bv_get_width c =? 1); [|apply Hfail].
  cbn [negb andb]. unfold bind at 1. rewrite He2. unfold bind at 1. rewrite He3.
  cbv zeta.
  destruct (boolector_is_array a).
  - destruct (boolector_is_array b); [|apply Hfail]. cbn [negb andb].
    destruct (boolector_bv_get_width a =? boolector_bv_get_width b);
      [|apply Hfail].
    cbn [negb andb].
    destruct (boolector_array_get_index_width a
              =? boolector_array_get_index_width b); [|apply Hfail].
    exists parser. split; [reflexivity|]. split; [reflexivity|].
    split; [reflexivity|discriminate].
  - destruct (boolector_is_array b); [apply Hfail|]. cbn [negb andb].
    destruct (boolector_bv_get_width a =? boolector_bv_get_width b);
      [|apply Hfail].
    exists parser. split; [reflexivity|]. split; [reflexivity|].
    split; [reflexivity|discriminate].
Qed.

End ReductionFacts.

(** ** Saved characters, white space and comments *)

Section Blanks.
Context `{Backend}.

Lemma savech_newline parser :
  saved parser = false -> 1 < coo_x (nextcoo parser) <= INT32_MAX ->
  savech_smt2 (chr "010") parser
  = Some (tt, set_nextcoo
                {| coo_x := coo_x (nextcoo parser) - 1;
                   coo_y := last_end_of_line_ycoo parser |}
                (set_savedch (chr "010") (set_saved true parser))).
Proof.
  intros Hs Hx. unfold savech_smt2, bind, get, assert_, modify.
  rewrite Hs. change (to_char (chr "010")) with (chr "010").
  rewrite Z.eqb_refl. cbn [negb nextcoo set_savedch set_saved].
  replace (1 <? coo_x (nextcoo parser)) with true
    by (symmetry; apply Z.ltb_lt; lia).
  unfold INT32_MAX in Hx. rewrite s32_small by lia.
  now destruct parser.
Qed.

Lemma nextch_saved parser :
  saved parser = true ->
  (savedch parser <> chr "010" -> 0 <= coo_y (nextcoo parser) < INT32_MAX) ->
  (savedch parser = chr "010" -> 0 <= coo_x (nextcoo parser) < INT32_MAX) ->
  nextch_smt2 parser
  = Some (savedch parser,
          if savedch parser =? chr "010" then
            set_nextcoo
              {| coo_x := coo_x (nextcoo parser) + 1; coo_y := 1 |}
              (set_last_end_of_line_ycoo (coo_y (nextcoo parser))
                 (set_saved false parser))
          else
            set_nextcoo
              (set_coo_y (coo_y (nextcoo parser) + 1) (nextcoo parser))
              (set_saved false parser)).
Proof.
  intros Hs Hy Hx. unfold nextch_smt2, bind at 1, get at 1. rewrite Hs.
  unfold bind at 1 2, modify at 1, ret at 1, get at 1.
  unfold INT32_MAX in *.
  destruct (Z.eqb_spec (savedch parser) (chr "010")) as [Hnl|Hnl].
  - specialize (Hx Hnl).
    unfold bind, modify, assert_, ret.
    cbn [nextcoo set_saved set_nextcoo coo_x coo_y set_coo_x set_coo_y
         set_last_end_of_line_ycoo].
    rewrite s32_small by lia.
    replace (0 <? coo_x (nextcoo parser) + 1) with true
      by (symmetry; apply Z.ltb_lt; lia).
    now destruct parser.
  - specialize (Hy Hnl).
    unfold bind, modify, assert_, ret.
    cbn [nextcoo set_saved set_nextcoo coo_x coo_y set_coo_x set_coo_y].
    rewrite s32_small by lia.
    replace (0 <? coo_y (nextcoo parser) + 1) with true
      by (symmetry; apply Z.ltb_lt; lia).
    now destruct parser.
Qed.

(** X20. A character given back to the lexer is the next one it reads:
    after [savech_smt2] of a character, [nextch_smt2] returns that
    character and the parser is the one of before, with the character
    recorded as the saved one; for a new line the column is 1, as after
    every new line. *)
Theorem savech_then_nextch parser ch :
  saved parser = false -> - 128 <= ch < 128 ->
  (ch <> chr "010" -> 1 < coo_y (nextcoo parser) <= INT32_MAX) ->
  (ch = chr "010" -> 1 < coo_x (nextcoo parser) <= INT32_MAX) ->
  (run savech_smt2 ch; nextch_smt2) parser
  = Some (ch,
          set_nextcoo
            (if ch =? chr "010" then set_coo_y 1 (nextcoo parser)
             else nextcoo parser)
            (set_savedch ch parser)).
Proof.
  intros Hs Hr Hy Hx. unfold bind at 1.
  destruct (Z.eqb_spec ch (chr "010")) as [Hnl|Hnl].
  - specialize (Hx Hnl). subst ch.
    rewrite savech_newline by assumption. unfold INT32_MAX in Hx.
    rewrite nextch_saved;
      [|reflexivity|intros Hc; now contradiction Hc
       |intros _; unfold INT32_MAX; cbn; lia].
    cbn [savedch set_nextcoo set_savedch set_saved]. rewrite Z.eqb_refl.
    cbn [nextcoo coo_x coo_y set_nextcoo set_savedch set_saved
         set_last_end_of_line_ycoo last_end_of_line_ycoo].
    replace (coo_x (nextcoo parser) - 1 + 1) with (coo_x (nextcoo parser)) by lia.
    destruct parser as [? ? ? ? ? ? ? ? ? ? ? ? ? ? ? ? ? ? ? ? ? ? ? [x y]].
    simpl in Hs. subst. reflexivity.
  - specialize (Hy Hnl).
    rewrite savech_plain by assumption. unfold INT32_MAX in Hy.
    rewrite nextch_saved;
      [|reflexivity|intros _; unfold INT32_MAX; cbn; lia
       |intros Hc; cbn in Hc; contradiction].
    cbn [savedch set_nextcoo set_savedch set_saved].
    replace (ch =? chr "010") with false by (symmetry; now apply Z.eqb_neq).
    cbn [nextcoo coo_x coo_y set_nextcoo set_savedch set_saved set_coo_y
         set_last_end_of_line_ycoo last_end_of_line_ycoo].
    replace (coo_y (nextcoo parser) - 1 + 1) with (coo_y (nextcoo parser)) by lia.
    destruct parser as [? ? ? ? ? ? ? ? ? ? ? ? ? ? ? ? ? ? ? ? ? ? ? [x y]].
    simpl in Hs. subst. reflexivity.
Qed.


Lemma moved_to_refl (p : BzlaSMT2Parser) : p = moved_to p p.
Proof. unfold moved_to. now destruct p. Qed.

Lemma moved_to_trans (p q r : BzlaSMT2Parser) :
  q = moved_to q p -> r = moved_to r q -> r = moved_to r p.
Proof.
  intros Hq Hr. transitivity (moved_to r q); [exact Hr|].
  rewrite Hq. unfold moved_to. now destruct p.
Qed.

Lemma moved_to_set_coo c (p q : BzlaSMT2Parser) :
  q = moved_to q p -> set_coo c q = moved_to (set_coo c q) p.
Proof. intros Hq. rewrite Hq. unfold moved_to. now destruct p. Qed.

Lemma moved_to_fields (p q : BzlaSMT2Parser) :
  q = moved_to q p ->
  saved q = saved p /\ prefix q = prefix p /\ error q = error p
  /\ token q = token p /\ last_node q = last_node p /\ work q = work p
  /\ symbol q = symbol p /\ store_tokens q = store_tokens p
  /\ commands q = commands p /\ res q = res p
  /\ lastcoo q = lastcoo p /\ perrcoo q = perrcoo p.
Proof. intros ->. unfold moved_to. now destruct p. Qed.

Lemma nextch_newline parser rest :
  saved parser = false -> prefix parser = None ->
  infile parser = chr "010" :: rest ->
  0 <= coo_x (nextcoo parser) < INT32_MAX ->
  nextch_smt2 parser
  = Some (chr "010",
          set_nextcoo {| coo_x := coo_x (nextcoo parser) + 1; coo_y := 1 |}
            (set_last_end_of_line_ycoo (coo_y (nextcoo parser))
               (set_infile rest parser))).
Proof.
  intros Hs Hp Hi Hx. unfold nextch_smt2, bind, get, getc, bind, get.
  rewrite Hs, Hp, Hi. unfold modify, ret. rewrite Z.eqb_refl.
  cbn [nextcoo set_infile set_nextcoo coo_x coo_y set_coo_x set_coo_y
       set_last_end_of_line_ycoo].
  unfold INT32_MAX in Hx. rewrite s32_small by lia. unfold assert_.
  replace (0 <? coo_x (nextcoo parser) + 1) with true
    by (symmetry; apply Z.ltb_lt; lia).
  now destruct parser.
Qed.

(** [nextch_smt2] on a character of the file: only the place in the file
    changes. *)
Lemma nextch_file parser c rest :
  reads_file parser -> infile parser = c :: rest ->
  exists q,
    nextch_smt2 parser = Some (c, q)
    /\ reads_file q /\ infile q = rest /\ q = moved_to q parser.
Proof.
  intros (Hs & Hp & Hx0 & Hy0 & Hx & Hy) Hi. rewrite Hi in Hx, Hy.
  cbn [length] in Hx, Hy. unfold INT32_MAX in *.
  destruct (Z.eq_dec c (chr "010")) as [->|Hc].
  - rewrite (nextch_newline parser rest) by (unfold INT32_MAX; try assumption; lia).
    eexists. split; [reflexivity|]. split; [|split].
    + unfold reads_file, INT32_MAX. cbn. repeat split; try assumption; lia.
    + reflexivity.
    + unfold moved_to. now destruct parser.
  - rewrite (nextch_plain parser c rest) by (unfold INT32_MAX; try assumption; lia).
    eexists. split; [reflexivity|]. split; [|split].
    + unfold reads_file, INT32_MAX. cbn. repeat split; try assumption; lia.
    + reflexivity.
    + unfold moved_to. now destruct parser.
Qed.

Lemma nextch_file_end parser :
  reads_file parser -> infile parser = [] ->
  exists q,
    nextch_smt2 parser = Some (EOF, q)
    /\ infile q = [] /\ q = moved_to q parser.
Proof.
  intros (Hs & Hp & Hx0 & Hy0 & Hx & Hy) Hi. rewrite Hi in Hx, Hy.
  cbn [length] in Hx, Hy. unfold INT32_MAX in *.
  rewrite (nextch_eof parser) by (unfold INT32_MAX; try assumption; lia).
  eexists. split; [reflexivity|]. split; [exact Hi|].
  unfold moved_to. now destruct parser.
Qed.

(** The loop that skips a comment, up to the new line that ends it. *)
Lemma skip_comment_line (text : list Z) :
  forall (fuel : nat) parser rest,
    reads_file parser -> infile parser = text ++ chr "010" :: rest ->
    Forall (fun c => c <> chr "010" /\ c <> EOF) text ->
    (length text < fuel)%nat ->
    exists q,
      skip_comment fuel parser = Some (true, q)
      /\ reads_file q /\ infile q = rest /\ q = moved_to q parser.
Proof.
  induction text as [|c text IH]; intros fuel parser rest Hr Hi Ht Hfuel;
    (destruct fuel as [|fuel]; [cbn in Hfuel; lia|]); cbn [skip_comment].
  - destruct (nextch_file parser _ rest Hr Hi) as (q & Hrun & Hq & Hiq & Hm).
    exists q. unfold bind. rewrite Hrun, Z.eqb_refl.
    split; [reflexivity|]. split; [exact Hq|]. split; [exact Hiq|exact Hm].
  - apply Forall_cons_1 in Ht as [[Hnl Heof] Ht].
    destruct (nextch_file parser c (text ++ chr "010" :: rest) Hr Hi)
      as (q & Hrun & Hq & Hiq & Hm).
    destruct (IH fuel q rest Hq Hiq Ht ltac:(cbn [length] in Hfuel; lia))
      as (q' & Hrun' & Hq' & Hiq' & Hm').
    exists q'. unfold bind. rewrite Hrun.
    replace (c =? chr "010") with false by (symmetry; now apply Z.eqb_neq).
    replace (c =? EOF) with false by (symmetry; now apply Z.eqb_neq).
    split; [exact Hrun'|]. split; [exact Hq'|]. split; [exact Hiq'|].
    exact (moved_to_trans _ _ _ Hm Hm').
Qed.

(** The loop that skips a comment, when the file ends in it. *)
Lemma skip_comment_end (text : list Z) :
  forall (fuel : nat) parser,
    reads_file parser -> infile parser = text ->
    Forall (fun c => c <> chr "010" /\ c <> EOF) text ->
    (length text < fuel)%nat ->
    exists q,
      skip_comment fuel parser = Some (false, q)
      /\ infile q = [] /\ q = moved_to q parser.
Proof.
  induction text as [|c text IH]; intros fuel parser Hr Hi Ht Hfuel;
    (destruct fuel as [|fuel]; [cbn in Hfuel; lia|]); cbn [skip_comment].
  - destruct (nextch_file_end parser Hr Hi) as (q & Hrun & Hiq & Hm).
    exists q. unfold bind. rewrite Hrun.
    split; [reflexivity|]. split; [exact Hiq|exact Hm].
  - apply Forall_cons_1 in Ht as [[Hnl Heof] Ht].
    destruct (nextch_file parser c text Hr Hi) as (q & Hrun & Hq & Hiq & Hm).
    destruct (IH fuel q Hq Hiq Ht ltac:(cbn [length] in Hfuel; lia))
      as (q' & Hrun' & Hiq' & Hm').
    exists q'. unfold bind. rewrite Hrun.
    replace (c =? chr "010") with false by (symmetry; now apply Z.eqb_neq).
    replace (c =? EOF) with false by (symmetry; now apply Z.eqb_neq).
    split; [exact Hrun'|]. split; [exact Hiq'|].
    exact (moved_to_trans _ _ _ Hm Hm').
Qed.

Lemma reads_file_set_coo c parser :
  reads_file parser -> reads_file (set_coo c parser).
Proof. intros Hr. exact Hr. Qed.

(** One white-space character or one comment at the label [RESTART]. *)
Lemma restart_blank (b : blank) (fuel : nat) parser rest :
  reads_file parser -> blank_ok b ->
  infile parser = blank_chars b ++ rest ->
  (length (infile parser) < S fuel)%nat ->
  exists q,
    read_token_restart (S fuel) parser = read_token_restart fuel q
    /\ reads_file q /\ infile q = rest /\ q = moved_to q parser.
Proof.
  intros Hr Hb Hi Hfuel. cbn [read_token_restart].
  unfold bind at 1, modify at 1.
  pose proof (reads_file_set_coo (nextcoo parser) parser Hr) as Hr0.
  pose proof (moved_to_set_coo (nextcoo parser) parser parser
                (moved_to_refl parser)) as Hm0.
  set (p0 := set_coo (nextcoo parser) parser) in *.
  destruct b as [c|text]; cbn [blank_chars blank_ok app] in *.
  - destruct (nextch_file p0 c rest Hr0 Hi) as (q & Hrun & Hq & Hiq & Hm).
    exists q. unfold bind. rewrite Hrun.
    replace (c =? EOF) with false.
    + rewrite Hb. split; [reflexivity|]. split; [exact Hq|].
      split; [exact Hiq|]. exact (moved_to_trans _ _ _ Hm0 Hm).
    + symmetry. apply Z.eqb_neq. intros ->. discriminate.
  - rewrite <- app_assoc in Hi. cbn [app] in Hi.
    destruct (nextch_file p0 _ _ Hr0 Hi) as (q & Hrun & Hq & Hiq & Hm).
    rewrite Hi in Hfuel. cbn [length] in Hfuel. rewrite length_app in Hfuel.
    destruct (skip_comment_line text fuel q rest Hq Hiq Hb ltac:(lia))
      as (q' & Hrun' & Hq' & Hiq' & Hm').
    exists q'. unfold bind at 1. rewrite Hrun.
    change (chr ";" =? EOF) with false.
    change (isspace_smt2 (chr ";")) with false.
    rewrite Z.eqb_refl. cbv iota. unfold bind at 1. rewrite Hrun'.
    split; [reflexivity|]. split; [exact Hq'|]. split; [exact Hiq'|].
    exact (moved_to_trans _ _ _ Hm0 (moved_to_trans _ _ _ Hm Hm')).
Qed.

Lemma restart_blanks (bs : list blank) :
  forall (fuel : nat) parser rest,
    reads_file parser -> Forall blank_ok bs ->
    infile parser = concat (blank_chars <$> bs) ++ rest ->
    (length (infile parser) < fuel)%nat ->
    exists (fuel' : nat) q,
      read_token_restart fuel parser = read_token_restart fuel' q
      /\ (length rest < fuel')%nat
      /\ reads_file q /\ infile q = rest /\ q = moved_to q parser.
Proof.
  induction bs as [|b bs IH]; intros fuel parser rest Hr Hbs Hi Hfuel.
  - exists fuel, parser. cbn in Hi. rewrite Hi in Hfuel.
    split; [reflexivity|]. split; [exact Hfuel|]. split; [exact Hr|].
    split; [exact Hi|apply moved_to_refl].
  - apply Forall_cons_1 in Hbs as [Hb Hbs].
    cbn [fmap list_fmap concat] in Hi. rewrite <- app_assoc in Hi.
    destruct fuel as [|fuel]; [lia|].
    destruct (restart_blank b fuel parser _ Hr Hb Hi Hfuel)
      as (q & Hrun & Hq & Hiq & Hm).
    assert (Hlen : (length (infile q) < fuel)%nat).
    { rewrite Hiq. rewrite Hi, length_app in Hfuel.
      assert (1 <= length (blank_chars b))%nat
        by (destruct b; cbn [blank_chars length]; lia).
      lia. }
    destruct (IH fuel q rest Hq Hbs Hiq Hlen)
      as (fuel' & q' & Hrun' & Hf' & Hq' & Hiq' & Hm').
    exists fuel', q'. split; [now rewrite Hrun|]. split; [exact Hf'|].
    split; [exact Hq'|]. split; [exact Hiq'|].
    exact (moved_to_trans _ _ _ Hm Hm').
Qed.

Lemma lex_blank_file parser (bs : list blank) :
  reads_file parser -> Forall blank_ok bs ->
  (infile parser = concat (blank_chars <$> bs) ->
   exists p',
     read_token_smt2 parser = Some (EOF, p')
     /\ error p' = error parser /\ token p' = [] /\ infile p' = []
     /\ work p' = work parser /\ symbol p' = symbol parser
     /\ commands p' = commands parser /\ res p' = res parser)
  /\ (forall text,
        infile parser = concat (blank_chars <$> bs) ++ chr ";" :: text ->
        Forall (fun c => c <> chr "010" /\ c <> EOF) text ->
        exists p',
          read_token_smt2 parser = Some (BZLA_INVALID_TAG_SMT2, p')
          /\ reports parser p' "unexpected end-of-file in comment"
          /\ infile p' = []
          /\ work p' = work parser /\ symbol p' = symbol parser
          /\ commands p' = commands parser /\ res p' = res parser).
Proof.
  intros Hr Hbs.
  set (p0 := set_last_node None (set_token [] (set_lastcoo (coo parser) parser))).
  assert (Hr0 : reads_file p0) by exact Hr.
  assert (Hfuel : (length (infile p0) < S (S (input_left p0)))%nat).
  { destruct Hr as (Hs & Hp & _). unfold input_left, p0.
    cbn [saved prefix infile set_last_node set_token set_lastcoo].
    rewrite Hs, Hp. lia. }
  split.
  - intros Hi.
    destruct (restart_blanks bs _ p0 [] Hr0 Hbs
                ltac:(rewrite app_nil_r; exact Hi) Hfuel)
      as (fuel' & q & Hrun & Hf' & Hq & Hiq & Hm).
    destruct fuel' as [|fuel']; [cbn in Hf'; lia|].
    destruct (nextch_file_end (set_coo (nextcoo q) q) Hq Hiq)
      as (q' & Hrun' & Hiq' & Hm').
    pose proof (moved_to_trans _ _ _ Hm
                  (moved_to_trans _ _ _
                     (moved_to_set_coo (nextcoo q) q q (moved_to_refl q)) Hm'))
      as Hmoved.
    exists q'. split.
    + unfold read_token_smt2, read_token_aux_smt2, bind at 1 2 3 4,
        modify at 1 2 3, get at 1.
      cbv beta iota zeta. fold p0. unfold bind at 1. rewrite Hrun.
      cbn [read_token_restart]. unfold bind at 1, modify at 1.
      unfold bind at 1. rewrite Hrun'. reflexivity.
    + destruct (moved_to_fields _ _ Hmoved)
        as (_ & _ & He & Ht & _ & Hw & Hsy & _ & Hc & Hre & _).
      rewrite He, Ht, Hw, Hsy, Hc, Hre. now repeat split.
  - intros text Hi Htext.
    destruct (restart_blanks bs _ p0 (chr ";" :: text) Hr0 Hbs Hi Hfuel)
      as (fuel' & q & Hrun & Hf' & Hq & Hiq & Hm).
    destruct fuel' as [|fuel']; [cbn in Hf'; lia|].
    destruct (nextch_file (set_coo (nextcoo q) q) _ _ Hq Hiq)
      as (q1 & Hrun1 & Hq1 & Hiq1 & Hm1).
    destruct (skip_comment_end text fuel' q1 Hq1 Hiq1 Htext
                ltac:(cbn [length] in Hf'; lia))
      as (q2 & Hrun2 & Hiq2 & Hm2).
    pose proof (moved_to_trans _ _ _ Hm
                  (moved_to_trans _ _ _
                     (moved_to_set_coo (nextcoo q) q q (moved_to_refl q))
                     (moved_to_trans _ _ _ Hm1 Hm2))) as Hmoved.
    destruct (perr_smt2_reports "unexpected end-of-file in comment" q2)
      as (p' & Hperr & Hrep & _ & Hframe).
    exists p'. split.
    + unfold read_token_smt2, read_token_aux_smt2, bind at 1 2 3 4,
        modify at 1 2 3, get at 1.
      cbv beta iota zeta. fold p0. unfold bind at 1. rewrite Hrun.
      cbn [read_token_restart]. unfold bind at 1, modify at 1.
      unfold bind at 1. rewrite Hrun1.
      change (chr ";" =? EOF) with false.
      change (isspace_smt2 (chr ";")) with false.
      rewrite Z.eqb_refl. cbv iota. unfold bind at 1. rewrite Hrun2.
      cbv iota. unfold bind at 1. rewrite Hperr. reflexivity.
    + destruct (moved_to_fields _ _ Hmoved)
        as (_ & _ & He & _ & _ & Hw & Hsy & _ & Hc & Hre & _).
      split.
      * unfold reports in *. rewrite He in Hrep. exact Hrep.
      * rewrite Hframe. cbn [infile work symbol commands res set_error].
        rewrite Hiq2, Hw, Hsy, Hc, Hre. now repeat split.
Qed.

(** X21. White space and comments: when the file holds nothing but
    white-space characters and comments that a new line ends, the lexer
    returns end-of-file without an error, with an empty token; when after
    such characters the file ends inside a comment, the lexer returns the
    invalid tag and reports "unexpected end-of-file in comment".  In both
    cases the work stack, the symbol table, the command counters and the
    result are as before. *)
Theorem read_token_blank_file parser (bs : list blank) :
  reads_file parser -> Forall blank_ok bs ->
  (infile parser = concat (blank_chars <$> bs) ->
   exists p',
     read_token_smt2 parser = Some (EOF, p')
     /\ error p' = error parser /\ token p' = [] /\ infile p' = []
     /\ work p' = work parser /\ symbol p' = symbol parser
     /\ commands p' = commands parser /\ res p' = res parser)
  /\ (forall text,
        infile parser = concat (blank_chars <$> bs) ++ chr ";" :: text ->
        Forall (fun c => c <> chr "010" /\ c <> EOF) text ->
        exists p',
          read_token_smt2 parser = Some (BZLA_INVALID_TAG_SMT2, p')
          /\ reports parser p' "unexpected end-of-file in comment"
          /\ infile p' = []
          /\ work p' = work parser /\ symbol p' = symbol parser
          /\ commands p' = commands parser /\ res p' = res parser).
Proof. apply lex_blank_file. Qed.

End Blanks.

(** ** Files without commands *)

Section WholeFile.
Context `{Backend}.
Variable L : BzlaLogic.
Variable read_command_other : Z -> M bool.

Lemma parse_smt2_parser_init_spec (infile_ : list Z) (outfile_ : list string)
    parser :
  Z.of_nat (length infile_) + 1 < INT32_MAX ->
  exists p0,
    parse_smt2_parser_init None infile_ outfile_ parser = Some (tt, p0)
    /\ reads_file p0 /\ infile p0 = infile_
    /\ error p0 = error parser /\ commands p0 = commands parser
    /\ symbol p0 = symbol parser /\ work p0 = work parser
    /\ logic (res p0) = 0.
Proof.
  intros Hlen. unfold parse_smt2_parser_init, bind, modify.
  eexists. split; [reflexivity|]. split.
  - unfold reads_file. cbn. unfold INT32_MAX in *. repeat split; lia.
  - now destruct parser.
Qed.

(** X22. A file without commands.  On a file that holds nothing but
    white-space characters and comments, [parse_smt2_parser] returns the
    null pointer: no command is read, the counters of the commands, the
    symbol table and the work stack are as before, and no error is set.
    When such a file ends inside a comment, [parse_smt2_parser] returns the
    error "unexpected end-of-file in comment".  In neither case is a
    command other than the end of the file looked at. *)
Theorem parse_file_without_commands (fuel : nat) (infile_name_ : string)
    (outfile_ : list string) parser (bs : list blank) :
  error parser = None -> model (commands parser) = 0 ->
  Forall blank_ok bs ->
  (Z.of_nat (length (concat (blank_chars <$> bs))) + 1 < INT32_MAX ->
   exists p',
     parse_smt2_parser L read_command_other (S fuel) None
       (concat (blank_chars <$> bs)) infile_name_ outfile_ parser
     = Some (None, p')
     /\ error p' = None /\ commands p' = commands parser
     /\ symbol p' = symbol parser /\ work p' = work parser)
  /\ (forall text,
        Forall (fun c => c <> chr "010" /\ c <> EOF) text ->
        Z.of_nat (length (concat (blank_chars <$> bs) ++ chr ";" :: text)) + 1
        < INT32_MAX ->
        exists e p',
          parse_smt2_parser L read_command_other (S fuel) None
            (concat (blank_chars <$> bs) ++ chr ";" :: text) infile_name_
            outfile_ parser
          = Some (Some e, p')
          /\ err_msg e = "unexpected end-of-file in comment"
          /\ commands p' = commands parser
          /\ symbol p' = symbol parser /\ work p' = work parser).
Proof.
  intros He Hm Hbs. split.
  - intros Hlen.
    destruct (parse_smt2_parser_init_spec _ outfile_ parser Hlen)
      as (p0 & Hinit & Hr0 & Hi0 & He0 & Hc0 & Hs0 & Hw0 & _).
    destruct (lex_blank_file p0 bs Hr0 Hbs) as [Hlex _].
    destruct (Hlex Hi0) as (p1 & Hrun & He1 & _ & _ & Hw1 & Hs1 & Hc1 & _).
    assert (Hloop : read_commands L read_command_other (S fuel) p0
                    = Some (tt, p1)).
    { cbn [read_commands].
      unfold bind at 1, read_command_smt2, bind at 1. rewrite Hrun.
      unfold bind at 1, get at 1. rewrite Hc1, Hc0, Hm.
      change (0 =? 0) with true. cbn [negb andb].
      rewrite Z.eqb_refl. cbn [orb]. unfold ret at 1.
      unfold bind at 1, get at 1. cbn [Z.eqb negb andb]. reflexivity. }
    destruct (parse_smt2_parser_after_loop L read_command_other (S fuel) None
                _ infile_name_ outfile_ parser p0 p1 Hinit Hloop) as [_ Hok].
    destruct (Hok ltac:(now rewrite He1, He0)) as (q & p2 & Hparse & Hq & Hlogic).
    destruct (parse_smt2_parser_logic_frame L q)
      as (p2' & Hlogic' & He2 & Hc2 & Hs2 & Hw2 & _).
    rewrite Hlogic in Hlogic'. injection Hlogic' as <-.
    exists p2. split; [exact Hparse|].
    rewrite He2, Hc2, Hs2, Hw2, Hq. cbn [error commands symbol work set_msgs].
    rewrite He1, He0, He, Hc1, Hc0, Hs1, Hs0, Hw1, Hw0.
    now repeat split.
  - intros text Htext Hlen.
    destruct (parse_smt2_parser_init_spec _ outfile_ parser Hlen)
      as (p0 & Hinit & Hr0 & Hi0 & He0 & Hc0 & Hs0 & Hw0 & _).
    destruct (lex_blank_file p0 bs Hr0 Hbs) as [_ Hlex].
    destruct (Hlex text Hi0 Htext)
      as (p1 & Hrun & Hrep & _ & Hw1 & Hs1 & Hc1 & _).
    unfold reports in Hrep. rewrite He0 in Hrep. specialize (Hrep He).
    destruct (error p1) as [e|] eqn:E1; [|discriminate].
    injection Hrep as Hmsg.
    assert (Hloop : read_commands L read_command_other (S fuel) p0
                    = Some (tt, p1)).
    { cbn [read_commands].
      unfold bind at 1, read_command_smt2, bind at 1. rewrite Hrun.
      unfold bind at 1, get at 1.
      change (BZLA_INVALID_TAG_SMT2 =? BZLA_RPAR_TAG_SMT2) with false.
      change (BZLA_INVALID_TAG_SMT2 =? EOF) with false.
      rewrite !andb_false_r. rewrite Z.eqb_refl. cbn [orb]. unfold ret at 1.
      unfold bind at 1, get at 1. cbn [Z.eqb negb andb]. reflexivity. }
    destruct (parse_smt2_parser_after_loop L read_command_other (S fuel) None
                _ infile_name_ outfile_ parser p0 p1 Hinit Hloop) as [Herr _].
    exists e, p1. split; [exact (Herr e E1)|].
    rewrite Hc1, Hc0, Hs1, Hs0, Hw1, Hw0. now repeat split.
Qed.

End WholeFile.

(** ** Tokens that start with a hash *)

Ltac eval_tests_of c :=
  repeat match goal with
  | |- context [c =? ?x] =>
      let b := eval vm_compute in (c =? x) in change (c =? x) with b
  end.

Ltac hash_start parser rest Hs Hp Hst Hi Hy :=
  unfold read_token_aux_smt2, bind at 1 2 3 4, modify at 1 2, get at 1;
  cbv beta iota zeta;
  rewrite (read_token_restart_plain _ _ (chr "#") rest);
    [|exact Hs|exact Hp|exact Hi|discriminate|reflexivity|discriminate
     |unfold INT32_MAX; cbn; lia];
  cbv beta iota;
  eval_tests_of (chr "#"); cbv beta iota;
  generalize (S (S (input_left
                      (set_last_node None
                         (set_token [] (set_lastcoo (coo parser) parser))))));
  intros fuel;
  unfold bind at 1;
  rewrite pushch_plain; [|exact Hst|discriminate].

Section HashTokens.
Context `{Backend}.

Lemma bit_chars (l : list ascii) :
  Forall (fun a => a = "0"%char \/ a = "1"%char) l ->
  Forall (fun a => 0 < chr a < 128) l
  /\ Forall (fun c => (c =? chr "0") || (c =? chr "1") = true
                      /\ c <> chr "010" /\ c <> EOF) (chr <$> l).
Proof.
  induction l as [|a l IH]; intros Hl; [split; constructor|].
  apply Forall_cons_1 in Hl as [Ha Hl]. destruct (IH Hl) as [IH1 IH2].
  split; constructor; try assumption; destruct Ha as [-> | ->];
    vm_compute; repeat split; discriminate.
Qed.

Lemma lex_binary parser (b0 : ascii) (bits : string) (tail : list Z) :
  saved parser = false -> prefix parser = None -> store_tokens parser = false ->
  infile parser = file_of ("#b" +:+ String b0 bits) ++ tail ->
  Forall (fun a => a = "0"%char \/ a = "1"%char)
         (b0 :: list_ascii_of_string bits) ->
  hd EOF tail <> chr "0" -> hd EOF tail <> chr "1" ->
  hd EOF tail <> chr "010" -> -128 <= hd EOF tail < 128 ->
  0 <= coo_y (nextcoo parser) ->
  coo_y (nextcoo parser) + strlen bits + 4 < INT32_MAX ->
  exists p',
    read_token_smt2 parser = Some (BZLA_BINARY_CONSTANT_TAG_SMT2, p')
    /\ c_string (token p') = "#b" +:+ String b0 bits
    /\ error p' = error parser
    /\ saved p' = true /\ savedch p' = hd EOF tail /\ infile p' = tl tail
    /\ symbol p' = symbol parser /\ work p' = work parser.
Proof.
  intros Hs Hp Hst Hi Hbits Hn0 Hn1 Hnl Hr Hy0 Hy.
  change (file_of ("#b" +:+ String b0 bits))
    with (chr "#" :: chr "b" :: chr b0 :: file_of bits) in Hi.
  cbn [app] in Hi.
  destruct (bit_chars _ Hbits) as [Hchars Hclass].
  apply Forall_cons_1 in Hclass as [(Hb0 & Hb0nl & Hb0eof) Hclass].
  assert (Hlen : length (file_of bits) = String.length bits).
  { unfold file_of. rewrite length_fmap. clear.
    induction bits; cbn; congruence. }
  unfold strlen in Hy. rewrite <- Hlen in Hy. unfold INT32_MAX in Hy.
  unfold read_token_smt2, read_token_aux_smt2, bind at 1 2 3 4 5,
    modify at 1 2 3, get at 1.
  cbv beta iota zeta.
  rewrite (read_token_restart_plain _ _ (chr "#") (chr "b" :: chr b0 :: file_of bits ++ tail));
    [|exact Hs|exact Hp|exact Hi|discriminate|reflexivity|discriminate
     |unfold INT32_MAX; cbn; lia].
  cbv beta iota.
  eval_tests_of (chr "#"). cbv beta iota.
  set (fuel := S (S (input_left _))).
  assert (Hfuel : (length (file_of bits) < fuel)%nat).
  { unfold fuel, input_left.
    cbn [saved prefix infile set_last_node set_token set_lastcoo].
    rewrite Hs, Hp, Hi. cbn [length]. rewrite length_app. lia. }
  clearbody fuel.
  unfold bind at 1.
  rewrite pushch_plain; [|exact Hst|discriminate].
  unfold bind at 1.
  rewrite (nextch_plain _ (chr "b") (chr b0 :: file_of bits ++ tail));
    [|exact Hs|exact Hp|reflexivity|discriminate|unfold INT32_MAX; cbn; lia].
  eval_tests_of (chr "b"). cbv beta iota.
  unfold bind at 1.
  rewrite pushch_plain; [|exact Hst|discriminate].
  unfold bind at 1.
  rewrite (nextch_plain _ (chr b0) (file_of bits ++ tail));
    [|exact Hs|exact Hp|reflexivity|exact Hb0nl|unfold INT32_MAX; cbn; lia].
  replace (chr b0 =? EOF) with false by (symmetry; now apply Z.eqb_neq).
  replace (negb (chr b0 =? chr "0") && negb (chr b0 =? chr "1")) with false
    by (symmetry; rewrite <- negb_orb, Hb0; reflexivity).
  unfold bind at 1.
  rewrite pushch_plain; [|exact Hst|exact Hb0eof].
  unfold bind at 1.
  rewrite (read_while_plain _ (file_of bits) fuel _ tail);
    [|exact Hs|exact Hp|exact Hst|reflexivity|exact Hclass
     |apply orb_false_iff; split; now apply Z.eqb_neq
     |exact Hnl|exact Hfuel|cbn; lia|unfold INT32_MAX; cbn; lia].
  unfold bind at 1.
  rewrite savech_plain;
    [|exact Hs|exact Hr|exact Hnl|unfold INT32_MAX; cbn; lia].
  unfold bind at 1.
  rewrite pushch_plain; [|exact Hst|discriminate].
  unfold ret. eexists. split; [reflexivity|].
  split; [|cbn; repeat split].
  cbn [token set_token set_nextcoo set_savedch set_saved set_infile].
  rewrite <- !app_assoc. cbn [app].
  change (c_string ((to_char <$> (chr <$> "#"%char :: "b"%char :: b0
                                     :: list_ascii_of_string bits)) ++ [0])
          = "#b" +:+ String b0 bits).
  rewrite c_string_chars.
  - cbn [string_of_list_ascii]. now rewrite string_of_list_ascii_of_string.
  - constructor; [vm_compute; split; reflexivity|].
    constructor; [vm_compute; split; reflexivity|exact Hchars].
Qed.

(** X23. A binary constant in the file: when the next characters are
    [#b], one or more binary digits, and then a character (or the end of
    the file) that is neither a binary digit nor a new line, the lexer
    returns a binary constant whose text is [#b] and the digits, reports no
    error, keeps the character after the digits as the saved one, and
    leaves the symbol table and the work stack alone. *)
Theorem read_token_binary parser (b0 : ascii) (bits : string) (tail : list Z) :
  saved parser = false -> prefix parser = None -> store_tokens parser = false ->
  infile parser = file_of ("#b" +:+ String b0 bits) ++ tail ->
  Forall (fun a => a = "0"%char \/ a = "1"%char)
         (b0 :: list_ascii_of_string bits) ->
  hd EOF tail <> chr "0" -> hd EOF tail <> chr "1" ->
  hd EOF tail <> chr "010" -> -128 <= hd EOF tail < 128 ->
  0 <= coo_y (nextcoo parser) ->
  coo_y (nextcoo parser) + strlen bits + 4 < INT32_MAX ->
  exists p',
    read_token_smt2 parser = Some (BZLA_BINARY_CONSTANT_TAG_SMT2, p')
    /\ c_string (token p') = "#b" +:+ String b0 bits
    /\ error p' = error parser
    /\ saved p' = true /\ savedch p' = hd EOF tail /\ infile p' = tl tail
    /\ symbol p' = symbol parser /\ work p' = work parser.
Proof. apply lex_binary. Qed.

(** X24. A hash that starts no constant.  The lexer returns the invalid
    tag and reports: "unexpected end-of-file after '#'" when the file ends
    after the hash; "expected 'x' or 'b' after '#'" when another character
    follows; "unexpected end-of-file after '#b'" when the file ends after
    [#b]; "expected '0' or '1' after '#b'" when [#b] is followed by
    another character.  The symbol table and the work stack are as
    before. *)
Theorem read_token_hash_errors parser (rest : list Z) :
  saved parser = false -> prefix parser = None -> store_tokens parser = false ->
  infile parser = chr "#" :: rest ->
  0 <= coo_y (nextcoo parser) -> coo_y (nextcoo parser) + 3 < INT32_MAX ->
  let fails msg :=
    exists p',
      read_token_smt2 parser = Some (BZLA_INVALID_TAG_SMT2, p')
      /\ reports parser p' msg
      /\ symbol p' = symbol parser /\ work p' = work parser in
  (rest = [] -> fails "unexpected end-of-file after '#'")
  /\ (forall c r,
        rest = c :: r -> c <> EOF -> c <> chr "010" ->
        c <> chr "b" -> c <> chr "x" ->
        fails "expected 'x' or 'b' after '#'")
  /\ (rest = [chr "b"] -> fails "unexpected end-of-file after '#b'")
  /\ (forall c r,
        rest = chr "b" :: c :: r -> c <> EOF -> c <> chr "010" ->
        c <> chr "0" -> c <> chr "1" ->
        fails "expected '0' or '1' after '#b'").
Proof.
  intros Hs Hp Hst Hi Hy0 Hy fails. unfold INT32_MAX in Hy.
  assert (Hstart :
    forall msg,
      (exists p',
         read_token_aux_smt2
           (set_lastcoo (coo parser) parser) = Some (BZLA_INVALID_TAG_SMT2, p')
         /\ reports parser p' msg
         /\ symbol p' = symbol parser /\ work p' = work parser) ->
      fails msg).
  { intros msg (p' & Hrun & Hrest). exists p'. split; [|exact Hrest].
    unfold read_token_smt2, bind at 1, modify at 1. exact Hrun. }
  clearbody fails.
  split; [|split; [|split]].
  - intros ->. apply Hstart. hash_start parser (@nil Z) Hs Hp Hst Hi Hy.
    unfold bind at 1.
    rewrite nextch_eof;
      [|exact Hs|exact Hp|reflexivity|unfold INT32_MAX; cbn; lia].
    rewrite Z.eqb_refl. unfold bind at 1.
    match goal with |- context [perr_smt2 ?m ?q] =>
      destruct (perr_smt2_reports m q) as (p' & Hrun & Hrep & _ & Hframe) end.
    rewrite Hrun. exists p'. split; [reflexivity|].
    split; [exact Hrep|]. rewrite Hframe. now split.
  - intros c r -> Heof Hnl Hb Hx. apply Hstart.
    hash_start parser (c :: r) Hs Hp Hst Hi Hy. unfold bind at 1.
    rewrite (nextch_plain _ c r);
      [|exact Hs|exact Hp|reflexivity|exact Hnl|unfold INT32_MAX; cbn; lia].
    replace (c =? EOF) with false by (symmetry; now apply Z.eqb_neq).
    replace (c =? chr "b") with false by (symmetry; now apply Z.eqb_neq).
    replace (c =? chr "x") with false by (symmetry; now apply Z.eqb_neq).
    unfold bind at 1.
    match goal with |- context [perr_smt2 ?m ?q] =>
      destruct (perr_smt2_reports m q) as (p' & Hrun & Hrep & _ & Hframe) end.
    rewrite Hrun. exists p'. split; [reflexivity|].
    split; [exact Hrep|]. rewrite Hframe. now split.
  - intros ->. apply Hstart. hash_start parser [chr "b"] Hs Hp Hst Hi Hy.
    unfold bind at 1.
    rewrite (nextch_plain _ (chr "b") []);
      [|exact Hs|exact Hp|reflexivity|discriminate|unfold INT32_MAX; cbn; lia].
    eval_tests_of (chr "b"). cbv beta iota.
    unfold bind at 1.
    rewrite pushch_plain; [|exact Hst|discriminate].
    unfold bind at 1.
    rewrite nextch_eof;
      [|exact Hs|exact Hp|reflexivity|unfold INT32_MAX; cbn; lia].
    rewrite Z.eqb_refl. unfold bind at 1.
    match goal with |- context [perr_smt2 ?m ?q] =>
      destruct (perr_smt2_reports m q) as (p' & Hrun & Hrep & _ & Hframe) end.
    rewrite Hrun. exists p'. split; [reflexivity|].
    split; [exact Hrep|]. rewrite Hframe. now split.
  - intros c r -> Heof Hnl Hc0 Hc1. apply Hstart.
    hash_start parser (chr "b" :: c :: r) Hs Hp Hst Hi Hy. unfold bind at 1.
    rewrite (nextch_plain _ (chr "b") (c :: r));
      [|exact Hs|exact Hp|reflexivity|discriminate|unfold INT32_MAX; cbn; lia].
    eval_tests_of (chr "b"). cbv beta iota.
    unfold bind at 1.
    rewrite pushch_plain; [|exact Hst|discriminate].
    unfold bind at 1.
    rewrite (nextch_plain _ c r);
      [|exact Hs|exact Hp|reflexivity|exact Hnl|unfold INT32_MAX; cbn; lia].
    replace (c =? EOF) with false by (symmetry; now apply Z.eqb_neq).
    replace (c =? chr "0") with false by (symmetry; now apply Z.eqb_neq).
    replace (c =? chr "1") with false by (symmetry; now apply Z.eqb_neq).
    cbn [negb andb]. unfold bind at 1.
    match goal with |- context [perr_smt2 ?m ?q] =>
      destruct (perr_smt2_reports m q) as (p' & Hrun & Hrep & _ & Hframe) end.
    rewrite Hrun. exists p'. split; [reflexivity|].
    split; [exact Hrep|]. rewrite Hframe. now split.
Qed.

End HashTokens.

(** ** Further properties on sample states *)

(** The numeral of the file [12)]. *)
Lemma read_token_decimal_witness :
  exists p',
    read_token_smt2 (parser_on "12)")
    = Some (BZLA_DECIMAL_CONSTANT_TAG_SMT2, p')
    /\ c_string (token p') = "12" /\ savedch p' = chr ")" /\ infile p' = [].
Proof.
  destruct (@read_token_decimal term_backend (parser_on "12)") "1"%char "2"
              [chr ")"])
    as (p' & Hrun & Htok & _ & _ & Hch & Hin & _).
  - reflexivity.
  - reflexivity.
  - reflexivity.
  - reflexivity.
  - reflexivity.
  - discriminate.
  - repeat constructor.
  - reflexivity.
  - discriminate.
  - discriminate.
  - vm_compute. split; [discriminate|reflexivity].
  - vm_compute. discriminate.
  - vm_compute. reflexivity.
  - exists p'. split; [exact Hrun|]. split; [exact Htok|].
    split; [exact Hch|exact Hin].
Defined.

(** The strings [42] and [4294967296], and zero where it is not allowed. *)
Lemma str2uint32_smt2_spec_witness :
  str2uint32_smt2 false "42" (parser_on EmptyString) = Some (Some 42, parser_on EmptyString)
  /\ (exists p',
        str2uint32_smt2 true "4294967296" (parser_on EmptyString) = Some (None, p')
        /\ err_msg <$> error p' = Some "invalid 32-bit integer '4294967296'")
  /\ (exists p',
        str2uint32_smt2 false "0" (parser_on EmptyString) = Some (None, p')
        /\ err_msg <$> error p'
           = Some "expected positive non-zero 32-bit integer at '0'").
Proof.
  split; [|split].
  - destruct (@str2uint32_smt2_spec term_backend false "42" (parser_on EmptyString))
      as [Hok _].
    apply Hok.
    + repeat constructor.
    + vm_compute. discriminate.
    + right. vm_compute. reflexivity.
  - destruct (@str2uint32_smt2_spec term_backend true "4294967296"
                (parser_on EmptyString)) as (_ & _ & Hbad).
    destruct Hbad as (p' & Hrun & Hrep).
    + right. split; [repeat constructor|vm_compute; reflexivity].
    + exists p'. split; [exact Hrun|exact (Hrep eq_refl)].
  - destruct (@str2uint32_smt2_spec term_backend false "0" (parser_on EmptyString))
      as (_ & Hzero & _).
    destruct Hzero as (p' & Hrun & Hrep).
    + repeat constructor.
    + reflexivity.
    + reflexivity.
    + exists p'. split; [exact Hrun|exact (Hrep eq_refl)].
Defined.

(** [parse_uint32_smt2] on the file [12)]. *)
Lemma parse_uint32_reads_numeral_witness :
  exists p',
    parse_uint32_smt2 true (parser_on "12)") = Some (Some 12, p')
    /\ savedch p' = chr ")".
Proof.
  destruct (@parse_uint32_reads_numeral term_backend true (parser_on "12)")
              "1"%char "2" [chr ")"]) as [Hok _].
  - reflexivity.
  - reflexivity.
  - reflexivity.
  - reflexivity.
  - reflexivity.
  - discriminate.
  - repeat constructor.
  - reflexivity.
  - discriminate.
  - discriminate.
  - vm_compute. split; [discriminate|reflexivity].
  - vm_compute. discriminate.
  - vm_compute. reflexivity.
  - destruct Hok as (p' & Hrun & _ & _ & Hch & _).
    + vm_compute. discriminate.
    + exists p'. split; [exact Hrun|exact Hch].
Defined.

(** [(bvnot a b)]: one argument too much. *)
Lemma check_nargs_smt2_spec_witness :
  exists p',
    check_nargs_smt2 1 2 1
      (closing (op_item BZLA_BV_NOT_TAG_SMT2 "bvnot" 0 0)
         [TVar (TBitVec 4) "a"; TVar (TBitVec 4) "b"])
    = Some (false, p')
    /\ err_msg <$> error p' = Some "'bvnot' has one argument too much".
Proof.
  pose proof (term_open_closing (op_item BZLA_BV_NOT_TAG_SMT2 "bvnot" 0 0)
                [TVar (TBitVec 4) "a"; TVar (TBitVec 4) "b"]
                ltac:(vm_compute; reflexivity)) as Hopen.
  destruct (@check_nargs_smt2_spec term_backend _ _ _ _ _ _ _ 1 Hopen eq_refl)
    as (p' & Hrun & _ & Hbad).
  - vm_compute. split; [discriminate|reflexivity].
  - vm_compute. reflexivity.
  - destruct Hbad as [_ Hrep]; [discriminate|].
    exists p'. split; [exact Hrun|exact (Hrep eq_refl)].
Defined.

(** [(bvnot a m)] with an array [m]. *)
Lemma check_not_array_or_uf_args_smt2_spec_witness :
  exists p',
    check_not_array_or_uf_args_smt2 1 2
      (closing (op_item BZLA_BV_NOT_TAG_SMT2 "bvnot" 0 0)
         [TVar (TBitVec 4) "a"; TVar (TArray 2 4) "m"])
    = Some (false, p')
    /\ err_msg <$> error p' = Some "argument 2 of 'bvnot' is an array".
Proof.
  pose proof (term_open_closing (op_item BZLA_BV_NOT_TAG_SMT2 "bvnot" 0 0)
                [TVar (TBitVec 4) "a"; TVar (TArray 2 4) "m"]
                ltac:(vm_compute; reflexivity)) as Hopen.
  destruct (@check_not_array_or_uf_args_smt2_spec term_backend _ _ _ _ _ _ _
              Hopen eq_refl ltac:(vm_compute; reflexivity))
    as [_ Hbad].
  destruct (Hbad [TVar (TBitVec 4) "a"] (TVar (TArray 2 4) "m") [])
    as (p' & Hrun & _ & Hrep).
  - reflexivity.
  - repeat constructor.
  - left. reflexivity.
  - exists p'. split; [exact Hrun|exact (Hrep eq_refl)].
Defined.

(** [(and a b c)] on Boolean terms, with the conjunction of the term
    backend. *)
Lemma close_term_bin_bool_spec_witness :
  exists p',
    close_term_bin_bool 0 1 3 TAnd
      (closing (op_item BZLA_AND_TAG_SMT2 "and" 0 0)
         [TVar (TBitVec 1) "a"; TVar (TBitVec 1) "b"; TVar (TBitVec 1) "c"])
    = Some (1, p')
    /\ work p'
       = [exp_item (TAnd (TAnd (TVar (TBitVec 1) "a") (TVar (TBitVec 1) "b"))
                         (TVar (TBitVec 1) "c"))].
Proof.
  pose proof (term_open_closing (op_item BZLA_AND_TAG_SMT2 "and" 0 0)
                [TVar (TBitVec 1) "a"; TVar (TBitVec 1) "b"; TVar (TBitVec 1) "c"]
                ltac:(vm_compute; reflexivity)) as Hopen.
  destruct (@close_term_bin_bool_spec term_backend _ _ _ _ _ _ _ TAnd
              Hopen eq_refl
              ltac:(right; left; reflexivity) ltac:(vm_compute; reflexivity))
    as (_ & Hok & _).
  eexists. split.
  - apply (Hok (TVar (TBitVec 1) "a") [TVar (TBitVec 1) "b"]
             (TVar (TBitVec 1) "c")).
    + reflexivity.
    + repeat constructor.
  - reflexivity.
Defined.

(** [(bvredor a)], where the reduction is the comparison with zero. *)
Lemma close_term_unary_bv_fun_spec_witness :
  (exists p',
     close_term_unary_bv_fun 0 1 1 (fun t => TNe t (TZero (term_sort_of t)))
       (closing (op_item BZLA_BV_REDOR_TAG_SMT2 "bvredor" 0 0)
          [TVar (TBitVec 4) "a"])
     = Some (1, p')
     /\ work p'
        = [exp_item (TNe (TVar (TBitVec 4) "a") (TZero (TBitVec 4)))])
  /\ (exists p',
        close_term_unary_bv_fun 0 1 0 (fun t => TNe t (TZero (term_sort_of t)))
          (closing (op_item BZLA_BV_REDOR_TAG_SMT2 "bvredor" 0 0) [])
        = Some (0, p')
        /\ error p' <> None).
Proof.
  split.
  - pose proof (term_open_closing (op_item BZLA_BV_REDOR_TAG_SMT2 "bvredor" 0 0)
                  [TVar (TBitVec 4) "a"]
                  ltac:(vm_compute; reflexivity)) as Hopen.
    destruct (@close_term_unary_bv_fun_spec term_backend _ _ _ _ _ _ _
                (fun t => TNe t (TZero (term_sort_of t))) Hopen eq_refl
                ltac:(right; right; left; reflexivity)
                ltac:(vm_compute; reflexivity))
      as [Hok _].
    eexists. split.
    + apply (Hok (TVar (TBitVec 4) "a")); reflexivity.
    + reflexivity.
  - pose proof (term_open_closing (op_item BZLA_BV_REDOR_TAG_SMT2 "bvredor" 0 0)
                  [] ltac:(vm_compute; reflexivity)) as Hopen.
    destruct (@close_term_unary_bv_fun_spec term_backend _ _ _ _ _ _ _
                (fun t => TNe t (TZero (term_sort_of t))) Hopen eq_refl
                ltac:(right; right; left; reflexivity)
                ltac:(vm_compute; reflexivity))
      as [_ Hbad].
    destruct Hbad as (p' & Hrun & _ & Herr).
    + left. discriminate.
    + exists p'. split; [exact Hrun|exact (Herr eq_refl)].
Defined.

(** [(bvult a b)] with [a] of width 4 and [b] of width 8. *)
Lemma check_arg_sorts_match_bit_vectors_witness :
  exists p',
    check_arg_sorts_match_smt2 1 0 2
      (closing (op_item BZLA_BV_ULT_TAG_SMT2 "bvult" 0 0)
         [TVar (TBitVec 4) "a"; TVar (TBitVec 8) "b"])
    = Some (false, p')
    /\ err_msg <$> error p'
       = Some ("first argument of 'bvult' is bit-vector of width 4 "
               +:+ "but argument 2 is a bit-vector of width 8").
Proof.
  pose proof (term_open_closing (op_item BZLA_BV_ULT_TAG_SMT2 "bvult" 0 0)
                [TVar (TBitVec 4) "a"; TVar (TBitVec 8) "b"]
                ltac:(vm_compute; reflexivity)) as Hopen.
  destruct (@check_arg_sorts_match_bit_vectors term_backend _ _ _ _ _ _ _ _
              Hopen eq_refl ltac:(vm_compute; reflexivity) eq_refl eq_refl)
    as [_ Hbad].
  destruct (Hbad [] (TVar (TBitVec 8) "b") []) as (p' & Hrun & _ & Hrep).
  - reflexivity.
  - constructor.
  - right. right. discriminate.
  - exists p'. split; [exact Hrun|exact (Hrep eq_refl)].
Defined.

(** [(bvcomp a b)], where the comparison is the equality of the term
    backend. *)
Lemma close_term_bin_bv_fun_spec_witness :
  exists p',
    close_term_bin_bv_fun 0 1 2 TEq
      (closing (op_item BZLA_BV_COMP_TAG_SMT2 "bvcomp" 0 0)
         [TVar (TBitVec 4) "a"; TVar (TBitVec 4) "b"])
    = Some (1, p')
    /\ work p' = [exp_item (TEq (TVar (TBitVec 4) "a") (TVar (TBitVec 4) "b"))].
Proof.
  pose proof (term_open_closing (op_item BZLA_BV_COMP_TAG_SMT2 "bvcomp" 0 0)
                [TVar (TBitVec 4) "a"; TVar (TBitVec 4) "b"]
                ltac:(vm_compute; reflexivity)) as Hopen.
  destruct (@close_term_bin_bv_fun_spec term_backend _ _ _ _ _ _ _ TEq
              Hopen eq_refl
              ltac:(vm_compute; tauto) ltac:(vm_compute; reflexivity))
    as [Hok _].
  destruct (Hok (TVar (TBitVec 4) "a") (TVar (TBitVec 4) "b")
              eq_refl eq_refl eq_refl eq_refl eq_refl) as [Hsame _].
  eexists. split.
  - apply Hsame. reflexivity.
  - reflexivity.
Defined.

(** [(bvand a b c)]; the functions for [bvxor] and [bvnot], which the term
    backend does not list, are the inequality and the comparison with
    zero. *)
Lemma close_term_bin_bv_left_associative_spec_witness :
  exists p',
    close_term_bin_bv_left_associative TNe
      (fun t => TEq t (TZero (term_sort_of t))) 0 1 3 TAnd false
      (closing (op_item BZLA_BV_AND_TAG_SMT2 "bvand" 0 0)
         [TVar (TBitVec 4) "a"; TVar (TBitVec 4) "b"; TVar (TBitVec 4) "c"])
    = Some (1, p')
    /\ work p'
       = [exp_item (TAnd (TAnd (TVar (TBitVec 4) "a") (TVar (TBitVec 4) "b"))
                         (TVar (TBitVec 4) "c"))].
Proof.
  pose proof (term_open_closing (op_item BZLA_BV_AND_TAG_SMT2 "bvand" 0 0)
                [TVar (TBitVec 4) "a"; TVar (TBitVec 4) "b"; TVar (TBitVec 4) "c"]
                ltac:(vm_compute; reflexivity)) as Hopen.
  destruct (@close_term_bin_bv_left_associative_spec term_backend TNe
              (fun t => TEq t (TZero (term_sort_of t)))
              _ _ _ _ _ _ _ TAnd false Hopen eq_refl
              ltac:(vm_compute; tauto) ltac:(vm_compute; reflexivity))
    as [_ Hok].
  destruct (Hok (TVar (TBitVec 4) "a")
              [TVar (TBitVec 4) "b"; TVar (TBitVec 4) "c"])
    as (p' & Hrun & Hwork & _).
  - reflexivity.
  - cbn [length]. lia.
  - repeat constructor.
  - right. repeat constructor.
  - exists p'. split; [exact Hrun|exact Hwork].
Defined.

(** [((_ zero_extend 1) a)] with [a] of width [INT32_MAX]. *)
Lemma close_term_extend_bv_fun_spec_witness :
  exists p',
    close_term_extend_bv_fun 0 1 1 TRoli
      (closing (op_item BZLA_BV_ZERO_EXTEND_TAG_SMT2 "zero_extend" 1 0)
         [TVar (TBitVec INT32_MAX) "a"])
    = Some (0, p')
    /\ err_msg <$> error p'
       = Some "resulting bit-width of 'zero_extend' too large".
Proof.
  pose proof (term_open_closing
                (op_item BZLA_BV_ZERO_EXTEND_TAG_SMT2 "zero_extend" 1 0)
                [TVar (TBitVec INT32_MAX) "a"]
                ltac:(vm_compute; reflexivity)) as Hopen.
  destruct (@close_term_extend_bv_fun_spec term_backend _ _ _ _ _ _ _ TRoli
              Hopen eq_refl (or_introl eq_refl) eq_refl eq_refl)
    as [_ Hbad].
  - vm_compute. split; discriminate.
  - destruct Hbad as (p' & Hrun & _ & Hrep).
    + vm_compute. reflexivity.
    + exists p'. split; [exact Hrun|exact (Hrep eq_refl)].
Defined.

(** [(ite c a b)] with [c] of width 1: accepted with [a], [b] of width
    4, refused with [b] of width 8. *)
Lemma check_ite_args_sorts_match_smt2_spec_witness :
  check_ite_args_sorts_match_smt2 1
    (closing (op_item BZLA_ITE_TAG_SMT2 "ite" 0 0)
       [TVar (TBitVec 1) "c"; TVar (TBitVec 4) "a"; TVar (TBitVec 4) "b"])
  = Some (true,
          closing (op_item BZLA_ITE_TAG_SMT2 "ite" 0 0)
            [TVar (TBitVec 1) "c"; TVar (TBitVec 4) "a"; TVar (TBitVec 4) "b"])
  /\ (exists p',
        check_ite_args_sorts_match_smt2 1
          (closing (op_item BZLA_ITE_TAG_SMT2 "ite" 0 0)
             [TVar (TBitVec 1) "c"; TVar (TBitVec 4) "a"; TVar (TBitVec 8) "b"])
        = Some (false, p')
        /\ err_msg <$> error p'
           = Some ("second argument of 'ite' is bit-vector of width 4 "
                   +:+ "and third argument is bit-vector of width 8")).
Proof.
  split.
  - pose proof (term_open_closing (op_item BZLA_ITE_TAG_SMT2 "ite" 0 0)
                  [TVar (TBitVec 1) "c"; TVar (TBitVec 4) "a";
                   TVar (TBitVec 4) "b"]
                  ltac:(vm_compute; reflexivity)) as Hopen.
    destruct (@check_ite_args_sorts_match_smt2_spec term_backend _ _ _ _ _ _ _ _
                Hopen eq_refl) as (p' & Hrun & _ & Hsame & _).
    rewrite <- (Hsame eq_refl) at 2. exact Hrun.
  - pose proof (term_open_closing (op_item BZLA_ITE_TAG_SMT2 "ite" 0 0)
                  [TVar (TBitVec 1) "c"; TVar (TBitVec 4) "a";
                   TVar (TBitVec 8) "b"]
                  ltac:(vm_compute; reflexivity)) as Hopen.
    destruct (@check_ite_args_sorts_match_smt2_spec term_backend _ _ _ _ _ _ _ _
                Hopen eq_refl) as (p' & Hrun & _ & _ & Hrep).
    exists p'. split; [exact Hrun|exact (Hrep eq_refl eq_refl)].
Defined.

(** The character [a] of the file [ab], given back and read again. *)
Lemma savech_then_nextch_witness :
  (run savech_smt2 (chr "a"); nextch_smt2) (exec nextch_smt2 (parser_on "ab"))
  = Some (chr "a",
          set_nextcoo
            (if chr "a" =? chr "010"
             then set_coo_y 1 (nextcoo (exec nextch_smt2 (parser_on "ab")))
             else nextcoo (exec nextch_smt2 (parser_on "ab")))
            (set_savedch (chr "a") (exec nextch_smt2 (parser_on "ab")))).
Proof.
  apply (@savech_then_nextch term_backend
           (exec nextch_smt2 (parser_on "ab")) (chr "a")).
  - vm_compute. reflexivity.
  - vm_compute. split; [discriminate|reflexivity].
  - intros _. vm_compute. split; [reflexivity|discriminate].
  - intros Hnl. discriminate Hnl.
Defined.

(** A file of a space and a comment, and a file that ends in a comment. *)
Lemma read_token_blank_file_witness :
  (exists p',
     read_token_smt2
       (set_infile [chr " "; chr ";"; chr "c"; chr "010"] (parser_on EmptyString))
     = Some (EOF, p')
     /\ error p' = None)
  /\ (exists p',
        read_token_smt2
          (set_infile [chr " "; chr ";"; chr "c"] (parser_on EmptyString))
        = Some (BZLA_INVALID_TAG_SMT2, p')
        /\ err_msg <$> error p' = Some "unexpected end-of-file in comment").
Proof.
  split.
  - destruct (@read_token_blank_file term_backend
                (set_infile [chr " "; chr ";"; chr "c"; chr "010"] (parser_on EmptyString))
                [Space (chr " "); Comment [chr "c"]])
      as [Hblank _].
    + vm_compute. repeat split; discriminate.
    + repeat constructor; discriminate.
    + destruct (Hblank eq_refl) as (p' & Hrun & Herr & _).
      exists p'. split; [exact Hrun|exact Herr].
  - destruct (@read_token_blank_file term_backend
                (set_infile [chr " "; chr ";"; chr "c"] (parser_on EmptyString))
                [Space (chr " ")])
      as [_ Hcomment].
    + vm_compute. repeat split; discriminate.
    + repeat constructor.
    + destruct (Hcomment [chr "c"] eq_refl) as (p' & Hrun & Hrep & _).
      * repeat constructor; discriminate.
      * exists p'. split; [exact Hrun|exact (Hrep eq_refl)].
Defined.

(** The same two files, parsed from the parser as it is allocated. *)
Lemma parse_file_without_commands_witness :
  (exists p',
     @parse_smt2_parser term_backend sample_logic (fun _ => undefined) 1 None
       [chr " "; chr ";"; chr "c"; chr "010"] "a.smt2" []
       (@zero_parser term_backend 0)
     = Some (None, p')
     /\ all (commands p') = 0)
  /\ (exists e p',
        @parse_smt2_parser term_backend sample_logic (fun _ => undefined) 1 None
          [chr " "; chr ";"; chr "c"] "a.smt2" []
          (@zero_parser term_backend 0)
        = Some (Some e, p')
        /\ err_msg e = "unexpected end-of-file in comment").
Proof.
  split.
  - destruct (@parse_file_without_commands term_backend sample_logic
                (fun _ => undefined) 0%nat "a.smt2" []
                (@zero_parser term_backend 0)
                [Space (chr " "); Comment [chr "c"]] eq_refl eq_refl)
      as [Hblank _].
    + repeat constructor; discriminate.
    + destruct Hblank as (p' & Hrun & _ & Hc & _).
      * vm_compute. reflexivity.
      * exists p'. split; [exact Hrun|]. rewrite Hc. reflexivity.
  - destruct (@parse_file_without_commands term_backend sample_logic
                (fun _ => undefined) 0%nat "a.smt2" []
                (@zero_parser term_backend 0)
                [Space (chr " ")] eq_refl eq_refl)
      as [_ Hcomment].
    + repeat constructor.
    + destruct (Hcomment [chr "c"]) as (e & p' & Hrun & Hmsg & _).
      * repeat constructor; discriminate.
      * vm_compute. reflexivity.
      * exists e, p'. split; [exact Hrun|exact Hmsg].
Defined.

(** The binary constant of the file [#b01)]. *)
Lemma read_token_binary_witness :
  exists p',
    read_token_smt2 (parser_on "#b01)")
    = Some (BZLA_BINARY_CONSTANT_TAG_SMT2, p')
    /\ c_string (token p') = "#b01" /\ savedch p' = chr ")".
Proof.
  destruct (@read_token_binary term_backend (parser_on "#b01)") "0"%char "1"
              [chr ")"])
    as (p' & Hrun & Htok & _ & _ & Hch & _).
  - reflexivity.
  - reflexivity.
  - reflexivity.
  - reflexivity.
  - constructor; [now left|]. constructor; [now right|constructor].
  - discriminate.
  - discriminate.
  - discriminate.
  - vm_compute. split; [discriminate|reflexivity].
  - vm_compute. discriminate.
  - vm_compute. reflexivity.
  - exists p'. split; [exact Hrun|]. split; [exact Htok|exact Hch].
Defined.

(** The files [#] and [#b2]. *)
Lemma read_token_hash_errors_witness :
  (exists p',
     read_token_smt2 (parser_on "#") = Some (BZLA_INVALID_TAG_SMT2, p')
     /\ err_msg <$> error p' = Some "unexpected end-of-file after '#'")
  /\ (exists p',
        read_token_smt2 (parser_on "#b2") = Some (BZLA_INVALID_TAG_SMT2, p')
        /\ err_msg <$> error p' = Some "expected '0' or '1' after '#b'").
Proof.
  split.
  - destruct (@read_token_hash_errors term_backend (parser_on "#") [])
      as [Heof _].
    + reflexivity.
    + reflexivity.
    + reflexivity.
    + reflexivity.
    + vm_compute. discriminate.
    + vm_compute. reflexivity.
    + destruct (Heof eq_refl) as (p' & Hrun & Hrep & _).
      exists p'. split; [exact Hrun|exact (Hrep eq_refl)].
  - destruct (@read_token_hash_errors term_backend (parser_on "#b2")
                [chr "b"; chr "2"])
      as (_ & _ & _ & Hbit).
    + reflexivity.
    + reflexivity.
    + reflexivity.
    + reflexivity.
    + vm_compute. discriminate.
    + vm_compute. reflexivity.
    + destruct (Hbit (chr "2") [] eq_refl) as (p' & Hrun & Hrep & _);
        try discriminate.
      exists p'. split; [exact Hrun|exact (Hrep eq_refl)].
Defined.

(** ** A scope that is opened and closed again *)

Section ScopeRoundTrip.
Context `{Backend}.

Lemma insert_symbols_ok (news : list BzlaSMT2Node) :
  forall parser live,
    table_ok parser live ->
    Z.of_nat (length live + length news) < 2 ^ 31 ->
    NoDup (node_addr <$> news) ->
    Forall (fun s => (node_addr s ∉ node_addr <$> live)
                     /\ node_tag s <> BZLA_PARENT_TAG_SMT2
                     /\ fits (node_name s)) news ->
    exists p',
      mforeach news insert_symbol_smt2 parser = Some (tt, p')
      /\ table_ok p' (rev news ++ live)
      /\ p' = set_msgs (msgs p') (set_symbol (symbol p') parser).
Proof.
  induction news as [|s news IH]; intros parser live Hok Hlen Hnd Hnews.
  - exists parser. rewrite mforeach_nil. split; [reflexivity|].
    split; [exact Hok|]. apply table_frame_refl.
  - apply Forall_cons_1 in Hnews as [(Hnew & Htag & Hfit) Hnews].
    rewrite fmap_cons in Hnd. apply list.NoDup_cons in Hnd as [Hs Hnd].
    cbn [length] in Hlen.
    destruct (insert_symbol_ok parser live s Hok ltac:(lia) Hnew Htag Hfit)
      as (p1 & Hrun & Hok1 & Hfr).
    apply table_frame_of in Hfr.
    destruct (IH p1 (s :: live) Hok1 ltac:(cbn [length]; lia) Hnd)
      as (p2 & Hrun2 & Hok2 & Hfr2).
    + apply list.Forall_forall. intros s' Hs'.
      destruct (proj1 (list.Forall_forall _ _) Hnews s' Hs')
        as (Hnew' & Htag' & Hfit').
      split; [|now split]. rewrite fmap_cons. intros Hin.
      apply elem_of_cons in Hin as [Heq|Hin]; [|now apply Hnew'].
      apply Hs. rewrite <- Heq. now apply list_elem_of_fmap_2.
    + exists p2. rewrite mforeach_cons, Hrun. split; [exact Hrun2|]. split.
      * cbn [rev]. rewrite <- app_assoc. exact Hok2.
      * exact (table_frame_trans _ _ _ Hfr Hfr2).
Qed.

(** X25. A scope that is opened and closed again.  When a scope is
    opened, nodes of the new scope level are inserted into the symbol
    table and the scope is closed, with global declarations off, the
    table is well formed with the entries of before, every lookup returns
    what it returned before the scope was opened, the scope level is the
    one of before, and nothing but the symbol table and the recorded
    messages of the parser has changed. *)
Theorem scope_round_trip parser live (news : list BzlaSMT2Node) :
  table_ok parser live -> global_declarations parser = false ->
  0 <= scope_level parser -> scope_level parser + 1 < 2 ^ 32 ->
  Forall (fun e => node_scope_level e <= scope_level parser) live ->
  Forall (fun s => node_scope_level s = scope_level parser + 1) news ->
  Z.of_nat (length live + length news) < 2 ^ 31 ->
  NoDup (node_addr <$> news) ->
  Forall (fun s => (node_addr s ∉ node_addr <$> live)
                   /\ node_tag s <> BZLA_PARENT_TAG_SMT2
                   /\ fits (node_name s)) news ->
  exists p',
    (run open_new_scope;
     run mforeach news insert_symbol_smt2;
     close_current_scope) parser = Some (tt, p')
    /\ table_ok p' live
    /\ scope_level p' = scope_level parser
    /\ (forall name, fits name ->
          find_symbol_smt2 p' name = find_symbol_smt2 parser name)
    /\ p' = set_msgs (msgs p') (set_symbol (symbol p') parser).
Proof.
  intros Hok Hg Hl0 Hl Hlive Hnews Hlen Hnd Hfresh.
  pose proof (open_new_scope_spec parser) as Hopen.
  set (p1 := set_msgs _ (set_scope_level (u32 (scope_level parser + 1)) parser))
    in Hopen.
  assert (Hl1 : scope_level p1 = scope_level parser + 1).
  { unfold p1. cbn [scope_level set_scope_level set_msgs]. unfold u32.
    rewrite Z.mod_small; lia. }
  assert (Hok1 : table_ok p1 live) by (destruct Hok; now split).
  destruct (insert_symbols_ok news p1 live Hok1 Hlen Hnd Hfresh)
    as (p2 & Hrun2 & Hok2 & Hfr2).
  assert (Hl2 : scope_level p2 = scope_level parser + 1)
    by (rewrite Hfr2; exact Hl1).
  assert (Hg2 : global_declarations p2 = false)
    by (rewrite Hfr2; exact Hg).
  destruct (close_current_scope_ok p2 _ Hok2 Hg2) as (p3 & Hrun3 & Hok3 & Hfr3).
  rewrite list.filter_app, filter_none, filter_all in Hok3.
  - cbn [app] in Hok3. rewrite Hl2 in Hfr3.
    replace (u32 (scope_level parser + 1 - 1)) with (scope_level parser) in Hfr3
      by (unfold u32; rewrite Z.mod_small; lia).
    exists p3. split; [|split; [exact Hok3|split; [|split]]].
    + unfold bind at 1. rewrite Hopen.
      unfold bind. rewrite Hrun2. exact Hrun3.
    + now rewrite Hfr3.
    + intros name Hname.
      rewrite (find_symbol_innermost p3 live name Hok3 Hname).
      now rewrite (find_symbol_innermost parser live name Hok Hname).
    + rewrite Hfr3 at 1. generalize (msgs p3), (symbol p3). intros m3 s3.
      rewrite Hfr2. generalize (msgs p2), (symbol p2). intros m2 s2.
      unfold p1. now destruct parser.
  - intros e He. rewrite Hl2.
    apply (proj1 (list.Forall_forall _ _) Hlive) in He. lia.
  - intros e He Hne. apply elem_of_rev in He. rewrite Hl2 in Hne.
    apply (proj1 (list.Forall_forall _ _) Hnews) in He. lia.
Qed.

(** X26. The command [push], once the numeral and the closing
    parenthesis are read: the scope level grows by the numeral, the
    assertion stack of the backend is pushed by the numeral, and the
    symbol table and the switch of the global declarations are as
    before. *)
Theorem read_command_push_opens_scopes parser p1 p2 level :
  parse_uint32_smt2 true parser = Some (Some level, p1) ->
  read_rpar_smt2 (Some " after 'push'") p1 = Some (1, p2) ->
  0 <= level -> 0 <= scope_level p2 -> scope_level p2 + level < 2 ^ 32 ->
  exists p',
    read_command_push parser = Some (true, p')
    /\ scope_level p' = scope_level p2 + level
    /\ bzla p' = boolector_push (bzla p2) level
    /\ symbol p' = symbol p2
    /\ global_declarations p' = global_declarations p2.
Proof. apply push_opens_scopes. Qed.

End ScopeRoundTrip.

(** A scope in which [x] is declared, opened and closed on the table
    that holds [y]: [y] is found as before and [x] is not found. *)
Lemma scope_round_trip_witness :
  exists p',
    (run open_new_scope;
     run mforeach [sample_node 2 BZLA_SYMBOL_TAG_SMT2 1 "x"] insert_symbol_smt2;
     close_current_scope)
      (table_with [sample_node 1 BZLA_SYMBOL_TAG_SMT2 0 "y"]) = Some (tt, p')
    /\ table_ok p' [sample_node 1 BZLA_SYMBOL_TAG_SMT2 0 "y"]
    /\ scope_level p' = 0
    /\ find_symbol_smt2 p' "y" = Some (sample_node 1 BZLA_SYMBOL_TAG_SMT2 0 "y")
    /\ find_symbol_smt2 p' "x" = None.
Proof.
  destruct (@scope_round_trip term_backend
              (table_with [sample_node 1 BZLA_SYMBOL_TAG_SMT2 0 "y"])
              [sample_node 1 BZLA_SYMBOL_TAG_SMT2 0 "y"]
              [sample_node 2 BZLA_SYMBOL_TAG_SMT2 1 "x"])
    as (p' & Hrun & Hok & Hlevel & Hfind & _).
  - apply table_ok_one_symbol;
      [discriminate|vm_compute; reflexivity|reflexivity].
  - reflexivity.
  - vm_compute. discriminate.
  - vm_compute. reflexivity.
  - repeat constructor. vm_compute. discriminate.
  - repeat constructor.
  - vm_compute. reflexivity.
  - repeat constructor. intros Hin. inversion Hin.
  - constructor; [|constructor]. split; [|split].
    + intros Hin. apply elem_of_cons in Hin as [Hin|Hin]; [discriminate|].
      inversion Hin.
    + discriminate.
    + vm_compute. reflexivity.
  - exists p'. split; [exact Hrun|]. split; [exact Hok|].
    split; [exact Hlevel|]. split.
    + rewrite Hfind by (vm_compute; reflexivity). vm_compute. reflexivity.
    + rewrite Hfind by (vm_compute; reflexivity). vm_compute. reflexivity.
Defined.

(** [(push 2)] at the start of a file. *)
Lemma read_command_push_opens_scopes_witness :
  exists p',
    read_command_push (parser_on "2)") = Some (true, p')
    /\ scope_level p' = 2 /\ bzla p' = 2.
Proof.
  destruct (@read_command_push_opens_scopes term_backend
              (parser_on "2)")
              (exec (parse_uint32_smt2 true) (parser_on "2)"))
              (exec (read_rpar_smt2 (Some " after 'push'"))
                 (exec (parse_uint32_smt2 true) (parser_on "2)")))
              2)
    as (p' & Hrun & Hlevel & Hbzla & _).
  - apply run_exec. vm_compute. reflexivity.
  - apply run_exec. vm_compute. reflexivity.
  - lia.
  - vm_compute. discriminate.
  - vm_compute. reflexivity.
  - exists p'. split; [exact Hrun|]. split.
    + rewrite Hlevel. vm_compute. reflexivity.
    + rewrite Hbzla. vm_compute. reflexivity.
Defined.

(** ** The lexer in any state *)

Section LexerStates.
Context `{Backend}.

Lemma lexed_refl (p : BzlaSMT2Parser) : p = lexed p p.
Proof. unfold lexed. now destruct p. Qed.

Lemma lexed_trans (p q r : BzlaSMT2Parser) :
  q = lexed q p -> r = lexed r q -> r = lexed r p.
Proof.
  intros Hq Hr. transitivity (lexed r q); [exact Hr|].
  rewrite Hq. unfold lexed. now destruct p.
Qed.

Lemma lexed_fields (p q : BzlaSMT2Parser) :
  q = lexed q p ->
  prefix q = prefix p /\ store_tokens q = store_tokens p
  /\ error q = error p /\ msgs q = msgs p
  /\ work q = work p /\ symbol q = symbol p
  /\ commands q = commands p /\ res q = res p.
Proof. intros ->. unfold lexed. now destruct p. Qed.

Lemma to_char_range ch : - 128 <= to_char ch < 128.
Proof.
  unfold to_char. pose proof (Z.mod_pos_bound (ch + 128) 256). lia.
Qed.

Lemma to_char_newline ch :
  - 128 <= ch < 256 -> (to_char ch =? chr "010") = (ch =? chr "010").
Proof.
  intros Hr. change (chr "010") with 10. unfold to_char.
  destruct (Z_lt_ge_dec ch 128) as [Hlt|Hge].
  - rewrite Z.mod_small by lia. f_equal. lia.
  - replace (ch + 128) with (ch - 128 + 1 * 256) by lia.
    rewrite Z.mod_add, Z.mod_small by lia.
    apply Bool.eq_iff_eq_true. rewrite !Z.eqb_eq. lia.
Qed.

Lemma input_left_pending (parser : BzlaSMT2Parser) :
  input_left parser = length (pending parser).
Proof.
  unfold input_left, pending, unsaved. rewrite !length_app.
  destruct (saved parser), (prefix parser) as [pre|]; cbn [length];
    rewrite ?length_drop; lia.
Qed.

(** [nextch_smt2] delivers the first of the pending characters, or
    end-of-file when none is left. *)
Lemma nextch_at input tok n (p0 parser : BzlaSMT2Parser) :
  lexer_at input tok (n + 1) p0 parser -> 0 <= n ->
  exists q,
    nextch_smt2 parser = Some (hd EOF input, q)
    /\ lexer_at (tl input) tok n p0 q
    /\ saved q = false
    /\ nextcoo q
       = (if hd EOF input =? chr "010"
          then {| coo_x := coo_x (nextcoo parser) + 1; coo_y := 1 |}
          else set_coo_y (coo_y (nextcoo parser) + 1) (nextcoo parser))
    /\ (hd EOF input = chr "010" ->
        last_end_of_line_ycoo q = coo_y (nextcoo parser)).
Proof.
  intros (Hin & Htok & (Hpre & Hchars & Hx1 & Hy1) & (Hx & Hy) & Hfr) Hn.
  unfold INT32_MAX in *.
  (* the character and the state without the coordinates *)
  assert (exists q1,
            pending q1 = tl input /\ saved q1 = false
            /\ q1 = lexed q1 parser /\ token q1 = token parser
            /\ nextcoo q1 = nextcoo parser
            /\ match prefix q1 with
               | Some pre => 0 <= nprefix q1 /\ Z.of_nat (length pre) < 2 ^ 32
               | None => True
               end
            /\ forall k : Z -> M Z,
                 (do parser <- get;
                  do res <-
                    (if saved parser then
                       run modify (set_saved false); ret (savedch parser)
                     else
                       match prefix parser with
                       | Some pre =>
                           if nprefix parser <? Z.of_nat (length pre) then
                             run modify (set_nprefix (u32 (nprefix parser + 1)));
                             ret (pre !!! Z.to_nat (nprefix parser))
                           else getc
                       | None => getc
                       end);
                  k res) parser
                 = k (hd EOF input) q1) as (q1 & Hq1 & Hs1 & Hfr1 & Ht1 & Hc1 & Hp1 & Hrun).
  { unfold pending, unsaved in Hin. unfold bind, get, modify, ret, getc.
    destruct (saved parser) eqn:Hs.
    - exists (set_saved false parser). cbn [app] in Hin. subst input.
      cbn [hd tl]. unfold pending, unsaved.
      cbn [saved prefix nprefix infile set_saved token nextcoo app].
      repeat split; try assumption; try reflexivity;
        try (unfold lexed; now destruct parser).
    - cbn [app] in Hin. destruct (prefix parser) as [pre|] eqn:Hp.
      + destruct Hpre as [Hn0 Hlen].
        destruct (nprefix parser <? Z.of_nat (length pre)) eqn:Hlt.
        * apply Z.ltb_lt in Hlt.
          exists (set_nprefix (u32 (nprefix parser + 1)) parser).
          assert (Hu : u32 (nprefix parser + 1) = nprefix parser + 1)
            by (unfold u32; rewrite Z.mod_small; lia).
          assert (Hlk : exists c, pre !! Z.to_nat (nprefix parser) = Some c).
          { apply lookup_lt_is_Some_2. lia. }
          destruct Hlk as [c Hc].
          rewrite (drop_S _ _ _ Hc) in Hin. cbn [app] in Hin. subst input.
          cbn [hd tl]. unfold pending, unsaved.
          cbn [saved prefix nprefix infile set_nprefix token nextcoo].
          rewrite Hs, Hp, Hu. cbn [app].
          replace (Z.to_nat (nprefix parser + 1))
            with (S (Z.to_nat (nprefix parser))) by lia.
          repeat split; try assumption; try reflexivity; try lia;
            try (unfold lexed; now destruct parser).
          intros k. now rewrite (list_lookup_total_correct _ _ _ Hc).
        * apply Z.ltb_ge in Hlt. rewrite drop_ge in Hin by lia.
          cbn [app] in Hin. unfold bind, get, modify, ret.
          destruct (infile parser) as [|c rest] eqn:Hi.
          -- exists parser. subst input. cbn [hd tl]. unfold pending, unsaved.
             rewrite Hs, Hp, Hi, drop_ge by lia.
             repeat split; try assumption; try reflexivity;
               try apply lexed_refl.
          -- exists (set_infile rest parser). subst input. cbn [hd tl].
             unfold pending, unsaved.
             cbn [saved prefix nprefix infile set_infile token nextcoo].
             rewrite Hs, Hp, drop_ge by lia.
             repeat split; try assumption; try reflexivity;
               try (unfold lexed; now destruct parser).
      + unfold bind, get, modify, ret.
        destruct (infile parser) as [|c rest] eqn:Hi.
        * exists parser. subst input. cbn [hd tl]. unfold pending, unsaved.
          rewrite Hs, Hp, Hi.
          repeat split; try assumption; try reflexivity;
            try apply lexed_refl.
        * exists (set_infile rest parser). subst input. cbn [hd tl].
          unfold pending, unsaved.
          cbn [saved prefix nprefix infile set_infile token nextcoo].
          rewrite Hs, Hp.
          repeat split; try assumption; try reflexivity;
            try (unfold lexed; now destruct parser). }
  unfold nextch_smt2. rewrite Hrun. clear Hrun.
  assert (Hchars1 : Forall (fun c => - 128 <= c < 256) (pending q1)).
  { rewrite Hq1, <- Hin. destruct (pending parser); [constructor|].
    now apply Forall_cons_1 in Hchars as [_ ?]. }
  unfold bind, get, modify, ret, assert_.
  destruct (hd EOF input =? chr "010") eqn:Hnl.
  - cbn [nextcoo set_nextcoo coo_x coo_y set_coo_x set_coo_y
         set_last_end_of_line_ycoo].
    rewrite Hc1, s32_small by lia.
    replace (0 <? coo_x (nextcoo parser) + 1) with true
      by (symmetry; apply Z.ltb_lt; lia).
    eexists. split; [reflexivity|].
    split; [|split; [exact Hs1|split; [reflexivity|]]].
    + unfold lexer_at, lexer_ok, lexer_room, pending, unsaved, INT32_MAX.
      cbn [saved savedch prefix nprefix infile token nextcoo coo_x coo_y
           set_nextcoo set_last_end_of_line_ycoo set_coo_x set_coo_y].
      split; [exact Hq1|]. split; [congruence|].
      split; [repeat split; try assumption; lia|].
      split; [lia|].
      apply (lexed_trans _ parser); [exact Hfr|].
      apply (lexed_trans _ q1); [exact Hfr1|].
      unfold lexed. now destruct q1.
    + intros _. reflexivity.
  - cbn [nextcoo set_nextcoo coo_x coo_y set_coo_x set_coo_y].
    rewrite Hc1, s32_small by lia.
    replace (0 <? coo_y (nextcoo parser) + 1) with true
      by (symmetry; apply Z.ltb_lt; lia).
    eexists. split; [reflexivity|].
    split; [|split; [exact Hs1|split; [reflexivity|]]].
    + unfold lexer_at, lexer_ok, lexer_room, pending, unsaved, INT32_MAX.
      cbn [saved savedch prefix nprefix infile token nextcoo coo_x coo_y
           set_nextcoo set_coo_y].
      split; [exact Hq1|]. split; [congruence|].
      split; [repeat split; try assumption; lia|].
      split; [lia|].
      apply (lexed_trans _ parser); [exact Hfr|].
      apply (lexed_trans _ q1); [exact Hfr1|].
      unfold lexed. now destruct q1.
    + intros E. rewrite E in Hnl. discriminate.
Qed.


(** [pushch_smt2] appends the character to the token, and stores it among
    the tokens when they are stored. *)
Lemma pushch_at ch input tok n (p0 parser : BzlaSMT2Parser) :
  lexer_at input tok n p0 parser -> ch <> EOF ->
  exists q,
    pushch_smt2 ch parser = Some (tt, q)
    /\ lexer_at input (tok ++ [to_char ch]) n p0 q
    /\ saved q = saved parser /\ error q = error parser.
Proof.
  intros (Hin & Htok & Hok & Hroom & Hfr) Hch.
  assert (exists ts,
            pushch_smt2 ch parser
            = Some (tt, set_tokens ts
                          (set_token (token parser ++ [to_char ch]) parser)))
    as [ts Hrun].
  { unfold pushch_smt2, bind, assert_, modify, storech_smt2, bind, get, ret.
    replace (ch =? EOF) with false by (symmetry; now apply Z.eqb_neq).
    cbn [negb store_tokens set_token tokens].
    destruct (store_tokens parser).
    - cbn [negb].
      destruct ((ch =? 0) && (List.last (tokens parser) 0 =? chr "(")).
      + exists (tokens parser). do 2 f_equal; try now destruct parser.
      + destruct ((ch =? chr ")") && (List.last (tokens parser) 0 =? chr " "));
          cbn [tokens set_tokens]; eexists; do 2 f_equal; try now destruct parser.
    - exists (tokens parser). do 2 f_equal; try now destruct parser. }
  eexists. split; [exact Hrun|]. split; [|split; reflexivity].
  unfold lexer_at, lexer_ok, lexer_room, pending, unsaved in *.
  cbn [saved savedch prefix nprefix infile token nextcoo set_tokens set_token].
  split; [exact Hin|]. split; [now rewrite Htok|].
  split; [exact Hok|]. split; [exact Hroom|].
  apply (lexed_trans _ parser); [exact Hfr|].
  unfold lexed. now destruct parser.
Qed.

(** [savech_smt2] of the character that [nextch_smt2] just returned puts
    it back in front of what is left, and the coordinates back where they
    were. *)
Lemma unread_at input tok n (p0 parser q : BzlaSMT2Parser) c :
  lexer_at input tok (n + 1) p0 parser -> 0 <= n ->
  nextch_smt2 parser = Some (c, q) ->
  exists q',
    savech_smt2 c q = Some (tt, q')
    /\ c = hd EOF input
    /\ lexer_at (to_char c :: tl input) tok (n + 1) p0 q'
    /\ saved q' = true /\ savedch q' = to_char c /\ unsaved q' = tl input
    /\ error q' = error q.
Proof.
  intros Hat Hn Hrun.
  destruct (nextch_at _ _ _ _ _ Hat Hn)
    as (q_ & Hrun_ & (Hin' & Htok' & Hok' & Hroom' & Hfr') & Hs' & Hcoo & Heol).
  rewrite Hrun in Hrun_. injection Hrun_ as -> <-.
  destruct Hat as (Hin & Htok & (Hpre & Hchars & Hx1 & Hy1) & (Hx & Hy) & Hfr).
  destruct Hok' as (Hpre' & Hchars' & _ & _).
  set (c := hd EOF input) in *.
  assert (Hc : - 128 <= c < 256).
  { unfold c. rewrite <- Hin. destruct (pending parser); cbn [hd].
    - unfold EOF. lia.
    - now apply Forall_cons_1 in Hchars as [? _]. }
  assert (Hun : unsaved q = tl input).
  { rewrite <- Hin'. unfold pending. now rewrite Hs'. }
  unfold INT32_MAX in *.
  unfold savech_smt2, bind, get, assert_, modify. rewrite Hs'. cbn [negb].
  cbn [nextcoo set_savedch set_saved last_end_of_line_ycoo].
  rewrite (to_char_newline c Hc). rewrite Hcoo.
  destruct (c =? chr "010") eqn:Hnl.
  - apply Z.eqb_eq in Hnl. rewrite (Heol Hnl). cbn [coo_x coo_y].
    replace (1 <? coo_x (nextcoo parser) + 1) with true
      by (symmetry; apply Z.ltb_lt; lia).
    rewrite s32_small by lia.
    replace (coo_x (nextcoo parser) + 1 - 1) with (coo_x (nextcoo parser)) by lia.
    eexists. split; [reflexivity|]. split; [reflexivity|].
    split; [|repeat split; try reflexivity; exact Hun].
    unfold lexer_at, lexer_ok, lexer_room, pending. unfold unsaved at 1 2.
    cbn [saved savedch prefix nprefix infile token nextcoo coo_x coo_y
         set_nextcoo set_savedch set_saved app].
    fold (unsaved q). rewrite Hun.
    split; [reflexivity|]. split; [exact Htok'|].
    split; [|split; [unfold INT32_MAX; lia|]].
    + repeat split; try assumption.
      constructor; [pose proof (to_char_range c); lia|].
      rewrite <- Hin'. exact Hchars'.
    + apply (lexed_trans _ q); [exact Hfr'|].
      unfold lexed. now destruct q.
  - cbn [coo_x coo_y set_coo_y].
    replace (1 <? coo_y (nextcoo parser) + 1) with true
      by (symmetry; apply Z.ltb_lt; lia).
    rewrite s32_small by lia.
    replace (coo_y (nextcoo parser) + 1 - 1) with (coo_y (nextcoo parser)) by lia.
    eexists. split; [reflexivity|]. split; [reflexivity|].
    split; [|repeat split; try reflexivity; exact Hun].
    unfold lexer_at, lexer_ok, lexer_room, pending. unfold unsaved at 1 2.
    cbn [saved savedch prefix nprefix infile token nextcoo coo_x coo_y
         set_nextcoo set_savedch set_saved app set_coo_y].
    fold (unsaved q). rewrite Hun.
    split; [reflexivity|]. split; [exact Htok'|].
    split; [|split; [unfold INT32_MAX; lia|]].
    + repeat split; try assumption.
      constructor; [pose proof (to_char_range c); lia|].
      rewrite <- Hin'. exact Hchars'.
    + apply (lexed_trans _ q); [exact Hfr'|].
      unfold lexed. now destruct q.
Qed.

(** The loop that reads the characters of a token: the characters [taken]
    that pass [test] are appended to the token, and the loop ends with the
    [nextch_smt2] that returns the character after them. *)
Lemma read_while_at (test : Z -> bool) (taken : list Z) :
  forall (fuel : nat) after tok n (p0 parser : BzlaSMT2Parser),
    lexer_at (taken ++ after) tok (Z.of_nat (length taken) + n + 1) p0 parser ->
    0 <= n ->
    Forall (fun c => test c = true /\ 0 <= c < 128) taken ->
    test (hd EOF after) = false ->
    (length taken < fuel)%nat ->
    exists q0 q,
      read_while test fuel parser = Some (hd EOF after, q)
      /\ nextch_smt2 q0 = Some (hd EOF after, q)
      /\ lexer_at after (tok ++ taken) (n + 1) p0 q0
      /\ error q0 = error parser.
Proof.
  induction taken as [|c taken IH];
    intros fuel after tok n p0 parser Hat Hn Htaken Hend Hfuel;
    (destruct fuel as [|fuel]; [cbn in Hfuel; lia|]); cbn [read_while].
  - cbn [app length] in Hat. rewrite Z.add_0_l in Hat.
    destruct (nextch_at _ _ _ _ _ Hat Hn) as (q & Hrun & _).
    exists parser, q. unfold bind. rewrite Hrun, Hend. cbn [negb].
    split; [reflexivity|]. split; [reflexivity|].
    rewrite app_nil_r. split; [exact Hat|reflexivity].
  - apply Forall_cons_1 in Htaken as [[Htc Hc] Htaken].
    cbn [app length] in Hat, Hfuel. rewrite Nat2Z.inj_succ in Hat.
    replace (Z.succ (Z.of_nat (length taken)) + n + 1)
      with (Z.of_nat (length taken) + n + 1 + 1) in Hat by lia.
    destruct (nextch_at _ _ _ _ _ Hat ltac:(lia))
      as (q1 & Hrun1 & Hat1 & _).
    cbn [hd tl] in Hrun1, Hat1.
    assert (Herr1 : error q1 = error parser).
    { destruct Hat as (_ & _ & _ & _ & Hfr).
      destruct Hat1 as (_ & _ & _ & _ & Hfr1).
      destruct (lexed_fields _ _ Hfr) as (_ & _ & E & _).
      destruct (lexed_fields _ _ Hfr1) as (_ & _ & E1 & _). congruence. }
    destruct (pushch_at c _ _ _ _ _ Hat1 ltac:(unfold EOF; lia))
      as (q2 & Hrun2 & Hat2 & _ & Herr2).
    rewrite to_char_small in Hat2 by lia.
    destruct (IH fuel after _ n p0 q2 Hat2 Hn Htaken Hend ltac:(lia))
      as (q0 & q & Hrun & Hlast & Hat0 & Herr0).
    exists q0, q. unfold bind at 1. rewrite Hrun1, Htc. cbn [negb].
    unfold bind at 1. rewrite Hrun2.
    split; [exact Hrun|]. split; [exact Hlast|].
    rewrite <- app_assoc in Hat0. split; [exact Hat0|congruence].
Qed.


(** The loop that skips a comment, up to the new line that ends it. *)
Lemma skip_comment_at (text : list Z) :
  forall (fuel : nat) rest tok n (p0 parser : BzlaSMT2Parser),
    lexer_at (text ++ chr "010" :: rest) tok
      (Z.of_nat (length text) + 1 + n) p0 parser ->
    0 <= n ->
    Forall (fun c => c <> chr "010" /\ c <> EOF) text ->
    (length text < fuel)%nat ->
    exists q,
      skip_comment fuel parser = Some (true, q) /\ lexer_at rest tok n p0 q.
Proof.
  induction text as [|c text IH]; intros fuel rest tok n p0 parser Hat Hn Ht Hfuel;
    (destruct fuel as [|fuel]; [cbn in Hfuel; lia|]); cbn [skip_comment].
  - cbn [app length] in Hat. rewrite Z.add_0_l, Z.add_comm in Hat.
    destruct (nextch_at _ _ _ _ _ Hat Hn) as (q & Hrun & Hq & _).
    cbn [hd tl] in Hrun, Hq.
    exists q. unfold bind. rewrite Hrun, Z.eqb_refl. now split.
  - apply Forall_cons_1 in Ht as [[Hnl Heof] Ht].
    cbn [app length] in Hat, Hfuel. rewrite Nat2Z.inj_succ in Hat.
    replace (Z.succ (Z.of_nat (length text)) + 1 + n)
      with (Z.of_nat (length text) + 1 + n + 1) in Hat by lia.
    destruct (nextch_at _ _ _ _ _ Hat ltac:(lia)) as (q & Hrun & Hq & _).
    cbn [hd tl] in Hrun, Hq.
    destruct (IH fuel rest tok n p0 q Hq Hn Ht ltac:(lia)) as (q' & Hrun' & Hq').
    exists q'. unfold bind. rewrite Hrun.
    replace (c =? chr "010") with false by (symmetry; now apply Z.eqb_neq).
    replace (c =? EOF) with false by (symmetry; now apply Z.eqb_neq).
    now split.
Qed.

Lemma lexer_at_set_coo c input tok n (p0 parser : BzlaSMT2Parser) :
  lexer_at input tok n p0 parser -> lexer_at input tok n p0 (set_coo c parser).
Proof.
  intros (Hin & Htok & Hok & Hroom & Hfr).
  split; [exact Hin|]. split; [exact Htok|]. split; [exact Hok|].
  split; [exact Hroom|].
  apply (lexed_trans _ parser); [exact Hfr|]. unfold lexed. now destruct parser.
Qed.

Lemma blank_chars_length b : (1 <= length (blank_chars b))%nat.
Proof. destruct b; cbn [blank_chars length]; lia. Qed.

(** One white-space character or one comment at the label [RESTART]. *)
Lemma restart_blank_at (b : blank) (fuel : nat) rest tok n
    (p0 parser : BzlaSMT2Parser) :
  lexer_at (blank_chars b ++ rest) tok
    (Z.of_nat (length (blank_chars b)) + n) p0 parser ->
  0 <= n -> blank_ok b ->
  (length (blank_chars b ++ rest) < S fuel)%nat ->
  exists q,
    read_token_restart (S fuel) parser = read_token_restart fuel q
    /\ lexer_at rest tok n p0 q.
Proof.
  intros Hat Hn Hb Hfuel. cbn [read_token_restart].
  unfold bind at 1, modify at 1.
  apply (lexer_at_set_coo (nextcoo parser)) in Hat.
  set (p1 := set_coo (nextcoo parser) parser) in *.
  destruct b as [c|text]; cbn [blank_chars blank_ok app length] in *.
  - rewrite Z.add_comm in Hat.
    destruct (nextch_at _ _ _ _ _ Hat Hn) as (q & Hrun & Hq & _).
    cbn [hd tl] in Hrun, Hq.
    exists q. unfold bind. rewrite Hrun.
    replace (c =? EOF) with false
      by (symmetry; apply Z.eqb_neq; intros ->; discriminate).
    rewrite Hb. now split.
  - rewrite <- app_assoc in Hat. cbn [app] in Hat.
    rewrite length_app in Hat. rewrite !length_app in Hfuel.
    cbn [length] in Hat, Hfuel.
    replace (Z.of_nat (S (length text + 1)) + n)
      with (Z.of_nat (length text) + 1 + n + 1) in Hat by lia.
    destruct (nextch_at _ _ _ _ _ Hat ltac:(lia)) as (q & Hrun & Hq & _).
    cbn [hd tl] in Hrun, Hq.
    destruct (skip_comment_at text fuel rest tok n p0 q Hq Hn Hb ltac:(lia))
      as (q' & Hrun' & Hq').
    exists q'. unfold bind at 1. rewrite Hrun.
    change (chr ";" =? EOF) with false.
    change (isspace_smt2 (chr ";")) with false.
    rewrite Z.eqb_refl. cbv iota. unfold bind at 1. rewrite Hrun'.
    now split.
Qed.

(** From the label [RESTART] over white space and comments to the first
    character of a token. *)
Lemma restart_at (bs : list blank) :
  forall (fuel : nat) c rest tok n (p0 parser : BzlaSMT2Parser),
    lexer_at (concat (blank_chars <$> bs) ++ c :: rest) tok
      (Z.of_nat (length (concat (blank_chars <$> bs))) + 1 + n) p0 parser ->
    0 <= n -> Forall blank_ok bs ->
    c <> EOF -> isspace_smt2 c = false -> c <> chr ";" ->
    (length (concat (blank_chars <$> bs) ++ c :: rest) < fuel)%nat ->
    exists q,
      read_token_restart fuel parser = Some (inr c, q)
      /\ lexer_at rest tok n p0 q.
Proof.
  induction bs as [|b bs IH];
    intros fuel c rest tok n p0 parser Hat Hn Hbs Heof Hsp Hsemi Hfuel.
  - cbn [fmap list_fmap concat app length] in Hat, Hfuel.
    destruct fuel as [|fuel]; [lia|]. cbn [read_token_restart].
    unfold bind at 1, modify at 1.
    apply (lexer_at_set_coo (nextcoo parser)) in Hat.
    rewrite Z.add_0_l, Z.add_comm in Hat.
    destruct (nextch_at _ _ _ _ _ Hat Hn) as (q & Hrun & Hq & _).
    cbn [hd tl] in Hrun, Hq.
    exists q. unfold bind. rewrite Hrun.
    replace (c =? EOF) with false by (symmetry; now apply Z.eqb_neq).
    rewrite Hsp.
    replace (c =? chr ";") with false by (symmetry; now apply Z.eqb_neq).
    now split.
  - apply Forall_cons_1 in Hbs as [Hb Hbs].
    cbn [fmap list_fmap concat] in Hat, Hfuel.
    rewrite <- app_assoc in Hat, Hfuel.
    rewrite length_app in Hat. destruct fuel as [|fuel]; [lia|].
    replace (Z.of_nat (length (blank_chars b)
                       + length (concat (blank_chars <$> bs))) + 1 + n)
      with (Z.of_nat (length (blank_chars b))
            + (Z.of_nat (length (concat (blank_chars <$> bs))) + 1 + n))
      in Hat by lia.
    destruct (restart_blank_at b fuel _ tok _ p0 parser Hat ltac:(lia) Hb Hfuel)
      as (q & Hrun & Hq).
    rewrite Hrun. apply (IH fuel c rest tok n p0 q Hq Hn Hbs Heof Hsp Hsemi).
    rewrite length_app in Hfuel. pose proof (blank_chars_length b). lia.
Qed.

(** The state in which [read_token_smt2] starts to read. *)
Lemma lexer_at_start n (parser : BzlaSMT2Parser) :
  lexer_ok parser -> lexer_room n parser ->
  lexer_at (pending parser) [] n parser
    (set_last_node None (set_token [] (set_lastcoo (coo parser) parser))).
Proof.
  intros Hok Hroom.
  split; [reflexivity|]. split; [reflexivity|]. split; [exact Hok|].
  split; [exact Hroom|]. unfold lexed. now destruct parser.
Qed.


Lemma lexer_at_error input tok n (p0 q : BzlaSMT2Parser) :
  lexer_at input tok n p0 q -> error q = error p0.
Proof.
  intros (_ & _ & _ & _ & Hfr). now destruct (lexed_fields _ _ Hfr) as (_ & _ & E & _).
Qed.

Lemma lexer_at_room input tok n m (p0 q : BzlaSMT2Parser) :
  lexer_at input tok n p0 q -> m <= n -> lexer_at input tok m p0 q.
Proof.
  intros (Hin & Htok & Hok & (Hx & Hy) & Hfr) Hm.
  split; [exact Hin|]. split; [exact Htok|]. split; [exact Hok|].
  split; [|exact Hfr]. split; lia.
Qed.

Lemma isdigit_range c : isdigit c = true -> 48 <= c <= 57.
Proof.
  unfold isdigit. intros Hc. apply andb_true_iff in Hc as [Hlo Hhi].
  apply Z.leb_le in Hlo, Hhi. lia.
Qed.

Lemma digits_pass (l : list Z) :
  Forall (fun c => isdigit c = true) l ->
  Forall (fun c => is_class BZLA_DECIMAL_DIGIT_CHAR_CLASS_SMT2 c = true
                   /\ 0 <= c < 128) l.
Proof.
  apply Forall_impl. intros c Hc. rewrite is_class_decimal.
  split; [exact Hc|]. apply isdigit_range in Hc. lia.
Qed.

(** The end of a constant: the character after it is given back and the
    token is closed. *)
Lemma finish_at (tag : Z) after tok n (p0 q0 q : BzlaSMT2Parser) ch :
  lexer_at after tok (n + 1) p0 q0 -> 0 <= n ->
  nextch_smt2 q0 = Some (ch, q) ->
  exists q',
    (run savech_smt2 ch; run pushch_smt2 0; ret tag) q = Some (tag, q')
    /\ ch = hd EOF after
    /\ saved q' = true /\ savedch q' = to_char ch
    /\ lexer_at (to_char ch :: tl after) (tok ++ [0]) (n + 1) p0 q'.
Proof.
  intros Hat Hn Hrun.
  destruct (unread_at _ _ _ _ _ _ _ Hat Hn Hrun)
    as (q1 & Hrun1 & Hch & Hat1 & Hs1 & Hc1 & _).
  destruct (pushch_at 0 _ _ _ _ _ Hat1 ltac:(discriminate))
    as (q2 & Hrun2 & Hat2 & Hs2 & _).
  exists q2. unfold bind at 1. rewrite Hrun1. unfold bind at 1. rewrite Hrun2.
  split; [reflexivity|]. split; [exact Hch|].
  split; [congruence|]. split; [|exact Hat2].
  destruct Hat2 as (Hin2 & _). destruct Hat1 as (Hin1 & _).
  unfold pending in Hin1, Hin2. rewrite Hs2, Hs1 in Hin2. rewrite Hs1 in Hin1.
  cbn [app] in Hin1, Hin2. congruence.
Qed.

(** The digits after the point of a real constant. *)
Lemma fraction_at (tag : Z) c frac after tok n (p0 q : BzlaSMT2Parser)
    (fuel : nat) :
  lexer_at (frac ++ after) tok (Z.of_nat (length frac) + n + 1) p0 q ->
  0 <= n -> isdigit c = true ->
  Forall (fun c => isdigit c = true) frac ->
  isdigit (hd EOF after) = false ->
  (length frac < fuel)%nat ->
  exists q',
    (run pushch_smt2 c;
     do ch <- read_while (is_class BZLA_DECIMAL_DIGIT_CHAR_CLASS_SMT2) fuel;
     run savech_smt2 ch;
     run pushch_smt2 0;
     ret tag) q = Some (tag, q')
    /\ saved q' = true /\ savedch q' = to_char (hd EOF after)
    /\ lexer_at (to_char (hd EOF after) :: tl after)
         (tok ++ c :: frac ++ [0]) (n + 1) p0 q'.
Proof.
  intros Hat Hn Hc Hfrac Hend Hfuel. pose proof (isdigit_range c Hc) as Hr.
  destruct (pushch_at c _ _ _ _ _ Hat ltac:(unfold EOF; lia))
    as (q1 & Hrun1 & Hat1 & _).
  rewrite to_char_small in Hat1 by lia.
  destruct (read_while_at _ frac fuel after _ n p0 q1 Hat1 Hn
              (digits_pass _ Hfrac)
              ltac:(now rewrite is_class_decimal) Hfuel)
    as (q0 & q2 & Hrun2 & Hlast & Hat0 & _).
  destruct (finish_at tag _ _ _ _ _ _ _ Hat0 Hn Hlast)
    as (q' & Hrun' & Hch & Hs' & Hc' & Hat').
  exists q'. unfold bind at 1. rewrite Hrun1. unfold bind at 1. rewrite Hrun2.
  split; [exact Hrun'|]. split; [exact Hs'|]. split; [exact Hc'|].
  rewrite <- !app_assoc in Hat'. exact Hat'.
Qed.


(** [read_token_smt2] up to the first character [c] of a token that is
    not a parenthesis, a hash, a quote, a bar or a colon: [Hin] gives the
    pending characters, as white space and comments [bs], [c] and the
    rest; the state after [c] is read is [q1], with [Hat1] for it. *)
Ltac lengths := repeat (rewrite length_app || (progress (cbn [length]))).

Ltac lex_first_char parser Hok Hroom Hin Hbs c bs n q1 Hat1 fuel Hfuel :=
  let Hat := fresh "Hat" in
  let Hrun := fresh "Hrun" in
  pose proof (lexer_at_start _ parser Hok Hroom) as Hat;
  rewrite Hin in Hat;
  apply (lexer_at_room _ _ _
           (Z.of_nat (length (concat (blank_chars <$> bs))) + 1 + n)) in Hat;
    [|lengths; lia];
  unfold read_token_smt2, read_token_aux_smt2, bind at 1 2 3 4 5,
    modify at 1 2 3, get at 1;
  cbv beta iota zeta;
  set (fuel := S (S (input_left _)));
  assert (Hfuel : fuel = S (S (length (pending parser))))
    by (unfold fuel; rewrite input_left_pending; reflexivity);
  clearbody fuel;
  destruct (restart_at bs fuel c _ _ n _ _ Hat ltac:(lia) Hbs)
    as (q1 & Hrun & Hat1);
    [try (unfold EOF; lia); try discriminate
    |try (unfold isspace_smt2; chr_values; decide_comparisons; reflexivity);
     try reflexivity
    |try (change (chr ";") with 59; lia); try discriminate
    |rewrite Hfuel, Hin; lengths; lia
    |rewrite Hrun; clear Hrun; cbv beta iota].

(** A leading [0] that no point follows is the decimal constant [0]: the
    character after it, whatever it is, is given back. *)
Lemma lex_zero parser (bs : list blank) (after : list Z) :
  lexer_ok parser -> Forall blank_ok bs ->
  lexer_room (Z.of_nat (length (pending parser)) + 1) parser ->
  pending parser = concat (blank_chars <$> bs) ++ chr "0" :: after ->
  hd EOF after <> chr "." ->
  exists p',
    read_token_smt2 parser = Some (BZLA_DECIMAL_CONSTANT_TAG_SMT2, p')
    /\ saved p' = true /\ savedch p' = to_char (hd EOF after)
    /\ lexer_at (to_char (hd EOF after) :: tl after) [chr "0"; 0]
         (Z.of_nat (length after) + 1) parser p'.
Proof.
  intros Hok Hbs Hroom Hin Hdot.
  lex_first_char parser Hok Hroom Hin Hbs (chr "0") bs (Z.of_nat (length after) + 1)
    q1 Hat1 fuel Hfuel.
  change (chr "0") with 48 in *.
  repeat match goal with
  | |- context [48 =? ?x] =>
      let b := eval vm_compute in (48 =? x) in change (48 =? x) with b
  end.
  cbv beta iota.
  destruct (pushch_at 48 _ _ _ _ _ Hat1 ltac:(discriminate))
    as (q2 & Hrun2 & Hat2 & _).
  unfold bind at 1. rewrite Hrun2.
  destruct (nextch_at _ _ _ _ _ Hat2 ltac:(lia)) as (q3 & Hrun3 & _).
  unfold bind at 1. rewrite Hrun3.
  replace (hd EOF after =? chr ".") with false
    by (symmetry; now apply Z.eqb_neq).
  destruct (finish_at BZLA_DECIMAL_CONSTANT_TAG_SMT2 _ _ _ _ _ _ _
              Hat2 ltac:(lia) Hrun3)
    as (p' & Hrun' & _ & Hs' & Hc' & Hat').
  exists p'. split; [exact Hrun'|]. split; [exact Hs'|]. split; [exact Hc'|].
  exact Hat'.
Qed.


Lemma nextch_at_run input tok n (p0 parser q : BzlaSMT2Parser) c :
  lexer_at input tok (n + 1) p0 parser -> 0 <= n ->
  nextch_smt2 parser = Some (c, q) ->
  c = hd EOF input /\ lexer_at (tl input) tok n p0 q.
Proof.
  intros Hat Hn Hrun.
  destruct (nextch_at _ _ _ _ _ Hat Hn) as (q_ & Hrun_ & Hq & _).
  rewrite Hrun in Hrun_. injection Hrun_ as -> <-. now split.
Qed.

(** An error that the lexer reports in a state it has come to. *)
Lemma perr_at msg input tok n (p0 q : BzlaSMT2Parser) :
  lexer_at input tok n p0 q ->
  exists p',
    perr_smt2 msg q = Some (tt, p')
    /\ token p' = tok /\ pending p' = input
    /\ reports p0 p' msg
    /\ (error p0 <> None -> error p' = error p0).
Proof.
  intros Hat. pose proof (lexer_at_error _ _ _ _ _ Hat) as Herr.
  destruct Hat as (Hin & Htok & _).
  destruct (perr_smt2_reports msg q) as (p' & Hrun & Hrep & Hsame & Hfr).
  exists p'. split; [exact Hrun|].
  split; [rewrite Hfr; exact Htok|]. split; [rewrite Hfr; exact Hin|].
  split.
  - intros Hnone. apply Hrep. congruence.
  - intros Hsome. rewrite Hsame; congruence.
Qed.

(** [0.] and the digits of a real constant. *)
Lemma lex_zero_real parser (bs : list blank) c (frac after : list Z) :
  lexer_ok parser -> Forall blank_ok bs ->
  lexer_room (Z.of_nat (length (pending parser)) + 1) parser ->
  pending parser
  = concat (blank_chars <$> bs) ++ chr "0" :: chr "." :: c :: frac ++ after ->
  isdigit c = true -> Forall (fun c => isdigit c = true) frac ->
  isdigit (hd EOF after) = false ->
  exists p',
    read_token_smt2 parser = Some (BZLA_REAL_CONSTANT_TAG_SMT2, p')
    /\ saved p' = true /\ savedch p' = to_char (hd EOF after)
    /\ lexer_at (to_char (hd EOF after) :: tl after)
         (chr "0" :: chr "." :: c :: frac ++ [0])
         (Z.of_nat (length after) + 1) parser p'.
Proof.
  intros Hok Hbs Hroom Hin Hc Hfrac Hend.
  lex_first_char parser Hok Hroom Hin Hbs (chr "0") bs
    (Z.of_nat (length frac) + Z.of_nat (length after) + 1 + 1 + 1)
    q1 Hat1 fuel Hfuel.
  change (chr "0") with 48 in *.
  repeat match goal with
  | |- context [48 =? ?x] =>
      let b := eval vm_compute in (48 =? x) in change (48 =? x) with b
  end.
  cbv beta iota.
  destruct (pushch_at 48 _ _ _ _ _ Hat1 ltac:(discriminate))
    as (q2 & Hrun2 & Hat2 & _).
  unfold bind at 1. rewrite Hrun2.
  destruct (nextch_at _ _ _ _ _ Hat2 ltac:(lia)) as (q3 & Hrun3 & Hat3 & _).
  unfold bind at 1. rewrite Hrun3. cbn [hd tl] in *.
  rewrite Z.eqb_refl.
  destruct (pushch_at (chr ".") _ _ _ _ _ Hat3 ltac:(discriminate))
    as (q4 & Hrun4 & Hat4 & _).
  unfold bind at 1. rewrite Hrun4.
  destruct (nextch_at _ _ _ _ _ Hat4 ltac:(lia)) as (q5 & Hrun5 & Hat5 & _).
  unfold bind at 1. rewrite Hrun5. cbn [hd tl] in *.
  pose proof (isdigit_range c Hc) as Hr.
  replace (c =? EOF) with false by (symmetry; apply Z.eqb_neq; unfold EOF; lia).
  rewrite is_class_decimal, Hc. cbn [negb].
  destruct (fraction_at BZLA_REAL_CONSTANT_TAG_SMT2 c frac after _
              (Z.of_nat (length after)) parser q5 fuel Hat5 ltac:(lia) Hc Hfrac Hend)
    as (p' & Hrun' & Hs' & Hc' & Hat').
  { rewrite Hfuel, Hin. lengths. lia. }
  exists p'. split; [exact Hrun'|]. split; [exact Hs'|]. split; [exact Hc'|].
  exact Hat'.
Qed.

(** [0.] without a digit after it. *)
Lemma lex_zero_point parser (bs : list blank) (after : list Z) :
  lexer_ok parser -> Forall blank_ok bs ->
  lexer_room (Z.of_nat (length (pending parser)) + 1) parser ->
  pending parser = concat (blank_chars <$> bs) ++ chr "0" :: chr "." :: after ->
  isdigit (hd EOF after) = false ->
  exists p',
    read_token_smt2 parser = Some (BZLA_INVALID_TAG_SMT2, p')
    /\ token p' = [chr "0"; chr "."]
    /\ reports parser p'
         (if hd EOF after =? EOF then "unexpected end-of-file after '0.'"
          else "expected decimal digit after '0.'")
    /\ (error parser <> None -> error p' = error parser).
Proof.
  intros Hok Hbs Hroom Hin Hend.
  lex_first_char parser Hok Hroom Hin Hbs (chr "0") bs
    (Z.of_nat (length after) + 1 + 1)
    q1 Hat1 fuel Hfuel.
  change (chr "0") with 48 in *.
  repeat match goal with
  | |- context [48 =? ?x] =>
      let b := eval vm_compute in (48 =? x) in change (48 =? x) with b
  end.
  cbv beta iota.
  destruct (pushch_at 48 _ _ _ _ _ Hat1 ltac:(discriminate))
    as (q2 & Hrun2 & Hat2 & _).
  unfold bind at 1. rewrite Hrun2.
  destruct (nextch_at _ _ _ _ _ Hat2 ltac:(lia)) as (q3 & Hrun3 & Hat3 & _).
  unfold bind at 1. rewrite Hrun3. cbn [hd tl] in *.
  rewrite Z.eqb_refl.
  destruct (pushch_at (chr ".") _ _ _ _ _ Hat3 ltac:(discriminate))
    as (q4 & Hrun4 & Hat4 & _).
  unfold bind at 1. rewrite Hrun4.
  destruct (nextch_at _ _ _ _ _ Hat4 ltac:(lia)) as (q5 & Hrun5 & Hat5 & _).
  unfold bind at 1. rewrite Hrun5.
  rewrite is_class_decimal, Hend. cbn [negb].
  destruct (hd EOF after =? EOF).
  - destruct (perr_at "unexpected end-of-file after '0.'" _ _ _ _ _ Hat5)
      as (p' & Hrun' & Ht' & _ & Hrep & Hsame).
    exists p'. unfold bind, ret. rewrite Hrun'. repeat split; assumption.
  - destruct (perr_at "expected decimal digit after '0.'" _ _ _ _ _ Hat5)
      as (p' & Hrun' & Ht' & _ & Hrep & Hsame).
    exists p'. unfold bind, ret. rewrite Hrun'. repeat split; assumption.
Qed.

(** The tests of [read_token_aux_smt2] on a first character [d] that is a
    digit other than [0]. *)
Ltac nonzero_digit d Hd :=
  repeat match goal with
  | |- context [d =? ?k] =>
      replace (d =? k) with false
        by (symmetry; apply Z.eqb_neq;
            let v := eval vm_compute in k in change k with v; lia)
  end;
  cbv beta iota;
  change (negb (Z.land (cc_smt2 d) BZLA_DECIMAL_DIGIT_CHAR_CLASS_SMT2 =? 0))
    with (is_class BZLA_DECIMAL_DIGIT_CHAR_CLASS_SMT2 d);
  rewrite is_class_decimal, Hd.

(** A decimal numeral that does not start with [0]. *)
Lemma lex_numeral parser (bs : list blank) c (ds after : list Z) :
  lexer_ok parser -> Forall blank_ok bs ->
  lexer_room (Z.of_nat (length (pending parser)) + 1) parser ->
  pending parser = concat (blank_chars <$> bs) ++ c :: ds ++ after ->
  isdigit c = true -> c <> chr "0" -> Forall (fun c => isdigit c = true) ds ->
  isdigit (hd EOF after) = false -> hd EOF after <> chr "." ->
  exists p',
    read_token_smt2 parser = Some (BZLA_DECIMAL_CONSTANT_TAG_SMT2, p')
    /\ saved p' = true /\ savedch p' = to_char (hd EOF after)
    /\ lexer_at (to_char (hd EOF after) :: tl after) (c :: ds ++ [0])
         (Z.of_nat (length after) + 1) parser p'.
Proof.
  intros Hok Hbs Hroom Hin Hc Hnz Hds Hend Hdot.
  pose proof (isdigit_range c Hc) as Hr. change (chr "0") with 48 in Hnz.
  lex_first_char parser Hok Hroom Hin Hbs c bs
    (Z.of_nat (length ds) + Z.of_nat (length after) + 1)
    q1 Hat1 fuel Hfuel.
  nonzero_digit c Hc.
  destruct (pushch_at c _ _ _ _ _ Hat1 ltac:(unfold EOF; lia))
    as (q2 & Hrun2 & Hat2 & _).
  rewrite to_char_small in Hat2 by lia.
  unfold bind at 1. rewrite Hrun2.
  destruct (read_while_at _ ds fuel after _ (Z.of_nat (length after)) parser q2
              Hat2 ltac:(lia) (digits_pass _ Hds)
              ltac:(now rewrite is_class_decimal))
    as (q0 & q & Hrun & Hlast & Hat0 & _).
  { rewrite Hfuel, Hin. lengths. lia. }
  unfold bind at 1. rewrite Hrun.
  replace (hd EOF after =? chr ".") with false
    by (symmetry; now apply Z.eqb_neq).
  destruct (finish_at BZLA_DECIMAL_CONSTANT_TAG_SMT2 _ _ _ _ _ _ _
              Hat0 ltac:(lia) Hlast)
    as (p' & Hrun' & _ & Hs' & Hc' & Hat').
  exists p'. split; [exact Hrun'|]. split; [exact Hs'|]. split; [exact Hc'|].
  cbn [app] in Hat'. rewrite <- ?app_assoc in Hat'. exact Hat'.
Qed.

(** A real constant that does not start with [0]. *)
Lemma lex_real parser (bs : list blank) c (ds : list Z) c2 (frac after : list Z) :
  lexer_ok parser -> Forall blank_ok bs ->
  lexer_room (Z.of_nat (length (pending parser)) + 1) parser ->
  pending parser
  = concat (blank_chars <$> bs) ++ c :: ds ++ chr "." :: c2 :: frac ++ after ->
  isdigit c = true -> c <> chr "0" -> Forall (fun c => isdigit c = true) ds ->
  isdigit c2 = true -> Forall (fun c => isdigit c = true) frac ->
  isdigit (hd EOF after) = false ->
  exists p',
    read_token_smt2 parser = Some (BZLA_REAL_CONSTANT_TAG_SMT2, p')
    /\ saved p' = true /\ savedch p' = to_char (hd EOF after)
    /\ lexer_at (to_char (hd EOF after) :: tl after)
         (c :: ds ++ chr "." :: c2 :: frac ++ [0])
         (Z.of_nat (length after) + 1) parser p'.
Proof.
  intros Hok Hbs Hroom Hin Hc Hnz Hds Hc2 Hfrac Hend.
  pose proof (isdigit_range c Hc) as Hr. change (chr "0") with 48 in Hnz.
  pose proof (isdigit_range c2 Hc2) as Hr2.
  lex_first_char parser Hok Hroom Hin Hbs c bs
    (Z.of_nat (length ds)
     + (Z.of_nat (length frac) + Z.of_nat (length after) + 1 + 1) + 1)
    q1 Hat1 fuel Hfuel.
  nonzero_digit c Hc.
  destruct (pushch_at c _ _ _ _ _ Hat1 ltac:(unfold EOF; lia))
    as (q2 & Hrun2 & Hat2 & _).
  rewrite to_char_small in Hat2 by lia.
  unfold bind at 1. rewrite Hrun2.
  destruct (read_while_at _ ds fuel (chr "." :: c2 :: frac ++ after) _
              (Z.of_nat (length frac) + Z.of_nat (length after) + 1 + 1)
              parser q2
              Hat2 ltac:(lia) (digits_pass _ Hds) ltac:(reflexivity))
    as (q0 & q & Hrun & Hlast & Hat0 & _).
  { rewrite Hfuel, Hin. lengths. lia. }
  unfold bind at 1. rewrite Hrun. cbn [hd]. rewrite Z.eqb_refl.
  destruct (nextch_at_run _ _ _ _ _ _ _ Hat0 ltac:(lia) Hlast) as [_ Hat3].
  cbn [tl] in Hat3.
  destruct (pushch_at (chr ".") _ _ _ _ _ Hat3 ltac:(discriminate))
    as (q4 & Hrun4 & Hat4 & _).
  unfold bind at 1. rewrite Hrun4.
  destruct (nextch_at _ _ _ _ _ Hat4 ltac:(lia)) as (q5 & Hrun5 & Hat5 & _).
  unfold bind at 1. rewrite Hrun5. cbn [hd tl] in *.
  replace (c2 =? EOF) with false by (symmetry; apply Z.eqb_neq; unfold EOF; lia).
  rewrite is_class_decimal, Hc2. cbn [negb].
  destruct (fraction_at BZLA_REAL_CONSTANT_TAG_SMT2 c2 frac after _
              (Z.of_nat (length after)) parser q5 fuel Hat5 ltac:(lia)
              Hc2 Hfrac Hend)
    as (p' & Hrun' & Hs' & Hc' & Hat').
  { rewrite Hfuel, Hin. lengths. lia. }
  exists p'. split; [exact Hrun'|]. split; [exact Hs'|]. split; [exact Hc'|].
  cbn [app] in Hat'. rewrite <- ?app_assoc in Hat'. cbn [app] in Hat'. exact Hat'.
Qed.

(** Digits and a point without a digit after it. *)
Lemma lex_point parser (bs : list blank) c (ds after : list Z) :
  lexer_ok parser -> Forall blank_ok bs ->
  lexer_room (Z.of_nat (length (pending parser)) + 1) parser ->
  pending parser = concat (blank_chars <$> bs) ++ c :: ds ++ chr "." :: after ->
  isdigit c = true -> c <> chr "0" -> Forall (fun c => isdigit c = true) ds ->
  isdigit (hd EOF after) = false ->
  exists p',
    read_token_smt2 parser = Some (BZLA_INVALID_TAG_SMT2, p')
    /\ token p' = c :: ds ++ [chr "."; 0]
    /\ reports parser p'
         ((if hd EOF after =? EOF then "unexpected end-of-file after '"
           else "expected decimal digit after '")
          +:+ c_string (c :: ds ++ [chr "."; 0]) +:+ "'")
    /\ (error parser <> None -> error p' = error parser).
Proof.
  intros Hok Hbs Hroom Hin Hc Hnz Hds Hend.
  pose proof (isdigit_range c Hc) as Hr. change (chr "0") with 48 in Hnz.
  lex_first_char parser Hok Hroom Hin Hbs c bs
    (Z.of_nat (length ds) + (Z.of_nat (length after) + 1) + 1)
    q1 Hat1 fuel Hfuel.
  nonzero_digit c Hc.
  destruct (pushch_at c _ _ _ _ _ Hat1 ltac:(unfold EOF; lia))
    as (q2 & Hrun2 & Hat2 & _).
  rewrite to_char_small in Hat2 by lia.
  unfold bind at 1. rewrite Hrun2.
  destruct (read_while_at _ ds fuel (chr "." :: after) _
              (Z.of_nat (length after) + 1) parser q2
              Hat2 ltac:(lia) (digits_pass _ Hds) ltac:(reflexivity))
    as (q0 & q & Hrun & Hlast & Hat0 & _).
  { rewrite Hfuel, Hin. lengths. lia. }
  unfold bind at 1. rewrite Hrun. cbn [hd]. rewrite Z.eqb_refl.
  destruct (nextch_at_run _ _ _ _ _ _ _ Hat0 ltac:(lia) Hlast) as [_ Hat3].
  cbn [tl] in Hat3.
  destruct (pushch_at (chr ".") _ _ _ _ _ Hat3 ltac:(discriminate))
    as (q4 & Hrun4 & Hat4 & _).
  unfold bind at 1. rewrite Hrun4.
  destruct (nextch_at _ _ _ _ _ Hat4 ltac:(lia)) as (q5 & Hrun5 & Hat5 & _).
  unfold bind at 1. rewrite Hrun5.
  rewrite is_class_decimal, Hend. cbn [negb].
  destruct (pushch_at 0 _ _ _ _ _ Hat5 ltac:(discriminate))
    as (q6 & Hrun6 & Hat6 & _).
  change (to_char (chr ".")) with (chr ".") in Hat6.
  change (to_char 0) with 0 in Hat6.
  cbn [app] in Hat6. rewrite <- !app_assoc in Hat6. cbn [app] in Hat6.
  pose proof Hat6 as (_ & Htok6 & _).
  destruct (hd EOF after =? EOF).
  - destruct (perr_at ("unexpected end-of-file after '"
                       +:+ c_string (token q6) +:+ "'") _ _ _ _ _ Hat6)
      as (p' & Hrun' & Ht' & _ & Hrep & Hsame).
    exists p'. unfold bind at 1. rewrite Hrun6. unfold bind, get, ret.
    rewrite Hrun'. rewrite Htok6 in Hrep. repeat split; assumption.
  - destruct (perr_at ("expected decimal digit after '"
                       +:+ c_string (token q6) +:+ "'") _ _ _ _ _ Hat6)
      as (p' & Hrun' & Ht' & _ & Hrep & Hsame).
    exists p'. unfold bind at 1. rewrite Hrun6. unfold bind, get, ret.
    rewrite Hrun'. rewrite Htok6 in Hrep. repeat split; assumption.
Qed.


Lemma digits_span (l : list Z) :
  exists taken after,
    l = taken ++ after /\ Forall (fun c => isdigit c = true) taken
    /\ isdigit (hd EOF after) = false.
Proof.
  induction l as [|c l (taken & after & -> & Ht & Ha)].
  - exists [], []. repeat split; constructor.
  - destruct (isdigit c) eqn:Hc.
    + exists (c :: taken), after. repeat split; [now constructor|exact Ha].
    + exists [], (c :: taken ++ after). repeat split; [constructor|exact Hc].
Qed.

Lemma hd_cons (l : list Z) c : hd EOF l = c -> c <> EOF -> l = c :: tl l.
Proof. destruct l; cbn [hd tl]; congruence. Qed.

(** A digit at the front of the pending characters starts the token that
    the lexer returns next. *)
Lemma digit_starts_token parser d rest :
  lexer_ok parser ->
  lexer_room (Z.of_nat (length (pending parser)) + 1) parser ->
  pending parser = d :: rest -> isdigit d = true ->
  exists tag p' text,
    read_token_smt2 parser = Some (tag, p') /\ token p' = d :: text.
Proof.
  intros Hok Hroom Hin Hd.
  assert (Hbs : Forall blank_ok []) by constructor.
  assert (Hdigit : forall l, isdigit (hd EOF l) = true -> l = hd EOF l :: tl l).
  { intros l Hl. apply hd_cons; [reflexivity|].
    apply isdigit_range in Hl. unfold EOF in *. lia. }
  destruct (Z.eq_dec d (chr "0")) as [->|Hnz].
  - destruct (Z.eq_dec (hd EOF rest) (chr ".")) as [Hdot|Hdot].
    + rewrite (hd_cons rest _ Hdot ltac:(discriminate)) in Hin.
      destruct (isdigit (hd EOF (tl rest))) eqn:Hnext.
      * rewrite (Hdigit _ Hnext) in Hin.
        destruct (digits_span (tl (tl rest))) as (frac & after & E & Hfrac & Hend).
        rewrite E in Hin.
        destruct (lex_zero_real parser [] _ frac after Hok Hbs Hroom Hin
                    Hnext Hfrac Hend) as (p' & Hrun & _ & _ & _ & Htok & _).
        do 3 eexists. split; [exact Hrun|exact Htok].
      * destruct (lex_zero_point parser [] _ Hok Hbs Hroom Hin Hnext)
          as (p' & Hrun & Htok & _).
        do 3 eexists. split; [exact Hrun|exact Htok].
    + destruct (lex_zero parser [] rest Hok Hbs Hroom Hin Hdot)
        as (p' & Hrun & _ & _ & _ & Htok & _).
      do 3 eexists. split; [exact Hrun|exact Htok].
  - destruct (digits_span rest) as (ds & after & -> & Hds & Hend).
    destruct (Z.eq_dec (hd EOF after) (chr ".")) as [Hdot|Hdot].
    + rewrite (hd_cons after _ Hdot ltac:(discriminate)) in Hin.
      destruct (isdigit (hd EOF (tl after))) eqn:Hnext.
      * rewrite (Hdigit _ Hnext) in Hin.
        destruct (digits_span (tl (tl after))) as (frac & after' & E & Hfrac & Hend').
        rewrite E in Hin.
        destruct (lex_real parser [] d ds _ frac after' Hok Hbs Hroom Hin
                    Hd Hnz Hds Hnext Hfrac Hend')
          as (p' & Hrun & _ & _ & _ & Htok & _).
        do 3 eexists. split; [exact Hrun|exact Htok].
      * destruct (lex_point parser [] d ds _ Hok Hbs Hroom Hin Hd Hnz Hds Hnext)
          as (p' & Hrun & Htok & _).
        do 3 eexists. split; [exact Hrun|exact Htok].
    + destruct (lex_numeral parser [] d ds after Hok Hbs Hroom Hin
                  Hd Hnz Hds Hend Hdot)
        as (p' & Hrun & _ & _ & _ & Htok & _).
      do 3 eexists. split; [exact Hrun|exact Htok].
Qed.

(** What a state that the lexer has come to after a constant tells. *)
Lemma lexer_at_saved ch rest tok n (p0 q : BzlaSMT2Parser) :
  lexer_at (ch :: rest) tok n p0 q -> saved q = true ->
  token q = tok /\ error q = error p0 /\ q = lexed q p0
  /\ pending q = ch :: rest /\ unsaved q = rest /\ lexer_ok q.
Proof.
  intros Hat Hs. pose proof (lexer_at_error _ _ _ _ _ Hat) as Herr.
  destruct Hat as (Hin & Htok & Hok & _ & Hfr).
  split; [exact Htok|]. split; [exact Herr|]. split; [exact Hfr|].
  split; [exact Hin|]. split; [|exact Hok].
  unfold pending in Hin. rewrite Hs in Hin. cbn [app] in Hin. congruence.
Qed.

Lemma file_of_app (s1 s2 : string) :
  file_of (s1 +:+ s2) = file_of s1 ++ file_of s2.
Proof.
  unfold file_of. induction s1 as [|a s1 IH]; [reflexivity|].
  change (String a s1 +:+ s2) with (String a (s1 +:+ s2)).
  cbn [list_ascii_of_string fmap list_fmap app].
  f_equal. exact IH.
Qed.

Lemma decimal_digits (s : string) :
  decimal s -> Forall (fun c => isdigit c = true) (file_of s).
Proof.
  intros Hs. destruct (decimal_chars s Hs) as [_ Hc].
  revert Hc. apply Forall_impl. intros c [Hc _].
  now rewrite is_class_decimal in Hc.
Qed.

Lemma decimal_app (s1 s2 : string) :
  decimal s1 -> decimal s2 -> decimal (s1 +:+ s2).
Proof.
  unfold decimal. intros H1 H2.
  induction s1 as [|a s1 IH]; [exact H2|].
  change (String a s1 +:+ s2) with (String a (s1 +:+ s2)).
  cbn [list_ascii_of_string] in *.
  apply Forall_cons_1 in H1 as [Ha H1]. constructor; [exact Ha|now apply IH].
Qed.

(** The text of a token that holds the characters of [s] and the NUL that
    closes it. *)
Lemma c_string_file_of (s : string) (rest : list Z) :
  Forall (fun a => 0 < chr a < 128) (list_ascii_of_string s) ->
  c_string (file_of s ++ 0 :: rest) = s.
Proof.
  intros Hs. unfold file_of.
  rewrite <- (string_of_list_ascii_of_string s) at 2.
  rewrite <- (c_string_chars _ rest Hs). do 2 f_equal.
  induction Hs as [|a l Ha _ IH]; [reflexivity|].
  cbn [fmap list_fmap] in *. rewrite to_char_small by lia. f_equal. exact IH.
Qed.

Lemma point_chars (s1 s2 : string) :
  decimal s1 -> decimal s2 ->
  Forall (fun a => 0 < chr a < 128) (list_ascii_of_string (s1 +:+ "." +:+ s2)).
Proof.
  intros H1 H2.
  destruct (decimal_chars s1 H1) as [C1 _]. destruct (decimal_chars s2 H2) as [C2 _].
  induction s1 as [|a s1 IH].
  - change (EmptyString +:+ "." +:+ s2) with (String "." s2).
    cbn [list_ascii_of_string]. constructor; [vm_compute; split; reflexivity|].
    exact C2.
  - change (String a s1 +:+ "." +:+ s2) with (String a (s1 +:+ "." +:+ s2)).
    cbn [list_ascii_of_string] in *.
    apply Forall_cons_1 in C1 as [Ha C1]. unfold decimal in H1.
    cbn [list_ascii_of_string] in H1. apply Forall_cons_1 in H1 as [_ H1].
    constructor; [exact Ha|]. now apply IH.
Qed.


Lemma file_of_cons a (s : string) : file_of (String a s) = chr a :: file_of s.
Proof. reflexivity. Qed.

Lemma decimal_cons a (s : string) :
  isdigit (chr a) = true -> decimal s -> decimal (String a s).
Proof.
  intros Ha Hs. constructor; [|exact Hs].
  apply isdigit_range in Ha. unfold c_char.
  replace (chr a <? 128) with true by (symmetry; apply Z.ltb_lt; lia).
  unfold isdigit. apply andb_true_iff. split; apply Z.leb_le; lia.
Qed.

Lemma decimal_text (s : string) :
  decimal s -> Forall (fun a => 0 < chr a < 128) (list_ascii_of_string s).
Proof. intros Hs. now destruct (decimal_chars s Hs). Qed.

(** The conditions on a state of the lexer, as tests. *)
Lemma lexer_ok_by (parser : BzlaSMT2Parser) :
  match prefix parser with
  | Some pre => (0 <=? nprefix parser) && (Z.of_nat (length pre) <? 2 ^ 32)
  | None => true
  end
  && forallb (fun c => (- 128 <=? c) && (c <? 256)) (pending parser)
  && (1 <=? coo_x (nextcoo parser)) && (1 <=? coo_y (nextcoo parser)) = true ->
  lexer_ok parser.
Proof.
  intros Hb. apply andb_true_iff in Hb as [Hb Hy].
  apply andb_true_iff in Hb as [Hb Hx]. apply andb_true_iff in Hb as [Hp Hc].
  apply Z.leb_le in Hx, Hy.
  split; [|split; [|split; assumption]].
  - destruct (prefix parser); [|exact I].
    apply andb_true_iff in Hp as [H1 H2]. apply Z.leb_le in H1.
    apply Z.ltb_lt in H2. now split.
  - apply List.Forall_forall. intros c Hin.
    pose proof (proj1 (forallb_forall _ _) Hc c Hin) as Hr. cbn beta in Hr.
    apply andb_true_iff in Hr as [H1 H2]. apply Z.leb_le in H1.
    apply Z.ltb_lt in H2. now split.
Qed.

Lemma lexer_room_by n (parser : BzlaSMT2Parser) :
  (coo_x (nextcoo parser) + n <=? INT32_MAX)
  && (coo_y (nextcoo parser) + n <=? INT32_MAX) = true ->
  lexer_room n parser.
Proof.
  intros Hb. apply andb_true_iff in Hb as [Hx Hy].
  apply Z.leb_le in Hx, Hy. now split.
Qed.

(** C9. A leading [0] that a digit follows is no lexical error.  In every
    state of the lexer between two tokens (with or without a saved
    character, a prefix, or stored tokens), after any white space and
    comments:
    - when the next characters are [0] and a digit [d], [read_token_smt2]
      returns a decimal constant whose text is [0], reports no error and
      changes nothing but the fields of the lexer; [d] is then the saved
      character, and the token that the next call returns, whatever it
      is, starts with [d];
    - a digit other than [0], with the digits after it, is a decimal
      constant whose text is these digits, when the character after them
      (or the end of the input) is neither a digit nor a point;
    - digits (a single [0], or digits that do not start with [0]), a
      point and one or more digits are a real constant whose text is all
      of them;
    - when no digit follows the point, the lexer returns the invalid tag
      and reports that it expected a decimal digit (or, at the end of
      the input, the unexpected end-of-file) after the digits and the
      point. *)
Theorem leading_zero_is_a_numeral :
  (forall parser (bs : list blank) (d : Z) (rest : list Z),
     lexer_ok parser -> Forall blank_ok bs ->
     lexer_room (Z.of_nat (length (pending parser)) + 1) parser ->
     pending parser = concat (blank_chars <$> bs) ++ chr "0" :: d :: rest ->
     isdigit d = true ->
     exists p',
       read_token_smt2 parser = Some (BZLA_DECIMAL_CONSTANT_TAG_SMT2, p')
       /\ c_string (token p') = "0"
       /\ error p' = error parser /\ p' = lexed p' parser
       /\ saved p' = true /\ savedch p' = d /\ unsaved p' = rest
       /\ exists tag p'' text,
            read_token_smt2 p' = Some (tag, p'') /\ token p'' = d :: text)
  /\ (forall parser (bs : list blank) (a : ascii) (digits : string)
        (after : list Z),
        lexer_ok parser -> Forall blank_ok bs ->
        lexer_room (Z.of_nat (length (pending parser)) + 1) parser ->
        pending parser
        = concat (blank_chars <$> bs) ++ file_of (String a digits) ++ after ->
        isdigit (chr a) = true -> chr a <> chr "0" -> decimal digits ->
        isdigit (hd EOF after) = false -> hd EOF after <> chr "." ->
        exists p',
          read_token_smt2 parser = Some (BZLA_DECIMAL_CONSTANT_TAG_SMT2, p')
          /\ c_string (token p') = String a digits
          /\ error p' = error parser /\ p' = lexed p' parser
          /\ saved p' = true /\ savedch p' = to_char (hd EOF after)
          /\ unsaved p' = tl after)
  /\ (forall parser (bs : list blank) (a : ascii) (digits : string)
        (b : ascii) (frac : string) (after : list Z),
        lexer_ok parser -> Forall blank_ok bs ->
        lexer_room (Z.of_nat (length (pending parser)) + 1) parser ->
        pending parser
        = concat (blank_chars <$> bs) ++ file_of (String a digits)
          ++ chr "." :: file_of (String b frac) ++ after ->
        isdigit (chr a) = true -> chr a <> chr "0" \/ digits = EmptyString ->
        decimal digits ->
        isdigit (chr b) = true -> decimal frac ->
        isdigit (hd EOF after) = false ->
        exists p',
          read_token_smt2 parser = Some (BZLA_REAL_CONSTANT_TAG_SMT2, p')
          /\ c_string (token p') = String a digits +:+ "." +:+ String b frac
          /\ error p' = error parser /\ p' = lexed p' parser
          /\ saved p' = true /\ savedch p' = to_char (hd EOF after)
          /\ unsaved p' = tl after)
  /\ (forall parser (bs : list blank) (a : ascii) (digits : string)
        (after : list Z),
        lexer_ok parser -> Forall blank_ok bs ->
        lexer_room (Z.of_nat (length (pending parser)) + 1) parser ->
        pending parser
        = concat (blank_chars <$> bs) ++ file_of (String a digits)
          ++ chr "." :: after ->
        isdigit (chr a) = true -> chr a <> chr "0" \/ digits = EmptyString ->
        decimal digits ->
        isdigit (hd EOF after) = false ->
        exists p',
          read_token_smt2 parser = Some (BZLA_INVALID_TAG_SMT2, p')
          /\ c_string (token p') = String a digits +:+ "."
          /\ reports parser p'
               ((if hd EOF after =? EOF then "unexpected end-of-file after '"
                 else "expected decimal digit after '")
                +:+ String a digits +:+ "." +:+ "'")
          /\ (error parser <> None -> error p' = error parser)).
Proof.
  split; [|split; [|split]].
  - intros parser bs d rest Hok Hbs Hroom Hin Hd.
    pose proof (isdigit_range d Hd) as Hr.
    destruct (lex_zero parser bs (d :: rest) Hok Hbs Hroom Hin)
      as (p' & Hrun & Hs & Hc & Hat).
    { cbn [hd]. change (chr ".") with 46. lia. }
    cbn [hd tl] in Hc, Hat. rewrite to_char_small in Hc, Hat by lia.
    destruct (lexer_at_saved _ _ _ _ _ _ Hat Hs)
      as (Htok & Herr & Hfr & Hpend & Hun & Hok').
    exists p'. split; [exact Hrun|]. split; [now rewrite Htok|].
    split; [exact Herr|]. split; [exact Hfr|]. split; [exact Hs|].
    split; [exact Hc|]. split; [exact Hun|].
    apply (digit_starts_token p' d rest Hok'); [|exact Hpend|exact Hd].
    destruct Hat as (_ & _ & _ & Hroom' & _). rewrite Hpend. exact Hroom'.
  - intros parser bs a digits after Hok Hbs Hroom Hin Ha Hnz Hdigits Hend Hdot.
    rewrite file_of_cons in Hin. cbn [app] in Hin.
    destruct (lex_numeral parser bs (chr a) (file_of digits) after Hok Hbs Hroom
                Hin Ha Hnz (decimal_digits _ Hdigits) Hend Hdot)
      as (p' & Hrun & Hs & Hc & Hat).
    destruct (lexer_at_saved _ _ _ _ _ _ Hat Hs)
      as (Htok & Herr & Hfr & Hpend & Hun & Hok').
    exists p'. split; [exact Hrun|]. split.
    { rewrite Htok. change (chr a :: file_of digits ++ [0])
        with (file_of (String a digits) ++ [0]).
      apply c_string_file_of, decimal_text, decimal_cons; assumption. }
    repeat split; assumption.
  - intros parser bs a digits b frac after Hok Hbs Hroom Hin Ha Hnz Hdigits
      Hb Hfrac Hend.
    assert (Htext : forall rest,
              c_string (chr a :: file_of digits
                        ++ chr "." :: chr b :: file_of frac ++ 0 :: rest)
              = String a digits +:+ "." +:+ String b frac).
    { intros rest.
      rewrite <- (c_string_file_of (String a digits +:+ "." +:+ String b frac) rest)
        by (apply point_chars; apply decimal_cons; assumption).
      rewrite !file_of_app, !file_of_cons. cbn [app].
      rewrite <- !app_assoc. reflexivity. }
    rewrite !file_of_cons in Hin. cbn [app] in Hin.
    assert (exists p',
              read_token_smt2 parser = Some (BZLA_REAL_CONSTANT_TAG_SMT2, p')
              /\ saved p' = true /\ savedch p' = to_char (hd EOF after)
              /\ lexer_at (to_char (hd EOF after) :: tl after)
                   (chr a :: file_of digits
                    ++ chr "." :: chr b :: file_of frac ++ [0])
                   (Z.of_nat (length after) + 1) parser p')
      as (p' & Hrun & Hs & Hc & Hat).
    { destruct (Z.eq_dec (chr a) (chr "0")) as [Hz|Hz].
      - destruct Hnz as [Hnz| ->]; [contradiction|]. rewrite Hz in *.
        cbn [file_of list_ascii_of_string fmap list_fmap app] in Hin |- *.
        fold (file_of frac) in Hin |- *.
        apply (lex_zero_real parser bs (chr b) (file_of frac) after Hok Hbs
                 Hroom Hin Hb (decimal_digits _ Hfrac) Hend).
      - rewrite <- ?app_assoc in Hin. cbn [app] in Hin.
        apply (lex_real parser bs (chr a) (file_of digits) (chr b)
                 (file_of frac) after Hok Hbs Hroom Hin Ha Hz
                 (decimal_digits _ Hdigits) Hb (decimal_digits _ Hfrac) Hend). }
    destruct (lexer_at_saved _ _ _ _ _ _ Hat Hs)
      as (Htok & Herr & Hfr & Hpend & Hun & Hok').
    exists p'. split; [exact Hrun|]. split.
    { rewrite Htok. apply (Htext []). }
    repeat split; assumption.
  - intros parser bs a digits after Hok Hbs Hroom Hin Ha Hnz Hdigits Hend.
    assert (Htext : forall rest,
              c_string (chr a :: file_of digits ++ chr "." :: 0 :: rest)
              = String a digits +:+ ".").
    { intros rest.
      rewrite <- (c_string_file_of (String a digits +:+ ".") rest).
      - rewrite file_of_app, file_of_cons. cbn [app].
        rewrite <- app_assoc. reflexivity.
      - assert (Hp : Forall (fun a => 0 < chr a < 128)
                       (list_ascii_of_string (String a digits +:+ "." +:+ "0")))
          by (apply point_chars; [now apply decimal_cons|];
              constructor; [reflexivity|constructor]).
        clear - Hp. revert Hp. generalize (String a digits). intros s.
        induction s as [|c s IH].
        + intros _. constructor; [vm_compute; split; reflexivity|constructor].
        + change (String c s +:+ "." +:+ "0") with (String c (s +:+ "." +:+ "0")).
          change (String c s +:+ ".") with (String c (s +:+ ".")).
          cbn [list_ascii_of_string]. intros Hp.
          apply Forall_cons_1 in Hp as [Hc Hp]. constructor; [exact Hc|].
          now apply IH. }
    rewrite file_of_cons in Hin. cbn [app] in Hin.
    destruct (Z.eq_dec (chr a) (chr "0")) as [Hz|Hz].
    + destruct Hnz as [Hnz| ->]; [contradiction|]. rewrite Hz in *.
      cbn [file_of list_ascii_of_string fmap list_fmap app] in Hin.
      destruct (lex_zero_point parser bs after Hok Hbs Hroom Hin Hend)
        as (p' & Hrun & Htok & Hrep & Hsame).
      exists p'. split; [exact Hrun|].
      assert (Ea : a = "0"%char).
      { apply (f_equal (fun z => ascii_of_N (Z.to_N z))) in Hz.
        unfold chr in Hz at 1. rewrite N2Z.id, ascii_N_embedding in Hz.
        exact Hz. }
      subst a. split; [rewrite Htok; reflexivity|].
      split; [|exact Hsame].
      destruct (hd EOF after =? EOF); exact Hrep.
    + rewrite <- ?app_assoc in Hin. cbn [app] in Hin.
      destruct (lex_point parser bs (chr a) (file_of digits) after Hok Hbs Hroom
                  Hin Ha Hz (decimal_digits _ Hdigits) Hend)
        as (p' & Hrun & Htok & Hrep & Hsame).
      exists p'. split; [exact Hrun|].
      split; [rewrite Htok; apply (Htext [])|].
      split; [|exact Hsame].
      rewrite (Htext []) in Hrep.
      rewrite append_assoc in Hrep. exact Hrep.
Qed.

End LexerStates.

(** In a state with a saved blank, a prefix with one character left and
    stored tokens: [07] is the constant [0] and then a token that starts
    with [7]; [42] is a decimal constant, [0.5] a real constant, and [3.]
    before a parenthesis an error. *)
Lemma leading_zero_is_a_numeral_witness :
  (exists p',
     read_token_smt2 (lexer_after_one "0" "7)")
     = Some (BZLA_DECIMAL_CONSTANT_TAG_SMT2, p')
     /\ c_string (token p') = "0"
     /\ error p' = error (lexer_after_one "0" "7)")
     /\ saved p' = true /\ savedch p' = chr "7" /\ unsaved p' = [chr ")"]
     /\ exists tag p'' text,
          read_token_smt2 p' = Some (tag, p'') /\ token p'' = chr "7" :: text)
  /\ (exists p',
        read_token_smt2 (lexer_after_one "4" "2)")
        = Some (BZLA_DECIMAL_CONSTANT_TAG_SMT2, p')
        /\ c_string (token p') = "42"
        /\ error p' = error (lexer_after_one "4" "2)")
        /\ saved p' = true /\ savedch p' = chr ")" /\ unsaved p' = [])
  /\ (exists p',
        read_token_smt2 (lexer_after_one "0" ".5)")
        = Some (BZLA_REAL_CONSTANT_TAG_SMT2, p')
        /\ c_string (token p') = "0.5"
        /\ error p' = error (lexer_after_one "0" ".5)")
        /\ saved p' = true /\ savedch p' = chr ")" /\ unsaved p' = [])
  /\ (exists p',
        read_token_smt2 (lexer_after_one "3" ".)")
        = Some (BZLA_INVALID_TAG_SMT2, p')
        /\ c_string (token p') = "3."
        /\ err_msg <$> error p' = Some "expected decimal digit after '3.'").
Proof.
  destruct (@leading_zero_is_a_numeral term_backend) as (Hzero & Hdec & Hreal & Hpoint).
  split; [|split; [|split]].
  - destruct (Hzero (lexer_after_one "0" "7)") [Space (chr " ")] (chr "7") [chr ")"])
      as (p' & Hrun & Htext & Herr & _ & Hs & Hc & Hun & Hnext).
    + apply lexer_ok_by. vm_compute. reflexivity.
    + repeat constructor.
    + apply lexer_room_by. vm_compute. reflexivity.
    + vm_compute. reflexivity.
    + reflexivity.
    + exists p'. repeat split; assumption.
  - destruct (Hdec (lexer_after_one "4" "2)") [Space (chr " ")] "4"%char "2"%string
                [chr ")"])
      as (p' & Hrun & Htext & Herr & _ & Hs & Hc & Hun).
    + apply lexer_ok_by. vm_compute. reflexivity.
    + repeat constructor.
    + apply lexer_room_by. vm_compute. reflexivity.
    + vm_compute. reflexivity.
    + reflexivity.
    + discriminate.
    + repeat constructor.
    + reflexivity.
    + discriminate.
    + exists p'. repeat split; assumption.
  - destruct (Hreal (lexer_after_one "0" ".5)") [Space (chr " ")] "0"%char
                EmptyString "5"%char EmptyString [chr ")"])
      as (p' & Hrun & Htext & Herr & _ & Hs & Hc & Hun).
    + apply lexer_ok_by. vm_compute. reflexivity.
    + repeat constructor.
    + apply lexer_room_by. vm_compute. reflexivity.
    + vm_compute. reflexivity.
    + reflexivity.
    + right. reflexivity.
    + constructor.
    + reflexivity.
    + constructor.
    + reflexivity.
    + exists p'. repeat split; assumption.
  - destruct (Hpoint (lexer_after_one "3" ".)") [Space (chr " ")] "3"%char
                EmptyString [chr ")"])
      as (p' & Hrun & Htext & Hrep & _).
    + apply lexer_ok_by. vm_compute. reflexivity.
    + repeat constructor.
    + apply lexer_room_by. vm_compute. reflexivity.
    + vm_compute. reflexivity.
    + reflexivity.
    + left. discriminate.
    + constructor.
    + reflexivity.
    + exists p'. split; [exact Hrun|]. split; [exact Htext|].
      apply Hrep. vm_compute. reflexivity.
Defined.
